(** * Fetch-Browser: response normalisation, result extraction and retry policy

    A shallow embedding of the TypeScript sources of the Fetch-Browser MCP
    server and the properties its design document states about them.

    Three source files are embedded:
    - [UrlFetcherV1]: [src/url-fetcher.ts], the JSDOM based fetcher;
    - [UrlFetcher]: the later revision of [url-fetcher.ts] (happy-dom based,
      exporting [fetchUrl] and [fetchUrlWithParams]);
    - [GoogleSearch]: [google-search.ts], the deep search tool built on
      [fetchUrl].

    JavaScript strings are sequences of UTF-16 code units, the network is an
    oracle indexed by the order in which requests are issued, and the effects
    of the code (requests, timers used as sleeps, body reads, the construction
    of a document, file writes, the console output of [fetchUrl] and of the
    later [extractGoogleResults]) are recorded in a trace.  The DOM library, [JSON.parse] and zod's error text are
    parameters: every property holds whatever they compute.  The fetch paths
    take the conversion to markdown as a parameter too; [htmlToMarkdown]
    itself is embedded after them, with the regular expressions it is made
    of. *)

From Stdlib Require Import String Ascii List NArith ZArith Bool Lia.
Import ListNotations.

Set Implicit Arguments.
Set Warnings "-register-all".

(* ================================================================= *)
(** ** JavaScript strings *)

(** A string is its sequence of UTF-16 code units. *)
Definition jsstring := list N.

Definition lit (s : string) : jsstring :=
  map N_of_ascii (list_ascii_of_string s).
Arguments lit s%_string.

(** Characters that cannot be written inside a literal here. *)
Definition dq : jsstring := [34%N].   (* the double quote *)
Definition nl : jsstring := [10%N].   (* line feed *)

Fixpoint str_eqb (a b : jsstring) : bool :=
  match a, b with
  | [], [] => true
  | x :: a', y :: b' => N.eqb x y && str_eqb a' b'
  | _, _ => false
  end.

(** [s.startsWith(p)] *)
Fixpoint startsWith (s p : jsstring) : bool :=
  match p, s with
  | [], _ => true
  | y :: p', x :: s' => N.eqb x y && startsWith s' p'
  | _ :: _, [] => false
  end.

(** [s.includes(p)] *)
Fixpoint includes (s p : jsstring) : bool :=
  startsWith s p ||
  match s with
  | [] => false
  | _ :: s' => includes s' p
  end.

(** [xs.join(sep)] on an array of strings. *)
Fixpoint join (sep : jsstring) (xs : list jsstring) : jsstring :=
  match xs with
  | [] => []
  | [x] => x
  | x :: rest => x ++ sep ++ join sep rest
  end.

(** White space and line terminators, the characters [String.prototype.trim]
    removes (ECMAScript [WhiteSpace] and [LineTerminator]). *)
Definition isWhiteSpace (c : N) : bool :=
  ((9 <=? c) && (c <=? 13) || (c =? 32) || (c =? 160) || (c =? 5760)
   || (8192 <=? c) && (c <=? 8202) || (c =? 8232) || (c =? 8233)
   || (c =? 8239) || (c =? 8287) || (c =? 12288) || (c =? 65279))%N.

Fixpoint trimStart (s : jsstring) : jsstring :=
  match s with
  | [] => []
  | c :: s' => if isWhiteSpace c then trimStart s' else s
  end.

Definition trimEnd (s : jsstring) : jsstring := rev (trimStart (rev s)).

Definition trim (s : jsstring) : jsstring := trimEnd (trimStart s).

(** Truthiness of a string, and of a value that is a string or null. *)
Definition truthy (s : jsstring) : bool :=
  match s with [] => false | _ :: _ => true end.

Definition truthy_opt (o : option jsstring) : bool :=
  match o with Some s => truthy s | None => false end.

(** [a || b] on strings, and on a string-or-null. *)
Definition orElse (a b : jsstring) : jsstring := if truthy a then a else b.

Definition orElse_opt (a : option jsstring) (b : jsstring) : jsstring :=
  match a with Some s => orElse s b | None => b end.

(* ----------------------------------------------------------------- *)
(** *** Numbers in strings *)

(** Decimal rendering of a natural number, as a template literal prints an
    integer valued number.  The numbers the sources print are status codes,
    lengths, indices and counts, and the validated [timeout] and
    [maxResults]; an [N] stands for a number that is a non-negative safe
    integer.  (From 1e21 on a template literal prints a number in exponent
    form, and above 2^53 not every integer is a number.) *)
Fixpoint digits_acc (fuel : nat) (n : N) (acc : jsstring) : jsstring :=
  let acc' := (48 + n mod 10)%N :: acc in
  match fuel with
  | O => acc'
  | S fuel' => if (n <? 10)%N then acc' else digits_acc fuel' (n / 10)%N acc'
  end.

Definition Number_toString (n : N) : jsstring :=
  digits_acc (N.to_nat (N.log2 n)) n [].

(** [Number.isSafeInteger] of a non-negative integer: at most 2^53 - 1. *)
Definition isSafeInteger (n : N) : bool := (n <=? 9007199254740991)%N.

Definition digitValue (radix c : N) : option N :=
  let v :=
    if (48 <=? c)%N && (c <=? 57)%N then Some (c - 48)%N
    else if (97 <=? c)%N && (c <=? 122)%N then Some (c - 87)%N
    else if (65 <=? c)%N && (c <=? 90)%N then Some (c - 55)%N
    else None in
  match v with
  | Some d => if (d <? radix)%N then Some d else None
  | None => None
  end.

(** The value of the longest prefix of [s] made of digits of [radix];
    [None] when that prefix is empty. *)
Fixpoint digitsPrefix (radix : N) (s : jsstring) (acc : option N) : option N :=
  match s with
  | [] => acc
  | c :: s' =>
      match digitValue radix c with
      | Some d =>
          digitsPrefix radix s'
            (Some (match acc with Some a => a * radix + d | None => d end)%N)
      | None => acc
      end
  end.

(** [parseInt(s)] with no radix argument; [None] is NaN.  The result is kept
    as an exact integer: the only use the code makes of it is the comparison
    with [MAX_RESPONSE_SIZE], which rounding to a double does not change. *)
Definition parseInt (s : jsstring) : option Z :=
  let s1 := trimStart s in
  let '(neg, s2) :=
    match s1 with
    | 45%N :: r => (true, r)
    | 43%N :: r => (false, r)
    | _ => (false, s1)
    end in
  let '(radix, s3) :=
    match s2 with
    | 48%N :: 120%N :: r => (16%N, r)
    | 48%N :: 88%N :: r => (16%N, r)
    | _ => (10%N, s2)
    end in
  match digitsPrefix radix s3 None with
  | Some v => Some (if neg then (- Z.of_N v)%Z else Z.of_N v)
  | None => None
  end.

(* ================================================================= *)
(** ** Exceptions, effects and the network *)

(** A thrown value: an [Error] object with its [name] and [message], or any
    other value. *)
Inductive Exn : Type :=
| JSError (name message : jsstring)
| NonError.

(** [new Error(msg)] *)
Definition Error_ (msg : jsstring) : Exn := JSError (lit "Error") msg.

(** What [fetch] rejects with when the [AbortController] fires. *)
Definition AbortError : Exn :=
  JSError (lit "AbortError") (lit "This operation was aborted").

(** [error instanceof Error ? error.message : 'Unknown error'] *)
Definition messageOf (e : Exn) : jsstring :=
  match e with
  | JSError _ m => m
  | NonError => lit "Unknown error"
  end.

Record Response : Type := mkResponse {
  status : N;
  statusText : jsstring;
  headers : list (jsstring * jsstring);   (* names in lower case *)
  body : jsstring
}.

(** [response.ok] *)
Definition ok (r : Response) : bool := (200 <=? status r)%N && (status r <=? 299)%N.

(** [headers.get(name)]: the value, or null. *)
Fixpoint headers_get (hs : list (jsstring * jsstring)) (name : jsstring)
  : option jsstring :=
  match hs with
  | [] => None
  | (k, v) :: hs' => if str_eqb k name then Some v else headers_get hs' name
  end.

(** The outcome of one [fetch] call: a response (of any status), or a
    rejection (a network failure, or [AbortError] when the timeout fired
    first). *)
Inductive NetOutcome : Type :=
| Responded (r : Response)
| Rejected (e : Exn).

(** Effects, in the order the code performs them. *)
Inductive Event : Type :=
| EvFetch (url : jsstring) (hdrs : list (jsstring * jsstring))
| EvSleep (ms : N)
| EvReadBody
| EvParseHTML (html : jsstring)
| EvWriteFile (path data : jsstring)
| EvConsoleLog (msg : jsstring).

(** The world: the network oracle, answering the [n]-th request issued by the
    call for a given URL, the number of requests issued so far and the trace
    of effects so far. *)
Record World : Type := mkWorld {
  net : nat -> jsstring -> NetOutcome;
  issued : nat;
  trace : list Event
}.

(** Computations that may throw and that act on the world. *)
Definition M (A : Type) : Type := World -> (Exn + A) * World.

Definition ret {A} (a : A) : M A := fun w => (inr a, w).

Definition throw {A} (e : Exn) : M A := fun w => (inl e, w).

Definition bind {A B} (m : M A) (k : A -> M B) : M B :=
  fun w =>
    match m w with
    | (inr a, w') => k a w'
    | (inl e, w') => (inl e, w')
    end.

(** [try { m } catch (error) { h error }] *)
Definition try_catch {A} (m : M A) (h : Exn -> M A) : M A :=
  fun w =>
    match m w with
    | (inr a, w') => (inr a, w')
    | (inl e, w') => h e w'
    end.

Declare Scope js_scope.
Delimit Scope js_scope with js.
Notation "x <- m ;; k" := (bind m (fun x => k))
  (at level 100, m at next level, right associativity) : js_scope.
Notation "m ;;; k" := (bind m (fun _ => k))
  (at level 100, right associativity) : js_scope.
Open Scope js_scope.

Definition emit (e : Event) : M unit :=
  fun w => (inr tt, mkWorld (net w) (issued w) (trace w ++ [e])).

(** [await fetch(url, { headers })] *)
Definition fetch (url : jsstring) (hdrs : list (jsstring * jsstring)) : M Response :=
  fun w =>
    let w' := mkWorld (net w) (S (issued w)) (trace w ++ [EvFetch url hdrs]) in
    match net w (issued w) url with
    | Responded r => (inr r, w')
    | Rejected e => (inl e, w')
    end.

(** [await new Promise(resolve => setTimeout(resolve, ms))] *)
Definition sleep (ms : N) : M unit := emit (EvSleep ms).

(** [await response.text()] *)
Definition text (r : Response) : M jsstring := emit EvReadBody ;;; ret (body r).

Definition writeFileSync (path data : jsstring) : M unit := emit (EvWriteFile path data).

Definition console_log (msg : jsstring) : M unit := emit (EvConsoleLog msg).

(** A world in which nothing has happened yet. *)
Definition initial (oracle : nat -> jsstring -> NetOutcome) : World :=
  mkWorld oracle 0 [].

(** The sleeps of a trace, in order. *)
Definition sleeps (t : list Event) : list N :=
  flat_map (fun e => match e with EvSleep ms => [ms] | _ => [] end) t.

(** The number of requests in a trace. *)
Definition requests (t : list Event) : nat :=
  length (filter (fun e => match e with EvFetch _ _ => true | _ => false end) t).

Definition bodyRead (t : list Event) : bool :=
  existsb (fun e => match e with EvReadBody => true | _ => false end) t.

Definition parsedHTML (t : list Event) : bool :=
  existsb (fun e => match e with EvParseHTML _ => true | _ => false end) t.

Definition fileWrites (t : list Event) : list (jsstring * jsstring) :=
  flat_map (fun e => match e with EvWriteFile p d => [(p, d)] | _ => [] end) t.

(* ================================================================= *)
(** ** JSON values and [JSON.stringify(v, null, 2)] *)

(** A number is kept as its canonical rendering, the text [JSON.stringify]
    prints for it. *)
Inductive JSON : Type :=
| JNull
| JBool (b : bool)
| JNum (rendering : jsstring)
| JStr (s : jsstring)
| JArr (items : list JSON)
| JObj (props : list (jsstring * JSON)).

Definition hexDigit (d : N) : N := if (d <? 10)%N then (48 + d)%N else (87 + d)%N.

(** [\uXXXX], lower case. *)
Definition unicodeEscape (c : N) : jsstring :=
  lit "\u" ++ [hexDigit (c / 4096 mod 16); hexDigit (c / 256 mod 16);
               hexDigit (c / 16 mod 16); hexDigit (c mod 16)]%N.

Definition isHighSurrogate (c : N) : bool := (55296 <=? c)%N && (c <=? 56319)%N.
Definition isLowSurrogate (c : N) : bool := (56320 <=? c)%N && (c <=? 57343)%N.

(** The body of [QuoteJSONString]; [prevHigh] says that the previous code
    unit was a high surrogate that this one may complete. *)
Fixpoint quoteChars (prevHigh : bool) (s : jsstring) : jsstring :=
  match s with
  | [] => []
  | c :: s' =>
      if (c =? 8)%N then lit "\b" ++ quoteChars false s'
      else if (c =? 9)%N then lit "\t" ++ quoteChars false s'
      else if (c =? 10)%N then lit "\n" ++ quoteChars false s'
      else if (c =? 12)%N then lit "\f" ++ quoteChars false s'
      else if (c =? 13)%N then lit "\r" ++ quoteChars false s'
      else if (c =? 34)%N then lit "\" ++ dq ++ quoteChars false s'
      else if (c =? 92)%N then lit "\\" ++ quoteChars false s'
      else if (c <? 32)%N then unicodeEscape c ++ quoteChars false s'
      else if isHighSurrogate c then
        match s' with
        | d :: _ => if isLowSurrogate d then c :: quoteChars true s'
                    else unicodeEscape c ++ quoteChars false s'
        | [] => unicodeEscape c
        end
      else if isLowSurrogate c then
        (if prevHigh then [c] else unicodeEscape c) ++ quoteChars false s'
      else c :: quoteChars false s'
  end.

Definition quote (s : jsstring) : jsstring := dq ++ quoteChars false s ++ dq.

Definition gap : jsstring := lit "  ".

(** [SerializeJSONProperty] with the indentation reached so far. *)
Fixpoint serialize (indent : jsstring) (v : JSON) : jsstring :=
  let stepback := indent in
  let indent := indent ++ gap in
  let separator := lit "," ++ nl ++ indent in
  match v with
  | JNull => lit "null"
  | JBool true => lit "true"
  | JBool false => lit "false"
  | JNum r => r
  | JStr s => quote s
  | JArr [] => lit "[]"
  | JArr items =>
      lit "[" ++ nl ++ indent ++ join separator (map (serialize indent) items)
      ++ nl ++ stepback ++ lit "]"
  | JObj [] => lit "{}"
  | JObj props =>
      lit "{" ++ nl ++ indent
      ++ join separator
           (map (fun kv => quote (fst kv) ++ lit ": " ++ serialize indent (snd kv)) props)
      ++ nl ++ stepback ++ lit "}"
  end.

Definition JSON_stringify (v : JSON) : jsstring := serialize [] v.

(* ================================================================= *)
(** ** Documents *)

(** The tree the DOM library (JSDOM, happy-dom) builds from the HTML text.
    Tag and attribute names are as the HTML parser stores them, in lower
    case, and an element keeps the first of two attributes of one name. *)
Inductive Node : Type :=
| Element (tag : jsstring) (attrs : list (jsstring * jsstring)) (children : list Node)
| TextNode (data : jsstring)
| Comment (data : jsstring).

(** The document as the code reads it: whether it is in quirks mode (JSDOM
    puts a page without a doctype in that mode, and class selectors then
    match whatever the case of ASCII letters), the text of
    [document.body.innerHTML], and the children of the document node. *)
Record Document : Type := mkDocument {
  quirksMode : bool;
  bodyInnerHTML : jsstring;
  documentNodes : list Node
}.

(** An element as the code holds it: with the siblings that follow it, which
    [nextElementSibling] looks at, and the mode of its document. *)
Record Elt : Type := mkElt {
  tagName : jsstring;
  attributes : list (jsstring * jsstring);
  childNodes : list Node;
  following : list Node;
  inQuirksMode : bool
}.

(** The elements below a node, the node itself first, in document order. *)
Fixpoint elementsAt (quirks : bool) (n : Node) (sibs : list Node) : list Elt :=
  match n with
  | Element t a cs =>
      mkElt t a cs sibs quirks ::
      (fix walk (l : list Node) : list Elt :=
         match l with
         | [] => []
         | c :: r => elementsAt quirks c r ++ walk r
         end) cs
  | TextNode _ | Comment _ => []
  end.

Fixpoint elementsOf (quirks : bool) (l : list Node) : list Elt :=
  match l with
  | [] => []
  | c :: r => elementsAt quirks c r ++ elementsOf quirks r
  end.

Fixpoint textOf (n : Node) : jsstring :=
  match n with
  | Element _ _ cs => flat_map textOf cs
  | TextNode d => d
  | Comment _ => []
  end.

(** [element.textContent] *)
Definition textContent (e : Elt) : jsstring := flat_map textOf (childNodes e).

(** [element.getAttribute(name)]: the value, or null. *)
Definition getAttribute (e : Elt) (name : jsstring) : option jsstring :=
  headers_get (attributes e) name.

(** [element.nextElementSibling] *)
Fixpoint nextElement (quirks : bool) (l : list Node) : option Elt :=
  match l with
  | [] => None
  | Element t a cs :: r => Some (mkElt t a cs r quirks)
  | _ :: r => nextElement quirks r
  end.

Definition nextElementSibling (e : Elt) : option Elt :=
  nextElement (inQuirksMode e) (following e).

(** The selectors the code uses: a list of alternatives, each a conjunction
    of simple tests. *)
Inductive Simple : Type :=
| Tag (t : jsstring)                 (* [h3] *)
| Class (c : jsstring)               (* [.g] *)
| HasAttr (a : jsstring)             (* [[data-news-cluster-id]] *)
| AttrEq (a v : jsstring).           (* [[role="heading"]] *)

Definition Selector := list (list Simple).

Definition isAsciiSpace (c : N) : bool :=
  ((c =? 9) || (c =? 10) || (c =? 12) || (c =? 13) || (c =? 32))%N.

(** The tokens of a [class] attribute; [cur] is the token being read,
    reversed. *)
Fixpoint tokens (s : jsstring) (cur : jsstring) : list jsstring :=
  match s with
  | [] => match cur with [] => [] | _ => [rev cur] end
  | c :: s' =>
      if isAsciiSpace c
      then match cur with [] => tokens s' [] | _ => rev cur :: tokens s' [] end
      else tokens s' (c :: cur)
  end.

Definition classList (e : Elt) : list jsstring :=
  match getAttribute e (lit "class") with
  | Some v => tokens v []
  | None => []
  end.

(** ASCII case-insensitive comparison. *)
Definition asciiLower (c : N) : N := if ((65 <=? c) && (c <=? 90))%N then (c + 32)%N else c.

Definition str_eqb_ci (a b : jsstring) : bool :=
  str_eqb (map asciiLower a) (map asciiLower b).

(** A class name against a token of the [class] attribute: the same text,
    or in quirks mode the same text up to the case of ASCII letters. *)
Definition sameClass (quirks : bool) (token name : jsstring) : bool :=
  if quirks then str_eqb_ci token name else str_eqb token name.

Definition matchesSimple (e : Elt) (s : Simple) : bool :=
  match s with
  | Tag t => str_eqb (tagName e) t
  | Class c => existsb (fun k => sameClass (inQuirksMode e) k c) (classList e)
  | HasAttr a => match getAttribute e a with Some _ => true | None => false end
  | AttrEq a v => match getAttribute e a with Some x => str_eqb x v | None => false end
  end.

Definition matches (e : Elt) (sel : Selector) : bool :=
  existsb (fun compound => forallb (matchesSimple e) compound) sel.

(** [document.querySelectorAll(sel)] *)
Definition querySelectorAll (doc : Document) (sel : Selector) : list Elt :=
  filter (fun e => matches e sel) (elementsOf (quirksMode doc) (documentNodes doc)).

(** [element.querySelector(sel)]: the first matching descendant, or null. *)
Definition querySelector (e : Elt) (sel : Selector) : option Elt :=
  find (fun d => matches d sel) (elementsOf (inQuirksMode e) (childNodes e)).

Definition sel_div_g : Selector := [[Tag (lit "div"); Class (lit "g")]].
Definition sel_g : Selector := [[Class (lit "g")]].
Definition sel_tF2Cxc : Selector := [[Class (lit "tF2Cxc")]].
Definition sel_div_tF2Cxc : Selector := [[Tag (lit "div"); Class (lit "tF2Cxc")]].
Definition sel_h3 : Selector := [[Tag (lit "h3")]].
Definition sel_a : Selector := [[Tag (lit "a")]].
Definition sel_snippet : Selector := [[Class (lit "VwiC3b")]].
Definition sel_snippet_or_s : Selector := [[Class (lit "VwiC3b")]; [Class (lit "s")]].
Definition sel_news : Selector := [[HasAttr (lit "data-news-cluster-id")]].
Definition sel_heading : Selector := [[AttrEq (lit "role") (lit "heading")]].

(* ================================================================= *)
(** ** What both revisions of [url-fetcher.ts] share *)

Definition MAX_RETRIES : nat := 3.
Definition INITIAL_RETRY_DELAY : N := 1000.
Definition MAX_RESPONSE_SIZE : Z := 10 * 1024 * 1024.
Definition DEFAULT_TIMEOUT : N := 30000.
Definition GOOGLE_SEARCH_URL : jsstring := lit "https://www.google.com/search".
Definition MAX_SEARCH_RESULTS : nat := 5.

Inductive ResponseType : Type := Text | Json | Html | Markdown.

Definition responseTypeName (t : ResponseType) : jsstring :=
  match t with
  | Text => lit "text"
  | Json => lit "json"
  | Html => lit "html"
  | Markdown => lit "markdown"
  end.

(** A parsed URL: the fields of the [URL] object the code reads. *)
Record URL : Type := mkURL {
  href : jsstring;       (* [url.toString()] *)
  origin : jsstring;
  pathname : jsstring
}.

(** The validated arguments of the [fetch_url] tool. *)
Record FetchParams : Type := mkFetchParams {
  p_url : URL;
  p_responseType : ResponseType;
  p_timeout : N
}.

Record SearchResult : Type := mkSearchResult {
  title : jsstring;
  url : jsstring;
  description : option jsstring     (* [None] is undefined *)
}.

(** A result object; an undefined [description] is left out, as
    [JSON.stringify] does. *)
Definition resultToJSON (r : SearchResult) : JSON :=
  JObj ([(lit "title", JStr (title r)); (lit "url", JStr (url r))]
        ++ match description r with
           | Some d => [(lit "description", JStr d)]
           | None => []
           end).

(** Helper function for exponential backoff. *)
Definition getRetryDelay (attempt : nat) : N :=
  (INITIAL_RETRY_DELAY * 2 ^ N.of_nat attempt)%N.

(** [a > b] on numbers, false when [a] is NaN. *)
Definition gtNumber (a : option Z) (b : Z) : bool :=
  match a with
  | Some x => (b <? x)%Z
  | None => false
  end.

(** The [mimeType] the tools attach to their text. *)
Definition mimeTypeOf (t : ResponseType) : jsstring :=
  match t with
  | Json => lit "application/json"
  | Markdown => lit "text/markdown"
  | Html => lit "text/html"
  | Text => lit "text/plain"
  end.

Record ContentItem : Type := mkContent {
  c_type : jsstring;
  c_text : jsstring;
  c_mimeType : option jsstring
}.

(** What a tool callback returns; [isError] is absent from a success. *)
Record ToolResult (Meta : Type) : Type := mkToolResult {
  content : list ContentItem;
  metadata : option Meta;
  isError : bool
}.

Definition errorResult {Meta} (msg : jsstring) : ToolResult Meta :=
  mkToolResult [mkContent (lit "text") msg None] None true.

Record FetchMetadata : Type := mkFetchMetadata {
  m_url : jsstring;
  m_contentType : option jsstring;
  m_contentLength : option jsstring;
  m_isGoogleSearch : bool;
  m_responseType : ResponseType
}.

(** [url.origin + url.pathname === GOOGLE_SEARCH_URL] *)
Definition isGoogleSearch (u : URL) : bool :=
  str_eqb (origin u ++ pathname u) GOOGLE_SEARCH_URL.

(** The callback of the [fetch_url] tool.  Its text is the same in both
    revisions but for the request headers and the [processResponse] it
    calls, which are the parameters here.  The abort timer is not an event
    of its own: the oracle decides whether a request ends in [AbortError]. *)
Section FetchUrlTool.

Variable requestHeaders : FetchParams -> list (jsstring * jsstring).
Variable processResponse : Response -> ResponseType -> URL -> M jsstring.

(** How one pass through the loop body ends. *)
Inductive Step : Type :=
| Return (r : ToolResult FetchMetadata)
| Continue.

Definition tryBlock (params : FetchParams) (attempt : nat) : M Step :=
  response <- fetch (href (p_url params)) (requestHeaders params) ;;
  if negb (ok response) then
    if (status response =? 429)%N then
      if Nat.eqb attempt (MAX_RETRIES - 1) then
        ret (Return (errorResult (lit "Rate limit exceeded. Please try again later.")))
      else
        sleep (getRetryDelay attempt) ;;;
        ret Continue
    else
      ret (Return (errorResult
        (lit "HTTP " ++ Number_toString (status response) ++ lit ": "
         ++ statusText response)))
  else
    processedContent <-
      processResponse response (p_responseType params) (p_url params) ;;
    ret (Return (mkToolResult
      [mkContent (lit "text") processedContent
         (Some (mimeTypeOf (p_responseType params)))]
      (Some (mkFetchMetadata
         (href (p_url params))
         (headers_get (headers response) (lit "content-type"))
         (headers_get (headers response) (lit "content-length"))
         (isGoogleSearch (p_url params))
         (p_responseType params)))
      false)).

(** [error instanceof Error && error.name === 'AbortError'] *)
Definition isAbortError (error : Exn) : bool :=
  match error with
  | JSError name _ => str_eqb name (lit "AbortError")
  | NonError => false
  end.

Definition catchBlock (params : FetchParams) (attempt : nat) (error : Exn) : M Step :=
  if isAbortError error then
    ret (Return (errorResult
      (lit "Request timed out after " ++ Number_toString (p_timeout params)
       ++ lit "ms")))
  else if Nat.eqb attempt (MAX_RETRIES - 1) then
    ret (Return (errorResult (lit "Failed to fetch URL: " ++ messageOf error)))
  else
    sleep (getRetryDelay attempt) ;;; ret Continue.

(** [for (let attempt = 0; attempt < MAX_RETRIES; attempt++)], with
    [remaining = MAX_RETRIES - attempt] passes left. *)
Fixpoint retryLoop (params : FetchParams) (remaining attempt : nat)
  : M (ToolResult FetchMetadata) :=
  match remaining with
  | O => ret (errorResult (lit "Failed to fetch URL after all retry attempts"))
  | S remaining' =>
      step <- try_catch (tryBlock params attempt) (catchBlock params attempt) ;;
      match step with
      | Return r => ret r
      | Continue => retryLoop params remaining' (S attempt)
      end
  end.

Definition fetch_url_callback (params : FetchParams) : M (ToolResult FetchMetadata) :=
  retryLoop params MAX_RETRIES 0.

End FetchUrlTool.

(* ================================================================= *)
(** ** [src/url-fetcher.ts]: the JSDOM based fetcher *)

Module UrlFetcherV1.

Section Fetcher.

(** [new JSDOM(html).window.document] *)
Variable parseHTML : jsstring -> Document.
(** [JSON.parse]: the value, or the [SyntaxError] thrown. *)
Variable JSON_parse : jsstring -> Exn + JSON.
(** The regular expression pipeline of [htmlToMarkdown]; nothing below
    depends on what it computes. *)
Variable htmlToMarkdown : jsstring -> jsstring.

Definition spaces (n : nat) : jsstring := repeat 32%N n.

(** The body of both [for] loops: one candidate block, pushed when it has a
    title and a link. *)
Definition visit (results : list SearchResult) (div : Elt) : list SearchResult :=
  let titleEl := querySelector div sel_h3 in
  let title := match titleEl with Some e => trim (textContent e) | None => [] end in
  let linkEl := querySelector div sel_a in
  let url := match linkEl with Some e => getAttribute e (lit "href") | None => Some [] end in
  let descEl := querySelector div sel_snippet_or_s in
  let description := match descEl with Some e => trim (textContent e) | None => [] end in
  if truthy title && truthy_opt url then
    results ++ [mkSearchResult (orElse title (lit "No title"))
                               (orElse_opt url [])
                               (Some (orElse description (lit "No description")))]
  else results.

(** [for (let i = 0; i < Math.min(MAX_SEARCH_RESULTS, divs.length); i++)] *)
Definition scan (divs : list Elt) (results : list SearchResult) : list SearchResult :=
  fold_left visit (firstn (Nat.min MAX_SEARCH_RESULTS (length divs)) divs) results.

(** The [results] array of [extractGoogleResults] once both loops are done. *)
Definition collectResults (doc : Document) : list SearchResult :=
  let results := scan (querySelectorAll doc sel_div_g) [] in
  if Nat.eqb (length results) 0 then scan (querySelectorAll doc sel_tF2Cxc) results
  else results.

Definition descriptionText (r : SearchResult) : jsstring :=
  match description r with Some d => d | None => lit "undefined" end.

Definition resultsToJSON (results : list SearchResult) : JSON :=
  JArr (map resultToJSON results).

(** [results.map((result, index) => f)]: the index of the first element is
    [start]. *)
Fixpoint mapi {A B} (f : A -> nat -> B) (start : nat) (xs : list A) : list B :=
  match xs with
  | [] => []
  | x :: rest => f x start :: mapi f (S start) rest
  end.

Definition renderHtml (result : SearchResult) : jsstring :=
  nl ++ spaces 10 ++ lit "<div class=" ++ dq ++ lit "search-result" ++ dq ++ lit ">"
  ++ nl ++ spaces 12 ++ lit "<h3><a href=" ++ dq ++ url result ++ dq ++ lit ">"
  ++ title result ++ lit "</a></h3>"
  ++ nl ++ spaces 12 ++ lit "<div class=" ++ dq ++ lit "url" ++ dq ++ lit ">"
  ++ url result ++ lit "</div>"
  ++ nl ++ spaces 12 ++ lit "<div class=" ++ dq ++ lit "description" ++ dq ++ lit ">"
  ++ descriptionText result ++ lit "</div>"
  ++ nl ++ spaces 10 ++ lit "</div>"
  ++ nl ++ spaces 8.

Definition renderMarkdown (result : SearchResult) (index : nat) : jsstring :=
  nl ++ Number_toString (N.of_nat (index + 1)) ++ lit ". **" ++ title result ++ lit "**"
  ++ nl ++ lit "   - URL: " ++ url result
  ++ nl ++ lit "   - Description: " ++ descriptionText result
  ++ nl.

Definition renderText (result : SearchResult) (index : nat) : jsstring :=
  nl ++ Number_toString (N.of_nat (index + 1)) ++ lit ". " ++ title result
  ++ nl ++ lit "   URL: " ++ url result
  ++ nl ++ lit "   Description: " ++ descriptionText result
  ++ nl.

(** The [switch] at the end of [extractGoogleResults]. *)
Definition formatResults (results : list SearchResult) (responseType : ResponseType)
  : jsstring :=
  match responseType with
  | Json => JSON_stringify (resultsToJSON results)
  | Html => join nl (map renderHtml results)
  | Markdown => join nl (mapi renderMarkdown 0 results)
  | Text => join nl (mapi renderText 0 results)
  end.

(** Extract search results from Google HTML. *)
Definition extractGoogleResults (html : jsstring) (responseType : ResponseType)
  : M jsstring :=
  try_catch
    (emit (EvParseHTML html) ;;;
     let doc := parseHTML html in
     ret (formatResults (collectResults doc) responseType))
    (fun error =>
       throw (Error_ (lit "Failed to parse Google search results: " ++ messageOf error))).

(** Process response based on type. *)
Definition processResponse (response : Response) (responseType : ResponseType)
  (url : URL) : M jsstring :=
  let contentType :=
    orElse_opt (headers_get (headers response) (lit "content-type")) [] in
  let contentLength :=
    parseInt (orElse_opt (headers_get (headers response) (lit "content-length")) (lit "0")) in
  if gtNumber contentLength MAX_RESPONSE_SIZE then
    throw (Error_ (lit "Response too large"))
  else
    text <- text response ;;
    if isGoogleSearch url then extractGoogleResults text responseType
    else
      match responseType with
      | Json =>
          if negb (includes contentType (lit "application/json")) then
            throw (Error_ (lit "Response is not JSON"))
          else
            match JSON_parse text with
            | inr v => ret (JSON_stringify v)
            | inl syntaxError => throw syntaxError
            end
      | Html =>
          if negb (includes contentType (lit "text/html")) then
            throw (Error_ (lit "Response is not HTML"))
          else ret text
      | Markdown =>
          if includes contentType (lit "text/html") then ret (htmlToMarkdown text)
          else if includes contentType (lit "text/markdown") then ret text
          else ret (lit "```" ++ nl ++ text ++ nl ++ lit "```")
      | Text => ret text
      end.

Definition userAgent : jsstring :=
  lit "Mozilla/5.0 (Windows NT 10.0; Win64; x64) AppleWebKit/537.36 (KHTML, like Gecko) Chrome/91.0.4472.124 Safari/537.36".

(** [headers[name] = value] on an object used as a map. *)
Fixpoint setHeader (hs : list (jsstring * jsstring)) (name value : jsstring)
  : list (jsstring * jsstring) :=
  match hs with
  | [] => [(name, value)]
  | (k, v) :: hs' =>
      if str_eqb k name then (k, value) :: hs' else (k, v) :: setHeader hs' name value
  end.

Definition requestHeaders (params : FetchParams) : list (jsstring * jsstring) :=
  let headers :=
    [(lit "User-Agent", userAgent);
     (lit "Accept",
      match p_responseType params with
      | Json => lit "application/json"
      | Html => lit "text/html"
      | _ => lit "text/plain"
      end);
     (lit "Accept-Language", lit "en-US,en;q=0.9")] in
  if isGoogleSearch (p_url params) then
    setHeader (setHeader (setHeader headers (lit "Accept") (lit "text/html"))
                 (lit "Cache-Control") (lit "no-cache"))
      (lit "Pragma") (lit "no-cache")
  else headers.

(** The callback registered as [fetch_url]. *)
Definition fetch_url (params : FetchParams) : M (ToolResult FetchMetadata) :=
  fetch_url_callback requestHeaders processResponse params.

End Fetcher.

End UrlFetcherV1.

(* ================================================================= *)
(** ** The later [url-fetcher.ts]: happy-dom, [fetchUrl], [fetchUrlWithParams] *)

(** What [fetchUrl] resolves to, of type [string | object[]]: a string, the
    array of search results, or the one element array [[{ content: html }]]. *)
Inductive Fetched : Type :=
| FString (s : jsstring)
| FResults (results : list SearchResult)
| FContent (html : jsstring).

Definition fetchedToJSON (v : Fetched) : JSON :=
  match v with
  | FString s => JStr s
  | FResults rs => JArr (map resultToJSON rs)
  | FContent html => JArr [JObj [(lit "content", JStr html)]]
  end.

Module UrlFetcher.

Definition BROWSER_HEADERS : list (jsstring * jsstring) :=
  [(lit "User-Agent",
    lit "Mozilla/5.0 (Macintosh; Intel Mac OS X 10_15_7) AppleWebKit/537.36 (KHTML, like Gecko) Chrome/120.0.0.0 Safari/537.36");
   (lit "Accept",
    lit "text/html,application/xhtml+xml,application/xml;q=0.9,image/avif,image/webp,image/apng,*/*;q=0.8");
   (lit "Accept-Language", lit "en-US,en;q=0.9");
   (lit "Accept-Encoding", lit "gzip, deflate, br");
   (lit "Cache-Control", lit "no-cache");
   (lit "Pragma", lit "no-cache");
   (lit "Sec-Ch-Ua",
    dq ++ lit "Not_A Brand" ++ dq ++ lit ";v=" ++ dq ++ lit "8" ++ dq ++ lit ", "
    ++ dq ++ lit "Chromium" ++ dq ++ lit ";v=" ++ dq ++ lit "120" ++ dq ++ lit ", "
    ++ dq ++ lit "Google Chrome" ++ dq ++ lit ";v=" ++ dq ++ lit "120" ++ dq);
   (lit "Sec-Ch-Ua-Mobile", lit "?0");
   (lit "Sec-Ch-Ua-Platform", dq ++ lit "macOS" ++ dq);
   (lit "Sec-Fetch-Dest", lit "document");
   (lit "Sec-Fetch-Mode", lit "navigate");
   (lit "Sec-Fetch-Site", lit "none");
   (lit "Sec-Fetch-User", lit "?1");
   (lit "Upgrade-Insecure-Requests", lit "1")].

(** The argument of [fetchUrlWithParams], as its interface types it. *)
Inductive JsonOrMarkdown : Type := AsJson | AsMarkdown.

Record FetchUrlParams : Type := mkFetchUrlParams {
  fp_url : URL;
  fp_responseType : option JsonOrMarkdown;
  fp_timeout : option N
}.

Section Fetcher.

(** The document happy-dom holds after [document.write(html)]; scripts and
    style sheets are neither loaded nor run. *)
Variable parseHTML : jsstring -> Document.
(** [JSON.parse]: the value, or the [SyntaxError] thrown. *)
Variable JSON_parse : jsstring -> Exn + JSON.
(** The regular expression pipeline of [htmlToMarkdown]; nothing below
    depends on what it computes. *)
Variable htmlToMarkdown : jsstring -> jsstring.
(** The message of the error zod raises for a [timeout] out of range. *)
Variable zodMessage : N -> jsstring.

(** What the callback given to [forEach] does to [results] in each of the
    three passes, its console output left aside: [titleEl], [linkEl] and
    [snippetEl] are what the pass selected in [element]. *)
Definition visit (titleEl linkEl snippetEl : option Elt)
  (results : list SearchResult) : list SearchResult :=
  match titleEl, linkEl with
  | Some titleEl, Some linkEl =>
      let title := trim (textContent titleEl) in
      let url := getAttribute linkEl (lit "href") in
      let description := option_map (fun e => trim (textContent e)) snippetEl in
      match url with
      | Some url =>
          if truthy title && truthy url
          then results ++ [mkSearchResult title url description]
          else results
      | None => results
      end
  | _, _ => results
  end.

Definition visitNews (results : list SearchResult) (element : Elt) : list SearchResult :=
  let titleEl := querySelector element sel_heading in
  let linkEl := querySelector element sel_a in
  let snippetEl :=
    match titleEl with Some t => nextElementSibling t | None => None end in
  visit titleEl linkEl snippetEl results.

Definition visitGeneral (results : list SearchResult) (element : Elt) : list SearchResult :=
  let titleEl := querySelector element sel_h3 in
  let linkEl := querySelector element sel_a in
  let snippetEl := querySelector element sel_snippet in
  visit titleEl linkEl snippetEl results.

(** The [results] array of [extractGoogleResults] after the three passes,
    its console output left aside. *)
Definition collectResults (document : Document) : list SearchResult :=
  let results := fold_left visitNews (querySelectorAll document sel_news) [] in
  let results :=
    if Nat.eqb (length results) 0
    then fold_left visitGeneral (querySelectorAll document sel_g) results
    else results in
  if Nat.eqb (length results) 0
  then fold_left visitGeneral (querySelectorAll document sel_div_tF2Cxc) results
  else results.

(** [r.description ? f(r.description) : ''] *)
Definition whenDescription (r : SearchResult) (f : jsstring -> jsstring) : jsstring :=
  match description r with
  | Some d => if truthy d then f d else []
  | None => []
  end.

Definition renderMarkdown (r : SearchResult) : jsstring :=
  lit "- [" ++ title r ++ lit "](" ++ url r ++ lit ")"
  ++ whenDescription r (fun d => nl ++ lit "  " ++ d).

Definition renderHtml (r : SearchResult) : jsstring :=
  lit "<div class=" ++ dq ++ lit "result" ++ dq ++ lit "><h3><a href=" ++ dq
  ++ url r ++ dq ++ lit ">" ++ title r ++ lit "</a></h3>"
  ++ whenDescription r (fun d => lit "<p>" ++ d ++ lit "</p>") ++ lit "</div>".

Definition renderText (r : SearchResult) : jsstring :=
  title r ++ nl ++ url r ++ whenDescription r (fun d => nl ++ d).

(** [`${text}${index + 1}`] *)
Definition numbered (text : jsstring) (index : nat) : jsstring :=
  text ++ Number_toString (N.of_nat (index + 1)).

(** [`${before}${n}${after}`] for a length [n]. *)
Definition counted (before : jsstring) (n : nat) (after : jsstring) : jsstring :=
  before ++ Number_toString (N.of_nat n) ++ after.

(** [elements.forEach((element, index) => ...)] for a callback that works on
    [results]. *)
Fixpoint forEach {A} (callback : A -> nat -> list SearchResult -> M (list SearchResult))
  (elements : list A) (index : nat) (results : list SearchResult)
  : M (list SearchResult) :=
  match elements with
  | [] => ret results
  | element :: rest =>
      results <- callback element index results ;;
      forEach callback rest (S index) results
  end.

(** The [if (titleEl && linkEl)] of the three callbacks; [kind] is [news],
    [general] or [alternative]. *)
Definition pushOrReport (kind : jsstring) (index : nat)
  (titleEl linkEl snippetEl : option Elt) (results : list SearchResult)
  : M (list SearchResult) :=
  match titleEl, linkEl with
  | Some titleEl, Some linkEl =>
      let title := trim (textContent titleEl) in
      let url := getAttribute linkEl (lit "href") in
      let description := option_map (fun e => trim (textContent e)) snippetEl in
      if truthy title && truthy_opt url then
        ret (results ++ [mkSearchResult title (orElse_opt url []) description])
      else
        console_log
          (numbered (lit "Missing title or URL for " ++ kind ++ lit " element ") index) ;;;
        ret results
  | _, _ => ret results
  end.

Definition newsCallback (element : Elt) (index : nat) (results : list SearchResult)
  : M (list SearchResult) :=
  console_log (numbered (lit "Processing news element ") index) ;;;
  let titleEl := querySelector element sel_heading in
  let linkEl := querySelector element sel_a in
  let snippetEl :=
    match titleEl with Some t => nextElementSibling t | None => None end in
  pushOrReport (lit "news") index titleEl linkEl snippetEl results.

(** The callback of the second and of the third pass. *)
Definition generalCallback (kind : jsstring) (element : Elt) (index : nat)
  (results : list SearchResult) : M (list SearchResult) :=
  console_log (numbered (lit "Processing " ++ kind ++ lit " element ") index) ;;;
  let titleEl := querySelector element sel_h3 in
  let linkEl := querySelector element sel_a in
  let snippetEl := querySelector element sel_snippet in
  pushOrReport kind index titleEl linkEl snippetEl results.

(** Extract Google search results from HTML.  The construction of the
    document is the event [EvParseHTML]. *)
Definition extractGoogleResults (html : jsstring) (responseType : ResponseType)
  : M Fetched :=
  emit (EvParseHTML html) ;;;
  let document := parseHTML html in
  console_log (counted (lit "Document body length: ") (length (bodyInnerHTML document)) []) ;;;
  let newsElements := querySelectorAll document sel_news in
  console_log (counted (lit "Found ") (length newsElements) (lit " news elements")) ;;;
  results <- forEach newsCallback newsElements 0 [] ;;
  results <-
    (if Nat.eqb (length results) 0 then
       let generalElements := querySelectorAll document sel_g in
       console_log (counted (lit "Found ") (length generalElements)
                      (lit " general result elements")) ;;;
       forEach (generalCallback (lit "general")) generalElements 0 results
     else ret results) ;;
  results <-
    (if Nat.eqb (length results) 0 then
       console_log (lit "No results found with primary selectors, trying alternatives...") ;;;
       let alternativeElements := querySelectorAll document sel_div_tF2Cxc in
       forEach (generalCallback (lit "alternative")) alternativeElements 0 results
     else ret results) ;;
  console_log (counted (lit "Total results found: ") (length results) []) ;;;
  match responseType with
  | Markdown => ret (FString (join nl (map renderMarkdown results)))
  | Html => ret (FString (join nl (map renderHtml results)))
  | Text => ret (FString (join (nl ++ nl) (map renderText results)))
  | Json => ret (FResults results)
  end.

(** Process response based on type. *)
Definition processResponse (response : Response) (responseType : ResponseType)
  (url : URL) : M jsstring :=
  let contentType :=
    orElse_opt (headers_get (headers response) (lit "content-type")) [] in
  let contentLength :=
    parseInt (orElse_opt (headers_get (headers response) (lit "content-length")) (lit "0")) in
  if gtNumber contentLength MAX_RESPONSE_SIZE then
    throw (Error_ (lit "Response too large"))
  else
    text <- text response ;;
    if isGoogleSearch url then
      let mappedType :=
        match responseType with
        | Json | Markdown => responseType
        | _ => Json
        end in
      results <- extractGoogleResults text mappedType ;;
      match results with
      | FString s => ret s
      | _ => ret (JSON_stringify (fetchedToJSON results))
      end
    else
      match responseType with
      | Json =>
          if negb (includes contentType (lit "application/json")) then
            throw (Error_ (lit "Response is not JSON"))
          else
            match JSON_parse text with
            | inr v => ret (JSON_stringify v)
            | inl syntaxError => throw syntaxError
            end
      | Html =>
          if negb (includes contentType (lit "text/html")) then
            throw (Error_ (lit "Response is not HTML"))
          else ret text
      | Markdown =>
          if includes contentType (lit "text/html") then ret (htmlToMarkdown text)
          else if includes contentType (lit "text/markdown") then ret text
          else ret (lit "```" ++ nl ++ text ++ nl ++ lit "```")
      | Text => ret text
      end.

(** The callback registered as [fetch_url]. *)
Definition fetch_url (params : FetchParams) : M (ToolResult FetchMetadata) :=
  fetch_url_callback (fun _ => BROWSER_HEADERS) processResponse params.

(** The [catch] of [fetchUrl] and [fetchUrlWithParams]. *)
Definition rethrow {A} (error : Exn) : M A :=
  match error with
  | JSError _ message => throw (Error_ (lit "Failed to fetch URL: " ++ message))
  | NonError => throw error
  end.

Definition fetchUrl (url : jsstring) (responseType : ResponseType) : M Fetched :=
  try_catch
    (response <- fetch url BROWSER_HEADERS ;;
     if negb (ok response) then
       throw (Error_ (lit "HTTP error! status: " ++ Number_toString (status response)))
     else
       html <- text response ;;
       writeFileSync (lit "fetchedPage.html") html ;;;
       console_log (lit "Saved fetched HTML (" ++ Number_toString (N.of_nat (length html))
                    ++ lit " bytes) to fetchedPage.html") ;;;
       if startsWith url GOOGLE_SEARCH_URL then extractGoogleResults html responseType
       else
         match responseType with
         | Markdown => ret (FString (htmlToMarkdown html))
         | Html => ret (FString html)
         | Text => ret (FString html)
         | Json => ret (FContent html)
         end)
    rethrow.

(** The zod schema of [fetchUrlWithParams]: defaults filled in, a [timeout]
    outside [1000, 30000] rejected. *)
Definition parseParams (params : FetchUrlParams) : M (URL * JsonOrMarkdown * N) :=
  let responseType :=
    match fp_responseType params with Some t => t | None => AsJson end in
  let timeout := match fp_timeout params with Some t => t | None => 5000%N end in
  if (timeout <? 1000)%N || (30000 <? timeout)%N then
    throw (JSError (lit "ZodError") (zodMessage timeout))
  else ret (fp_url params, responseType, timeout).

Definition fetchUrlWithParams (params : FetchUrlParams) : M Fetched :=
  parsed <- parseParams params ;;
  let '(url, responseType, _) := parsed in
  try_catch
    (response <- fetch (href url) BROWSER_HEADERS ;;
     if negb (ok response) then
       throw (Error_ (lit "HTTP error! status: " ++ Number_toString (status response)))
     else
       html <- text response ;;
       if isGoogleSearch url then
         extractGoogleResults html
           (match responseType with AsJson => Json | AsMarkdown => Markdown end)
       else
         match responseType with
         | AsMarkdown => ret (FString html)
         | AsJson => ret (FContent html)
         end)
    rethrow.

End Fetcher.

End UrlFetcher.

(* ================================================================= *)
(** ** [google-search.ts]: the deep search tool *)

Module GoogleSearch.

Inductive Topic : Type := Web | News.

Definition topicName (t : Topic) : jsstring :=
  match t with Web => lit "web" | News => lit "news" end.

(** The validated arguments of the [google_search] tool. *)
Record SearchParams : Type := mkSearchParams {
  query : jsstring;
  responseType : ResponseType;
  maxResults : N;
  topic : Topic
}.

(** One code point in UTF-8. *)
Definition utf8CodePoint (cp : N) : list N :=
  (if cp <? 128 then [cp]
   else if cp <? 2048 then [192 + cp / 64; 128 + cp mod 64]
   else if cp <? 65536 then [224 + cp / 4096; 128 + cp / 64 mod 64; 128 + cp mod 64]
   else [240 + cp / 262144; 128 + cp / 4096 mod 64; 128 + cp / 64 mod 64;
         128 + cp mod 64])%N.

(** A string in UTF-8, a lone surrogate replaced by U+FFFD. *)
Fixpoint utf8 (s : jsstring) : list N :=
  match s with
  | [] => []
  | c :: s' =>
      if isHighSurrogate c then
        match s' with
        | d :: s'' =>
            if isLowSurrogate d
            then utf8CodePoint (65536 + (c - 55296) * 1024 + (d - 56320))%N ++ utf8 s''
            else utf8CodePoint 65533 ++ utf8 s'
        | [] => utf8CodePoint 65533
        end
      else if isLowSurrogate c then utf8CodePoint 65533 ++ utf8 s'
      else utf8CodePoint c ++ utf8 s'
  end.

Definition upperHex (d : N) : N := if (d <? 10)%N then (48 + d)%N else (55 + d)%N.

(** The [application/x-www-form-urlencoded] byte serialiser. *)
Definition formEncodeByte (b : N) : jsstring :=
  (if (48 <=? b) && (b <=? 57) || (65 <=? b) && (b <=? 90) || (97 <=? b) && (b <=? 122)
      || (b =? 42) || (b =? 45) || (b =? 46) || (b =? 95)
   then [b]
   else if b =? 32 then [43]
   else [37; upperHex (b / 16); upperHex (b mod 16)])%N.

Definition formEncode (s : jsstring) : jsstring := flat_map formEncodeByte (utf8 s).

(** [searchParams.set(name, value)] *)
Fixpoint setParam (ps : list (jsstring * jsstring)) (name value : jsstring)
  : list (jsstring * jsstring) :=
  match ps with
  | [] => [(name, value)]
  | (k, v) :: ps' =>
      if str_eqb k name
      then (k, value) :: filter (fun kv => negb (str_eqb (fst kv) name)) ps'
      else (k, v) :: setParam ps' name value
  end.

(** [searchParams.toString()] *)
Definition paramsToString (ps : list (jsstring * jsstring)) : jsstring :=
  join (lit "&") (map (fun kv => formEncode (fst kv) ++ lit "=" ++ formEncode (snd kv)) ps).

(** Build a Google search URL with proper parameters. *)
Definition buildGoogleSearchUrl (query : jsstring) (maxResults : N) (topic : Topic)
  : jsstring :=
  let searchParams :=
    [(lit "q", query);
     (lit "num", Number_toString (if (maxResults =? 0)%N then 10%N else maxResults))] in
  let searchParams :=
    match topic with
    | News => setParam searchParams (lit "tbm") (lit "nws")
    | Web => setParam searchParams (lit "udm") (lit "14")
    end in
  lit "https://www.google.com/search?" ++ paramsToString searchParams.

Definition isLineTerminator (c : N) : bool :=
  ((c =? 10) || (c =? 13) || (c =? 8232) || (c =? 8233))%N.

(** [(.*?)\)] at the start of [s]: the capture, reversed in [acc], and the
    number of code units matched. *)
Fixpoint matchTarget (s acc : jsstring) (n : nat) : option (jsstring * nat) :=
  match s with
  | [] => None
  | c :: s' =>
      if (c =? 41)%N then Some (rev acc, S n)
      else if isLineTerminator c then None
      else matchTarget s' (c :: acc) (S n)
  end.

(** [.*?\]\((.*?)\)] at the start of [s]. *)
Fixpoint matchLabel (s : jsstring) (n : nat) : option (jsstring * nat) :=
  match s with
  | [] => None
  | c :: s' =>
      let here :=
        match s with
        | 93%N :: 40%N :: r => matchTarget r [] (n + 2)
        | _ => None
        end in
      match here with
      | Some m => Some m
      | None => if isLineTerminator c then None else matchLabel s' (S n)
      end
  end.

(** [Array.from(s.matchAll(/\[.*?\]\((.*?)\)/g)).map(match => match[1])];
    [skip] code units are still inside the previous match. *)
Fixpoint markdownLinks (s : jsstring) (skip : nat) : list jsstring :=
  match s with
  | [] => []
  | c :: s' =>
      match skip with
      | S k => markdownLinks s' k
      | O =>
          if (c =? 91)%N then
            match matchLabel s' 1 with
            | Some (target, len) => target :: markdownLinks s' (len - 1)
            | None => markdownLinks s' 0
            end
          else markdownLinks s' 0
      end
  end.

(** Extract URLs from search results; [None] is the [undefined] read from an
    object without a [url]. *)
Definition extractSearchUrls (searchResults : Fetched) : list (option jsstring) :=
  match searchResults with
  | FString s => map Some (markdownLinks s 0)
  | FResults rs => map (fun result => Some (url result)) rs
  | FContent _ => [None]
  end.

(** An entry of [fullResults]. *)
Record FullResult : Type := mkFullResult {
  fr_url : option jsstring;
  fr_content : option Fetched;      (* [None] is null *)
  fr_error : option jsstring        (* [None] is null *)
}.

Record SearchMetadata : Type := mkSearchMetadata {
  sm_query : jsstring;
  sm_topic : Topic;
  sm_maxResults : N;
  sm_responseType : ResponseType;
  resultsCount : nat;
  successCount : nat
}.

(** A value inside a template literal. *)
Definition urlText (u : option jsstring) : jsstring :=
  match u with Some s => s | None => lit "undefined" end.

Definition contentText (c : option Fetched) : jsstring :=
  match c with
  | None => lit "null"
  | Some (FString s) => s
  | Some (FResults rs) => join (lit ",") (map (fun _ => lit "[object Object]") rs)
  | Some (FContent _) => lit "[object Object]"
  end.

(** [r.error] used as a condition. *)
Definition hasError (r : FullResult) : bool := truthy_opt (fr_error r).

Definition errorText (r : FullResult) : jsstring :=
  match fr_error r with Some e => e | None => lit "null" end.

Definition fullResultToJSON (r : FullResult) : JSON :=
  JObj (match fr_url r with Some u => [(lit "url", JStr u)] | None => [] end
        ++ [(lit "content",
             match fr_content r with Some c => fetchedToJSON c | None => JNull end);
            (lit "error",
             match fr_error r with Some e => JStr e | None => JNull end)]).

Definition formatFullResults (fullResults : list FullResult) (responseType : ResponseType)
  : jsstring :=
  match responseType with
  | Markdown =>
      join (nl ++ nl ++ lit "---" ++ nl ++ nl)
        (map (fun r =>
                if hasError r
                then lit "## [Failed to fetch: " ++ urlText (fr_url r) ++ lit "]" ++ nl
                     ++ lit "Error: " ++ errorText r
                else lit "## [" ++ urlText (fr_url r) ++ lit "]" ++ nl ++ nl
                     ++ contentText (fr_content r))
           fullResults)
  | Html =>
      join nl
        (map (fun r =>
                if hasError r
                then lit "<div class=" ++ dq ++ lit "search-result error" ++ dq
                     ++ lit "><h2><a href=" ++ dq ++ urlText (fr_url r) ++ dq
                     ++ lit ">Failed to fetch</a></h2><p class=" ++ dq ++ lit "error" ++ dq
                     ++ lit ">" ++ errorText r ++ lit "</p></div>"
                else lit "<div class=" ++ dq ++ lit "search-result" ++ dq
                     ++ lit "><h2><a href=" ++ dq ++ urlText (fr_url r) ++ dq ++ lit ">"
                     ++ urlText (fr_url r) ++ lit "</a></h2>"
                     ++ contentText (fr_content r) ++ lit "</div>")
           fullResults)
  | Text =>
      join (nl ++ nl ++ lit "==========" ++ nl ++ nl)
        (map (fun r =>
                if hasError r
                then lit "### " ++ urlText (fr_url r) ++ nl ++ lit "Error: " ++ errorText r
                else lit "### " ++ urlText (fr_url r) ++ nl ++ nl
                     ++ contentText (fr_content r))
           fullResults)
  | Json => JSON_stringify (JArr (map fullResultToJSON fullResults))
  end.

Section Tool.

Variable parseHTML : jsstring -> Document.
Variable htmlToMarkdown : jsstring -> jsstring.

Definition fetchUrl : jsstring -> ResponseType -> M Fetched :=
  UrlFetcher.fetchUrl parseHTML htmlToMarkdown.

(** The callback mapped over [urls]: it catches what [fetchUrl] throws. *)
Definition fetchOne (responseType : ResponseType) (url : option jsstring) : M FullResult :=
  try_catch
    (content <- fetchUrl (urlText url) responseType ;;
     ret (mkFullResult url (Some content) None))
    (fun error => ret (mkFullResult url None (Some (messageOf error)))).

(** [await Promise.all(urls.map(f))] for callbacks that never reject: the
    requests are issued in the order of [urls] and the array has the results
    in that order.  The trace lists the effects of one callback after those
    of the previous one; in a run they interleave after the requests. *)
Fixpoint promiseAllMap {A B} (f : A -> M B) (xs : list A) : M (list B) :=
  match xs with
  | [] => ret []
  | x :: rest =>
      y <- f x ;;
      ys <- promiseAllMap f rest ;;
      ret (y :: ys)
  end.

(** The callback registered as [google_search]. *)
Definition google_search (params : SearchParams) : M (ToolResult SearchMetadata) :=
  try_catch
    (let searchUrl :=
       buildGoogleSearchUrl (query params) (maxResults params) (topic params) in
     searchResults <- fetchUrl searchUrl Json ;;
     let urls := extractSearchUrls searchResults in
     fullResults <- promiseAllMap (fetchOne (responseType params)) urls ;;
     let formattedResults := formatFullResults fullResults (responseType params) in
     ret (mkToolResult
       [mkContent (lit "text") formattedResults
          (Some (mimeTypeOf (responseType params)))]
       (Some (mkSearchMetadata (query params) (topic params) (maxResults params)
                (responseType params)
                (length fullResults)
                (length (filter (fun r => negb (hasError r)) fullResults))))
       false))
    (fun error =>
       ret (errorResult (lit "Failed to execute Google search: " ++ messageOf error))).

End Tool.

End GoogleSearch.

(* ================================================================= *)
(** * The vocabulary of the properties *)

Unset Implicit Arguments.

(** ** Entries and passes of the extractor *)

(** An entry with a title and a URL. *)
Definition nonEmptyEntry (r : SearchResult) : Prop := title r <> [] /\ url r <> [].

(** The entry [visit] of the first revision pushes for a block, if it pushes
    one. *)
Definition accepted1 (div : Elt) : list SearchResult := UrlFetcherV1.visit [] div.

(** The candidates of the pass that produced the results: the [div.g]
    blocks, or the [.tF2Cxc] blocks when the first pass found nothing. *)
Definition candidates1 (doc : Document) : list Elt :=
  match flat_map accepted1 (firstn MAX_SEARCH_RESULTS (querySelectorAll doc sel_div_g)) with
  | [] => querySelectorAll doc sel_tF2Cxc
  | _ :: _ => querySelectorAll doc sel_div_g
  end.

(** The entries the news pass and the general passes push for a block. *)
Definition acceptedNews (element : Elt) : list SearchResult :=
  UrlFetcher.visitNews [] element.
Definition acceptedGeneral (element : Elt) : list SearchResult :=
  UrlFetcher.visitGeneral [] element.

(** What the later [extractGoogleResults] returns, as a value. *)
Definition extracted (doc : Document) (rt : ResponseType) : Fetched :=
  let results := UrlFetcher.collectResults doc in
  match rt with
  | Markdown => FString (join nl (map UrlFetcher.renderMarkdown results))
  | Html => FString (join nl (map UrlFetcher.renderHtml results))
  | Text => FString (join (nl ++ nl) (map UrlFetcher.renderText results))
  | Json => FResults results
  end.

(** The search branch of the later [processResponse]: html and text are
    mapped to json, and an array is serialised. *)
Definition googleText (doc : Document) (rt : ResponseType) : jsstring :=
  match extracted doc (match rt with Json | Markdown => rt | _ => Json end) with
  | FString s => s
  | other => JSON_stringify (fetchedToJSON other)
  end.

(** ** Runs and traces *)

(** A computation whose outcome [a] does not depend on the world and which
    only adds the events [t] to the trace. *)
Definition runs {A} (m : M A) (a : Exn + A) (t : list Event) : Prop :=
  forall w, m w = (a, mkWorld (net w) (issued w) (trace w ++ t)).

(** Events that are neither requests nor sleeps nor writes: reading the
    body and building the document. *)
Definition quiet (e : Event) : Prop :=
  match e with
  | EvReadBody | EvParseHTML _ => True
  | _ => False
  end.

(** A line on the console. *)
Definition isConsoleLog (e : Event) : Prop :=
  match e with
  | EvConsoleLog _ => True
  | _ => False
  end.

(** Events that are neither requests nor sleeps nor writes: reading the
    body, building the document and printing on the console. *)
Definition local (e : Event) : Prop :=
  match e with
  | EvReadBody | EvParseHTML _ | EvConsoleLog _ => True
  | _ => False
  end.

(** The events a computation that issues no request adds to the trace. *)
Definition eventsOf {A} (m : M A) : list Event :=
  trace (snd (m (mkWorld (fun _ _ => Rejected NonError) 0 []))).

(** What the later [extractGoogleResults] does for a page: it builds the
    document and prints its lines on the console. *)
Definition extractionEvents (parseHTML : jsstring -> Document) (html : jsstring)
  : list Event :=
  eventsOf (UrlFetcher.extractGoogleResults parseHTML html Json).

(** Events other than a file write or a line on the console. *)
Definition networkOnly (e : Event) : Prop :=
  match e with
  | EvWriteFile _ _ | EvConsoleLog _ => False
  | _ => True
  end.

(** The world after [k] more requests and the events [t]. *)
Definition later (w : World) (k : nat) (t : list Event) : World :=
  mkWorld (net w) (issued w + k) (trace w ++ t).

(** The envelope of a processed response. *)
Definition success (params : FetchParams) (r : Response) (processedContent : jsstring)
  : ToolResult FetchMetadata :=
  mkToolResult
    [mkContent (lit "text") processedContent (Some (mimeTypeOf (p_responseType params)))]
    (Some (mkFetchMetadata (href (p_url params))
             (headers_get (headers r) (lit "content-type"))
             (headers_get (headers r) (lit "content-length"))
             (isGoogleSearch (p_url params))
             (p_responseType params)))
    false.

(** ** Headers and the dispatch on the format *)

(** The two header values [processResponse] reads. *)
Definition contentTypeOf (r : Response) : jsstring :=
  orElse_opt (headers_get (headers r) (lit "content-type")) [].

Definition contentLengthOf (r : Response) : option Z :=
  parseInt (orElse_opt (headers_get (headers r) (lit "content-length")) (lit "0")).

(** The size check lets the response through. *)
Definition withinLimit (r : Response) : bool :=
  negb (gtNumber (contentLengthOf r) MAX_RESPONSE_SIZE).

(** What the dispatch on the requested format returns for a URL that is not
    the search endpoint; it is the same text in both revisions. *)
Definition dispatch (JSON_parse : jsstring -> Exn + JSON)
  (htmlToMarkdown : jsstring -> jsstring) (r : Response) (responseType : ResponseType)
  : Exn + jsstring :=
  match responseType with
  | Json =>
      if includes (contentTypeOf r) (lit "application/json")
      then match JSON_parse (body r) with
           | inr v => inr (JSON_stringify v)
           | inl syntaxError => inl syntaxError
           end
      else inl (Error_ (lit "Response is not JSON"))
  | Html =>
      if includes (contentTypeOf r) (lit "text/html")
      then inr (body r)
      else inl (Error_ (lit "Response is not HTML"))
  | Markdown =>
      if includes (contentTypeOf r) (lit "text/html") then inr (htmlToMarkdown (body r))
      else if includes (contentTypeOf r) (lit "text/markdown") then inr (body r)
      else inr (lit "```" ++ nl ++ body r ++ nl ++ lit "```")
  | Text => inr (body r)
  end.

Definition isDigit (c : N) : bool := (48 <=? c)%N && (c <=? 57)%N.

(** The number a well-formed [Content-Length] value (one or more decimal
    digits) declares; [None] for any other text. *)
Definition decimalValue (s : jsstring) : option N :=
  match s with
  | [] => None
  | _ :: _ =>
      if forallb isDigit s
      then Some (fold_left (fun a c => 10 * a + (c - 48))%N s 0%N)
      else None
  end.

(** ** [fetchUrl] and deep search as functions of the answers *)

(** A request that ends with a 2xx response. *)
Definition succeeds (answer : NetOutcome) : bool :=
  match answer with
  | Responded r => ok r
  | Rejected _ => false
  end.

(** The answers of the network to the requests for [urls], the first of
    which is the [n]-th request of the call. *)
Fixpoint answersFrom (oracle : nat -> jsstring -> NetOutcome) (n : nat)
  (urls : list (option jsstring)) : list NetOutcome :=
  match urls with
  | [] => []
  | u :: rest => oracle n (GoogleSearch.urlText u) :: answersFrom oracle (S n) rest
  end.

Section FetchUrlValues.

Variable parseHTML : jsstring -> Document.
Variable htmlToMarkdown : jsstring -> jsstring.

(** What [fetchUrl] returns for a body it has read. *)
Definition fetchedValue (url : jsstring) (rt : ResponseType) (html : jsstring) : Fetched :=
  if startsWith url GOOGLE_SEARCH_URL then extracted (parseHTML html) rt
  else
    match rt with
    | Markdown => FString (htmlToMarkdown html)
    | Html | Text => FString html
    | Json => FContent html
    end.

(** The outcome of [fetchUrl] for an answer of the network. *)
Definition fetchUrlOutcome (url : jsstring) (rt : ResponseType) (answer : NetOutcome)
  : Exn + Fetched :=
  match answer with
  | Responded r =>
      if ok r then inr (fetchedValue url rt (body r))
      else inl (Error_ (lit "Failed to fetch URL: " ++ lit "HTTP error! status: "
                        ++ Number_toString (status r)))
  | Rejected (JSError _ message) => inl (Error_ (lit "Failed to fetch URL: " ++ message))
  | Rejected NonError => inl NonError
  end.

(** What [fetchUrl] does after its request. *)
Definition fetchUrlEvents (url : jsstring) (answer : NetOutcome) : list Event :=
  match answer with
  | Responded r =>
      if ok r then
        [EvReadBody;
         EvWriteFile (lit "fetchedPage.html") (body r);
         EvConsoleLog (lit "Saved fetched HTML (" ++ Number_toString (N.of_nat (length (body r)))
                       ++ lit " bytes) to fetchedPage.html")]
        ++ (if startsWith url GOOGLE_SEARCH_URL then extractionEvents parseHTML (body r)
            else [])
      else []
  | Rejected _ => []
  end.

(** The entry of [fullResults] for a URL and the answer to its request. *)
Definition entryOf (rt : ResponseType) (u : option jsstring) (answer : NetOutcome)
  : GoogleSearch.FullResult :=
  match fetchUrlOutcome (GoogleSearch.urlText u) rt answer with
  | inr content => GoogleSearch.mkFullResult u (Some content) None
  | inl error => GoogleSearch.mkFullResult u None (Some (messageOf error))
  end.

Fixpoint entriesFrom (oracle : nat -> jsstring -> NetOutcome) (rt : ResponseType)
  (n : nat) (urls : list (option jsstring)) : list GoogleSearch.FullResult :=
  match urls with
  | [] => []
  | u :: rest =>
      entryOf rt u (oracle n (GoogleSearch.urlText u)) :: entriesFrom oracle rt (S n) rest
  end.

End FetchUrlValues.

(** ** Documents, responses and networks used as examples *)

(** A DOM library that builds [doc]. *)
Definition parsesTo (doc : Document) : jsstring -> Document := fun _ => doc.

(** HTML fragment serialisation, for the text of the example pages. *)
Definition escapeText (attribute : bool) (s : jsstring) : jsstring :=
  flat_map (fun c =>
              if (c =? 38)%N then lit "&amp;"
              else if (c =? 160)%N then lit "&nbsp;"
              else if attribute then (if (c =? 34)%N then lit "&quot;" else [c])
              else if (c =? 60)%N then lit "&lt;"
              else if (c =? 62)%N then lit "&gt;"
              else [c]) s.

Definition isVoid (tag : jsstring) : bool :=
  existsb (str_eqb tag)
    [lit "area"; lit "base"; lit "br"; lit "col"; lit "embed"; lit "hr"; lit "img";
     lit "input"; lit "link"; lit "meta"; lit "source"; lit "track"; lit "wbr"].

Definition isRawText (tag : jsstring) : bool :=
  existsb (str_eqb tag)
    [lit "style"; lit "script"; lit "xmp"; lit "iframe"; lit "noembed"; lit "noframes";
     lit "plaintext"].

Fixpoint outerHTML (raw : bool) (n : Node) : jsstring :=
  match n with
  | Element t a cs =>
      lit "<" ++ t
      ++ flat_map (fun kv => lit " " ++ fst kv ++ lit "=" ++ dq
                             ++ escapeText true (snd kv) ++ dq) a
      ++ lit ">"
      ++ (if isVoid t then []
          else flat_map (outerHTML (isRawText t)) cs ++ lit "</" ++ t ++ lit ">")
  | TextNode d => if raw then d else escapeText false d
  | Comment d => lit "<!--" ++ d ++ lit "-->"
  end.

(** A page with a doctype, so not in quirks mode, and [blocks] in its
    body. *)
Definition page (blocks : list Node) : Document :=
  mkDocument false (flat_map (outerHTML false) blocks)
    [Element (lit "html") []
       [Element (lit "head") [] []; Element (lit "body") [] blocks]].

(** The same page without a doctype: JSDOM puts it in quirks mode. *)
Definition quirksPage (blocks : list Node) : Document :=
  mkDocument true (flat_map (outerHTML false) blocks)
    [Element (lit "html") []
       [Element (lit "head") [] []; Element (lit "body") [] blocks]].

(** A result block [<div class="g"><h3>t</h3><a href="h">link</a></div>]. *)
Definition resultBlock (t h : jsstring) : Node :=
  Element (lit "div") [(lit "class", lit "g")]
    [Element (lit "h3") [] [TextNode t];
     Element (lit "a") [(lit "href", h)] [TextNode (lit "link")]].

(** A paragraph, and a result block whose class is written [G]. *)
Definition paragraphNode : Node := Element (lit "p") [] [TextNode (lit "nothing here")].

Definition capitalBlock : Node :=
  Element (lit "div") [(lit "class", lit "G")]
    [Element (lit "h3") [] [TextNode (lit "T")];
     Element (lit "a") [(lit "href", lit "https://e.example/")] [TextNode (lit "link")]].

(** One result block whose link is [href=" "]. *)
Definition blankHrefPage : Document := page [resultBlock (lit "T") (lit " ")].

(** Six result blocks. *)
Definition sixResultsPage : Document :=
  page [resultBlock (lit "r1") (lit "https://a.example/1");
        resultBlock (lit "r2") (lit "https://a.example/2");
        resultBlock (lit "r3") (lit "https://a.example/3");
        resultBlock (lit "r4") (lit "https://a.example/4");
        resultBlock (lit "r5") (lit "https://a.example/5");
        resultBlock (lit "r6") (lit "https://a.example/6")].

(** A block as the extractor holds it, and the entry pushed for it. *)
Definition exampleBlock : Elt :=
  mkElt (lit "div") [(lit "class", lit "g")]
    [Element (lit "h3") [] [TextNode (lit " T ")];
     Element (lit "a") [(lit "href", lit "https://e.example/")] []] [] false.

(** A news block
    [<div data-news-cluster-id="1"><div role="heading"> T </div><span> D </span><a href=...></a></div>]. *)
Definition exampleNewsBlock : Elt :=
  mkElt (lit "div") [(lit "data-news-cluster-id", lit "1")]
    [Element (lit "div") [(lit "role", lit "heading")] [TextNode (lit " T ")];
     Element (lit "span") [] [TextNode (lit " D ")];
     Element (lit "a") [(lit "href", lit "https://n.example/")] []] [] false.

Definition exampleEntry : SearchResult :=
  mkSearchResult (lit "T") (lit "https://e.example/") (Some (lit "No description")).

(** Nothing answers: every request is refused. *)
Definition offline : nat -> jsstring -> NetOutcome :=
  fun _ _ => Rejected (JSError (lit "TypeError") (lit "fetch failed")).

Definition examplePage : URL :=
  mkURL (lit "https://example.com/page") (lit "https://example.com") (lit "/page").

Definition tooManyRequests : Response :=
  mkResponse 429 (lit "Too Many Requests") [] [].

Definition notFound : Response := mkResponse 404 (lit "Not Found") [] [].

Definition plainHello : Response :=
  mkResponse 200 (lit "OK") [(lit "content-type", lit "text/plain")] (lit "hello").

(** A network that answers the requests of a call with [outcomes], in the
    order they are issued, and refuses any further request. *)
Definition script (outcomes : list NetOutcome) : nat -> jsstring -> NetOutcome :=
  fun n _ => nth n outcomes (Rejected (JSError (lit "TypeError") (lit "fetch failed"))).

(** A DOM library and a JSON parser for the examples that use neither. *)
Definition noDocument : jsstring -> Document := parsesTo (mkDocument false [] []).
Definition noJSON : jsstring -> Exn + JSON :=
  fun _ => inl (JSError (lit "SyntaxError") (lit "Unexpected token")).
Definition noMarkdown : jsstring -> jsstring := fun html => html.

(** The search endpoint with a query, and a results page served as HTML. *)
Definition searchQuery : URL :=
  mkURL (lit "https://www.google.com/search?q=rocq") (lit "https://www.google.com")
    (lit "/search").

(** The same endpoint named with a user: the origin leaves the user out. *)
Definition searchAsUser : URL :=
  mkURL (lit "https://user@www.google.com/search?q=rocq") (lit "https://www.google.com")
    (lit "/search").

Definition htmlPage : Response :=
  mkResponse 200 (lit "OK") [(lit "content-type", lit "text/html; charset=UTF-8")]
    (lit "<!DOCTYPE html><html><head></head><body></body></html>").

Definition jsonBody : Response :=
  mkResponse 200 (lit "OK") [(lit "content-type", lit "application/json")]
    (lit "{ }").

(** A [404] that comes with a page. *)
Definition notFoundPage : Response :=
  mkResponse 404 (lit "Not Found") [(lit "content-type", lit "text/html")]
    (lit "<h1>Not Found</h1>").

(** A response that declares one byte more than the limit. *)
Definition oversized : Response :=
  mkResponse 200 (lit "OK")
    [(lit "content-type", lit "text/plain"); (lit "content-length", lit "10485761")]
    (lit "hello").

(** A response whose headers announce a JSON body of 99999999 bytes. *)
Definition mislabelled : Response :=
  mkResponse 200 (lit "OK")
    [(lit "content-type", lit "application/json"); (lit "content-length", lit "99999999")]
    (lit "<p>not json</p>").

(** A page of the same site whose path only starts like the search path. *)
Definition searchLabs : URL :=
  mkURL (lit "https://www.google.com/searchlabs") (lit "https://www.google.com")
    (lit "/searchlabs").

Definition textParams : FetchParams := mkFetchParams examplePage Text 30000.
Definition jsonParams : FetchParams := mkFetchParams examplePage Json 30000.

Definition refusedTwiceThenHello : nat -> jsstring -> NetOutcome :=
  script [Responded tooManyRequests; Responded tooManyRequests; Responded plainHello].

Definition parsesToObject : jsstring -> Exn + JSON :=
  fun _ => inr (JObj [(lit "a", JArr [JNum (lit "1"); JNull])]).

(** A network on which the timer fires before the first answer. *)
Definition timesOut : nat -> jsstring -> NetOutcome := script [Rejected AbortError].

(** A network that answers with text first and with JSON when asked again. *)
Definition textThenJson : nat -> jsstring -> NetOutcome :=
  script [Responded plainHello; Responded jsonBody].

(** A search page with three results, and a network on which the second of
    them answers [404 Not Found]. *)
Definition threeResultsPage : Document :=
  page [resultBlock (lit "r1") (lit "https://a.example/1");
        resultBlock (lit "r2") (lit "https://a.example/2");
        resultBlock (lit "r3") (lit "https://a.example/3")].

(** A search page with one result, which has no snippet. *)
Definition oneResultPage : Document :=
  page [resultBlock (lit "T") (lit "https://e.example/")].

Definition searchForRocq : GoogleSearch.SearchParams :=
  GoogleSearch.mkSearchParams (lit "rocq") Text 10 GoogleSearch.Web.

Definition searchForRocqAsJson : GoogleSearch.SearchParams :=
  GoogleSearch.mkSearchParams (lit "rocq") Json 10 GoogleSearch.Web.

Definition secondResultMissing : nat -> jsstring -> NetOutcome :=
  script [Responded htmlPage; Responded plainHello; Responded notFound;
          Responded plainHello].

(** ** [processResponse] and [fetch_url] as functions of the answers *)

(** The outcome of [processResponse] of [src/url-fetcher.ts] for a response:
    the size check, then the search endpoint, then the requested format. *)
Definition processed1 (parseHTML : jsstring -> Document)
  (JSON_parse : jsstring -> Exn + JSON) (htmlToMarkdown : jsstring -> jsstring)
  (r : Response) (rt : ResponseType) (url : URL) : Exn + jsstring :=
  if withinLimit r then
    if isGoogleSearch url
    then inr (UrlFetcherV1.formatResults (UrlFetcherV1.collectResults (parseHTML (body r))) rt)
    else dispatch JSON_parse htmlToMarkdown r rt
  else inl (Error_ (lit "Response too large")).

(** The same for the later revision. *)
Definition processed2 (parseHTML : jsstring -> Document)
  (JSON_parse : jsstring -> Exn + JSON) (htmlToMarkdown : jsstring -> jsstring)
  (r : Response) (rt : ResponseType) (url : URL) : Exn + jsstring :=
  if withinLimit r then
    if isGoogleSearch url then inr (googleText (parseHTML (body r)) rt)
    else dispatch JSON_parse htmlToMarkdown r rt
  else inl (Error_ (lit "Response too large")).

(** What reaches the [catch] of [fetch_url] for an answer of the network:
    the rejection of the request, or what processing a 2xx response throws. *)
Definition thrownBy (process : Response -> Exn + jsstring) (answer : NetOutcome)
  : option Exn :=
  match answer with
  | Rejected e => Some e
  | Responded r =>
      if ok r then match process r with inl e => Some e | inr _ => None end
      else None
  end.

(** The envelopes a [fetch_url] call ends with, for the answer to its last
    request. *)
Inductive FetchUrlResult (process : Response -> Exn + jsstring) (params : FetchParams)
  : NetOutcome -> ToolResult FetchMetadata -> Prop :=
| IsSuccess r processedContent :
    ok r = true -> process r = inr processedContent ->
    FetchUrlResult process params (Responded r) (success params r processedContent)
| IsRateLimited r :
    status r = 429%N ->
    FetchUrlResult process params (Responded r)
      (errorResult (lit "Rate limit exceeded. Please try again later."))
| IsHttpError r :
    ok r = false -> status r <> 429%N ->
    FetchUrlResult process params (Responded r)
      (errorResult (lit "HTTP " ++ Number_toString (status r) ++ lit ": " ++ statusText r))
| IsTimeout answer error :
    thrownBy process answer = Some error -> isAbortError error = true ->
    FetchUrlResult process params answer
      (errorResult (lit "Request timed out after " ++ Number_toString (p_timeout params)
                    ++ lit "ms"))
| IsFailure answer error :
    thrownBy process answer = Some error -> isAbortError error = false ->
    FetchUrlResult process params answer
      (errorResult (lit "Failed to fetch URL: " ++ messageOf error)).

Definition isRequest (e : Event) : bool :=
  match e with EvFetch _ _ => true | _ => false end.

(** The trace of [k] attempts of [fetch_url], the first of which is attempt
    number [attempt]: an attempt is the request and then what processing the
    response does, events that satisfy [during]; a sleep of [getRetryDelay]
    separates it from the next. *)
Inductive attemptsTrace (during : Event -> Prop) (request : Event)
  : nat -> nat -> list Event -> Prop :=
| LastAttempt attempt q :
    Forall during q -> attemptsTrace during request attempt 1 (request :: q)
| RetriedAttempt attempt k q t :
    Forall during q -> attemptsTrace during request (S attempt) k t ->
    attemptsTrace during request attempt (S k)
      (request :: q ++ EvSleep (getRetryDelay attempt) :: t).

(** ** [google-search.ts] before the deep search: one request *)

(** The revision of [google-search.ts] that comes with the later
    [url-fetcher.ts]: it fetches the search page in the format asked for and
    returns what [fetchUrl] extracted.  [buildGoogleSearchUrl] has the same
    text in both revisions. *)
Module SimpleSearch.

Record SearchMetadata : Type := mkSearchMetadata {
  sm_query : jsstring;
  sm_topic : GoogleSearch.Topic;
  sm_maxResults : N;
  sm_responseType : ResponseType
}.

Section Tool.

Variable parseHTML : jsstring -> Document.
Variable htmlToMarkdown : jsstring -> jsstring.

(** The callback registered as [google_search]. *)
Definition google_search (params : GoogleSearch.SearchParams)
  : M (ToolResult SearchMetadata) :=
  try_catch
    (let url :=
       GoogleSearch.buildGoogleSearchUrl (GoogleSearch.query params)
         (GoogleSearch.maxResults params) (GoogleSearch.topic params) in
     results <- UrlFetcher.fetchUrl parseHTML htmlToMarkdown url
                  (GoogleSearch.responseType params) ;;
     ret (mkToolResult
       [mkContent (lit "text")
          (match results with
           | FString s => s
           | _ => JSON_stringify (fetchedToJSON results)
           end)
          (Some (mimeTypeOf (GoogleSearch.responseType params)))]
       (Some (mkSearchMetadata (GoogleSearch.query params) (GoogleSearch.topic params)
                (GoogleSearch.maxResults params) (GoogleSearch.responseType params)))
       false))
    (fun error =>
       ret (errorResult (lit "Failed to execute Google search: " ++ messageOf error))).

End Tool.

End SimpleSearch.

(** The events of the requests for [urls], one [fetchUrl] after the other,
    the first of which is the [n]-th request of the call. *)
Fixpoint fetchesFrom (parseHTML : jsstring -> Document)
  (oracle : nat -> jsstring -> NetOutcome) (n : nat)
  (urls : list (option jsstring)) : list Event :=
  match urls with
  | [] => []
  | u :: rest =>
      (EvFetch (GoogleSearch.urlText u) UrlFetcher.BROWSER_HEADERS
       :: fetchUrlEvents parseHTML (GoogleSearch.urlText u) (oracle n (GoogleSearch.urlText u)))
      ++ fetchesFrom parseHTML oracle (S n) rest
  end.

(** The text of [typeof results === 'string' ? results : JSON.stringify(results, null, 2)]. *)
Definition textOfFetched (results : Fetched) : jsstring :=
  match results with
  | FString s => s
  | _ => JSON_stringify (fetchedToJSON results)
  end.

(** ** Strings that the renderings and the search URL keep apart *)

(** [c] does not occur in [s]. *)
Definition lacks (c : N) (s : jsstring) : bool := forallb (fun x => negb (x =? c)%N) s.

(** [s] has no line terminator. *)
Definition oneLine (s : jsstring) : bool :=
  forallb (fun x => negb (GoogleSearch.isLineTerminator x)) s.

(** An entry whose markdown line [- [title](url)] reads back as one link:
    no [\]] in the title, no [)] in the URL, no line break in either and no
    [\[] in the description. *)
Definition linkSafe (r : SearchResult) : bool :=
  lacks 93 (title r) && oneLine (title r) && lacks 41 (url r) && oneLine (url r)
  && match description r with Some d => lacks 91 d | None => true end.

(** The characters [URLSearchParams] leaves in a name or a value: letters,
    digits, [*-._], [+] for a space and [%] before two hexadecimal digits. *)
Definition isFormSafe (c : N) : bool :=
  ((48 <=? c) && (c <=? 57) || (65 <=? c) && (c <=? 90) || (97 <=? c) && (c <=? 122)
   || (c =? 42) || (c =? 45) || (c =? 46) || (c =? 95) || (c =? 43) || (c =? 37))%N.

(** A sequence of UTF-16 code units. *)
Definition codeUnits (s : jsstring) : Prop := Forall (fun c => (c < 65536)%N) s.

(** ** Regular expressions *)

(** The part of ECMAScript regular expressions that the patterns of
    [htmlToMarkdown] use, as a backtracking matcher in continuation passing
    style: characters, [.], classes, [\s], sequence, alternation, greedy and
    lazy [*], capturing groups and back references, with or without the [i]
    flag. *)
Module RegExp.

Inductive Re : Type :=
| Chr (c : N)                                   (* a pattern character *)
| Dot                                           (* [.] *)
| Cls (negated : bool) (ranges : list (N * N))  (* [[a-b]], [[^a]] *)
| Space                                         (* [\s] *)
| Cat (a b : Re)
| Alt (a b : Re)                                (* [a|b] *)
| Star (greedy : bool) (a : Re)                 (* [a*], [a*?] *)
| Group (index : nat) (a : Re)                  (* the [index]-th [( )] *)
| Backref (index : nat)                         (* [\1] *)
| Eps.

(** The captures: the text of each group that has matched, the latest
    first. *)
Definition Captures := list (nat * jsstring).

Fixpoint capture (n : nat) (caps : Captures) : option jsstring :=
  match caps with
  | [] => None
  | (k, t) :: caps' => if Nat.eqb k n then Some t else capture n caps'
  end.

(** The text of a group as a replacement sees it: empty when the group did
    not take part in the match. *)
Definition captured (n : nat) (caps : Captures) : jsstring :=
  match capture n caps with Some t => t | None => [] end.

Definition clear (groups : list nat) (caps : Captures) : Captures :=
  filter (fun kt => negb (existsb (Nat.eqb (fst kt)) groups)) caps.

Fixpoint groupsOf (r : Re) : list nat :=
  match r with
  | Cat a b | Alt a b => groupsOf a ++ groupsOf b
  | Star _ a => groupsOf a
  | Group n a => n :: groupsOf a
  | _ => []
  end.

Definition toUpper (c : N) : N := if ((97 <=? c) && (c <=? 122))%N then (c - 32)%N else c.
Definition toLower (c : N) : N := if ((65 <=? c) && (c <=? 90))%N then (c + 32)%N else c.

(** [Canonicalize] without the [u] flag.  The characters and the class
    ranges of the patterns are ASCII, and so are the texts their back
    references point to; in a comparison with an ASCII character the
    canonical form is the ASCII upper case, a character outside ASCII never
    being mapped into ASCII. *)
Definition canonicalize (ignoreCase : bool) (c : N) : N :=
  if ignoreCase then toUpper c else c.

Definition inRanges (ranges : list (N * N)) (c : N) : bool :=
  existsb (fun r => (fst r <=? c)%N && (c <=? snd r)%N) ranges.

Definition inClass (ignoreCase : bool) (ranges : list (N * N)) (c : N) : bool :=
  inRanges ranges c
  || (ignoreCase && (inRanges ranges (toUpper c) || inRanges ranges (toLower c))).

(** [s] starts with [t], up to canonicalisation. *)
Fixpoint startsWithCanon (ignoreCase : bool) (s t : jsstring) : bool :=
  match t, s with
  | [], _ => true
  | y :: t', x :: s' =>
      (canonicalize ignoreCase x =? canonicalize ignoreCase y)%N
      && startsWithCanon ignoreCase s' t'
  | _ :: _, [] => false
  end.

(** A match in progress: what is left of the input, and the captures. *)
Definition State : Type := jsstring * Captures.
Definition Continuation : Type := jsstring -> Captures -> option State.
Definition Matcher : Type := jsstring -> Captures -> Continuation -> option State.

(** [RepeatMatcher] for [*]: one more iteration of [m], which must consume
    input, or the continuation; the greedy form tries the iteration first.
    The captures of the groups inside are reset before each iteration.
    [fuel] is more than the length of the input, so it never runs out. *)
Fixpoint repeatMatcher (m : Matcher) (greedy : bool) (groups : list nat) (fuel : nat)
  : Matcher :=
  fun s caps k =>
    let again (_ : unit) :=
      match fuel with
      | O => None
      | S fuel' =>
          m s (clear groups caps)
            (fun s' caps' =>
               if Nat.ltb (length s') (length s)
               then repeatMatcher m greedy groups fuel' s' caps' k
               else None)
      end in
    if greedy then
      match again tt with
      | Some x => Some x
      | None => k s caps
      end
    else
      match k s caps with
      | Some x => Some x
      | None => again tt
      end.

Fixpoint compile (ignoreCase : bool) (r : Re) : Matcher :=
  match r with
  | Chr c => fun s caps k =>
      match s with
      | x :: s' =>
          if (canonicalize ignoreCase x =? canonicalize ignoreCase c)%N
          then k s' caps else None
      | [] => None
      end
  | Dot => fun s caps k =>
      match s with
      | x :: s' => if GoogleSearch.isLineTerminator x then None else k s' caps
      | [] => None
      end
  | Cls negated ranges => fun s caps k =>
      match s with
      | x :: s' => if xorb negated (inClass ignoreCase ranges x) then k s' caps else None
      | [] => None
      end
  | Space => fun s caps k =>
      match s with
      | x :: s' => if isWhiteSpace x then k s' caps else None
      | [] => None
      end
  | Cat a b => fun s caps k =>
      compile ignoreCase a s caps (fun s' caps' => compile ignoreCase b s' caps' k)
  | Alt a b => fun s caps k =>
      match compile ignoreCase a s caps k with
      | Some x => Some x
      | None => compile ignoreCase b s caps k
      end
  | Star greedy a => fun s caps k =>
      repeatMatcher (compile ignoreCase a) greedy (groupsOf a) (S (length s)) s caps k
  | Group n a => fun s caps k =>
      compile ignoreCase a s caps
        (fun s' caps' => k s' ((n, firstn (length s - length s') s) :: caps'))
  | Backref n => fun s caps k =>
      match capture n caps with
      | None => k s caps
      | Some t =>
          if startsWithCanon ignoreCase s t then k (skipn (length t) s) caps else None
      end
  | Eps => fun s caps k => k s caps
  end.

(** The match that starts at the beginning of [s], if there is one: what
    follows it, and its captures. *)
Definition execAt (ignoreCase : bool) (r : Re) (s : jsstring) : option State :=
  compile ignoreCase r s [] (fun s' caps => Some (s', caps)).

(** [s.replace(/r/g, f)] with a function [f] of the matched text and the
    captures: the matches are found from left to right, none overlapping the
    one before, and an empty match is followed by one character of [s].
    [skip] characters are still inside the previous match. *)
Fixpoint replaceFrom (ignoreCase : bool) (r : Re) (f : jsstring -> Captures -> jsstring)
  (s : jsstring) (skip : nat) : jsstring :=
  match skip with
  | S k =>
      match s with
      | [] => []
      | _ :: s' => replaceFrom ignoreCase r f s' k
      end
  | O =>
      match execAt ignoreCase r s with
      | Some (rest, caps) =>
          let n := length s - length rest in
          f (firstn n s) caps ++
          match s with
          | [] => []
          | c :: s' =>
              match n with
              | O => c :: replaceFrom ignoreCase r f s' 0
              | S m => replaceFrom ignoreCase r f s' m
              end
          end
      | None =>
          match s with
          | [] => []
          | c :: s' => c :: replaceFrom ignoreCase r f s' 0
          end
      end
  end.

Definition replace (ignoreCase : bool) (r : Re) (f : jsstring -> Captures -> jsstring)
  (s : jsstring) : jsstring :=
  replaceFrom ignoreCase r f s 0.

Definition digitOf (c : N) : option nat :=
  if ((48 <=? c) && (c <=? 57))%N then Some (N.to_nat (c - 48)) else None.

(** [GetSubstitution] for a replacement given as a string, for a pattern
    with [m] groups: [$$], [$&], [$n] and [$nn].  The forms that refer to the
    text around the match are not used by the code and are left as they
    are. *)
Fixpoint substitute (m : nat) (template : jsstring) (matched : jsstring) (caps : Captures)
  : jsstring :=
  match template with
  | [] => []
  | c :: rest =>
      if (c =? 36)%N then
        match rest with
        | [] => [c]
        | d :: rest' =>
            if (d =? 36)%N then 36%N :: substitute m rest' matched caps
            else if (d =? 38)%N then matched ++ substitute m rest' matched caps
            else
              match digitOf d with
              | None => c :: substitute m rest matched caps
              | Some n1 =>
                  let one :=
                    if Nat.leb 1 n1 && Nat.leb n1 m
                    then captured n1 caps ++ substitute m rest' matched caps
                    else c :: substitute m rest matched caps in
                  match rest' with
                  | [] => one
                  | e :: rest'' =>
                      match digitOf e with
                      | None => one
                      | Some n2 =>
                          if Nat.leb 1 (10 * n1 + n2) && Nat.leb (10 * n1 + n2) m
                          then captured (10 * n1 + n2) caps
                               ++ substitute m rest'' matched caps
                          else one
                      end
                  end
              end
        end
      else c :: substitute m rest matched caps
  end.

(** Patterns written as in the source. *)
Fixpoint chars (s : jsstring) : Re :=
  match s with
  | [] => Eps
  | [c] => Chr c
  | c :: s' => Cat (Chr c) (chars s')
  end.

Definition str (s : string) : Re := chars (lit s).
Arguments str s%_string.

Fixpoint seq (rs : list Re) : Re :=
  match rs with
  | [] => Eps
  | [r] => r
  | r :: rs' => Cat r (seq rs')
  end.

(** [[^c]] *)
Definition notChar (c : N) : Re := Cls true [(c, c)].

End RegExp.

(** ** [htmlToMarkdown], the same text in both revisions *)

Module Markdown.
Import RegExp.

(** [/<h[1-6][^>]*>(.*?)<\/h[1-6]>/gi] *)
Definition heading : Re :=
  seq [str "<h"; Cls false [(49, 54)%N]; Star true (notChar 62); str ">";
       Group 1 (Star false Dot); str "</h"; Cls false [(49, 54)%N]; str ">"].

(** [/<(strong|b)>(.*?)<\/\1>/gi] *)
Definition bold : Re :=
  seq [str "<"; Group 1 (Alt (str "strong") (str "b")); str ">";
       Group 2 (Star false Dot); str "</"; Backref 1; str ">"].

(** [/<(em|i)>(.*?)<\/\1>/gi] *)
Definition italic : Re :=
  seq [str "<"; Group 1 (Alt (str "em") (str "i")); str ">";
       Group 2 (Star false Dot); str "</"; Backref 1; str ">"].

(** The pattern of links, with the flags [gi]: [<a[^>]*href=], a double
    quote, group 1 for the characters up to the next double quote, that
    quote, [[^>]*>(.*?)<\/a>]. *)
Definition link : Re :=
  seq [str "<a"; Star true (notChar 62); str "href="; Chr 34;
       Group 1 (Star true (notChar 34)); Chr 34; Star true (notChar 62); str ">";
       Group 2 (Star false Dot); str "</a>"].

(** [/<(ul|ol)[^>]*>(.*?)<\/\1>/gi] *)
Definition listBlock : Re :=
  seq [str "<"; Group 1 (Alt (str "ul") (str "ol")); Star true (notChar 62); str ">";
       Group 2 (Star false Dot); str "</"; Backref 1; str ">"].

(** [/<li[^>]*>(.*?)<\/li>/gi] *)
Definition item : Re :=
  seq [str "<li"; Star true (notChar 62); str ">"; Group 1 (Star false Dot); str "</li>"].

(** [/<p[^>]*>(.*?)<\/p>/gi] *)
Definition paragraph : Re :=
  seq [str "<p"; Star true (notChar 62); str ">"; Group 1 (Star false Dot); str "</p>"].

(** [/<[^>]*>/g] *)
Definition tag : Re := seq [str "<"; Star true (notChar 62); str ">"].

(** [/\n\s*\n/g] *)
Definition blankLines : Re := seq [Chr 10; Star true Space; Chr 10].

(** A replacement given as a string. *)
Definition template (m : nat) (t : jsstring) : jsstring -> Captures -> jsstring :=
  fun matched caps => substitute m t matched caps.

(** The steps of the pipeline, in the order of the source. *)
Definition headers (s : jsstring) : jsstring :=
  replace true heading (fun _ caps => nl ++ lit "# " ++ trim (captured 1 caps) ++ nl) s.

Definition bolds (s : jsstring) : jsstring :=
  replace true bold (template 2 (lit "**$2**")) s.

Definition italics (s : jsstring) : jsstring :=
  replace true italic (template 2 (lit "*$2*")) s.

Definition links (s : jsstring) : jsstring :=
  replace true link (template 2 (lit "[$2]($1)")) s.

Definition lists (s : jsstring) : jsstring :=
  replace true listBlock
    (fun _ caps =>
       let type := captured 1 caps in
       let content := captured 2 caps in
       replace true item
         (template 1 (if str_eqb type (lit "ul") then lit "- $1" ++ nl
                      else lit "1. $1" ++ nl))
         content)
    s.

Definition paragraphs (s : jsstring) : jsstring :=
  replace true paragraph (template 1 (nl ++ lit "$1" ++ nl)) s.

(** Remove remaining HTML tags. *)
Definition stripTags (s : jsstring) : jsstring :=
  replace false tag (template 0 []) s.

(** Fix spacing. *)
Definition fixSpacing (s : jsstring) : jsstring :=
  replace false blankLines (template 0 (nl ++ nl)) s.

End Markdown.

(** Convert HTML to Markdown. *)
Definition htmlToMarkdown (html : jsstring) : jsstring :=
  trim (Markdown.fixSpacing (Markdown.stripTags (Markdown.paragraphs (Markdown.lists
    (Markdown.links (Markdown.italics (Markdown.bolds (Markdown.headers html)))))))).

(** ** Tags in a text *)

(** [<] and [>]. *)
Definition isAngle (c : N) : bool := ((c =? 60) || (c =? 62))%N.

Definition angles (s : jsstring) : jsstring := filter isAngle s.

(** Some [<] of [s] has a [>] after it: [s] has a substring that
    [/<[^>]*>/] matches. *)
Fixpoint hasTag (s : jsstring) : bool :=
  match s with
  | [] => false
  | c :: s' => ((c =? 60)%N && negb (lacks 62 s')) || hasTag s'
  end.

(** What follows the first [>] of [s]. *)
Fixpoint afterGt (s : jsstring) : option jsstring :=
  match s with
  | [] => None
  | c :: s' => if (c =? 62)%N then Some s' else afterGt s'
  end.

(** The pattern [r] can only match at a character equal to [c]. *)
Fixpoint startsWithChr (c : N) (r : RegExp.Re) : bool :=
  match r with
  | RegExp.Chr x => (x =? c)%N
  | RegExp.Cat a _ => startsWithChr c a
  | RegExp.Group _ a => startsWithChr c a
  | _ => false
  end.

(** The pattern [r] can only match white space. *)
Fixpoint onlySpace (r : RegExp.Re) : bool :=
  match r with
  | RegExp.Chr c => isWhiteSpace c
  | RegExp.Space | RegExp.Eps => true
  | RegExp.Cat a b | RegExp.Alt a b => onlySpace a && onlySpace b
  | RegExp.Star _ a | RegExp.Group _ a => onlySpace a
  | _ => false
  end.

(** What follows the last line feed of the white space [s] starts with: where
    [/\s*\n/] ends its match at the start of [s]. *)
Fixpoint afterLastNewline (s : jsstring) : option jsstring :=
  match s with
  | [] => None
  | c :: s' =>
      if isWhiteSpace c then
        match afterLastNewline s' with
        | Some rest => Some rest
        | None => if (c =? 10)%N then Some s' else None
        end
      else None
  end.

(** The character a match of the pattern [r] ends with. *)
Fixpoint lastChr (r : RegExp.Re) : option N :=
  match r with
  | RegExp.Chr c => Some c
  | RegExp.Cat _ b => lastChr b
  | _ => None
  end.

(** A pattern whose matches start with [<] and end with [>]. *)
Definition matchesATag (r : RegExp.Re) : bool :=
  startsWithChr 60 r && match lastChr r with Some c => (c =? 62)%N | None => false end.

(** Only white space. *)
Definition blank (s : jsstring) : Prop := forallb isWhiteSpace s = true.

(** A matcher that consumes only white space before it calls its
    continuation. *)
Definition consumesBlank (m : RegExp.Matcher) : Prop :=
  forall s caps k x,
    m s caps k = Some x ->
    exists pre s' caps', s = pre ++ s' /\ blank pre /\ k s' caps' = Some x.

(** A matcher whose match is a prefix of the input: the continuation is
    called with what follows it. *)
Definition consumesPrefix (m : RegExp.Matcher) : Prop :=
  forall s caps k x,
    m s caps k = Some x -> exists pre s' caps', s = pre ++ s' /\ k s' caps' = Some x.

(** ** Elements *)

(** The name [t] up to the case of its letters. *)
Definition foldCase (t : jsstring) : jsstring := map (RegExp.canonicalize true) t.

(** The element [<open attrs>x</close>]. *)
Definition element (open attrs x close : jsstring) : jsstring :=
  lit "<" ++ open ++ attrs ++ lit ">" ++ x ++ lit "</" ++ close ++ lit ">".

(** The items [<li>x</li>] of a list, one after the other. *)
Definition listItems (items : list jsstring) : jsstring :=
  concat (map (fun x => element (lit "li") [] x (lit "li")) items).

(** [1] to [6]. *)
Definition isLevel (n : N) : bool := ((49 <=? n) && (n <=? 54))%N.

(** [h1] to [h6], in either case. *)
Definition isHeadingName (t : jsstring) : bool :=
  match t with
  | [h; n] => (RegExp.canonicalize true h =? RegExp.canonicalize true 104)%N && isLevel n
  | _ => false
  end.

(** [<(A|B)>(.*?)<\/\1>], with [[^>]*] before the first [>] when the
    element may have attributes: the pattern of [Markdown.bold], of
    [Markdown.italic] and of [Markdown.listBlock]. *)
Definition container (A B : jsstring) (attributes : bool) : RegExp.Re :=
  RegExp.seq
    ([RegExp.str "<"; RegExp.Group 1 (RegExp.Alt (RegExp.chars A) (RegExp.chars B))]
     ++ (if attributes then [RegExp.Star true (RegExp.notChar 62)] else [])
     ++ [RegExp.str ">"; RegExp.Group 2 (RegExp.Star false RegExp.Dot);
         RegExp.str "</"; RegExp.Backref 1; RegExp.str ">"]).

(** [<name[^>]*>(.*?)<\/name>], the pattern of [Markdown.item] and of
    [Markdown.paragraph]. *)
Definition simple (name : jsstring) : RegExp.Re :=
  RegExp.seq [RegExp.chars (lit "<" ++ name); RegExp.Star true (RegExp.notChar 62);
              RegExp.str ">"; RegExp.Group 1 (RegExp.Star false RegExp.Dot);
              RegExp.chars (lit "</" ++ name ++ lit ">")].

(** What is left of the pattern [r] after a [<]. *)
Fixpoint afterLt (r : RegExp.Re) : option RegExp.Re :=
  match r with
  | RegExp.Chr c => if (c =? 60)%N then Some RegExp.Eps else None
  | RegExp.Cat a b =>
      match afterLt a with
      | Some RegExp.Eps => Some b
      | Some a' => Some (RegExp.Cat a' b)
      | None => None
      end
  | _ => None
  end.

(** The characters a match of [r] starts with. *)
Fixpoint firstChrs (r : RegExp.Re) : option (list N) :=
  match r with
  | RegExp.Chr c => Some [c]
  | RegExp.Cat a _ | RegExp.Group _ a => firstChrs a
  | RegExp.Alt a b =>
      match firstChrs a, firstChrs b with
      | Some x, Some y => Some (x ++ y)
      | _, _ => None
      end
  | _ => None
  end.

(** The characters that follow the [<] in a match of [r]. *)
Definition openers (r : RegExp.Re) : option (list N) :=
  match afterLt r with
  | Some r' => firstChrs r'
  | None => None
  end.

(** [d] is none of [cs], in either case. *)
Definition notOpenedBy (cs : list N) (d : N) : bool :=
  forallb (fun c => negb (RegExp.canonicalize true d =? RegExp.canonicalize true c)%N) cs.

(** No [<] of [s] is followed by one of [cs]. *)
Fixpoint unopened (cs : list N) (s : jsstring) : bool :=
  match s with
  | [] => true
  | c :: s' =>
      (if (c =? 60)%N then match s' with d :: _ => notOpenedBy cs d | [] => true end else true)
      && unopened cs s'
  end.

(** [n] starts at some position of [x] in the text [x ++ rest], up to
    case. *)
Fixpoint occursBefore (n x rest : jsstring) : bool :=
  match x with
  | [] => false
  | _ :: x' => RegExp.startsWithCanon true (x ++ rest) n || occursBefore n x' rest
  end.

(** Some position of [s] starts with [n], up to case. *)
Definition occurs (n s : jsstring) : bool := occursBefore n s [].

(** A text that can stand inside a tag: it has no [<] and no [>]. *)
Definition insideTag (a : jsstring) : bool := lacks 60 a && lacks 62 a.

(** The lines [bullet x], one for each item. *)
Definition bulleted (bullet : jsstring) (items : list jsstring) : jsstring :=
  concat (map (fun x => bullet ++ x ++ nl) items).

(** Every item is on one line and has no [<]. *)
Definition plainItems (items : list jsstring) : bool :=
  forallb (fun x => oneLine x && lacks 60 x) items.

(** A page with a heading and a paragraph. *)
Definition articlePage : Response :=
  mkResponse 200 (lit "OK") [(lit "content-type", lit "text/html")]
    (lit "<h1>Title</h1><p>Hello <b>world</b> and <i>it</i></p>").

(* ================================================================= *)
(** * Properties *)

(** ** Evaluations of the string functions *)

Example trim_ex : trim (lit "  a b ") = lit "a b".
Proof. reflexivity. Qed.

Example toString_ex : Number_toString 404 = lit "404" /\ Number_toString 0 = lit "0"
  /\ Number_toString 1000 = lit "1000" /\ Number_toString 10485761 = lit "10485761".
Proof. repeat split. Qed.

Example parseInt_ex :
  parseInt (lit " 12px") = Some 12%Z /\ parseInt (lit "abc") = None /\
  parseInt (lit "0x10") = Some 16%Z /\ parseInt (lit "-7") = Some (-7)%Z /\
  parseInt (lit "") = None.
Proof. repeat split. Qed.

Example stringify_ex :
  JSON_stringify (JArr [JObj [(lit "a", JStr (lit "x")); (lit "b", JArr [])]; JNull])
  = lit "[" ++ nl ++ lit "  {" ++ nl ++ lit "    " ++ dq ++ lit "a" ++ dq ++ lit ": "
    ++ dq ++ lit "x" ++ dq ++ lit "," ++ nl ++ lit "    " ++ dq ++ lit "b" ++ dq
    ++ lit ": []" ++ nl ++ lit "  }," ++ nl ++ lit "  null" ++ nl ++ lit "]".
Proof. reflexivity. Qed.

(** ** Strings *)

Lemma str_eqb_eq (a b : jsstring) : str_eqb a b = true <-> a = b.
Proof.
  revert b; induction a as [|x a IH]; intros [|y b]; simpl; split;
    try congruence; try discriminate.
  - rewrite andb_true_iff, N.eqb_eq, IH. intros [-> ->]. reflexivity.
  - intros H; injection H as -> ->. now rewrite N.eqb_refl, (proj2 (IH b)).
Qed.

Lemma truthy_nonempty (s : jsstring) : truthy s = true <-> s <> [].
Proof. destruct s; simpl; split; congruence. Qed.

Lemma orElse_truthy (a b : jsstring) : truthy a = true -> orElse a b = a.
Proof. unfold orElse. now intros ->. Qed.

(** ** Running the effects *)

Lemma runs_ret {A} (a : A) : runs (ret a) (inr a) [].
Proof. intros [n i t]. unfold ret. simpl. now rewrite app_nil_r. Qed.

Lemma runs_throw {A} (e : Exn) : runs (@throw A e) (inl e) [].
Proof. intros [n i t]. unfold throw. simpl. now rewrite app_nil_r. Qed.

Lemma runs_emit (e : Event) : runs (emit e) (inr tt) [e].
Proof. intros w. reflexivity. Qed.

Lemma runs_bind {A B} (m : M A) (k : A -> M B) a t b t' :
  runs m (inr a) t -> runs (k a) b t' -> runs (bind m k) b (t ++ t').
Proof.
  intros Hm Hk w. unfold bind. rewrite Hm, Hk. simpl. now rewrite app_assoc.
Qed.

Lemma runs_text (r : Response) : runs (text r) (inr (body r)) [EvReadBody].
Proof.
  unfold text. change [EvReadBody] with ([EvReadBody] ++ []).
  eapply runs_bind; [apply runs_emit | apply runs_ret].
Qed.

Lemma runs_bind_cons {A B} (m : M A) (k : A -> M B) a e b t :
  runs m (inr a) [e] -> runs (k a) b t -> runs (bind m k) b (e :: t).
Proof. apply (runs_bind m k a [e] b t). Qed.

Lemma runs_console_log (msg : jsstring) : runs (console_log msg) (inr tt) [EvConsoleLog msg].
Proof. apply runs_emit. Qed.

Lemma runs_eventsOf {A} (m : M A) (a : Exn + A) (t : list Event) :
  runs m a t -> eventsOf m = t.
Proof. intros H. unfold eventsOf. now rewrite H. Qed.

(** ** The result extractor *)

(** A pass never pushes more than one entry for a block, and never removes
    one: it maps each block to a list of at most one entry. *)
Lemma fold_left_push {A B} (f : list B -> A -> list B) (g : A -> list B) :
  (forall acc x, f acc x = acc ++ g x) ->
  forall xs acc, fold_left f xs acc = acc ++ flat_map g xs.
Proof.
  intros Hf xs; induction xs as [|x xs IH]; simpl; intros acc.
  - now rewrite app_nil_r.
  - now rewrite IH, Hf, <- app_assoc.
Qed.

Module V1Facts.
Import UrlFetcherV1.

Lemma v1_visit_push (results : list SearchResult) (div : Elt) :
  visit results div = results ++ accepted1 div.
Proof.
  unfold accepted1, visit.
  destruct (truthy _ && truthy_opt _); simpl; now rewrite ?app_nil_r.
Qed.

Lemma v1_accepted_inv (div : Elt) (r : SearchResult) :
  In r (accepted1 div) ->
  exists titleEl linkEl,
    querySelector div sel_h3 = Some titleEl /\
    querySelector div sel_a = Some linkEl /\
    title r = trim (textContent titleEl) /\ title r <> [] /\
    getAttribute linkEl (lit "href") = Some (url r) /\ url r <> [].
Proof.
  unfold accepted1, visit.
  destruct (querySelector div sel_h3) as [titleEl|]; simpl;
    [|intros []].
  destruct (truthy (trim (textContent titleEl))) eqn:Ht; simpl; [|intros []].
  destruct (querySelector div sel_a) as [linkEl|]; simpl; [|intros []].
  destruct (getAttribute linkEl (lit "href")) as [h|] eqn:Hh; simpl; [|intros []].
  destruct (truthy h) eqn:Hu; simpl; [|intros []].
  intros [<-|[]]. exists titleEl, linkEl. simpl.
  rewrite !orElse_truthy by assumption.
  repeat split; auto; now apply truthy_nonempty.
Qed.

Lemma v1_accepted_length (div : Elt) : length (accepted1 div) <= 1.
Proof.
  unfold accepted1, visit. destruct (truthy _ && truthy_opt _); simpl; lia.
Qed.

Lemma scan_flat_map (divs : list Elt) (results : list SearchResult) :
  scan divs results = results ++ flat_map accepted1 (firstn MAX_SEARCH_RESULTS divs).
Proof.
  unfold scan. rewrite (fold_left_push visit accepted1 v1_visit_push).
  f_equal. f_equal.
  destruct (Nat.le_ge_cases MAX_SEARCH_RESULTS (length divs)) as [H|H].
  - now rewrite Nat.min_l.
  - rewrite Nat.min_r by assumption. rewrite !firstn_all2; auto.
Qed.

Lemma flat_map_length_le {A B} (g : A -> list B) (xs : list A) :
  (forall x, length (g x) <= 1) -> length (flat_map g xs) <= length xs.
Proof.
  intros Hg; induction xs as [|x xs IH]; simpl; auto.
  rewrite length_app. specialize (Hg x). lia.
Qed.

Lemma v1_collectResults_flat_map (doc : Document) :
  collectResults doc = flat_map accepted1 (firstn MAX_SEARCH_RESULTS (candidates1 doc)).
Proof.
  unfold collectResults, candidates1. cbv zeta. rewrite scan_flat_map, app_nil_l.
  destruct (flat_map accepted1 (firstn MAX_SEARCH_RESULTS (querySelectorAll doc sel_div_g)))
    as [|r rs] eqn:E; cbn [length Nat.eqb].
  - now rewrite scan_flat_map, app_nil_l.
  - now rewrite E.
Qed.

(** The JSDOM based extractor looks at no more than [MAX_SEARCH_RESULTS]
    blocks, so it returns no more than that many entries, in document
    order. *)
Lemma v1_collectResults_cap (doc : Document) :
  length (collectResults doc) <= MAX_SEARCH_RESULTS.
Proof.
  rewrite v1_collectResults_flat_map.
  etransitivity; [apply flat_map_length_le, v1_accepted_length|].
  apply firstn_le_length.
Qed.

Lemma v1_collectResults_nonEmpty (doc : Document) :
  Forall nonEmptyEntry (collectResults doc).
Proof.
  rewrite v1_collectResults_flat_map. apply Forall_forall. intros r Hr.
  apply in_flat_map in Hr as (div & _ & Hr).
  apply v1_accepted_inv in Hr as (t & l & _ & _ & _ & Ht & _ & Hu).
  split; assumption.
Qed.

End V1Facts.

Module V2Facts.
Import UrlFetcher.

Lemma v2_visit_push titleEl linkEl snippetEl (results : list SearchResult) :
  visit titleEl linkEl snippetEl results
  = results ++ visit titleEl linkEl snippetEl [].
Proof.
  unfold visit. destruct titleEl, linkEl; try now rewrite app_nil_r.
  destruct (getAttribute _ _); [|now rewrite app_nil_r].
  destruct (truthy _ && truthy _); now rewrite ?app_nil_r.
Qed.

Lemma v2_visit_inv titleEl linkEl snippetEl (r : SearchResult) :
  In r (visit titleEl linkEl snippetEl []) ->
  exists t l,
    titleEl = Some t /\ linkEl = Some l /\
    title r = trim (textContent t) /\ title r <> [] /\
    getAttribute l (lit "href") = Some (url r) /\ url r <> [].
Proof.
  unfold visit. destruct titleEl as [t|], linkEl as [l|]; try (intros []).
  destruct (getAttribute l (lit "href")) as [h|] eqn:Hh; [|intros []].
  destruct (truthy (trim (textContent t))) eqn:Ht; simpl; [|intros []].
  destruct (truthy h) eqn:Hu; simpl; [|intros []].
  intros [<-|[]]. exists t, l. simpl.
  repeat split; auto; now apply truthy_nonempty.
Qed.

Lemma visitNews_push results element :
  visitNews results element = results ++ acceptedNews element.
Proof. unfold acceptedNews, visitNews. apply v2_visit_push. Qed.

Lemma visitGeneral_push results element :
  visitGeneral results element = results ++ acceptedGeneral element.
Proof. unfold acceptedGeneral, visitGeneral. apply v2_visit_push. Qed.

(** The three passes, each over every block the selector finds. *)
Lemma v2_collectResults_flat_map (document : Document) :
  collectResults document =
  match flat_map acceptedNews (querySelectorAll document sel_news) with
  | (_ :: _) as news => news
  | [] =>
      match flat_map acceptedGeneral (querySelectorAll document sel_g) with
      | (_ :: _) as general => general
      | [] => flat_map acceptedGeneral (querySelectorAll document sel_div_tF2Cxc)
      end
  end.
Proof.
  unfold collectResults. cbv zeta.
  rewrite (fold_left_push visitNews acceptedNews visitNews_push), app_nil_l.
  destruct (flat_map acceptedNews _) as [|r rs]; cbn [length Nat.eqb]; [|reflexivity].
  rewrite (fold_left_push visitGeneral acceptedGeneral visitGeneral_push), app_nil_l.
  destruct (flat_map acceptedGeneral _) as [|r rs]; cbn [length Nat.eqb]; [|reflexivity].
  now rewrite (fold_left_push visitGeneral acceptedGeneral visitGeneral_push), app_nil_l.
Qed.

Lemma acceptedNews_nonEmpty element : Forall nonEmptyEntry (acceptedNews element).
Proof.
  apply Forall_forall. intros r Hr. unfold acceptedNews, visitNews in Hr.
  apply v2_visit_inv in Hr as (t & l & _ & _ & _ & Ht & _ & Hu). split; assumption.
Qed.

Lemma acceptedGeneral_nonEmpty element : Forall nonEmptyEntry (acceptedGeneral element).
Proof.
  apply Forall_forall. intros r Hr. unfold acceptedGeneral, visitGeneral in Hr.
  apply v2_visit_inv in Hr as (t & l & _ & _ & _ & Ht & _ & Hu). split; assumption.
Qed.

Lemma Forall_flat_map {A B} (P : B -> Prop) (g : A -> list B) (xs : list A) :
  (forall x, Forall P (g x)) -> Forall P (flat_map g xs).
Proof.
  intros Hg; induction xs as [|x xs IH]; simpl; [constructor|].
  apply Forall_app; auto.
Qed.

Lemma v2_collectResults_nonEmpty (document : Document) :
  Forall nonEmptyEntry (collectResults document).
Proof.
  rewrite v2_collectResults_flat_map.
  destruct (flat_map acceptedNews _) as [|r rs] eqn:En.
  - destruct (flat_map acceptedGeneral (querySelectorAll document sel_g)) as [|r rs] eqn:Eg.
    + apply Forall_flat_map, acceptedGeneral_nonEmpty.
    + rewrite <- Eg. apply Forall_flat_map, acceptedGeneral_nonEmpty.
  - rewrite <- En. apply Forall_flat_map, acceptedNews_nonEmpty.
Qed.

(** The callbacks and the loop with their console output: they compute
    what [visit] and [collectResults] say and add lines to the console. *)
Lemma pushOrReport_runs kind index titleEl linkEl snippetEl results :
  exists log,
    runs (pushOrReport kind index titleEl linkEl snippetEl results)
      (inr (visit titleEl linkEl snippetEl results)) (map EvConsoleLog log).
Proof.
  unfold pushOrReport, visit.
  destruct titleEl as [t|], linkEl as [l|]; try (exists []; apply runs_ret).
  destruct (getAttribute l (lit "href")) as [h|]; cbn [truthy_opt orElse_opt].
  - destruct (truthy (trim (textContent t)) && truthy h) eqn:E.
    + exists []. apply andb_true_iff in E as [_ Hh]. unfold orElse. rewrite Hh.
      apply runs_ret.
    + eexists [_]. cbn [map].
      eapply runs_bind_cons; [apply runs_console_log|apply runs_ret].
  - rewrite andb_false_r. eexists [_]. cbn [map].
    eapply runs_bind_cons; [apply runs_console_log|apply runs_ret].
Qed.

Lemma newsCallback_runs element index results :
  exists log,
    runs (newsCallback element index results) (inr (visitNews results element))
      (map EvConsoleLog log).
Proof.
  unfold newsCallback, visitNews.
  destruct (pushOrReport_runs (lit "news") index (querySelector element sel_heading)
              (querySelector element sel_a)
              (match querySelector element sel_heading with
               | Some t => nextElementSibling t
               | None => None
               end) results) as [log Hlog].
  eexists (_ :: log). cbn [map].
  eapply runs_bind_cons; [apply runs_console_log|exact Hlog].
Qed.

Lemma generalCallback_runs kind element index results :
  exists log,
    runs (generalCallback kind element index results) (inr (visitGeneral results element))
      (map EvConsoleLog log).
Proof.
  unfold generalCallback, visitGeneral.
  destruct (pushOrReport_runs kind index (querySelector element sel_h3)
              (querySelector element sel_a) (querySelector element sel_snippet) results)
    as [log Hlog].
  eexists (_ :: log). cbn [map].
  eapply runs_bind_cons; [apply runs_console_log|exact Hlog].
Qed.

Lemma forEach_runs {A} (callback : A -> nat -> list SearchResult -> M (list SearchResult))
  (step : list SearchResult -> A -> list SearchResult) :
  (forall element index results,
      exists log,
        runs (callback element index results) (inr (step results element))
          (map EvConsoleLog log)) ->
  forall elements index results,
    exists log,
      runs (forEach callback elements index results) (inr (fold_left step elements results))
        (map EvConsoleLog log).
Proof.
  intros Hc. induction elements as [|element rest IH]; intros index results.
  - exists []. apply runs_ret.
  - destruct (Hc element index results) as [log1 H1].
    destruct (IH (S index) (step results element)) as [log2 H2].
    exists (log1 ++ log2). rewrite map_app. cbn [forEach fold_left].
    eapply runs_bind; [exact H1|exact H2].
Qed.

(** The later extractor returns what [extracted] says, whatever the world;
    its events are the construction of the document and then lines on the
    console, the same for every format: the length of the body, the number
    of news blocks, the lines of the passes, and the number of results. *)
Lemma extractGoogleResults_lines parseHTML html :
  exists middle,
    forall rt,
      runs (extractGoogleResults parseHTML html rt) (inr (extracted (parseHTML html) rt))
        (EvParseHTML html
         :: map EvConsoleLog
              (counted (lit "Document body length: ")
                 (length (bodyInnerHTML (parseHTML html))) []
               :: counted (lit "Found ")
                    (length (querySelectorAll (parseHTML html) sel_news))
                    (lit " news elements")
               :: middle
               ++ [counted (lit "Total results found: ")
                     (length (collectResults (parseHTML html))) []])).
Proof.
  unfold extractGoogleResults, extracted, collectResults. cbv zeta.
  set (document := parseHTML html).
  destruct (forEach_runs newsCallback visitNews newsCallback_runs
              (querySelectorAll document sel_news) 0 []) as [log1 H1].
  set (results1 := fold_left visitNews (querySelectorAll document sel_news) []) in *.
  assert (exists log2,
             runs (if Nat.eqb (length results1) 0
                   then console_log (counted (lit "Found ")
                                       (length (querySelectorAll document sel_g))
                                       (lit " general result elements")) ;;;
                        forEach (generalCallback (lit "general"))
                          (querySelectorAll document sel_g) 0 results1
                   else ret results1)
               (inr (if Nat.eqb (length results1) 0
                     then fold_left visitGeneral (querySelectorAll document sel_g) results1
                     else results1))
               (map EvConsoleLog log2)) as [log2 H2].
  { destruct (Nat.eqb (length results1) 0).
    - destruct (forEach_runs (generalCallback (lit "general")) visitGeneral
                  (generalCallback_runs (lit "general"))
                  (querySelectorAll document sel_g) 0 results1) as [log H].
      eexists (_ :: log). cbn [map].
      eapply runs_bind_cons; [apply runs_console_log|exact H].
    - exists []. apply runs_ret. }
  set (results2 := if Nat.eqb (length results1) 0
                   then fold_left visitGeneral (querySelectorAll document sel_g) results1
                   else results1) in *.
  assert (exists log3,
             runs (if Nat.eqb (length results2) 0
                   then console_log
                          (lit "No results found with primary selectors, trying alternatives...") ;;;
                        forEach (generalCallback (lit "alternative"))
                          (querySelectorAll document sel_div_tF2Cxc) 0 results2
                   else ret results2)
               (inr (if Nat.eqb (length results2) 0
                     then fold_left visitGeneral (querySelectorAll document sel_div_tF2Cxc)
                            results2
                     else results2))
               (map EvConsoleLog log3)) as [log3 H3].
  { destruct (Nat.eqb (length results2) 0).
    - destruct (forEach_runs (generalCallback (lit "alternative")) visitGeneral
                  (generalCallback_runs (lit "alternative"))
                  (querySelectorAll document sel_div_tF2Cxc) 0 results2) as [log H].
      eexists (_ :: log). cbn [map].
      eapply runs_bind_cons; [apply runs_console_log|exact H].
    - exists []. apply runs_ret. }
  set (results3 := if Nat.eqb (length results2) 0
                   then fold_left visitGeneral (querySelectorAll document sel_div_tF2Cxc)
                          results2
                   else results2) in *.
  exists (log1 ++ log2 ++ log3).
  intros rt. rewrite <- !app_assoc. cbn [map]. rewrite !map_app. cbn [map].
  eapply runs_bind_cons; [apply runs_emit|].
  eapply runs_bind_cons; [apply runs_console_log|].
  eapply runs_bind_cons; [apply runs_console_log|].
  eapply runs_bind; [exact H1|].
  eapply runs_bind; [exact H2|].
  eapply runs_bind; [exact H3|].
  eapply runs_bind_cons; [apply runs_console_log|].
  destruct rt; apply runs_ret.
Qed.

Lemma extractGoogleResults_log parseHTML html :
  exists log,
    forall rt,
      runs (extractGoogleResults parseHTML html rt) (inr (extracted (parseHTML html) rt))
        (EvParseHTML html :: map EvConsoleLog log).
Proof.
  destruct (extractGoogleResults_lines parseHTML html) as [middle H].
  eexists. exact H.
Qed.

Lemma extractGoogleResults_runs parseHTML html rt :
  runs (extractGoogleResults parseHTML html rt) (inr (extracted (parseHTML html) rt))
    (extractionEvents parseHTML html).
Proof.
  destruct (extractGoogleResults_log parseHTML html) as [log H].
  unfold extractionEvents. rewrite (runs_eventsOf _ _ _ (H Json)). apply H.
Qed.

Lemma extractionEvents_log parseHTML html :
  exists log, extractionEvents parseHTML html = EvParseHTML html :: map EvConsoleLog log.
Proof.
  destruct (extractGoogleResults_log parseHTML html) as [log H].
  exists log. unfold extractionEvents. apply (runs_eventsOf _ _ _ (H Json)).
Qed.

Lemma extractionEvents_lines parseHTML html :
  exists middle,
    extractionEvents parseHTML html
    = EvParseHTML html
      :: map EvConsoleLog
           (counted (lit "Document body length: ")
              (length (bodyInnerHTML (parseHTML html))) []
            :: counted (lit "Found ")
                 (length (querySelectorAll (parseHTML html) sel_news))
                 (lit " news elements")
            :: middle
            ++ [counted (lit "Total results found: ")
                  (length (collectResults (parseHTML html))) []]).
Proof.
  destruct (extractGoogleResults_lines parseHTML html) as [middle H].
  exists middle. unfold extractionEvents. apply (runs_eventsOf _ _ _ (H Json)).
Qed.

Lemma extractGoogleResults_json parseHTML html w :
  fst (extractGoogleResults parseHTML html Json w)
  = inr (FResults (collectResults (parseHTML html))).
Proof. now rewrite (extractGoogleResults_runs parseHTML html Json w). Qed.

End V2Facts.

(** What the events of an extraction are: the construction of one document,
    no request, no sleep, no file. *)
Lemma requests_console (log : list jsstring) : requests (map EvConsoleLog log) = 0.
Proof. induction log as [|l log IH]; [reflexivity|exact IH]. Qed.

Lemma sleeps_console (log : list jsstring) : sleeps (map EvConsoleLog log) = [].
Proof. induction log as [|l log IH]; [reflexivity|exact IH]. Qed.

Lemma fileWrites_console (log : list jsstring) : fileWrites (map EvConsoleLog log) = [].
Proof. induction log as [|l log IH]; [reflexivity|exact IH]. Qed.

Lemma bodyRead_console (log : list jsstring) : bodyRead (map EvConsoleLog log) = false.
Proof. induction log as [|l log IH]; [reflexivity|exact IH]. Qed.

Lemma local_console (log : list jsstring) : Forall local (map EvConsoleLog log).
Proof. induction log as [|l log IH]; constructor; [exact I|exact IH]. Qed.

Lemma extractionEvents_parsed parseHTML html :
  parsedHTML (extractionEvents parseHTML html) = true.
Proof. destruct (V2Facts.extractionEvents_log parseHTML html) as [log ->]. reflexivity. Qed.

Lemma extractionEvents_requests parseHTML html :
  requests (extractionEvents parseHTML html) = 0.
Proof.
  destruct (V2Facts.extractionEvents_log parseHTML html) as [log ->].
  exact (requests_console log).
Qed.

Lemma extractionEvents_sleeps parseHTML html :
  sleeps (extractionEvents parseHTML html) = [].
Proof.
  destruct (V2Facts.extractionEvents_log parseHTML html) as [log ->].
  exact (sleeps_console log).
Qed.

Lemma extractionEvents_fileWrites parseHTML html :
  fileWrites (extractionEvents parseHTML html) = [].
Proof.
  destruct (V2Facts.extractionEvents_log parseHTML html) as [log ->].
  exact (fileWrites_console log).
Qed.

Lemma extractionEvents_bodyRead parseHTML html :
  bodyRead (extractionEvents parseHTML html) = false.
Proof.
  destruct (V2Facts.extractionEvents_log parseHTML html) as [log ->].
  exact (bodyRead_console log).
Qed.

Lemma extractionEvents_local parseHTML html :
  Forall local (extractionEvents parseHTML html).
Proof.
  destruct (V2Facts.extractionEvents_log parseHTML html) as [log ->].
  constructor; [exact I|apply local_console].
Qed.

Lemma local_no_request (t : list Event) : Forall local t -> filter isRequest t = [].
Proof.
  induction 1 as [|e q He _ IH]; [reflexivity|].
  destruct e; try contradiction; exact IH.
Qed.

Lemma extractionEvents_no_request parseHTML html :
  filter isRequest (extractionEvents parseHTML html) = [].
Proof. apply local_no_request, extractionEvents_local. Qed.

(** What [fetchUrl] does after its request: no other request, no sleep, and
    one file for a 2xx response. *)
Lemma fetchUrlEvents_no_request parseHTML url answer :
  filter isRequest (fetchUrlEvents parseHTML url answer) = [].
Proof.
  unfold fetchUrlEvents. destruct answer as [r|e]; [|reflexivity].
  destruct (ok r); [|reflexivity]. cbn [app filter isRequest].
  destruct (startsWith url GOOGLE_SEARCH_URL); [|reflexivity].
  apply extractionEvents_no_request.
Qed.

Lemma fetchUrlEvents_sleeps parseHTML url answer :
  sleeps (fetchUrlEvents parseHTML url answer) = [].
Proof.
  unfold fetchUrlEvents. destruct answer as [r|e]; [|reflexivity].
  destruct (ok r); [|reflexivity].
  destruct (startsWith url GOOGLE_SEARCH_URL); [|reflexivity].
  apply extractionEvents_sleeps.
Qed.

Lemma fetchUrlEvents_writes parseHTML url answer :
  fileWrites (fetchUrlEvents parseHTML url answer)
  = match answer with
    | Responded r => if ok r then [(lit "fetchedPage.html", body r)] else []
    | Rejected _ => []
    end.
Proof.
  unfold fetchUrlEvents. destruct answer as [r|e]; [|reflexivity].
  destruct (ok r); [|reflexivity].
  destruct (startsWith url GOOGLE_SEARCH_URL); [|reflexivity].
  cbn [app fileWrites flat_map]. now rewrite extractionEvents_fileWrites.
Qed.

(** C1 (as amended), the acceptance rule of the extractor.  In both revisions
    every entry of the result list has a non-empty title and a non-empty URL,
    for every document; a block is accepted only if it has a title element
    whose text is non-empty after trimming, which becomes the title, and a
    link whose [href] attribute is non-empty as it stands (it is not
    trimmed), which becomes the URL.  The later revision returns that list
    itself for the json format. *)
Theorem extractor_entries_have_title_and_url :
  (forall doc : Document,
      Forall nonEmptyEntry (UrlFetcherV1.collectResults doc)) /\
  (forall doc : Document,
      Forall nonEmptyEntry (UrlFetcher.collectResults doc)) /\
  (forall parseHTML html w,
      exists results,
        fst (UrlFetcher.extractGoogleResults parseHTML html Json w)
        = inr (FResults results) /\ Forall nonEmptyEntry results) /\
  (forall results div r,
      UrlFetcherV1.visit results div = results ++ [r] ->
      exists titleEl linkEl,
        querySelector div sel_h3 = Some titleEl /\
        querySelector div sel_a = Some linkEl /\
        title r = trim (textContent titleEl) /\ title r <> [] /\
        getAttribute linkEl (lit "href") = Some (url r) /\ url r <> []) /\
  (forall titleEl linkEl snippetEl results r,
      UrlFetcher.visit titleEl linkEl snippetEl results = results ++ [r] ->
      exists t l,
        titleEl = Some t /\ linkEl = Some l /\
        title r = trim (textContent t) /\ title r <> [] /\
        getAttribute l (lit "href") = Some (url r) /\ url r <> []).
Proof.
  split; [exact V1Facts.v1_collectResults_nonEmpty|].
  split; [exact V2Facts.v2_collectResults_nonEmpty|].
  split; [|split].
  - intros parseHTML html w. eexists. rewrite V2Facts.extractGoogleResults_json.
    split; [reflexivity|]. apply V2Facts.v2_collectResults_nonEmpty.
  - intros results div r H. rewrite V1Facts.v1_visit_push in H.
    apply app_inv_head in H. apply V1Facts.v1_accepted_inv. rewrite H. now left.
  - intros titleEl linkEl snippetEl results r H. rewrite V2Facts.v2_visit_push in H.
    apply app_inv_head in H. apply (V2Facts.v2_visit_inv titleEl linkEl snippetEl).
    rewrite H. now left.
Qed.

(** The acceptance rule at a block with title [T] and link [https://e.example/]. *)
Lemma extractor_entries_have_title_and_url_witness :
  UrlFetcherV1.visit [] exampleBlock = [] ++ [exampleEntry] /\
  exists titleEl linkEl,
    querySelector exampleBlock sel_h3 = Some titleEl /\
    querySelector exampleBlock sel_a = Some linkEl /\
    title exampleEntry = trim (textContent titleEl) /\ title exampleEntry <> [] /\
    getAttribute linkEl (lit "href") = Some (url exampleEntry) /\ url exampleEntry <> [].
Proof.
  split; [reflexivity|].
  apply (proj1 (proj2 (proj2 (proj2 extractor_entries_have_title_and_url)))
           [] exampleBlock exampleEntry).
  reflexivity.
Defined.

(** C1 as stated fails: a block whose link is [href=" "] is accepted, in both
    revisions, although its URL is empty after trimming. *)
Lemma blank_href_is_accepted :
  UrlFetcherV1.collectResults blankHrefPage
  = [mkSearchResult (lit "T") (lit " ") (Some (lit "No description"))] /\
  UrlFetcher.collectResults blankHrefPage
  = [mkSearchResult (lit "T") (lit " ") None] /\
  fst (UrlFetcher.extractGoogleResults (parsesTo blankHrefPage) (lit "<html>") Json
         (initial offline))
  = inr (FResults [mkSearchResult (lit "T") (lit " ") None]) /\
  trim (lit " ") = [].
Proof. repeat split. Qed.

(** C6 at six result blocks: the later extractor returns all six entries,
    one more than [MAX_SEARCH_RESULTS], where the JSDOM based extractor stops
    at the fifth. *)
Theorem later_extractor_is_not_capped :
  map title (UrlFetcher.collectResults sixResultsPage)
  = [lit "r1"; lit "r2"; lit "r3"; lit "r4"; lit "r5"; lit "r6"] /\
  (exists results,
      fst (UrlFetcher.extractGoogleResults (parsesTo sixResultsPage) (lit "<html>") Json
             (initial offline)) = inr (FResults results) /\
      length results = 6 /\ MAX_SEARCH_RESULTS < length results) /\
  map title (UrlFetcherV1.collectResults sixResultsPage)
  = [lit "r1"; lit "r2"; lit "r3"; lit "r4"; lit "r5"].
Proof.
  split; [reflexivity|]. split; [|reflexivity].
  eexists. split; [reflexivity|]. split; [reflexivity|].
  unfold MAX_SEARCH_RESULTS. simpl. lia.
Qed.

(** The JSDOM based extractor returns at most [MAX_SEARCH_RESULTS] entries:
    those accepted among the first [MAX_SEARCH_RESULTS] blocks of the pass
    that found results, in document order. *)
Theorem first_extractor_is_capped (doc : Document) :
  length (UrlFetcherV1.collectResults doc) <= MAX_SEARCH_RESULTS /\
  UrlFetcherV1.collectResults doc
  = flat_map accepted1 (firstn MAX_SEARCH_RESULTS (candidates1 doc)) /\
  (candidates1 doc = querySelectorAll doc sel_div_g \/
   candidates1 doc = querySelectorAll doc sel_tF2Cxc).
Proof.
  split; [apply V1Facts.v1_collectResults_cap|].
  split; [apply V1Facts.v1_collectResults_flat_map|].
  unfold candidates1. destruct (flat_map _ _); auto.
Qed.

(** A page on which no selector of the extractor matches gives no result:
    the result list is empty in both revisions, so the JSON rendering of the
    first is [[]] and its other renderings are the empty string, and the
    later extractor returns the empty list or the empty string. *)
Theorem no_block_no_result :
  forall doc : Document,
  (querySelectorAll doc sel_div_g = [] ->
   querySelectorAll doc sel_tF2Cxc = [] ->
   UrlFetcherV1.collectResults doc = [] /\
   UrlFetcherV1.formatResults (UrlFetcherV1.collectResults doc) Json = lit "[]" /\
   forall rt, rt <> Json ->
     UrlFetcherV1.formatResults (UrlFetcherV1.collectResults doc) rt = []) /\
  (querySelectorAll doc sel_news = [] ->
   querySelectorAll doc sel_g = [] ->
   querySelectorAll doc sel_div_tF2Cxc = [] ->
   UrlFetcher.collectResults doc = [] /\
   extracted doc Json = FResults [] /\
   forall rt, rt <> Json -> extracted doc rt = FString []).
Proof.
  intros doc. split.
  - intros Hg Ht.
    assert (UrlFetcherV1.collectResults doc = []) as E.
    { unfold UrlFetcherV1.collectResults. rewrite Hg, Ht. reflexivity. }
    rewrite E. split; [reflexivity|]. split; [reflexivity|].
    intros [] Hrt; try reflexivity. now destruct Hrt.
  - intros Hn Hg Ht.
    assert (UrlFetcher.collectResults doc = []) as E.
    { unfold UrlFetcher.collectResults. rewrite Hn, Hg, Ht. reflexivity. }
    unfold extracted. rewrite E. split; [reflexivity|]. split; [reflexivity|].
    intros [] Hrt; try reflexivity. now destruct Hrt.
Qed.

(** A page with a doctype that holds a paragraph and a block whose class is
    [G]: the class names of its selectors are compared as they are written,
    and none matches. *)
Lemma no_block_no_result_witness :
  UrlFetcherV1.collectResults (page [paragraphNode; capitalBlock]) = [] /\
  UrlFetcher.collectResults (page [paragraphNode; capitalBlock]) = [] /\
  extracted (page [paragraphNode; capitalBlock]) Markdown = FString [].
Proof.
  destruct (no_block_no_result (page [paragraphNode; capitalBlock])) as [H1 H2].
  destruct (H1 eq_refl eq_refl) as (E1 & _).
  destruct (H2 eq_refl eq_refl eq_refl) as (E2 & _ & E3).
  split; [exact E1|]. split; [exact E2|].
  apply E3. discriminate.
Defined.

(** The same page without a doctype is in quirks mode, where class names are
    matched without regard to case: [div.g] and [.g] match the block. *)
Example quirks_mode_folds_class_names :
  length (querySelectorAll (quirksPage [paragraphNode; capitalBlock]) sel_div_g) = 1 /\
  UrlFetcherV1.collectResults (quirksPage [paragraphNode; capitalBlock])
  = [mkSearchResult (lit "T") (lit "https://e.example/") (Some (lit "No description"))] /\
  UrlFetcher.collectResults (quirksPage [paragraphNode; capitalBlock])
  = [mkSearchResult (lit "T") (lit "https://e.example/") None].
Proof. repeat split. Qed.

(** ** Requests, sleeps and quiet events *)

Lemma fetch_responded url hdrs w r :
  net w (issued w) url = Responded r ->
  fetch url hdrs w
  = (inr r, mkWorld (net w) (S (issued w)) (trace w ++ [EvFetch url hdrs])).
Proof. unfold fetch. now intros ->. Qed.

Lemma fileWrites_app (a b : list Event) :
  fileWrites (a ++ b) = fileWrites a ++ fileWrites b.
Proof. apply flat_map_app. Qed.

Lemma sleeps_app (a b : list Event) : sleeps (a ++ b) = sleeps a ++ sleeps b.
Proof. unfold sleeps. apply flat_map_app. Qed.

Lemma requests_app (a b : list Event) : requests (a ++ b) = requests a + requests b.
Proof. unfold requests. now rewrite filter_app, length_app. Qed.

Lemma quiet_sleeps (t : list Event) : Forall quiet t -> sleeps t = [].
Proof.
  induction 1 as [|e t He _ IH]; [reflexivity|].
  destruct e; try contradiction; exact IH.
Qed.

Lemma quiet_requests (t : list Event) : Forall quiet t -> requests t = 0.
Proof.
  induction 1 as [|e t He _ IH]; [reflexivity|].
  destruct e; try contradiction; exact IH.
Qed.

(** ** The retry loop of [fetch_url] *)

Section RetryFacts.

Variable requestHeaders : FetchParams -> list (jsstring * jsstring).
Variable processResponse : Response -> ResponseType -> URL -> M jsstring.
Variable params : FetchParams.

Let loop := retryLoop requestHeaders processResponse params.
Let request := EvFetch (href (p_url params)) (requestHeaders params).

Lemma status_429_not_ok (r : Response) : status r = 429%N -> ok r = false.
Proof. unfold ok. now intros ->. Qed.

(** 429 before the last attempt: one request, one sleep, the next attempt. *)
Lemma loop_429_retry remaining attempt w r :
  attempt <> MAX_RETRIES - 1 ->
  net w (issued w) (href (p_url params)) = Responded r ->
  status r = 429%N ->
  loop (S remaining) attempt w
  = loop remaining (S attempt)
      (mkWorld (net w) (S (issued w))
         ((trace w ++ [request]) ++ [EvSleep (getRetryDelay attempt)])).
Proof.
  intros Hlast Hnet H429. unfold loop. cbn [retryLoop].
  unfold bind at 1. unfold try_catch, tryBlock. unfold bind at 1.
  rewrite (fetch_responded _ _ _ _ Hnet), (status_429_not_ok _ H429), H429.
  apply Nat.eqb_neq in Hlast. cbn [negb N.eqb Pos.eqb]. rewrite Hlast.
  reflexivity.
Qed.

(** 429 at the last attempt: one request, then the rate limit error. *)
Lemma loop_429_final remaining w r :
  net w (issued w) (href (p_url params)) = Responded r ->
  status r = 429%N ->
  loop (S remaining) (MAX_RETRIES - 1) w
  = (inr (errorResult (lit "Rate limit exceeded. Please try again later.")),
     mkWorld (net w) (S (issued w)) (trace w ++ [request])).
Proof.
  intros Hnet H429. unfold loop. cbn [retryLoop].
  unfold bind at 1. unfold try_catch, tryBlock. unfold bind at 1.
  rewrite (fetch_responded _ _ _ _ Hnet), (status_429_not_ok _ H429), H429.
  reflexivity.
Qed.

(** Another status outside 2xx: one request, then the HTTP error. *)
Lemma loop_http_error remaining attempt w r :
  net w (issued w) (href (p_url params)) = Responded r ->
  ok r = false ->
  status r <> 429%N ->
  loop (S remaining) attempt w
  = (inr (errorResult (lit "HTTP " ++ Number_toString (status r) ++ lit ": "
                       ++ statusText r)),
     mkWorld (net w) (S (issued w)) (trace w ++ [request])).
Proof.
  intros Hnet Hok H429. unfold loop. cbn [retryLoop].
  unfold bind at 1. unfold try_catch, tryBlock. unfold bind at 1.
  rewrite (fetch_responded _ _ _ _ Hnet), Hok.
  apply N.eqb_neq in H429. cbn [negb]. rewrite H429.
  reflexivity.
Qed.

(** A 2xx response that [processResponse] accepts: the success envelope. *)
Lemma loop_success remaining attempt w r processedContent t :
  net w (issued w) (href (p_url params)) = Responded r ->
  ok r = true ->
  runs (processResponse r (p_responseType params) (p_url params))
       (inr processedContent) t ->
  loop (S remaining) attempt w
  = (inr (success params r processedContent),
     mkWorld (net w) (S (issued w)) ((trace w ++ [request]) ++ t)).
Proof.
  intros Hnet Hok Hrun. unfold loop. cbn [retryLoop].
  unfold bind at 1. unfold try_catch, tryBlock. unfold bind at 1.
  rewrite (fetch_responded _ _ _ _ Hnet), Hok. cbn [negb].
  unfold bind. rewrite Hrun. reflexivity.
Qed.

(** A rejected request that is not an abort, before the last attempt: one
    request, one sleep, the next attempt. *)
Lemma loop_rejected_retry remaining attempt w e :
  attempt <> MAX_RETRIES - 1 ->
  net w (issued w) (href (p_url params)) = Rejected e ->
  isAbortError e = false ->
  loop (S remaining) attempt w
  = loop remaining (S attempt)
      (mkWorld (net w) (S (issued w))
         ((trace w ++ [request]) ++ [EvSleep (getRetryDelay attempt)])).
Proof.
  intros Hlast Hnet Habort. unfold loop. cbn [retryLoop].
  unfold bind at 1. unfold try_catch, tryBlock. unfold bind at 1.
  unfold fetch. rewrite Hnet. unfold catchBlock. rewrite Habort.
  apply Nat.eqb_neq in Hlast. rewrite Hlast. reflexivity.
Qed.

(** A request rejected because the timer fired: the timeout error, at any
    attempt. *)
Lemma loop_aborted remaining attempt w e :
  net w (issued w) (href (p_url params)) = Rejected e ->
  isAbortError e = true ->
  loop (S remaining) attempt w
  = (inr (errorResult (lit "Request timed out after "
                       ++ Number_toString (p_timeout params) ++ lit "ms")),
     mkWorld (net w) (S (issued w)) (trace w ++ [request])).
Proof.
  intros Hnet Habort. unfold loop. cbn [retryLoop].
  unfold bind at 1. unfold try_catch, tryBlock. unfold bind at 1.
  unfold fetch. rewrite Hnet. unfold catchBlock. rewrite Habort. reflexivity.
Qed.

(** A rejected request that is not an abort, at the last attempt. *)
Lemma loop_rejected_final remaining w e :
  net w (issued w) (href (p_url params)) = Rejected e ->
  isAbortError e = false ->
  loop (S remaining) (MAX_RETRIES - 1) w
  = (inr (errorResult (lit "Failed to fetch URL: " ++ messageOf e)),
     mkWorld (net w) (S (issued w)) (trace w ++ [request])).
Proof.
  intros Hnet Habort. unfold loop. cbn [retryLoop].
  unfold bind at 1. unfold try_catch, tryBlock. unfold bind at 1.
  unfold fetch. rewrite Hnet. unfold catchBlock. rewrite Habort. reflexivity.
Qed.

(** A 2xx response that [processResponse] rejects, before the last attempt:
    it is retried like a network failure. *)
Lemma loop_unprocessable_retry remaining attempt w r e t :
  attempt <> MAX_RETRIES - 1 ->
  net w (issued w) (href (p_url params)) = Responded r ->
  ok r = true ->
  runs (processResponse r (p_responseType params) (p_url params)) (inl e) t ->
  isAbortError e = false ->
  loop (S remaining) attempt w
  = loop remaining (S attempt)
      (mkWorld (net w) (S (issued w))
         (((trace w ++ [request]) ++ t) ++ [EvSleep (getRetryDelay attempt)])).
Proof.
  intros Hlast Hnet Hok Hrun Habort. unfold loop. cbn [retryLoop].
  unfold bind at 1. unfold try_catch, tryBlock. unfold bind at 1.
  rewrite (fetch_responded _ _ _ _ Hnet), Hok. cbn [negb].
  unfold bind at 1. rewrite Hrun. unfold catchBlock. rewrite Habort.
  apply Nat.eqb_neq in Hlast. rewrite Hlast. reflexivity.
Qed.

End RetryFacts.

(** ** [processResponse] *)

Lemma runs_try_catch_ok {A} (m : M A) (h : Exn -> M A) a t :
  runs m (inr a) t -> runs (try_catch m h) (inr a) t.
Proof. intros Hm w. unfold try_catch. now rewrite Hm. Qed.

Lemma runs_of_either {A} (x : Exn + A) :
  runs (match x with inr v => ret v | inl e => throw e end) x [].
Proof. destruct x; [apply runs_throw | apply runs_ret]. Qed.

Section ProcessFacts.

Variable parseHTML : jsstring -> Document.
Variable JSON_parse : jsstring -> Exn + JSON.
Variable htmlToMarkdown : jsstring -> jsstring.

Let process1 := UrlFetcherV1.processResponse parseHTML JSON_parse htmlToMarkdown.
Let process2 := UrlFetcher.processResponse parseHTML JSON_parse htmlToMarkdown.

Lemma v1_process_too_large r rt url :
  withinLimit r = false ->
  runs (process1 r rt url) (inl (Error_ (lit "Response too large"))) [].
Proof.
  unfold withinLimit, contentLengthOf, process1, UrlFetcherV1.processResponse.
  intros H. apply negb_false_iff in H. rewrite H. apply runs_throw.
Qed.

Lemma v2_process_too_large r rt url :
  withinLimit r = false ->
  runs (process2 r rt url) (inl (Error_ (lit "Response too large"))) [].
Proof.
  unfold withinLimit, contentLengthOf, process2, UrlFetcher.processResponse.
  intros H. apply negb_false_iff in H. rewrite H. apply runs_throw.
Qed.

Lemma v1_extract_runs html rt :
  runs (UrlFetcherV1.extractGoogleResults parseHTML html rt)
       (inr (UrlFetcherV1.formatResults (UrlFetcherV1.collectResults (parseHTML html)) rt))
       [EvParseHTML html].
Proof.
  unfold UrlFetcherV1.extractGoogleResults. apply runs_try_catch_ok.
  change [EvParseHTML html] with ([EvParseHTML html] ++ []).
  eapply runs_bind; [apply runs_emit | apply runs_ret].
Qed.

Lemma v2_extract_runs html rt :
  runs (UrlFetcher.extractGoogleResults parseHTML html rt)
       (inr (extracted (parseHTML html) rt)) (extractionEvents parseHTML html).
Proof. apply V2Facts.extractGoogleResults_runs. Qed.

Lemma v1_process_google r rt url :
  withinLimit r = true -> isGoogleSearch url = true ->
  runs (process1 r rt url)
       (inr (UrlFetcherV1.formatResults (UrlFetcherV1.collectResults (parseHTML (body r))) rt))
       [EvReadBody; EvParseHTML (body r)].
Proof.
  unfold withinLimit, contentLengthOf, process1, UrlFetcherV1.processResponse.
  intros H Hg. apply negb_true_iff in H. rewrite H.
  change [EvReadBody; EvParseHTML (body r)] with ([EvReadBody] ++ [EvParseHTML (body r)]).
  eapply runs_bind; [apply runs_text|]. rewrite Hg. apply v1_extract_runs.
Qed.

Lemma v2_process_google r rt url :
  withinLimit r = true -> isGoogleSearch url = true ->
  runs (process2 r rt url) (inr (googleText (parseHTML (body r)) rt))
       (EvReadBody :: extractionEvents parseHTML (body r)).
Proof.
  unfold withinLimit, contentLengthOf, process2, UrlFetcher.processResponse.
  intros H Hg. apply negb_true_iff in H. rewrite H.
  eapply runs_bind_cons; [apply runs_text|]. rewrite Hg. cbv zeta.
  rewrite <- (app_nil_r (extractionEvents parseHTML (body r))).
  eapply runs_bind; [apply v2_extract_runs|].
  unfold googleText. destruct (extracted _ _); apply runs_ret.
Qed.

Lemma v1_process_other r rt url :
  withinLimit r = true -> isGoogleSearch url = false ->
  runs (process1 r rt url) (dispatch JSON_parse htmlToMarkdown r rt) [EvReadBody].
Proof.
  unfold withinLimit, contentLengthOf, process1, UrlFetcherV1.processResponse.
  intros H Hg. apply negb_true_iff in H. rewrite H.
  change [EvReadBody] with ([EvReadBody] ++ []).
  eapply runs_bind; [apply runs_text|]. rewrite Hg.
  unfold dispatch, contentTypeOf.
  destruct rt.
  - apply runs_ret.
  - destruct (includes _ _); cbn [negb]; [|apply runs_throw].
    destruct (JSON_parse (body r)); [apply runs_throw | apply runs_ret].
  - destruct (includes _ _); cbn [negb]; [apply runs_ret | apply runs_throw].
  - destruct (includes _ (lit "text/html")); [apply runs_ret|].
    destruct (includes _ _); apply runs_ret.
Qed.

Lemma v2_process_other r rt url :
  withinLimit r = true -> isGoogleSearch url = false ->
  runs (process2 r rt url) (dispatch JSON_parse htmlToMarkdown r rt) [EvReadBody].
Proof.
  unfold withinLimit, contentLengthOf, process2, UrlFetcher.processResponse.
  intros H Hg. apply negb_true_iff in H. rewrite H.
  change [EvReadBody] with ([EvReadBody] ++ []).
  eapply runs_bind; [apply runs_text|]. rewrite Hg.
  unfold dispatch, contentTypeOf.
  destruct rt.
  - apply runs_ret.
  - destruct (includes _ _); cbn [negb]; [|apply runs_throw].
    destruct (JSON_parse (body r)); [apply runs_throw | apply runs_ret].
  - destruct (includes _ _); cbn [negb]; [apply runs_ret | apply runs_throw].
  - destruct (includes _ (lit "text/html")); [apply runs_ret|].
    destruct (includes _ _); apply runs_ret.
Qed.

(** Whatever the response, [processResponse] has one outcome, and its events
    are the body read and the construction of the document. *)
Lemma v1_process_quiet r rt url :
  exists a t, runs (process1 r rt url) a t /\ Forall quiet t.
Proof.
  destruct (withinLimit r) eqn:Hl.
  - destruct (isGoogleSearch url) eqn:Hg.
    + do 2 eexists. split; [apply v1_process_google; assumption|].
      repeat constructor.
    + do 2 eexists. split; [apply v1_process_other; assumption|].
      repeat constructor.
  - do 2 eexists. split; [apply v1_process_too_large; assumption|]. constructor.
Qed.

End ProcessFacts.

Lemma runs_fst {A} (m : M A) a t w : runs m a t -> fst (m w) = a.
Proof. intros H. now rewrite H. Qed.

(** C2 (as amended), the backoff of [fetch_url] on status 429.  Delays are
    [INITIAL_RETRY_DELAY * 2^attempt] and grow strictly.  A 429 before the
    last attempt costs one request and one sleep of that delay, and the loop
    goes on with the next attempt; a 429 at the last attempt ends the call
    with the rate limit error, with no sleep after the request.  Two 429 and
    then a 2xx response that [processResponse] accepts give the success
    envelope after three requests and the sleeps 1000 and 2000; three 429
    give the rate limit error after three requests and the same two sleeps. *)
Theorem rate_limit_backoff :
  forall parseHTML JSON_parse htmlToMarkdown (params : FetchParams),
  let process := UrlFetcherV1.processResponse parseHTML JSON_parse htmlToMarkdown in
  let fetch_url := UrlFetcherV1.fetch_url parseHTML JSON_parse htmlToMarkdown in
  let loop := retryLoop UrlFetcherV1.requestHeaders process params in
  let address := href (p_url params) in
  let request := EvFetch address (UrlFetcherV1.requestHeaders params) in
  (forall attempt,
      getRetryDelay attempt = (INITIAL_RETRY_DELAY * 2 ^ N.of_nat attempt)%N /\
      (getRetryDelay attempt < getRetryDelay (S attempt))%N) /\
  (forall remaining attempt w r,
      attempt < MAX_RETRIES - 1 ->
      net w (issued w) address = Responded r -> status r = 429%N ->
      loop (S remaining) attempt w
      = loop remaining (S attempt)
          (mkWorld (net w) (S (issued w))
             ((trace w ++ [request]) ++ [EvSleep (getRetryDelay attempt)]))) /\
  (forall remaining w r,
      net w (issued w) address = Responded r -> status r = 429%N ->
      loop (S remaining) (MAX_RETRIES - 1) w
      = (inr (errorResult (lit "Rate limit exceeded. Please try again later.")),
         mkWorld (net w) (S (issued w)) (trace w ++ [request]))) /\
  (forall oracle r1 r2 r3 processedContent,
      oracle 0 address = Responded r1 -> status r1 = 429%N ->
      oracle 1 address = Responded r2 -> status r2 = 429%N ->
      oracle 2 address = Responded r3 -> ok r3 = true ->
      fst (process r3 (p_responseType params) (p_url params) (initial oracle))
      = inr processedContent ->
      fst (fetch_url params (initial oracle)) = inr (success params r3 processedContent) /\
      sleeps (trace (snd (fetch_url params (initial oracle)))) = [1000; 2000]%N /\
      requests (trace (snd (fetch_url params (initial oracle)))) = 3) /\
  (forall oracle r1 r2 r3,
      oracle 0 address = Responded r1 -> status r1 = 429%N ->
      oracle 1 address = Responded r2 -> status r2 = 429%N ->
      oracle 2 address = Responded r3 -> status r3 = 429%N ->
      fetch_url params (initial oracle)
      = (inr (errorResult (lit "Rate limit exceeded. Please try again later.")),
         mkWorld oracle 3
           [request; EvSleep 1000; request; EvSleep 2000; request])).
Proof.
  intros parseHTML JSON_parse htmlToMarkdown params process fetch_url loop address request.
  split; [|split; [|split; [|split]]].
  - intros attempt. split; [reflexivity|].
    unfold getRetryDelay, INITIAL_RETRY_DELAY.
    rewrite Nat2N.inj_succ, N.pow_succ_r'.
    assert (0 < 2 ^ N.of_nat attempt)%N by (apply N.neq_0_lt_0, N.pow_nonzero; discriminate).
    lia.
  - intros remaining attempt w r Hlt Hnet H429.
    eapply loop_429_retry; eauto. unfold MAX_RETRIES in *. simpl in *. lia.
  - intros remaining w r Hnet H429. eapply loop_429_final; eauto.
  - intros oracle r1 r2 r3 processedContent H1 S1 H2 S2 H3 Hok Hp.
    destruct (v1_process_quiet parseHTML JSON_parse htmlToMarkdown r3
                (p_responseType params) (p_url params)) as (a & t & Hrun & Hq).
    assert (a = inr processedContent) as ->.
    { rewrite <- Hp. symmetry. eapply runs_fst. exact Hrun. }
    unfold fetch_url, UrlFetcherV1.fetch_url, fetch_url_callback.
    change MAX_RETRIES with 3.
    erewrite loop_429_retry; [|discriminate|exact H1|exact S1].
    erewrite loop_429_retry; [|discriminate|exact H2|exact S2].
    erewrite loop_success; [|exact H3|exact Hok|exact Hrun].
    cbn [fst snd trace].
    split; [reflexivity|].
    rewrite sleeps_app, requests_app, (quiet_sleeps _ Hq), (quiet_requests _ Hq).
    split; reflexivity.
  - intros oracle r1 r2 r3 H1 S1 H2 S2 H3 S3.
    unfold fetch_url, UrlFetcherV1.fetch_url, fetch_url_callback.
    change MAX_RETRIES with 3.
    erewrite loop_429_retry; [|discriminate|exact H1|exact S1].
    erewrite loop_429_retry; [|discriminate|exact H2|exact S2].
    change 2 with (MAX_RETRIES - 1) at 1.
    erewrite loop_429_final; [|exact H3|exact S3].
    reflexivity.
Qed.

(** Two 429 and then [200 OK] with a text body, asked for as text. *)
Lemma rate_limit_backoff_witness :
  fst (UrlFetcherV1.fetch_url noDocument noJSON noMarkdown textParams
         (initial refusedTwiceThenHello))
  = inr (success textParams plainHello (lit "hello")) /\
  sleeps (trace (snd (UrlFetcherV1.fetch_url noDocument noJSON noMarkdown textParams
                        (initial refusedTwiceThenHello)))) = [1000; 2000]%N /\
  requests (trace (snd (UrlFetcherV1.fetch_url noDocument noJSON noMarkdown textParams
                          (initial refusedTwiceThenHello)))) = 3.
Proof.
  apply (proj1 (proj2 (proj2 (proj2
           (rate_limit_backoff noDocument noJSON noMarkdown textParams))))
           refusedTwiceThenHello tooManyRequests tooManyRequests plainHello (lit "hello"));
    reflexivity.
Defined.

(** C2 as stated fails: two 429 and then [200 OK] do not give a success when
    [processResponse] rejects the third response.  Here the body is
    [text/plain] and json was asked for: the call makes its three requests and
    two sleeps and returns an error. *)
Lemma backoff_then_unprocessable_response :
  status tooManyRequests = 429%N /\ ok plainHello = true /\
  UrlFetcherV1.fetch_url noDocument noJSON noMarkdown jsonParams
    (initial refusedTwiceThenHello)
  = (inr (errorResult (lit "Failed to fetch URL: Response is not JSON")),
     mkWorld refusedTwiceThenHello 3
       [EvFetch (href examplePage) (UrlFetcherV1.requestHeaders jsonParams);
        EvSleep 1000;
        EvFetch (href examplePage) (UrlFetcherV1.requestHeaders jsonParams);
        EvSleep 2000;
        EvFetch (href examplePage) (UrlFetcherV1.requestHeaders jsonParams);
        EvReadBody]) /\
  isError (errorResult (Meta:=FetchMetadata)
             (lit "Failed to fetch URL: Response is not JSON")) = true.
Proof. repeat split. Qed.

(** C3, a status outside 2xx other than 429.  Whatever the attempt, the loop
    makes its request and returns at once the error envelope: one content
    item of type [text] whose text is [HTTP <status>: <statusText>], the
    status code in decimal and the reason phrase, no metadata, and [isError]
    set.  No sleep, no further request, no call of [processResponse].  At
    the first attempt the whole call is one request, in both revisions. *)
Theorem http_error_is_immediate :
  forall parseHTML JSON_parse htmlToMarkdown (params : FetchParams) (r : Response),
  ok r = false -> status r <> 429%N ->
  let address := href (p_url params) in
  let failure : ToolResult FetchMetadata :=
    mkToolResult
      [mkContent (lit "text")
         (lit "HTTP " ++ Number_toString (status r) ++ lit ": " ++ statusText r) None]
      None true in
  (forall requestHeaders processResponse remaining attempt w,
      net w (issued w) address = Responded r ->
      retryLoop requestHeaders processResponse params (S remaining) attempt w
      = (inr failure,
         mkWorld (net w) (S (issued w))
           (trace w ++ [EvFetch address (requestHeaders params)]))) /\
  (forall oracle,
      oracle 0 address = Responded r ->
      UrlFetcherV1.fetch_url parseHTML JSON_parse htmlToMarkdown params (initial oracle)
      = (inr failure,
         mkWorld oracle 1 [EvFetch address (UrlFetcherV1.requestHeaders params)]) /\
      UrlFetcher.fetch_url parseHTML JSON_parse htmlToMarkdown params (initial oracle)
      = (inr failure,
         mkWorld oracle 1 [EvFetch address UrlFetcher.BROWSER_HEADERS])) /\
  isError failure = true /\
  map c_text (content failure)
  = [lit "HTTP " ++ Number_toString (status r) ++ lit ": " ++ statusText r] /\
  sleeps [EvFetch address (UrlFetcherV1.requestHeaders params)] = [] /\
  requests [EvFetch address (UrlFetcherV1.requestHeaders params)] = 1.
Proof.
  intros parseHTML JSON_parse htmlToMarkdown params r Hok H429 address failure.
  change failure
    with (errorResult (Meta:=FetchMetadata)
            (lit "HTTP " ++ Number_toString (status r) ++ lit ": " ++ statusText r)).
  split; [|split; [|repeat split]].
  - intros requestHeaders processResponse remaining attempt w Hnet.
    eapply loop_http_error; eauto.
  - intros oracle Hnet. split.
    + unfold UrlFetcherV1.fetch_url, fetch_url_callback. change MAX_RETRIES with 3.
      erewrite loop_http_error; [reflexivity|exact Hnet|exact Hok|exact H429].
    + unfold UrlFetcher.fetch_url, fetch_url_callback. change MAX_RETRIES with 3.
      erewrite loop_http_error; [reflexivity|exact Hnet|exact Hok|exact H429].
Qed.

(** [404 Not Found] at the first attempt, in both revisions. *)
Lemma http_error_is_immediate_witness :
  UrlFetcherV1.fetch_url noDocument noJSON noMarkdown textParams
    (initial (script [Responded notFound]))
  = (inr (mkToolResult [mkContent (lit "text") (lit "HTTP 404: Not Found") None] None true),
     mkWorld (script [Responded notFound]) 1
       [EvFetch (href examplePage) (UrlFetcherV1.requestHeaders textParams)]) /\
  UrlFetcher.fetch_url noDocument noJSON noMarkdown textParams
    (initial (script [Responded notFound]))
  = (inr (mkToolResult [mkContent (lit "text") (lit "HTTP 404: Not Found") None] None true),
     mkWorld (script [Responded notFound]) 1
       [EvFetch (href examplePage) UrlFetcher.BROWSER_HEADERS]).
Proof.
  apply (proj1 (proj2
           (@http_error_is_immediate noDocument noJSON noMarkdown textParams
              notFound eq_refl ltac:(discriminate)))
           (script [Responded notFound]) eq_refl).
Defined.

(** A request that is aborted by the timer ends the call with the timeout
    error, at any attempt: no sleep and no further request.  At the first
    attempt the whole call is one request, in both revisions. *)
Theorem timeout_is_terminal :
  forall parseHTML JSON_parse htmlToMarkdown (params : FetchParams) (e : Exn),
  isAbortError e = true ->
  let address := href (p_url params) in
  let failure : ToolResult FetchMetadata :=
    errorResult (lit "Request timed out after " ++ Number_toString (p_timeout params)
                 ++ lit "ms") in
  (forall requestHeaders processResponse remaining attempt w,
      net w (issued w) address = Rejected e ->
      retryLoop requestHeaders processResponse params (S remaining) attempt w
      = (inr failure,
         mkWorld (net w) (S (issued w))
           (trace w ++ [EvFetch address (requestHeaders params)]))) /\
  (forall oracle,
      oracle 0 address = Rejected e ->
      UrlFetcherV1.fetch_url parseHTML JSON_parse htmlToMarkdown params (initial oracle)
      = (inr failure,
         mkWorld oracle 1 [EvFetch address (UrlFetcherV1.requestHeaders params)]) /\
      UrlFetcher.fetch_url parseHTML JSON_parse htmlToMarkdown params (initial oracle)
      = (inr failure,
         mkWorld oracle 1 [EvFetch address UrlFetcher.BROWSER_HEADERS])).
Proof.
  intros parseHTML JSON_parse htmlToMarkdown params e Habort address failure. split.
  - intros requestHeaders processResponse remaining attempt w Hnet.
    eapply loop_aborted; eauto.
  - intros oracle Hnet. split.
    + unfold UrlFetcherV1.fetch_url, fetch_url_callback. change MAX_RETRIES with 3.
      erewrite loop_aborted; [reflexivity|exact Hnet|exact Habort].
    + unfold UrlFetcher.fetch_url, fetch_url_callback. change MAX_RETRIES with 3.
      erewrite loop_aborted; [reflexivity|exact Hnet|exact Habort].
Qed.

(** The timer fires during the first request, with a timeout of 30000 ms. *)
Lemma timeout_is_terminal_witness :
  UrlFetcherV1.fetch_url noDocument noJSON noMarkdown textParams (initial timesOut)
  = (inr (errorResult (lit "Request timed out after 30000ms")),
     mkWorld timesOut 1
       [EvFetch (href examplePage) (UrlFetcherV1.requestHeaders textParams)]).
Proof.
  apply (proj1 (proj2
           (@timeout_is_terminal noDocument noJSON noMarkdown textParams AbortError
              eq_refl) timesOut eq_refl)).
Defined.

(** What the [catch] of [fetch_url] retries.  A rejected request that is not
    an abort, and likewise a 2xx response that [processResponse] rejects
    (size limit, content type, JSON syntax), is followed before the last
    attempt by a sleep of [getRetryDelay attempt] and the next attempt; at the
    last attempt a rejected request ends the call with
    [Failed to fetch URL: <message>]. *)
Theorem failures_are_retried_with_backoff :
  forall parseHTML JSON_parse htmlToMarkdown (params : FetchParams),
  let process := UrlFetcherV1.processResponse parseHTML JSON_parse htmlToMarkdown in
  let loop := retryLoop UrlFetcherV1.requestHeaders process params in
  let address := href (p_url params) in
  let request := EvFetch address (UrlFetcherV1.requestHeaders params) in
  (forall remaining attempt w e,
      attempt < MAX_RETRIES - 1 ->
      net w (issued w) address = Rejected e -> isAbortError e = false ->
      loop (S remaining) attempt w
      = loop remaining (S attempt)
          (mkWorld (net w) (S (issued w))
             ((trace w ++ [request]) ++ [EvSleep (getRetryDelay attempt)]))) /\
  (forall remaining w e,
      net w (issued w) address = Rejected e -> isAbortError e = false ->
      loop (S remaining) (MAX_RETRIES - 1) w
      = (inr (errorResult (lit "Failed to fetch URL: " ++ messageOf e)),
         mkWorld (net w) (S (issued w)) (trace w ++ [request]))) /\
  (forall remaining attempt w r e,
      attempt < MAX_RETRIES - 1 ->
      net w (issued w) address = Responded r -> ok r = true ->
      fst (process r (p_responseType params) (p_url params) w) = inl e ->
      isAbortError e = false ->
      exists t,
        Forall quiet t /\
        loop (S remaining) attempt w
        = loop remaining (S attempt)
            (mkWorld (net w) (S (issued w))
               (((trace w ++ [request]) ++ t) ++ [EvSleep (getRetryDelay attempt)]))).
Proof.
  intros parseHTML JSON_parse htmlToMarkdown params process loop address request.
  assert (forall attempt, attempt < MAX_RETRIES - 1 -> attempt <> MAX_RETRIES - 1) as Hne.
  { intros attempt. unfold MAX_RETRIES. simpl. lia. }
  split; [|split].
  - intros remaining attempt w e Hlt Hnet Habort.
    eapply loop_rejected_retry; eauto.
  - intros remaining w e Hnet Habort. eapply loop_rejected_final; eauto.
  - intros remaining attempt w r e Hlt Hnet Hok Hp Habort.
    destruct (v1_process_quiet parseHTML JSON_parse htmlToMarkdown r
                (p_responseType params) (p_url params)) as (a & t & Hrun & Hq).
    assert (a = inl e) as ->.
    { rewrite <- Hp. symmetry. eapply runs_fst. exact Hrun. }
    exists t. split; [exact Hq|].
    eapply loop_unprocessable_retry; eauto.
Qed.

(** Text when json was asked for, then JSON: the first response is read and
    rejected, the call sleeps 1000 ms and asks again. *)
Lemma failures_are_retried_with_backoff_witness :
  UrlFetcherV1.fetch_url noDocument parsesToObject noMarkdown jsonParams
    (initial textThenJson)
  = retryLoop UrlFetcherV1.requestHeaders
      (UrlFetcherV1.processResponse noDocument parsesToObject noMarkdown) jsonParams 2 1
      (mkWorld textThenJson 1
         [EvFetch (href examplePage) (UrlFetcherV1.requestHeaders jsonParams);
          EvReadBody; EvSleep 1000]) /\
  requests (trace (snd (UrlFetcherV1.fetch_url noDocument parsesToObject noMarkdown
                          jsonParams (initial textThenJson)))) = 2.
Proof.
  split; [|reflexivity].
  destruct (proj2 (proj2
             (failures_are_retried_with_backoff noDocument parsesToObject noMarkdown
                jsonParams))
             2 0 (initial textThenJson) plainHello
             (Error_ (lit "Response is not JSON"))
             ltac:(unfold MAX_RETRIES; simpl; lia) eq_refl eq_refl eq_refl eq_refl)
    as (t & _ & Hloop).
  reflexivity.
Defined.

(** ** The size check *)

Lemma isDigit_cases (c : N) :
  isDigit c = true ->
  In c [48; 49; 50; 51; 52; 53; 54; 55; 56; 57]%N.
Proof.
  unfold isDigit. rewrite andb_true_iff, !N.leb_le. intros [H1 H2]. simpl.
  assert (c = 48 \/ c = 49 \/ c = 50 \/ c = 51 \/ c = 52 \/ c = 53 \/ c = 54
          \/ c = 55 \/ c = 56 \/ c = 57)%N as H by lia.
  intuition auto.
Qed.

Lemma digitValue_digit (c : N) :
  isDigit c = true -> digitValue 10 c = Some (c - 48)%N.
Proof.
  intros H. apply isDigit_cases in H. simpl in H.
  repeat (destruct H as [<-|H]; [reflexivity|]). contradiction.
Qed.

Lemma digitsPrefix_digits (s : jsstring) (a : N) :
  forallb isDigit s = true ->
  digitsPrefix 10 s (Some a) = Some (fold_left (fun a c => 10 * a + (c - 48))%N s a).
Proof.
  revert a; induction s as [|c s IH]; intros a; simpl; [reflexivity|].
  rewrite andb_true_iff. intros [Hc Hs].
  rewrite (digitValue_digit _ Hc), IH by assumption.
  now rewrite (N.mul_comm a 10).
Qed.

(** On a well-formed [Content-Length] value [parseInt] returns the number it
    declares. *)
Lemma parseInt_decimal (s : jsstring) (n : N) :
  decimalValue s = Some n -> parseInt s = Some (Z.of_N n).
Proof.
  unfold decimalValue. destruct s as [|c s]; [discriminate|].
  destruct (forallb isDigit (c :: s)) eqn:Hd; [|discriminate].
  intros [= <-]. pose proof Hd as Hall.
  cbn [forallb] in Hd. apply andb_true_iff in Hd as [Hc Hs].
  assert (digitsPrefix 10 (c :: s) None
          = Some (fold_left (fun a c => 10 * a + (c - 48))%N (c :: s) 0%N)) as Hp.
  { cbn [digitsPrefix fold_left]. rewrite (digitValue_digit _ Hc).
    now rewrite digitsPrefix_digits. }
  destruct s as [|d s].
  - apply isDigit_cases in Hc. simpl in Hc.
    repeat (destruct Hc as [<-|Hc]; [reflexivity|]). contradiction.
  - cbn [forallb] in Hs. apply andb_true_iff in Hs as [Hdg Hs].
    unfold parseInt.
    apply isDigit_cases in Hc. apply isDigit_cases in Hdg. simpl in Hc, Hdg.
    repeat (destruct Hc as [<-|Hc];
            [repeat (destruct Hdg as [<-|Hdg];
                     [cbn [trimStart isWhiteSpace N.leb N.eqb N.compare Pos.compare
                           Pos.compare_cont Pos.eqb andb orb];
                      rewrite Hp; reflexivity|]);
             contradiction|]).
    contradiction.
Qed.

Lemma world_eta (w : World) : mkWorld (net w) (issued w) (trace w ++ []) = w.
Proof. destruct w. simpl. now rewrite app_nil_r. Qed.

Lemma withinLimit_decimal (r : Response) (v : jsstring) (n : N) :
  headers_get (headers r) (lit "content-length") = Some v ->
  decimalValue v = Some n ->
  withinLimit r = (Z.of_N n <=? MAX_RESPONSE_SIZE)%Z.
Proof.
  intros Hh Hv. unfold withinLimit, contentLengthOf. rewrite Hh.
  assert (orElse_opt (Some v) (lit "0") = v) as ->.
  { destruct v; [discriminate|reflexivity]. }
  rewrite (parseInt_decimal _ _ Hv). unfold gtNumber.
  now rewrite Z.leb_antisym.
Qed.

Lemma withinLimit_absent (r : Response) :
  headers_get (headers r) (lit "content-length") = None -> withinLimit r = true.
Proof. intros Hh. unfold withinLimit, contentLengthOf. now rewrite Hh. Qed.

(** C4, the size check of [processResponse], in both revisions.  When the
    [content-length] header is present and declares more than
    [MAX_RESPONSE_SIZE] (10 MiB), processing throws [Response too large] and
    leaves the world as it was: the body is not read.  When the header is
    absent, or declares no more than the limit, the first thing processing
    does is read the body.  The same holds of the number [parseInt] reads in
    a header that is not a plain decimal numeral. *)
Theorem size_limit_checked_before_body :
  forall parseHTML JSON_parse htmlToMarkdown (r : Response) rt url w,
  let process1 := UrlFetcherV1.processResponse parseHTML JSON_parse htmlToMarkdown in
  let process2 := UrlFetcher.processResponse parseHTML JSON_parse htmlToMarkdown in
  let tooLarge : (Exn + jsstring) * World := (inl (Error_ (lit "Response too large")), w) in
  let readsBody (outcome : (Exn + jsstring) * World) :=
    exists a t,
      outcome = (a, mkWorld (net w) (issued w) (trace w ++ EvReadBody :: t)) in
  MAX_RESPONSE_SIZE = (10 * 2 ^ 20)%Z /\
  (forall v n,
      headers_get (headers r) (lit "content-length") = Some v ->
      decimalValue v = Some n ->
      (MAX_RESPONSE_SIZE < Z.of_N n)%Z ->
      process1 r rt url w = tooLarge /\ process2 r rt url w = tooLarge) /\
  (headers_get (headers r) (lit "content-length") = None \/
   (exists v n,
       headers_get (headers r) (lit "content-length") = Some v /\
       decimalValue v = Some n /\ (Z.of_N n <= MAX_RESPONSE_SIZE)%Z) ->
   readsBody (process1 r rt url w) /\ readsBody (process2 r rt url w)) /\
  (forall n,
      contentLengthOf r = Some n ->
      if (MAX_RESPONSE_SIZE <? n)%Z
      then process1 r rt url w = tooLarge /\ process2 r rt url w = tooLarge
      else readsBody (process1 r rt url w) /\ readsBody (process2 r rt url w)).
Proof.
  intros parseHTML JSON_parse htmlToMarkdown r rt url w process1 process2 tooLarge
    readsBody.
  assert (withinLimit r = false ->
          process1 r rt url w = tooLarge /\ process2 r rt url w = tooLarge) as Hfail.
  { intros Hl. split.
    - unfold process1.
      rewrite (v1_process_too_large parseHTML JSON_parse htmlToMarkdown r rt url Hl).
      unfold tooLarge. now rewrite world_eta.
    - unfold process2.
      rewrite (v2_process_too_large parseHTML JSON_parse htmlToMarkdown r rt url Hl).
      unfold tooLarge. now rewrite world_eta. }
  assert (withinLimit r = true ->
          readsBody (process1 r rt url w) /\ readsBody (process2 r rt url w)) as Hread.
  { intros Hl. unfold readsBody.
    destruct (isGoogleSearch url) eqn:Hg; split; do 2 eexists.
    - unfold process1.
      now rewrite (v1_process_google parseHTML JSON_parse htmlToMarkdown r rt url Hl Hg).
    - unfold process2.
      now rewrite (v2_process_google parseHTML JSON_parse htmlToMarkdown r rt url Hl Hg).
    - unfold process1.
      now rewrite (v1_process_other parseHTML JSON_parse htmlToMarkdown r rt url Hl Hg).
    - unfold process2.
      now rewrite (v2_process_other parseHTML JSON_parse htmlToMarkdown r rt url Hl Hg). }
  split; [reflexivity|]. split; [|split].
  - intros v n Hh Hv Hgt. apply Hfail.
    rewrite (withinLimit_decimal _ _ _ Hh Hv). apply Z.leb_gt. exact Hgt.
  - intros H. apply Hread.
    destruct H as [Hh|(v & n & Hh & Hv & Hle)].
    + now apply withinLimit_absent.
    + rewrite (withinLimit_decimal _ _ _ Hh Hv). now apply Z.leb_le.
  - intros n Hn.
    destruct (MAX_RESPONSE_SIZE <? n)%Z eqn:Hc.
    + apply Hfail. unfold withinLimit. rewrite Hn. cbn [gtNumber]. now rewrite Hc.
    + apply Hread. unfold withinLimit. rewrite Hn. cbn [gtNumber]. now rewrite Hc.
Qed.

Lemma size_limit_checked_before_body_witness :
  UrlFetcherV1.processResponse noDocument noJSON noMarkdown oversized Text examplePage
    (initial offline)
  = (inl (Error_ (lit "Response too large")), initial offline) /\
  UrlFetcher.processResponse noDocument noJSON noMarkdown oversized Text examplePage
    (initial offline)
  = (inl (Error_ (lit "Response too large")), initial offline).
Proof.
  apply (proj1 (proj2
           (size_limit_checked_before_body noDocument noJSON noMarkdown oversized
              Text examplePage (initial offline)))
           (lit "10485761") 10485761%N); reflexivity.
Defined.

(** C5 (as amended), the json format in [processResponse], in both
    revisions, for a response that passes the size check.  For a URL that is
    not the search endpoint: when the content type does not include
    [application/json], processing reads the body and throws
    [Response is not JSON], returning nothing; when it does, the body is
    parsed and the value serialised again with two spaces of indentation, a
    parse error being thrown as it is.  For the search endpoint the json
    format returns the array of the extracted results, serialised with two
    spaces of indentation, whatever the content type.  A response that fails
    the size check throws [Response too large] at any URL, the search
    endpoint included, and its body is not read. *)
Theorem json_requires_json_content_type :
  forall parseHTML JSON_parse htmlToMarkdown (r : Response) (url : URL) (w : World),
  let process1 := UrlFetcherV1.processResponse parseHTML JSON_parse htmlToMarkdown in
  let process2 := UrlFetcher.processResponse parseHTML JSON_parse htmlToMarkdown in
  let afterRead := mkWorld (net w) (issued w) (trace w ++ [EvReadBody]) in
  (withinLimit r = true ->
   isGoogleSearch url = false ->
   (includes (contentTypeOf r) (lit "application/json") = false ->
    process1 r Json url w = (inl (Error_ (lit "Response is not JSON")), afterRead) /\
    process2 r Json url w = (inl (Error_ (lit "Response is not JSON")), afterRead)) /\
   (includes (contentTypeOf r) (lit "application/json") = true ->
    let reserialised :=
      match JSON_parse (body r) with
      | inr v => inr (JSON_stringify v)
      | inl syntaxError => inl syntaxError
      end in
    process1 r Json url w = (reserialised, afterRead) /\
    process2 r Json url w = (reserialised, afterRead))) /\
  (withinLimit r = true ->
   isGoogleSearch url = true ->
   fst (process1 r Json url w)
   = inr (JSON_stringify
            (JArr (map resultToJSON (UrlFetcherV1.collectResults (parseHTML (body r)))))) /\
   fst (process2 r Json url w)
   = inr (JSON_stringify
            (JArr (map resultToJSON (UrlFetcher.collectResults (parseHTML (body r))))))) /\
  (withinLimit r = false ->
   process1 r Json url w = (inl (Error_ (lit "Response too large")), w) /\
   process2 r Json url w = (inl (Error_ (lit "Response too large")), w)).
Proof.
  intros parseHTML JSON_parse htmlToMarkdown r url w process1 process2 afterRead.
  split; [|split].
  - intros Hl Hg.
    pose proof (v1_process_other parseHTML JSON_parse htmlToMarkdown r Json url Hl Hg w)
      as H1.
    pose proof (v2_process_other parseHTML JSON_parse htmlToMarkdown r Json url Hl Hg w)
      as H2.
    unfold dispatch in H1, H2.
    split; intros Hct; rewrite Hct in H1, H2; split; assumption.
  - intros Hl Hg. unfold process1, process2.
    rewrite (v1_process_google parseHTML JSON_parse htmlToMarkdown r Json url Hl Hg w).
    rewrite (v2_process_google parseHTML JSON_parse htmlToMarkdown r Json url Hl Hg w).
    split; reflexivity.
  - intros Hl. unfold process1, process2.
    rewrite (v1_process_too_large parseHTML JSON_parse htmlToMarkdown r Json url Hl w).
    rewrite (v2_process_too_large parseHTML JSON_parse htmlToMarkdown r Json url Hl w).
    rewrite world_eta. split; reflexivity.
Qed.

(** A JSON body at an ordinary URL; a results page served as [text/html] and
    asked for as json, in the two revisions; and a response at the search
    endpoint that declares one byte more than the limit. *)
Lemma json_requires_json_content_type_witness :
  UrlFetcherV1.processResponse noDocument parsesToObject noMarkdown jsonBody Json
    examplePage (initial offline)
  = (inr (lit "{" ++ nl ++ lit "  " ++ dq ++ lit "a" ++ dq ++ lit ": [" ++ nl
          ++ lit "    1," ++ nl ++ lit "    null" ++ nl ++ lit "  ]" ++ nl ++ lit "}"),
     mkWorld offline 0 [EvReadBody]) /\
  (fst (UrlFetcherV1.processResponse (parsesTo oneResultPage) noJSON noMarkdown htmlPage
          Json searchQuery (initial offline))
   = inr (lit "[" ++ nl ++ lit "  {" ++ nl
          ++ lit "    " ++ dq ++ lit "title" ++ dq ++ lit ": " ++ dq ++ lit "T" ++ dq
          ++ lit "," ++ nl
          ++ lit "    " ++ dq ++ lit "url" ++ dq ++ lit ": " ++ dq
          ++ lit "https://e.example/" ++ dq ++ lit "," ++ nl
          ++ lit "    " ++ dq ++ lit "description" ++ dq ++ lit ": " ++ dq
          ++ lit "No description" ++ dq ++ nl
          ++ lit "  }" ++ nl ++ lit "]") /\
   fst (UrlFetcher.processResponse (parsesTo oneResultPage) noJSON noMarkdown htmlPage
          Json searchQuery (initial offline))
   = inr (lit "[" ++ nl ++ lit "  {" ++ nl
          ++ lit "    " ++ dq ++ lit "title" ++ dq ++ lit ": " ++ dq ++ lit "T" ++ dq
          ++ lit "," ++ nl
          ++ lit "    " ++ dq ++ lit "url" ++ dq ++ lit ": " ++ dq
          ++ lit "https://e.example/" ++ dq ++ nl
          ++ lit "  }" ++ nl ++ lit "]")) /\
  UrlFetcher.processResponse noDocument noJSON noMarkdown oversized Json searchQuery
    (initial offline)
  = (inl (Error_ (lit "Response too large")), initial offline).
Proof.
  split; [|split].
  - exact (proj1 (proj2 (proj1
             (json_requires_json_content_type noDocument parsesToObject noMarkdown
                jsonBody examplePage (initial offline)) eq_refl eq_refl) eq_refl)).
  - exact (proj1 (proj2
             (json_requires_json_content_type (parsesTo oneResultPage) noJSON noMarkdown
                htmlPage searchQuery (initial offline))) eq_refl eq_refl).
  - exact (proj2 (proj2 (proj2
             (json_requires_json_content_type noDocument noJSON noMarkdown
                oversized searchQuery (initial offline))) eq_refl)).
Defined.

(** C5 as stated fails: for the search endpoint the json format returns the
    extracted results whatever the content type.  Here the page is
    [text/html] and holds no result. *)
Lemma json_of_search_page_ignores_content_type :
  isGoogleSearch searchQuery = true /\
  includes (contentTypeOf htmlPage) (lit "application/json") = false /\
  fst (UrlFetcherV1.processResponse (parsesTo (page [])) noJSON noMarkdown htmlPage Json
         searchQuery (initial offline))
  = inr (lit "[]") /\
  fst (UrlFetcher.processResponse (parsesTo (page [])) noJSON noMarkdown htmlPage Json
         searchQuery (initial offline))
  = inr (lit "[]").
Proof. repeat split. Qed.

(** ** [fetchUrl] *)

Section FetchUrlFacts.

Variable parseHTML : jsstring -> Document.
Variable htmlToMarkdown : jsstring -> jsstring.

Lemma fetchUrl_run (url : jsstring) (rt : ResponseType) (w : World) :
  UrlFetcher.fetchUrl parseHTML htmlToMarkdown url rt w
  = (fetchUrlOutcome parseHTML htmlToMarkdown url rt (net w (issued w) url),
     mkWorld (net w) (S (issued w))
       (trace w ++ EvFetch url UrlFetcher.BROWSER_HEADERS
                   :: fetchUrlEvents parseHTML url (net w (issued w) url))).
Proof.
  unfold UrlFetcher.fetchUrl, try_catch. unfold bind at 1.
  unfold fetchUrlOutcome, fetchUrlEvents, fetch.
  destruct (net w (issued w) url) as [r|e].
  - destruct (ok r) eqn:Hok; cbn [negb].
    + unfold bind at 1. rewrite runs_text. unfold bind at 1.
      unfold writeFileSync. rewrite runs_emit. unfold bind at 1.
      unfold console_log. rewrite runs_emit. cbn [net issued trace].
      unfold fetchedValue.
      destruct (startsWith url GOOGLE_SEARCH_URL).
      * rewrite v2_extract_runs. cbn [net issued trace].
        rewrite <- !app_assoc. reflexivity.
      * destruct rt; unfold ret; cbn [net issued trace];
          rewrite <- !app_assoc; reflexivity.
    + reflexivity.
  - unfold UrlFetcher.rethrow. destruct e; reflexivity.
Qed.

End FetchUrlFacts.

(** ** Which URLs are routed to the extractor *)

(** C7 at [https://www.google.com/searchlabs]: the origin and path are not
    those of the search endpoint, and [fetchUrlWithParams] returns the body,
    but [fetchUrl], which tests the prefix of the URL text, builds a document
    from the page and returns the entries it extracts from it. *)
Theorem fetchUrl_routes_by_prefix :
  isGoogleSearch searchLabs = false /\
  startsWith (href searchLabs) GOOGLE_SEARCH_URL = true /\
  (exists results world,
      UrlFetcher.fetchUrl (parsesTo sixResultsPage) noMarkdown (href searchLabs) Json
        (initial (script [Responded htmlPage]))
      = (inr (FResults results), world) /\
      length results = 6 /\
      parsedHTML (trace world) = true) /\
  (exists world,
      UrlFetcher.fetchUrlWithParams (parsesTo sixResultsPage) (fun _ => [])
        (UrlFetcher.mkFetchUrlParams searchLabs None None)
        (initial (script [Responded htmlPage]))
      = (inr (FContent (body htmlPage)), world) /\
      parsedHTML (trace world) = false).
Proof.
  split; [reflexivity|]. split; [reflexivity|]. split.
  - do 2 eexists. rewrite fetchUrl_run. split; [reflexivity|].
    split; [reflexivity|vm_compute; reflexivity].
  - eexists. split; reflexivity.
Qed.

(** [processResponse], in both revisions, and [fetchUrlWithParams] build a
    document from the body exactly when the origin and path of the URL are
    those of the search endpoint, for a response that passes the checks made
    before (the size check, the 2xx status). *)
Theorem extraction_follows_origin_and_path :
  forall parseHTML JSON_parse htmlToMarkdown zodMessage (r : Response) (w : World),
  (forall rt url,
      withinLimit r = true ->
      (exists a t,
          UrlFetcherV1.processResponse parseHTML JSON_parse htmlToMarkdown r rt url w
          = (a, mkWorld (net w) (issued w) (trace w ++ t)) /\
          parsedHTML t = isGoogleSearch url) /\
      (exists a t,
          UrlFetcher.processResponse parseHTML JSON_parse htmlToMarkdown r rt url w
          = (a, mkWorld (net w) (issued w) (trace w ++ t)) /\
          parsedHTML t = isGoogleSearch url)) /\
  (forall url rt,
      net w (issued w) (href url) = Responded r ->
      ok r = true ->
      exists a t,
        UrlFetcher.fetchUrlWithParams parseHTML zodMessage
          (UrlFetcher.mkFetchUrlParams url rt None) w
        = (inr a, mkWorld (net w) (S (issued w)) (trace w ++ t)) /\
        parsedHTML t = isGoogleSearch url).
Proof.
  intros parseHTML JSON_parse htmlToMarkdown zodMessage r w. split.
  - intros rt url Hl. destruct (isGoogleSearch url) eqn:Hg; split; do 2 eexists.
    + split; [apply (v1_process_google parseHTML JSON_parse htmlToMarkdown r rt url Hl Hg)|].
      reflexivity.
    + split; [apply (v2_process_google parseHTML JSON_parse htmlToMarkdown r rt url Hl Hg)|].
      cbn [parsedHTML existsb orb]. apply extractionEvents_parsed.
    + split; [apply (v1_process_other parseHTML JSON_parse htmlToMarkdown r rt url Hl Hg)|].
      reflexivity.
    + split; [apply (v2_process_other parseHTML JSON_parse htmlToMarkdown r rt url Hl Hg)|].
      reflexivity.
  - intros url rt Hnet Hok.
    unfold UrlFetcher.fetchUrlWithParams, UrlFetcher.parseParams.
    cbn [UrlFetcher.fp_url UrlFetcher.fp_responseType UrlFetcher.fp_timeout
         N.ltb N.compare Pos.compare Pos.compare_cont orb].
    unfold bind at 1. unfold ret at 1. unfold try_catch. unfold bind at 1.
    rewrite (fetch_responded _ _ _ _ Hnet), Hok. cbn [negb].
    unfold bind at 1. rewrite runs_text. cbn [net issued trace].
    destruct (isGoogleSearch url).
    + rewrite v2_extract_runs. cbn [net issued trace].
      do 2 eexists. rewrite <- !app_assoc. split; [reflexivity|].
      cbn [app parsedHTML existsb orb]. apply extractionEvents_parsed.
    + destruct rt as [[|]|]; unfold ret; do 2 eexists;
        rewrite <- !app_assoc; (split; [reflexivity|]); reflexivity.
Qed.

Lemma extraction_follows_origin_and_path_witness :
  exists a t,
    UrlFetcher.fetchUrlWithParams (parsesTo sixResultsPage) (fun _ => [])
      (UrlFetcher.mkFetchUrlParams searchQuery None None)
      (initial (script [Responded htmlPage]))
    = (inr a, mkWorld (script [Responded htmlPage]) 1 ([] ++ t)) /\
    parsedHTML t = isGoogleSearch searchQuery.
Proof.
  exact (proj2 (extraction_follows_origin_and_path (parsesTo sixResultsPage) noJSON
                  noMarkdown (fun _ => []) htmlPage (initial (script [Responded htmlPage])))
           searchQuery None eq_refl eq_refl).
Defined.

(** ** Deep search *)

Section DeepSearchFacts.

Variable parseHTML : jsstring -> Document.
Variable htmlToMarkdown : jsstring -> jsstring.

Lemma fetchOne_run rt u w :
  GoogleSearch.fetchOne parseHTML htmlToMarkdown rt u w
  = (inr (entryOf parseHTML htmlToMarkdown rt u (net w (issued w) (GoogleSearch.urlText u))),
     mkWorld (net w) (S (issued w))
       (trace w ++ EvFetch (GoogleSearch.urlText u) UrlFetcher.BROWSER_HEADERS
                   :: fetchUrlEvents parseHTML (GoogleSearch.urlText u)
                        (net w (issued w) (GoogleSearch.urlText u)))).
Proof.
  unfold GoogleSearch.fetchOne, GoogleSearch.fetchUrl, try_catch, bind.
  rewrite fetchUrl_run. unfold entryOf.
  destruct (fetchUrlOutcome _ _ _ _ _); reflexivity.
Qed.

Lemma promiseAllMap_run rt urls :
  forall w, exists t,
    GoogleSearch.promiseAllMap (GoogleSearch.fetchOne parseHTML htmlToMarkdown rt) urls w
    = (inr (entriesFrom parseHTML htmlToMarkdown (net w) rt (issued w) urls),
       mkWorld (net w) (issued w + length urls) (trace w ++ t)).
Proof.
  induction urls as [|u rest IH]; intros w.
  - exists []. cbn [GoogleSearch.promiseAllMap entriesFrom length].
    unfold ret. now rewrite Nat.add_0_r, world_eta.
  - cbn [GoogleSearch.promiseAllMap entriesFrom length].
    unfold bind at 1. rewrite fetchOne_run.
    match goal with |- context [mkWorld (net w) (S (issued w)) ?tr] =>
      destruct (IH (mkWorld (net w) (S (issued w)) tr)) as (t & Ht)
    end.
    unfold bind at 1. rewrite Ht. cbn [net issued trace]. unfold ret.
    eexists. rewrite <- app_assoc, Nat.add_succ_r. reflexivity.
Qed.

Lemma entryOf_spec rt u answer :
  let entry := entryOf parseHTML htmlToMarkdown rt u answer in
  GoogleSearch.fr_url entry = u /\
  GoogleSearch.hasError entry = negb (succeeds answer) /\
  if succeeds answer
  then GoogleSearch.fr_error entry = None /\
       exists content, GoogleSearch.fr_content entry = Some content
  else GoogleSearch.fr_content entry = None /\
       exists message, GoogleSearch.fr_error entry = Some message /\ message <> [].
Proof.
  cbv zeta. unfold entryOf, fetchUrlOutcome, succeeds.
  destruct answer as [r|[name message|]].
  - destruct (ok r); cbn; repeat split; eauto.
    eexists. split; [reflexivity|]. discriminate.
  - cbn. repeat split. eexists. split; [reflexivity|]. discriminate.
  - cbn. repeat split. eexists. split; [reflexivity|]. discriminate.
Qed.

Lemma entriesFrom_length oracle rt n urls :
  length (entriesFrom parseHTML htmlToMarkdown oracle rt n urls) = length urls.
Proof. revert n; induction urls; intros n; simpl; auto. Qed.

Lemma entriesFrom_nth oracle rt urls :
  forall n i u,
    nth_error urls i = Some u ->
    nth_error (entriesFrom parseHTML htmlToMarkdown oracle rt n urls) i
    = Some (entryOf parseHTML htmlToMarkdown rt u (oracle (n + i) (GoogleSearch.urlText u))).
Proof.
  induction urls as [|v rest IH]; intros n [|i] u H; try discriminate.
  - injection H as ->. cbn. now rewrite Nat.add_0_r.
  - cbn in H |- *. rewrite (IH (S n) i u H). now rewrite Nat.add_succ_r.
Qed.

Lemma entriesFrom_successes oracle rt urls :
  forall n,
    let entries := entriesFrom parseHTML htmlToMarkdown oracle rt n urls in
    length (filter (fun r => negb (GoogleSearch.hasError r)) entries)
    = length (filter succeeds (answersFrom oracle n urls)) /\
    length (filter GoogleSearch.hasError entries)
    = length (filter (fun a => negb (succeeds a)) (answersFrom oracle n urls)).
Proof.
  induction urls as [|u rest IH]; intros n; cbv zeta; [split; reflexivity|].
  cbn [entriesFrom answersFrom filter].
  destruct (entryOf_spec rt u (oracle n (GoogleSearch.urlText u))) as (_ & -> & _).
  destruct (IH (S n)) as [IH1 IH2]. cbv zeta in IH1, IH2.
  destruct (succeeds _); cbn [negb length]; split; congruence.
Qed.

Lemma entriesFrom_map {B} oracle rt (f : GoogleSearch.FullResult -> B)
  (g : jsstring * NetOutcome -> B) :
  (forall u a, f (entryOf parseHTML htmlToMarkdown rt (Some u) a) = g (u, a)) ->
  forall urls n,
    map f (entriesFrom parseHTML htmlToMarkdown oracle rt n (map Some urls))
    = map g (combine urls (answersFrom oracle n (map Some urls))).
Proof.
  intros H. induction urls as [|u rest IH]; intros n; [reflexivity|].
  cbn [map entriesFrom answersFrom combine]. now rewrite H, IH.
Qed.

Lemma answersFrom_length oracle urls :
  forall n, length (answersFrom oracle n urls) = length urls.
Proof. induction urls as [|u rest IH]; intros n; [reflexivity|]. cbn. now rewrite IH. Qed.

Lemma answersFrom_nth oracle urls :
  forall n i u,
    nth_error urls i = Some u ->
    nth_error (answersFrom oracle n (map Some urls)) i = Some (oracle (n + i) u).
Proof.
  induction urls as [|v rest IH]; intros n [|i] u H; try discriminate.
  - injection H as ->. cbn. now rewrite Nat.add_0_r.
  - cbn in H |- *. rewrite (IH (S n) i u H). now rewrite Nat.add_succ_r.
Qed.

Lemma filter_combine_snd {A B} (h : B -> bool) (xs : list A) :
  forall ys,
    length xs = length ys ->
    length (filter (fun p => h (snd p)) (combine xs ys)) = length (filter h ys).
Proof.
  induction xs as [|x xs IH]; intros [|y ys] H; try discriminate; [reflexivity|].
  cbn [combine filter snd]. injection H as H. destruct (h y); cbn [length]; now rewrite IH.
Qed.

End DeepSearchFacts.

Lemma searchUrl_is_routed (query : jsstring) (maxResults : N) (topic : GoogleSearch.Topic) :
  startsWith (GoogleSearch.buildGoogleSearchUrl query maxResults topic) GOOGLE_SEARCH_URL
  = true.
Proof. reflexivity. Qed.

Lemma digits_acc_digits (fuel : nat) :
  forall n acc,
  Forall (fun c => isDigit c = true) acc ->
  Forall (fun c => isDigit c = true) (digits_acc fuel n acc).
Proof.
  assert (forall n, isDigit (48 + n mod 10) = true) as Hd.
  { intros n. unfold isDigit. rewrite andb_true_iff, !N.leb_le.
    assert (n mod 10 < 10)%N as H by (apply N.mod_upper_bound; discriminate).
    revert H. generalize (n mod 10)%N. intros d H. lia. }
  induction fuel as [|fuel IH]; intros n acc Hacc; cbn [digits_acc].
  - constructor; [apply Hd | exact Hacc].
  - destruct (n <? 10)%N.
    + constructor; [apply Hd | exact Hacc].
    + apply IH. constructor; [apply Hd | exact Hacc].
Qed.

Lemma formEncode_digits (s : jsstring) :
  Forall (fun c => isDigit c = true) s -> GoogleSearch.formEncode s = s.
Proof.
  unfold GoogleSearch.formEncode.
  induction 1 as [|c s Hc _ IH]; [reflexivity|].
  apply isDigit_cases in Hc. cbn [In] in Hc.
  assert (GoogleSearch.utf8 (c :: s) = c :: GoogleSearch.utf8 s
          /\ GoogleSearch.formEncodeByte c = [c]) as [E1 E2].
  { repeat (destruct Hc as [<- | Hc]; [split; reflexivity|]). destruct Hc. }
  rewrite E1. cbn [flat_map]. rewrite E2, IH. reflexivity.
Qed.

Lemma digits_acc_value (fuel : nat) :
  forall n acc,
    (n < 10 ^ N.of_nat (S fuel))%N ->
    fold_left (fun a c => 10 * a + (c - 48))%N (digits_acc fuel n acc) 0%N
    = fold_left (fun a c => 10 * a + (c - 48))%N acc n.
Proof.
  induction fuel as [|fuel IH]; intros n acc Hn; cbn [digits_acc].
  - cbn [fold_left]. f_equal. change (10 ^ N.of_nat 1)%N with 10%N in Hn.
    rewrite N.mod_small by exact Hn. lia.
  - destruct (n <? 10)%N eqn:Hlt.
    + apply N.ltb_lt in Hlt. cbn [fold_left]. f_equal.
      rewrite N.mod_small by exact Hlt. lia.
    + rewrite IH.
      * cbn [fold_left]. f_equal.
        replace (48 + n mod 10 - 48)%N with (n mod 10)%N
          by (generalize (n mod 10)%N; intros d; lia).
        symmetry. apply N.div_mod. discriminate.
      * rewrite Nat2N.inj_succ, N.pow_succ_r' in Hn.
        apply N.Div0.div_lt_upper_bound. exact Hn.
Qed.

Lemma digits_acc_first (fuel : nat) :
  forall n acc,
    (0 < n < 10 ^ N.of_nat (S fuel))%N ->
    exists c rest, digits_acc fuel n acc = c :: rest /\ c <> 48%N.
Proof.
  induction fuel as [|fuel IH]; intros n acc Hn; cbn [digits_acc].
  - change (10 ^ N.of_nat 1)%N with 10%N in Hn.
    do 2 eexists. split; [reflexivity|]. rewrite N.mod_small by lia. lia.
  - destruct (n <? 10)%N eqn:Hlt.
    + apply N.ltb_lt in Hlt.
      do 2 eexists. split; [reflexivity|]. rewrite N.mod_small by lia. lia.
    + apply N.ltb_ge in Hlt. apply IH. split.
      * apply N.div_str_pos. lia.
      * rewrite Nat2N.inj_succ, N.pow_succ_r' in Hn.
        apply N.Div0.div_lt_upper_bound. lia.
Qed.

Lemma enough_fuel (n : N) : (n < 10 ^ N.of_nat (S (N.to_nat (N.log2 n))))%N.
Proof.
  rewrite Nat2N.inj_succ, N2Nat.id.
  destruct n as [|p]; [reflexivity|].
  pose proof (N.log2_spec (N.pos p) ltac:(lia)) as [_ H].
  eapply N.lt_le_trans; [exact H|].
  apply N.pow_le_mono_l. lia.
Qed.

Lemma Number_toString_value (n : N) : decimalValue (Number_toString n) = Some n.
Proof.
  unfold decimalValue, Number_toString.
  pose proof (digits_acc_digits (N.to_nat (N.log2 n)) n [] (Forall_nil _)) as Hd.
  pose proof (digits_acc_value (N.to_nat (N.log2 n)) n [] (enough_fuel n)) as Hv.
  destruct (digits_acc _ n []) as [|c s] eqn:E.
  - destruct (N.to_nat (N.log2 n)); cbn [digits_acc] in E;
      [discriminate|destruct (n <? 10)%N; [discriminate|]].
    exfalso. revert E. generalize (n / 10)%N, [(48 + n mod 10)%N].
    induction n0 as [|f IH]; intros m acc; cbn [digits_acc]; [discriminate|].
    destruct (m <? 10)%N; [discriminate|apply IH].
  - replace (forallb isDigit (c :: s)) with true.
    + now rewrite Hv.
    + symmetry. apply forallb_forall. apply Forall_forall. exact Hd.
Qed.

(** The search URL of the deep search, for a [maxResults] that is a safe
    integer: the query form-encoded after [q=], the number of results (10
    when none is asked for) after [num=], as a decimal numeral without
    leading zero, and one tab parameter, [tbm=nws] for news and [udm=14] for
    the web. *)
Theorem search_url_has_one_tab_parameter :
  forall (query : jsstring) (maxResults : N),
  isSafeInteger maxResults = true ->
  let n := if (maxResults =? 0)%N then 10%N else maxResults in
  let num := Number_toString n in
  let common :=
    lit "https://www.google.com/search?q=" ++ GoogleSearch.formEncode query
    ++ lit "&num=" ++ num in
  Forall (fun c => isDigit c = true) num /\
  decimalValue num = Some n /\
  (exists c rest, num = c :: rest /\ c <> 48%N) /\
  GoogleSearch.buildGoogleSearchUrl query maxResults GoogleSearch.News
  = common ++ lit "&tbm=nws" /\
  GoogleSearch.buildGoogleSearchUrl query maxResults GoogleSearch.Web
  = common ++ lit "&udm=14".
Proof.
  intros query maxResults _ n num common.
  assert (Forall (fun c => isDigit c = true) num) as Hdigits.
  { apply digits_acc_digits. constructor. }
  split; [exact Hdigits|]. split; [apply Number_toString_value|]. split.
  { apply digits_acc_first. split; [|apply enough_fuel].
    unfold n. destruct (maxResults =? 0)%N eqn:E; [reflexivity|].
    apply N.eqb_neq in E. lia. }
  assert (GoogleSearch.formEncode num = num) as Hnum.
  { apply formEncode_digits. exact Hdigits. }
  unfold GoogleSearch.buildGoogleSearchUrl. fold n. fold num.
  unfold common, GoogleSearch.paramsToString.
  split.
  - change (GoogleSearch.setParam _ (lit "tbm") (lit "nws"))
      with [(lit "q", query); (lit "num", num); (lit "tbm", lit "nws")].
    cbn [map join fst snd]. rewrite Hnum.
    change (GoogleSearch.formEncode (lit "q")) with (lit "q").
    change (GoogleSearch.formEncode (lit "num")) with (lit "num").
    change (GoogleSearch.formEncode (lit "tbm")) with (lit "tbm").
    change (GoogleSearch.formEncode (lit "nws")) with (lit "nws").
    rewrite <- !app_assoc. reflexivity.
  - change (GoogleSearch.setParam _ (lit "udm") (lit "14"))
      with [(lit "q", query); (lit "num", num); (lit "udm", lit "14")].
    cbn [map join fst snd]. rewrite Hnum.
    change (GoogleSearch.formEncode (lit "q")) with (lit "q").
    change (GoogleSearch.formEncode (lit "num")) with (lit "num").
    change (GoogleSearch.formEncode (lit "udm")) with (lit "udm").
    change (GoogleSearch.formEncode (lit "14")) with (lit "14").
    rewrite <- !app_assoc. reflexivity.
Qed.

(** Twenty-five results about [rocq prover], and the default of ten. *)
Lemma search_url_has_one_tab_parameter_witness :
  GoogleSearch.buildGoogleSearchUrl (lit "rocq prover") 25 GoogleSearch.News
  = lit "https://www.google.com/search?q=rocq+prover&num=25&tbm=nws" /\
  GoogleSearch.buildGoogleSearchUrl (lit "rocq prover") 0 GoogleSearch.Web
  = lit "https://www.google.com/search?q=rocq+prover&num=10&udm=14".
Proof.
  split.
  - exact (proj1 (proj2 (proj2 (proj2
             (search_url_has_one_tab_parameter (lit "rocq prover") 25 eq_refl))))).
  - exact (proj2 (proj2 (proj2 (proj2
             (search_url_has_one_tab_parameter (lit "rocq prover") 0 eq_refl))))).
Defined.

(** C8, deep search.  When the search page is fetched, every URL extracted
    from it is fetched on its own, in the order of extraction, the answer to
    request [1 + i] being that of URL [i], and the call returns the success
    envelope whatever the number of URLs that fail.  Its text is made of one
    entry per URL, in that order, and an entry depends on the answer to its
    own request only.  For a 2xx answer the entry holds the URL and what
    [fetchUrl] returns for the body, and no error; otherwise it holds the URL
    and the message [Failed to fetch URL: HTTP error! status: <status>] for a
    status outside 2xx, [Failed to fetch URL: <message>] for a rejected
    request, [Unknown error] for a rejection that is not an [Error], and no
    content.  In json the text is the array of the objects
    [{ url, content, error }] with [null] for what is missing, serialised
    with two spaces of indentation; markdown, html and text join one block
    per entry, a heading with the URL followed by the content or by the
    error.  The metadata count the entries and the entries without error.
    With three URLs of which one fails that is [resultsCount] 3,
    [successCount] 2, two entries with content and one with an error
    message. *)
Theorem deep_search_collects_failures :
  forall parseHTML htmlToMarkdown (params : GoogleSearch.SearchParams)
         (oracle : nat -> jsstring -> NetOutcome) (page : Response),
  let searchUrl :=
    GoogleSearch.buildGoogleSearchUrl (GoogleSearch.query params)
      (GoogleSearch.maxResults params) (GoogleSearch.topic params) in
  oracle 0 searchUrl = Responded page ->
  ok page = true ->
  let rt := GoogleSearch.responseType params in
  let urls := map url (UrlFetcher.collectResults (parseHTML (body page))) in
  let answers := answersFrom oracle 1 (map Some urls) in
  let outcomeOf (p : jsstring * NetOutcome) : jsstring + Fetched :=
    match snd p with
    | Responded r =>
        if ok r then inr (fetchedValue parseHTML htmlToMarkdown (fst p) rt (body r))
        else inl (lit "Failed to fetch URL: HTTP error! status: "
                  ++ Number_toString (status r))
    | Rejected (JSError _ message) => inl (lit "Failed to fetch URL: " ++ message)
    | Rejected NonError => inl (lit "Unknown error")
    end in
  let shown (content : Fetched) : jsstring :=
    match content with
    | FString s => s
    | FResults rs => join (lit ",") (map (fun _ => lit "[object Object]") rs)
    | FContent _ => lit "[object Object]"
    end in
  let entry (p : jsstring * NetOutcome) : JSON :=
    match outcomeOf p with
    | inr content =>
        JObj [(lit "url", JStr (fst p)); (lit "content", fetchedToJSON content);
              (lit "error", JNull)]
    | inl message =>
        JObj [(lit "url", JStr (fst p)); (lit "content", JNull);
              (lit "error", JStr message)]
    end in
  let block (failed succeeded : jsstring -> jsstring -> jsstring)
            (p : jsstring * NetOutcome) : jsstring :=
    match outcomeOf p with
    | inr content => succeeded (fst p) (shown content)
    | inl message => failed (fst p) message
    end in
  let pages := combine urls answers in
  let text :=
    match rt with
    | Json => JSON_stringify (JArr (map entry pages))
    | Markdown =>
        join (nl ++ nl ++ lit "---" ++ nl ++ nl)
          (map (block
                  (fun u message =>
                     lit "## [Failed to fetch: " ++ u ++ lit "]" ++ nl
                     ++ lit "Error: " ++ message)
                  (fun u content => lit "## [" ++ u ++ lit "]" ++ nl ++ nl ++ content))
             pages)
    | Html =>
        join nl
          (map (block
                  (fun u message =>
                     lit "<div class=" ++ dq ++ lit "search-result error" ++ dq
                     ++ lit "><h2><a href=" ++ dq ++ u ++ dq
                     ++ lit ">Failed to fetch</a></h2><p class=" ++ dq ++ lit "error" ++ dq
                     ++ lit ">" ++ message ++ lit "</p></div>")
                  (fun u content =>
                     lit "<div class=" ++ dq ++ lit "search-result" ++ dq
                     ++ lit "><h2><a href=" ++ dq ++ u ++ dq ++ lit ">" ++ u
                     ++ lit "</a></h2>" ++ content ++ lit "</div>"))
             pages)
    | Text =>
        join (nl ++ nl ++ lit "==========" ++ nl ++ nl)
          (map (block
                  (fun u message => lit "### " ++ u ++ nl ++ lit "Error: " ++ message)
                  (fun u content => lit "### " ++ u ++ nl ++ nl ++ content))
             pages)
    end in
  let mimeType :=
    match rt with
    | Json => lit "application/json"
    | Markdown => lit "text/markdown"
    | Html => lit "text/html"
    | Text => lit "text/plain"
    end in
  let failed (p : jsstring * NetOutcome) : bool :=
    match outcomeOf p with inl _ => true | inr _ => false end in
  fst (GoogleSearch.google_search parseHTML htmlToMarkdown params (initial oracle))
  = inr (mkToolResult
           [mkContent (lit "text") text (Some mimeType)]
           (Some (GoogleSearch.mkSearchMetadata (GoogleSearch.query params)
                    (GoogleSearch.topic params) (GoogleSearch.maxResults params) rt
                    (length urls) (length (filter succeeds answers))))
           false) /\
  length answers = length urls /\
  (forall i u,
      nth_error urls i = Some u -> nth_error answers i = Some (oracle (1 + i) u)) /\
  (forall p, failed p = negb (succeeds (snd p))) /\
  (length urls = 3 ->
   length (filter (fun a => negb (succeeds a)) answers) = 1 ->
   length (filter succeeds answers) = 2 /\
   length (filter (fun p => negb (failed p)) pages) = 2 /\
   length (filter failed pages) = 1).
Proof.
  intros parseHTML htmlToMarkdown params oracle page searchUrl Hnet Hok rt urls answers
    outcomeOf shown entry block pages text mimeType failed.
  assert (length answers = length urls) as Hlen.
  { unfold answers. now rewrite answersFrom_length, length_map. }
  assert (forall p, failed p = negb (succeeds (snd p))) as Hfailed.
  { intros [u [r|[name message|]]]; unfold failed, outcomeOf; cbn [snd succeeds];
      [destruct (ok r)|..]; reflexivity. }
  set (fullResults := entriesFrom parseHTML htmlToMarkdown oracle rt 1 (map Some urls)).
  assert (forall (failing succeeding : jsstring -> jsstring -> jsstring),
             map (fun r =>
                    if GoogleSearch.hasError r
                    then failing (GoogleSearch.urlText (GoogleSearch.fr_url r))
                           (GoogleSearch.errorText r)
                    else succeeding (GoogleSearch.urlText (GoogleSearch.fr_url r))
                           (GoogleSearch.contentText (GoogleSearch.fr_content r)))
               fullResults
             = map (block failing succeeding) pages) as Hblocks.
  { intros failing succeeding. apply entriesFrom_map.
    intros u [r|[name message|]]; unfold block, outcomeOf, entryOf, fetchUrlOutcome;
      cbn [fst snd]; [destruct (ok r)|..]; reflexivity. }
  assert (GoogleSearch.formatFullResults fullResults rt = text) as Htext.
  { unfold text, GoogleSearch.formatFullResults. destruct rt.
    - f_equal.
      apply (Hblocks (fun u message => lit "### " ++ u ++ nl ++ lit "Error: " ++ message)
               (fun u content => lit "### " ++ u ++ nl ++ nl ++ content)).
    - f_equal. f_equal. apply entriesFrom_map.
      intros u [r|[name message|]]; unfold entry, outcomeOf, entryOf, fetchUrlOutcome;
        cbn [fst snd]; [destruct (ok r)|..]; reflexivity.
    - f_equal.
      apply (Hblocks
               (fun u message =>
                  lit "<div class=" ++ dq ++ lit "search-result error" ++ dq
                  ++ lit "><h2><a href=" ++ dq ++ u ++ dq
                  ++ lit ">Failed to fetch</a></h2><p class=" ++ dq ++ lit "error" ++ dq
                  ++ lit ">" ++ message ++ lit "</p></div>")
               (fun u content =>
                  lit "<div class=" ++ dq ++ lit "search-result" ++ dq
                  ++ lit "><h2><a href=" ++ dq ++ u ++ dq ++ lit ">" ++ u
                  ++ lit "</a></h2>" ++ content ++ lit "</div>")).
    - f_equal.
      apply (Hblocks
               (fun u message =>
                  lit "## [Failed to fetch: " ++ u ++ lit "]" ++ nl
                  ++ lit "Error: " ++ message)
               (fun u content => lit "## [" ++ u ++ lit "]" ++ nl ++ nl ++ content)). }
  destruct (entriesFrom_successes parseHTML htmlToMarkdown oracle rt (map Some urls) 1)
    as [Hs Hf].
  fold answers fullResults in Hs, Hf.
  split; [|split; [|split; [|split]]].
  - unfold GoogleSearch.google_search, try_catch. unfold bind at 1.
    unfold GoogleSearch.fetchUrl. rewrite fetchUrl_run.
    cbn [net issued initial]. fold searchUrl. rewrite Hnet.
    cbn [fetchUrlOutcome]. rewrite Hok. unfold fetchedValue.
    unfold searchUrl at 1. rewrite searchUrl_is_routed.
    cbn [extracted GoogleSearch.extractSearchUrls].
    rewrite <- (map_map url Some). fold urls.
    match goal with |- context [bind _ _ ?w] =>
      destruct (promiseAllMap_run parseHTML htmlToMarkdown rt (map Some urls) w) as (t & Ht)
    end.
    unfold bind at 1. unfold rt in Ht. rewrite Ht. unfold ret. cbn [net issued fst].
    fold rt. fold fullResults.
    rewrite Hs, Htext. unfold fullResults.
    rewrite entriesFrom_length, length_map.
    unfold mimeType, mimeTypeOf. reflexivity.
  - exact Hlen.
  - intros i u Hu. unfold answers. now apply answersFrom_nth.
  - exact Hfailed.
  - intros H3 H1.
    assert (length (filter succeeds answers)
            + length (filter (fun a => negb (succeeds a)) answers) = length answers) as Hsum.
    { clear. induction answers as [|a l IH]; [reflexivity|].
      cbn [filter]. destruct (succeeds a); cbn [negb length]; lia. }
    split; [lia|].
    rewrite (filter_ext _ (fun p => negb (negb (succeeds (snd p)))))
      by (intros p; now rewrite Hfailed).
    rewrite (filter_ext failed (fun p => negb (succeeds (snd p)))) by exact Hfailed.
    unfold pages.
    rewrite (filter_combine_snd (fun a => negb (negb (succeeds a)))) by (symmetry; exact Hlen).
    rewrite (filter_combine_snd (fun a => negb (succeeds a))) by (symmetry; exact Hlen).
    rewrite (filter_ext (fun a => negb (negb (succeeds a))) succeeds)
      by (intros a; apply negb_involutive).
    lia.
Qed.

(** Three results, the second of which answers [404 Not Found], asked for as
    text and as json. *)
Lemma deep_search_collects_failures_witness :
  fst (GoogleSearch.google_search (parsesTo threeResultsPage) noMarkdown searchForRocq
         (initial secondResultMissing))
  = inr (mkToolResult
           [mkContent (lit "text")
              (lit "### https://a.example/1" ++ nl ++ nl ++ lit "hello"
               ++ nl ++ nl ++ lit "==========" ++ nl ++ nl
               ++ lit "### https://a.example/2" ++ nl
               ++ lit "Error: Failed to fetch URL: HTTP error! status: 404"
               ++ nl ++ nl ++ lit "==========" ++ nl ++ nl
               ++ lit "### https://a.example/3" ++ nl ++ nl ++ lit "hello")
              (Some (lit "text/plain"))]
           (Some (GoogleSearch.mkSearchMetadata (lit "rocq") GoogleSearch.Web 10 Text 3 2))
           false) /\
  fst (GoogleSearch.google_search (parsesTo threeResultsPage) noMarkdown searchForRocqAsJson
         (initial secondResultMissing))
  = inr (mkToolResult
           [mkContent (lit "text")
              (lit "[" ++ nl
               ++ lit "  {" ++ nl
               ++ lit "    " ++ dq ++ lit "url" ++ dq ++ lit ": " ++ dq ++ lit "https://a.example/1" ++ dq ++ lit "," ++ nl
               ++ lit "    " ++ dq ++ lit "content" ++ dq ++ lit ": [" ++ nl
               ++ lit "      {" ++ nl
               ++ lit "        " ++ dq ++ lit "content" ++ dq ++ lit ": " ++ dq ++ lit "hello" ++ dq ++ nl
               ++ lit "      }" ++ nl
               ++ lit "    ]," ++ nl
               ++ lit "    " ++ dq ++ lit "error" ++ dq ++ lit ": null" ++ nl
               ++ lit "  }," ++ nl
               ++ lit "  {" ++ nl
               ++ lit "    " ++ dq ++ lit "url" ++ dq ++ lit ": " ++ dq ++ lit "https://a.example/2" ++ dq ++ lit "," ++ nl
               ++ lit "    " ++ dq ++ lit "content" ++ dq ++ lit ": null," ++ nl
               ++ lit "    " ++ dq ++ lit "error" ++ dq ++ lit ": " ++ dq ++ lit "Failed to fetch URL: HTTP error! status: 404" ++ dq ++ nl
               ++ lit "  }," ++ nl
               ++ lit "  {" ++ nl
               ++ lit "    " ++ dq ++ lit "url" ++ dq ++ lit ": " ++ dq ++ lit "https://a.example/3" ++ dq ++ lit "," ++ nl
               ++ lit "    " ++ dq ++ lit "content" ++ dq ++ lit ": [" ++ nl
               ++ lit "      {" ++ nl
               ++ lit "        " ++ dq ++ lit "content" ++ dq ++ lit ": " ++ dq ++ lit "hello" ++ dq ++ nl
               ++ lit "      }" ++ nl
               ++ lit "    ]," ++ nl
               ++ lit "    " ++ dq ++ lit "error" ++ dq ++ lit ": null" ++ nl
               ++ lit "  }" ++ nl
               ++ lit "]")
              (Some (lit "application/json"))]
           (Some (GoogleSearch.mkSearchMetadata (lit "rocq") GoogleSearch.Web 10 Json 3 2))
           false).
Proof.
  split.
  - exact (proj1 (deep_search_collects_failures (parsesTo threeResultsPage) noMarkdown
                    searchForRocq secondResultMissing htmlPage eq_refl eq_refl)).
  - exact (proj1 (deep_search_collects_failures (parsesTo threeResultsPage) noMarkdown
                    searchForRocqAsJson secondResultMissing htmlPage eq_refl eq_refl)).
Defined.

(** ** The effects of the fetch paths *)

(** C9 at an ordinary page: [fetchUrl] makes its request, reads the body,
    writes it to the file [fetchedPage.html] and prints a line on the
    console. *)
Theorem fetchUrl_writes_a_file :
  UrlFetcher.fetchUrl noDocument noMarkdown (href examplePage) Text
    (initial (script [Responded plainHello]))
  = (inr (FString (lit "hello")),
     mkWorld (script [Responded plainHello]) 1
       [EvFetch (href examplePage) UrlFetcher.BROWSER_HEADERS;
        EvReadBody;
        EvWriteFile (lit "fetchedPage.html") (lit "hello");
        EvConsoleLog (lit "Saved fetched HTML (5 bytes) to fetchedPage.html")]) /\
  fileWrites (trace (snd (UrlFetcher.fetchUrl noDocument noMarkdown (href examplePage) Text
                            (initial (script [Responded plainHello])))))
  = [(lit "fetchedPage.html", lit "hello")].
Proof. split; reflexivity. Qed.

Lemma quiet_networkOnly (t : list Event) : Forall quiet t -> Forall networkOnly t.
Proof.
  apply Forall_impl. intros [] H; simpl in *; auto.
Qed.

Lemma networkOnly_fileWrites (t : list Event) : Forall networkOnly t -> fileWrites t = [].
Proof.
  induction 1 as [|e t He _ IH]; [reflexivity|].
  destruct e; try contradiction; exact IH.
Qed.

Section FrameFacts.

Variable requestHeaders : FetchParams -> list (jsstring * jsstring).
Variable processResponse : Response -> ResponseType -> URL -> M jsstring.
Variable params : FetchParams.

Hypothesis process_frame :
  forall r rt url, exists a t, runs (processResponse r rt url) a t /\ Forall networkOnly t.

Lemma later_later w k t k' t' :
  later (later w k t) k' t' = later w (k + k') (t ++ t').
Proof. unfold later. simpl. now rewrite Nat.add_assoc, app_assoc. Qed.

Lemma catchBlock_frame attempt error w :
  exists step t,
    catchBlock params attempt error w = (inr step, later w 0 t) /\ Forall networkOnly t.
Proof.
  unfold catchBlock, later. rewrite Nat.add_0_r.
  destruct (isAbortError error).
  - eexists _, []. split; [|constructor]. unfold ret. now rewrite world_eta.
  - destruct (Nat.eqb attempt (MAX_RETRIES - 1)).
    + eexists _, []. split; [|constructor]. unfold ret. now rewrite world_eta.
    + exists Continue, [EvSleep (getRetryDelay attempt)].
      split; [reflexivity|]. repeat constructor.
Qed.

(** One pass through the loop body: one request, and no exception. *)
Lemma pass_frame attempt w :
  exists step t,
    try_catch (tryBlock requestHeaders processResponse params attempt)
      (catchBlock params attempt) w
    = (inr step, later w 1 t) /\ Forall networkOnly t.
Proof.
  unfold try_catch, tryBlock. unfold bind at 1. unfold fetch.
  set (request := EvFetch (href (p_url params)) (requestHeaders params)).
  assert (mkWorld (net w) (S (issued w)) (trace w ++ [request]) = later w 1 [request])
    as ->.
  { unfold later. now rewrite Nat.add_1_r. }
  assert (Forall networkOnly [request]) as Hreq by (repeat constructor).
  destruct (net w (issued w) (href (p_url params))) as [r|e].
  - destruct (ok r); cbn [negb].
    + destruct (process_frame r (p_responseType params) (p_url params))
        as (a & t & Hrun & Ht).
      unfold bind. rewrite Hrun.
      change (mkWorld (net (later w 1 [request])) (issued (later w 1 [request]))
                (trace (later w 1 [request]) ++ t))
        with (mkWorld (net w) (issued w + 1) ((trace w ++ [request]) ++ t)).
      assert (mkWorld (net w) (issued w + 1) ((trace w ++ [request]) ++ t)
              = later w 1 ([request] ++ t)) as ->.
      { unfold later. now rewrite app_assoc. }
      destruct a as [e|processedContent].
      * destruct (catchBlock_frame attempt e (later w 1 ([request] ++ t)))
          as (step & t' & Hc & Ht').
        rewrite Hc, later_later, Nat.add_0_r. exists step, (([request] ++ t) ++ t').
        split; [reflexivity|]. repeat (apply Forall_app; split); auto.
      * unfold ret. eexists _, ([request] ++ t). split; [reflexivity|].
        apply Forall_app; split; auto.
    + destruct (status r =? 429)%N.
      * destruct (Nat.eqb attempt (MAX_RETRIES - 1)).
        -- eexists _, [request]. unfold ret. split; [reflexivity|assumption].
        -- eexists _, ([request] ++ [EvSleep (getRetryDelay attempt)]).
           split; [|repeat constructor].
           unfold bind, sleep, emit, ret, later. cbn [net issued trace].
           now rewrite <- app_assoc.
      * eexists _, [request]. unfold ret. split; [reflexivity|assumption].
  - destruct (catchBlock_frame attempt e (later w 1 [request])) as (step & t' & Hc & Ht').
    rewrite Hc, later_later, Nat.add_0_r. exists step, ([request] ++ t').
    split; [reflexivity|]. apply Forall_app; split; auto.
Qed.

Lemma loop_frame remaining :
  forall attempt w,
    exists result k t,
      retryLoop requestHeaders processResponse params remaining attempt w
      = (inr result, later w k t) /\ Forall networkOnly t /\ k <= remaining.
Proof.
  induction remaining as [|remaining IH]; intros attempt w.
  - eexists _, 0, []. cbn [retryLoop]. unfold ret, later.
    rewrite Nat.add_0_r, world_eta. split; [reflexivity|]. split; [constructor|lia].
  - cbn [retryLoop]. unfold bind.
    destruct (pass_frame attempt w) as (step & t & Hp & Ht). rewrite Hp.
    destruct step as [r|].
    + exists r, 1, t. split; [reflexivity|]. split; [assumption|lia].
    + destruct (IH (S attempt) (later w 1 t)) as (result & k' & t' & Hl & Ht' & Hk).
      rewrite Hl. exists result, (1 + k'), (t ++ t'). split.
      * now rewrite later_later.
      * split; [apply Forall_app; split; assumption|lia].
Qed.

End FrameFacts.

(** The [fetch_url] callback of [src/url-fetcher.ts] always returns an
    envelope, it never throws; and all it does besides is issue at most
    [MAX_RETRIES] requests, sleep between attempts, read the body and build a
    document from it: it writes no file and prints nothing. *)
Theorem fetch_url_only_uses_the_network :
  forall parseHTML JSON_parse htmlToMarkdown (params : FetchParams) (w : World),
  exists result k t,
    UrlFetcherV1.fetch_url parseHTML JSON_parse htmlToMarkdown params w
    = (inr result, mkWorld (net w) (issued w + k) (trace w ++ t)) /\
    Forall networkOnly t /\ fileWrites t = [] /\ k <= MAX_RETRIES.
Proof.
  intros parseHTML JSON_parse htmlToMarkdown params w.
  unfold UrlFetcherV1.fetch_url, fetch_url_callback.
  destruct (loop_frame UrlFetcherV1.requestHeaders
              (UrlFetcherV1.processResponse parseHTML JSON_parse htmlToMarkdown) params)
    with (remaining := MAX_RETRIES) (attempt := 0) (w := w)
    as (result & k & t & Hl & Ht & Hk).
  - intros r rt url.
    destruct (v1_process_quiet parseHTML JSON_parse htmlToMarkdown r rt url)
      as (a & t & Hrun & Hq).
    exists a, t. split; [assumption|]. now apply quiet_networkOnly.
  - exists result, k, t. split; [exact Hl|]. split; [assumption|].
    split; [now apply networkOnly_fileWrites|assumption].
Qed.

(** ** [fetchUrl] and the checks it does not make *)

(** C10 (as amended), [fetchUrl] checks neither the content type nor the
    size.  For any response with a 2xx status, whatever its headers, and a
    URL that is not the search endpoint, neither by its origin and path nor
    by the prefix test of [fetchUrl]: json returns the one element array
    [[{ content: body }]] around the body as it was read, html and text return
    the body.  On every path the value returned for a 2xx response is
    computed from the URL, the requested type and the body alone.  For any
    response with a status outside 2xx, any URL and any requested type,
    [fetchUrl] throws [Failed to fetch URL: HTTP error! status: <status>]
    after its request, and the body is not read. *)
Theorem fetchUrl_returns_body_unchecked :
  forall parseHTML htmlToMarkdown (u : URL) (w : World) (r : Response),
  net w (issued w) (href u) = Responded r ->
  let fetchUrl := UrlFetcher.fetchUrl parseHTML htmlToMarkdown in
  let request := EvFetch (href u) UrlFetcher.BROWSER_HEADERS in
  (ok r = true ->
   isGoogleSearch u = false ->
   startsWith (href u) GOOGLE_SEARCH_URL = false ->
   fst (fetchUrl (href u) Json w) = inr (FContent (body r)) /\
   fetchedToJSON (FContent (body r)) = JArr [JObj [(lit "content", JStr (body r))]] /\
   fst (fetchUrl (href u) Html w) = inr (FString (body r)) /\
   fst (fetchUrl (href u) Text w) = inr (FString (body r))) /\
  (ok r = true ->
   forall rt,
     fst (fetchUrl (href u) rt w)
     = inr (fetchedValue parseHTML htmlToMarkdown (href u) rt (body r))) /\
  (ok r = false ->
   forall rt,
     fetchUrl (href u) rt w
     = (inl (Error_ (lit "Failed to fetch URL: HTTP error! status: "
                     ++ Number_toString (status r))),
        mkWorld (net w) (S (issued w)) (trace w ++ [request])) /\
     bodyRead [request] = false).
Proof.
  intros parseHTML htmlToMarkdown u w r Hnet fetchUrl request.
  assert (ok r = true ->
          forall rt,
            fst (fetchUrl (href u) rt w)
            = inr (fetchedValue parseHTML htmlToMarkdown (href u) rt (body r))) as H.
  { intros Hok rt. unfold fetchUrl. rewrite fetchUrl_run, Hnet. cbn [fst fetchUrlOutcome].
    now rewrite Hok. }
  split; [|split; [exact H|]].
  - intros Hok _ Hs. rewrite !(H Hok). unfold fetchedValue. rewrite Hs. repeat split.
  - intros Hok rt. split; [|reflexivity].
    unfold fetchUrl. rewrite fetchUrl_run, Hnet. cbn [fetchUrlOutcome fetchUrlEvents].
    rewrite Hok. reflexivity.
Qed.

(** A page that announces a JSON body of 99999999 bytes and holds HTML, and a
    [404] that comes with a page. *)
Lemma fetchUrl_returns_body_unchecked_witness :
  (fst (UrlFetcher.fetchUrl noDocument noMarkdown (href examplePage) Json
          (initial (script [Responded mislabelled])))
   = inr (FContent (lit "<p>not json</p>")) /\
   fetchedToJSON (FContent (lit "<p>not json</p>"))
   = JArr [JObj [(lit "content", JStr (lit "<p>not json</p>"))]] /\
   fst (UrlFetcher.fetchUrl noDocument noMarkdown (href examplePage) Html
          (initial (script [Responded mislabelled])))
   = inr (FString (lit "<p>not json</p>")) /\
   fst (UrlFetcher.fetchUrl noDocument noMarkdown (href examplePage) Text
          (initial (script [Responded mislabelled])))
   = inr (FString (lit "<p>not json</p>"))) /\
  UrlFetcher.fetchUrl noDocument noMarkdown (href searchQuery) Text
    (initial (script [Responded notFoundPage]))
  = (inl (Error_ (lit "Failed to fetch URL: HTTP error! status: 404")),
     mkWorld (script [Responded notFoundPage]) 1
       [EvFetch (href searchQuery) UrlFetcher.BROWSER_HEADERS]).
Proof.
  split.
  - exact (proj1 (fetchUrl_returns_body_unchecked noDocument noMarkdown examplePage
                    (initial (script [Responded mislabelled])) mislabelled eq_refl)
             eq_refl eq_refl eq_refl).
  - exact (proj1 (proj2 (proj2
             (fetchUrl_returns_body_unchecked noDocument noMarkdown searchQuery
                (initial (script [Responded notFoundPage])) notFoundPage eq_refl))
             eq_refl Text)).
Defined.

(** C10 as stated fails: [fetchUrl] does not return the body whatever the
    response.  It tests [response.ok] first, and for a status outside 2xx it
    throws without reading the body. *)
Lemma fetchUrl_throws_on_error_status :
  startsWith (href examplePage) GOOGLE_SEARCH_URL = false /\
  isGoogleSearch examplePage = false /\
  UrlFetcher.fetchUrl noDocument noMarkdown (href examplePage) Html
    (initial (script [Responded notFoundPage]))
  = (inl (Error_ (lit "Failed to fetch URL: HTTP error! status: 404")),
     mkWorld (script [Responded notFoundPage]) 1
       [EvFetch (href examplePage) UrlFetcher.BROWSER_HEADERS]) /\
  UrlFetcher.fetchUrl noDocument noMarkdown (href examplePage) Json
    (initial (script [Responded notFoundPage]))
  = (inl (Error_ (lit "Failed to fetch URL: HTTP error! status: 404")),
     mkWorld (script [Responded notFoundPage]) 1
       [EvFetch (href examplePage) UrlFetcher.BROWSER_HEADERS]).
Proof. repeat split. Qed.

(* ================================================================= *)
(** * The rest of the sources *)

(** ** The outcomes and the traces of [fetch_url] *)

Section ProcessRuns.

Variable parseHTML : jsstring -> Document.
Variable JSON_parse : jsstring -> Exn + JSON.
Variable htmlToMarkdown : jsstring -> jsstring.

(** [processResponse] has the outcome [processed1] whatever the world, and
    besides it only reads the body and builds a document. *)
Lemma v1_process_runs r rt url :
  exists t,
    runs (UrlFetcherV1.processResponse parseHTML JSON_parse htmlToMarkdown r rt url)
         (processed1 parseHTML JSON_parse htmlToMarkdown r rt url) t /\
    Forall quiet t.
Proof.
  unfold processed1. destruct (withinLimit r) eqn:Hl.
  - destruct (isGoogleSearch url) eqn:Hg.
    + eexists. split; [apply v1_process_google; assumption|]. repeat constructor.
    + eexists. split; [apply v1_process_other; assumption|]. repeat constructor.
  - eexists. split; [apply v1_process_too_large; assumption|]. constructor.
Qed.

(** The later [processResponse] has the outcome [processed2]; at the search
    endpoint it also prints the lines of [extractGoogleResults]. *)
Lemma v2_process_runs r rt url :
  exists t,
    runs (UrlFetcher.processResponse parseHTML JSON_parse htmlToMarkdown r rt url)
         (processed2 parseHTML JSON_parse htmlToMarkdown r rt url) t /\
    Forall local t.
Proof.
  unfold processed2. destruct (withinLimit r) eqn:Hl.
  - destruct (isGoogleSearch url) eqn:Hg.
    + eexists. split; [apply v2_process_google; assumption|].
      constructor; [exact I|apply extractionEvents_local].
    + eexists. split; [apply v2_process_other; assumption|]. repeat constructor.
  - eexists. split; [apply v2_process_too_large; assumption|]. constructor.
Qed.

End ProcessRuns.

Lemma quiet_local (e : Event) : quiet e -> local e.
Proof. destruct e; intros H; try exact H; exact I. Qed.

Lemma local_requests_nil (q : list Event) : Forall local q -> filter isRequest q = [].
Proof.
  induction 1 as [|e q He _ IH]; [reflexivity|].
  destruct e; try contradiction; exact IH.
Qed.

Lemma local_sleeps (t : list Event) : Forall local t -> sleeps t = [].
Proof.
  induction 1 as [|e q He _ IH]; [reflexivity|].
  destruct e; try contradiction; exact IH.
Qed.

Lemma sleeps_request (e : Event) (t : list Event) :
  isRequest e = true -> sleeps (e :: t) = sleeps t.
Proof. destruct e; try discriminate. reflexivity. Qed.

Lemma attemptsTrace_pos during request attempt k t :
  attemptsTrace during request attempt k t -> 1 <= k.
Proof. intros []; lia. Qed.

Lemma attemptsTrace_weaken (during during' : Event -> Prop) request attempt k t :
  (forall e, during e -> during' e) ->
  attemptsTrace during request attempt k t ->
  attemptsTrace during' request attempt k t.
Proof.
  intros Hd H. induction H as [attempt q Hq|attempt k q t Hq Ht IH].
  - constructor. revert Hq. apply Forall_impl. exact Hd.
  - constructor; [|exact IH]. revert Hq. apply Forall_impl. exact Hd.
Qed.

Lemma attemptsTrace_sleeps request attempt k t :
  attemptsTrace local request attempt k t ->
  isRequest request = true ->
  sleeps t = map getRetryDelay (seq attempt (k - 1)).
Proof.
  intros H Hr. induction H as [attempt q Hq|attempt k q t Hq Ht IH].
  - now rewrite (sleeps_request _ _ Hr), (local_sleeps _ Hq).
  - rewrite (sleeps_request _ _ Hr), sleeps_app, (local_sleeps _ Hq), app_nil_l.
    change (sleeps (EvSleep (getRetryDelay attempt) :: t))
      with (getRetryDelay attempt :: sleeps t).
    rewrite IH. apply attemptsTrace_pos in Ht.
    destruct k as [|k]; [lia|]. cbn [Nat.sub seq map]. now rewrite Nat.sub_0_r.
Qed.

Lemma attemptsTrace_requests request attempt k t :
  attemptsTrace local request attempt k t ->
  isRequest request = true ->
  filter isRequest t = repeat request k.
Proof.
  intros H Hr. induction H as [attempt q Hq|attempt k q t Hq Ht IH].
  - cbn [filter]. rewrite Hr, (local_requests_nil _ Hq). reflexivity.
  - cbn [filter]. rewrite Hr, filter_app, (local_requests_nil _ Hq), app_nil_l.
    cbn [filter isRequest]. now rewrite IH.
Qed.

Section ShapeFacts.

Variable requestHeaders : FetchParams -> list (jsstring * jsstring).
Variable processResponse : Response -> ResponseType -> URL -> M jsstring.
Variable process : Response -> ResponseType -> URL -> Exn + jsstring.
Variable params : FetchParams.
Variable during : Event -> Prop.

Hypothesis process_runs :
  forall r rt url,
    exists t, runs (processResponse r rt url) (process r rt url) t /\ Forall during t.

Let address := href (p_url params).
Let request := EvFetch address (requestHeaders params).
Let processed := fun r => process r (p_responseType params) (p_url params).
Let pass := fun attempt =>
  try_catch (tryBlock requestHeaders processResponse params attempt)
    (catchBlock params attempt).

Let sleepAfter := fun (attempt : nat) (step : Step) =>
  match step with
  | Continue => [EvSleep (getRetryDelay attempt)]
  | Return _ => []
  end.

Let stepFor := fun (attempt : nat) (answer : NetOutcome) (step : Step) =>
  match step with
  | Return result => FetchUrlResult processed params answer result
  | Continue => attempt <> MAX_RETRIES - 1
  end.

Lemma catchBlock_shape attempt error w answer :
  thrownBy processed answer = Some error ->
  exists step,
    catchBlock params attempt error w
    = (inr step, mkWorld (net w) (issued w) (trace w ++ sleepAfter attempt step)) /\
    stepFor attempt answer step.
Proof.
  intros Hth. unfold catchBlock.
  destruct (isAbortError error) eqn:Ha.
  - eexists (Return _). unfold ret. cbn [sleepAfter]. rewrite world_eta.
    split; [reflexivity|]. eapply IsTimeout; eauto.
  - destruct (Nat.eqb attempt (MAX_RETRIES - 1)) eqn:Hat.
    + eexists (Return _). unfold ret. cbn [sleepAfter]. rewrite world_eta.
      split; [reflexivity|]. eapply IsFailure; eauto.
    + exists Continue. split; [reflexivity|]. now apply Nat.eqb_neq.
Qed.

Lemma after_request w q :
  mkWorld (net w) (S (issued w)) ((trace w ++ [request]) ++ q) = later w 1 (request :: q).
Proof. unfold later. now rewrite Nat.add_1_r, <- app_assoc. Qed.

(** One pass through the loop body: the request, what processing does, and
    either an envelope for the answer or a sleep before the next pass. *)
Lemma pass_shape attempt w :
  exists q step,
    Forall during q /\
    pass attempt w = (inr step, later w 1 (request :: q ++ sleepAfter attempt step)) /\
    stepFor attempt (net w (issued w) address) step.
Proof.
  unfold pass, try_catch, tryBlock. unfold bind at 1. unfold fetch.
  fold address. fold request.
  destruct (net w (issued w) address) as [r|e] eqn:Hnet.
  - destruct (ok r) eqn:Hok; cbn [negb].
    + destruct (process_runs r (p_responseType params) (p_url params))
        as (t & Hrun & Ht).
      unfold bind. rewrite Hrun. cbn [net issued trace]. exists t.
      destruct (process r (p_responseType params) (p_url params)) as [e|c] eqn:Hp.
      * destruct (catchBlock_shape attempt e
                    (mkWorld (net w) (S (issued w)) ((trace w ++ [request]) ++ t))
                    (Responded r)) as (step & Hc & Hstep).
        { unfold thrownBy, processed. now rewrite Hok, Hp. }
        exists step. split; [exact Ht|]. rewrite Hc. cbn [net issued trace].
        rewrite <- app_assoc, after_request. split; [reflexivity|exact Hstep].
      * eexists (Return _). split; [exact Ht|]. unfold ret.
        cbn [sleepAfter]. rewrite app_nil_r, after_request. split; [reflexivity|].
        apply IsSuccess; [exact Hok|exact Hp].
    + exists [].
      destruct (status r =? 429)%N eqn:Hs.
      * destruct (Nat.eqb attempt (MAX_RETRIES - 1)) eqn:Hat.
        -- eexists (Return _). split; [constructor|]. unfold ret.
           rewrite <- after_request, app_nil_r.
           split; [reflexivity|]. apply IsRateLimited. now apply N.eqb_eq.
        -- exists Continue. split; [constructor|].
           unfold bind, sleep, emit, ret. cbn [net issued trace].
           rewrite after_request. split; [reflexivity|]. now apply Nat.eqb_neq.
      * eexists (Return _). split; [constructor|]. unfold ret.
        rewrite <- after_request, app_nil_r.
        split; [reflexivity|]. apply IsHttpError; [exact Hok|now apply N.eqb_neq].
  - exists [].
    destruct (catchBlock_shape attempt e
                (mkWorld (net w) (S (issued w)) (trace w ++ [request])) (Rejected e))
      as (step & Hc & Hstep); [reflexivity|].
    exists step. split; [constructor|]. rewrite Hc. cbn [net issued trace].
    rewrite after_request. split; [reflexivity|exact Hstep].
Qed.

(** The passes left when [attempt + remaining = MAX_RETRIES]: the loop ends
    inside one of them, with the envelope for the answer to its last request,
    and never reaches the return that follows it. *)
Lemma loop_shape remaining :
  forall attempt w,
    1 <= remaining -> attempt + remaining = MAX_RETRIES ->
    exists result k t,
      retryLoop requestHeaders processResponse params remaining attempt w
      = (inr result, later w k t) /\
      1 <= k <= remaining /\
      attemptsTrace during request attempt k t /\
      FetchUrlResult processed params (net w (issued w + (k - 1)) address) result.
Proof.
  induction remaining as [|remaining IH]; intros attempt w Hpos Hsum; [lia|].
  cbn [retryLoop]. unfold bind. fold (pass attempt).
  destruct (pass_shape attempt w) as (q & step & Hq & Hp & Hstep). rewrite Hp.
  destruct step as [result|]; cbn [sleepAfter stepFor] in *.
  - exists result, 1, (request :: q). rewrite app_nil_r. split; [reflexivity|].
    split; [lia|]. split; [now constructor|]. cbn [Nat.sub]. now rewrite Nat.add_0_r.
  - assert (1 <= remaining) as Hrem by (unfold MAX_RETRIES in *; simpl in *; lia).
    destruct (IH (S attempt)
                (later w 1 (request :: q ++ [EvSleep (getRetryDelay attempt)])) Hrem)
      as (result & k & t & Hl & Hk & Ht & Hres); [lia|].
    rewrite Hl. exists result, (S k), (request :: q ++ EvSleep (getRetryDelay attempt) :: t).
    split.
    + rewrite later_later. unfold later. f_equal. cbn [app].
      now rewrite <- app_assoc.
    + split; [lia|]. split; [now constructor|].
      cbn [later net issued] in Hres.
      replace (issued w + (S k - 1)) with (issued w + 1 + (k - 1)) by lia.
      exact Hres.
Qed.

Lemma callback_shape w :
  exists result k t,
    fetch_url_callback requestHeaders processResponse params w = (inr result, later w k t) /\
    1 <= k <= MAX_RETRIES /\
    attemptsTrace during request 0 k t /\
    FetchUrlResult processed params (net w (issued w + (k - 1)) address) result.
Proof. unfold fetch_url_callback. apply loop_shape; unfold MAX_RETRIES; lia. Qed.

End ShapeFacts.

Lemma not_the_fallback process params answer result :
  FetchUrlResult process params answer result ->
  result <> errorResult (lit "Failed to fetch URL after all retry attempts").
Proof.
  intros H E. destruct H; unfold errorResult, success in E;
    try discriminate; injection E as E; revert E; cbv; discriminate.
Qed.

(** Every call of [fetch_url] ends inside one of its [MAX_RETRIES] passes, in
    both revisions.  Its result is the envelope for the answer to its last
    request: the success envelope of a 2xx response that processing accepts,
    the rate limit error, the HTTP error, the timeout error or
    [Failed to fetch URL: <message>].  The return that follows the loop,
    [Failed to fetch URL after all retry attempts], is never the result. *)
Theorem fetch_url_result_shapes :
  forall parseHTML JSON_parse htmlToMarkdown (params : FetchParams)
         (oracle : nat -> jsstring -> NetOutcome),
  let address := href (p_url params) in
  let fallback : ToolResult FetchMetadata :=
    errorResult (lit "Failed to fetch URL after all retry attempts") in
  (exists result k w',
      UrlFetcherV1.fetch_url parseHTML JSON_parse htmlToMarkdown params (initial oracle)
      = (inr result, w') /\
      issued w' = k /\ 1 <= k <= MAX_RETRIES /\
      FetchUrlResult
        (fun r => processed1 parseHTML JSON_parse htmlToMarkdown r
                    (p_responseType params) (p_url params))
        params (oracle (k - 1) address) result /\
      result <> fallback) /\
  (exists result k w',
      UrlFetcher.fetch_url parseHTML JSON_parse htmlToMarkdown params (initial oracle)
      = (inr result, w') /\
      issued w' = k /\ 1 <= k <= MAX_RETRIES /\
      FetchUrlResult
        (fun r => processed2 parseHTML JSON_parse htmlToMarkdown r
                    (p_responseType params) (p_url params))
        params (oracle (k - 1) address) result /\
      result <> fallback).
Proof.
  intros parseHTML JSON_parse htmlToMarkdown params oracle address fallback. split.
  - destruct (callback_shape UrlFetcherV1.requestHeaders
                (UrlFetcherV1.processResponse parseHTML JSON_parse htmlToMarkdown)
                (processed1 parseHTML JSON_parse htmlToMarkdown) params quiet
                (v1_process_runs parseHTML JSON_parse htmlToMarkdown) (initial oracle))
      as (result & k & t & Hrun & Hk & _ & Hres).
    exists result, k, (later (initial oracle) k t).
    split; [exact Hrun|]. split; [reflexivity|]. split; [exact Hk|].
    split; [exact Hres|]. eapply not_the_fallback; exact Hres.
  - destruct (callback_shape (fun _ => UrlFetcher.BROWSER_HEADERS)
                (UrlFetcher.processResponse parseHTML JSON_parse htmlToMarkdown)
                (processed2 parseHTML JSON_parse htmlToMarkdown) params local
                (v2_process_runs parseHTML JSON_parse htmlToMarkdown) (initial oracle))
      as (result & k & t & Hrun & Hk & _ & Hres).
    exists result, k, (later (initial oracle) k t).
    split; [exact Hrun|]. split; [reflexivity|]. split; [exact Hk|].
    split; [exact Hres|]. eapply not_the_fallback; exact Hres.
Qed.

Lemma small_sleeps k :
  1 <= k <= MAX_RETRIES ->
  map getRetryDelay (seq 0 (k - 1)) = [] \/
  map getRetryDelay (seq 0 (k - 1)) = [1000%N] \/
  map getRetryDelay (seq 0 (k - 1)) = [1000%N; 2000%N].
Proof.
  unfold MAX_RETRIES. intros H.
  assert (k = 1 \/ k = 2 \/ k = 3) as [-> | [-> | ->]] by lia; auto.
Qed.

(** The effects of a [fetch_url] call, in both revisions: between one and
    [MAX_RETRIES] attempts, each a request for the same URL with the same
    headers followed by what processing the response does, and between two
    attempts one sleep: 1000 ms after the first attempt, 2000 ms after the
    second.  A call sleeps 3000 ms at most.  Processing a response reads the
    body and builds a document and, in the first revision, does nothing else;
    in the later revision [extractGoogleResults] also prints lines on the
    console. *)
Theorem fetch_url_attempts :
  forall parseHTML JSON_parse htmlToMarkdown (params : FetchParams) (w : World),
  let request1 := EvFetch (href (p_url params)) (UrlFetcherV1.requestHeaders params) in
  let request2 := EvFetch (href (p_url params)) UrlFetcher.BROWSER_HEADERS in
  let shape (during : Event -> Prop) (request : Event)
            (outcome : (Exn + ToolResult FetchMetadata) * World) :=
    exists result k t,
      outcome = (inr result, later w k t) /\
      1 <= k <= MAX_RETRIES /\
      attemptsTrace during request 0 k t /\
      filter isRequest t = repeat request k /\
      sleeps t = map getRetryDelay (seq 0 (k - 1)) /\
      (sleeps t = [] \/ sleeps t = [1000%N] \/ sleeps t = [1000%N; 2000%N]) in
  shape quiet request1
    (UrlFetcherV1.fetch_url parseHTML JSON_parse htmlToMarkdown params w) /\
  shape local request2
    (UrlFetcher.fetch_url parseHTML JSON_parse htmlToMarkdown params w).
Proof.
  intros parseHTML JSON_parse htmlToMarkdown params w request1 request2 shape. split.
  - destruct (callback_shape UrlFetcherV1.requestHeaders
                (UrlFetcherV1.processResponse parseHTML JSON_parse htmlToMarkdown)
                (processed1 parseHTML JSON_parse htmlToMarkdown) params quiet
                (v1_process_runs parseHTML JSON_parse htmlToMarkdown) w)
      as (result & k & t & Hrun & Hk & Ht & _).
    exists result, k, t. split; [exact Hrun|]. split; [exact Hk|]. split; [exact Ht|].
    apply (attemptsTrace_weaken quiet local _ _ _ _ quiet_local) in Ht.
    split; [now apply (attemptsTrace_requests _ _ _ _ Ht)|].
    rewrite (attemptsTrace_sleeps _ _ _ _ Ht eq_refl).
    split; [reflexivity|now apply small_sleeps].
  - destruct (callback_shape (fun _ => UrlFetcher.BROWSER_HEADERS)
                (UrlFetcher.processResponse parseHTML JSON_parse htmlToMarkdown)
                (processed2 parseHTML JSON_parse htmlToMarkdown) params local
                (v2_process_runs parseHTML JSON_parse htmlToMarkdown) w)
      as (result & k & t & Hrun & Hk & Ht & _).
    exists result, k, t. split; [exact Hrun|]. split; [exact Hk|]. split; [exact Ht|].
    split; [now apply (attemptsTrace_requests _ _ _ _ Ht)|].
    rewrite (attemptsTrace_sleeps _ _ _ _ Ht eq_refl).
    split; [reflexivity|now apply small_sleeps].
Qed.

(** ** The formats of [processResponse] *)

(** The formats other than json, at a URL that is not the search endpoint and
    for a response that passes the size check, in both revisions.  Text
    returns the body whatever the content type.  Html returns the body when
    the content type includes [text/html] and throws [Response is not HTML]
    otherwise.  Markdown never throws: the body goes through
    [htmlToMarkdown] when the content type includes [text/html], is returned
    as it is when it includes [text/markdown], and is put inside a code fence
    otherwise.  The body is read in every case. *)
Theorem formats_other_than_json :
  forall parseHTML JSON_parse htmlToMarkdown (r : Response) (url : URL) (w : World),
  isGoogleSearch url = false ->
  withinLimit r = true ->
  let afterRead := mkWorld (net w) (issued w) (trace w ++ [EvReadBody]) in
  let gives (rt : ResponseType) (outcome : Exn + jsstring) :=
    UrlFetcherV1.processResponse parseHTML JSON_parse htmlToMarkdown r rt url w
    = (outcome, afterRead) /\
    UrlFetcher.processResponse parseHTML JSON_parse htmlToMarkdown r rt url w
    = (outcome, afterRead) in
  gives Text (inr (body r)) /\
  (includes (contentTypeOf r) (lit "text/html") = true ->
   gives Html (inr (body r)) /\ gives Markdown (inr (htmlToMarkdown (body r)))) /\
  (includes (contentTypeOf r) (lit "text/html") = false ->
   gives Html (inl (Error_ (lit "Response is not HTML"))) /\
   (includes (contentTypeOf r) (lit "text/markdown") = true ->
    gives Markdown (inr (body r))) /\
   (includes (contentTypeOf r) (lit "text/markdown") = false ->
    gives Markdown (inr (lit "```" ++ nl ++ body r ++ nl ++ lit "```")))).
Proof.
  intros parseHTML JSON_parse htmlToMarkdown r url w Hg Hl afterRead gives.
  assert (forall rt, gives rt (dispatch JSON_parse htmlToMarkdown r rt)) as H.
  { intros rt. split.
    - apply (v1_process_other parseHTML JSON_parse htmlToMarkdown r rt url Hl Hg).
    - apply (v2_process_other parseHTML JSON_parse htmlToMarkdown r rt url Hl Hg). }
  split; [exact (H Text)|]. split.
  - intros Hh. pose proof (H Html) as H1. pose proof (H Markdown) as H2.
    unfold dispatch in H1, H2. rewrite Hh in H1, H2. split; assumption.
  - intros Hh. pose proof (H Html) as H1. pose proof (H Markdown) as H2.
    unfold dispatch in H1, H2. rewrite Hh in H1, H2.
    split; [exact H1|]. split; intros Hm; rewrite Hm in H2; exact H2.
Qed.

(** A [text/plain] body asked for as markdown. *)
Lemma formats_other_than_json_witness :
  UrlFetcherV1.processResponse noDocument noJSON noMarkdown plainHello Markdown examplePage
    (initial offline)
  = (inr (lit "```" ++ nl ++ lit "hello" ++ nl ++ lit "```"), mkWorld offline 0 [EvReadBody]).
Proof.
  destruct (formats_other_than_json noDocument noJSON noMarkdown plainHello examplePage
              (initial offline) eq_refl eq_refl) as (_ & _ & H).
  destruct (H eq_refl) as (_ & _ & Hm). exact (proj1 (Hm eq_refl)).
Defined.

(** The search endpoint in the later revision: [processResponse] maps the
    html and text formats to json before it calls the extractor, so for the
    three of them the text is the JSON rendering of the result list, and only
    markdown has a rendering of its own.  The envelope of [fetch_url] still
    announces the format that was asked for: html gives a JSON text with the
    mime type [text/html].  Besides the text, a call reads the body, builds
    one document from it and prints the lines of [extractGoogleResults] on
    the console, the same for the four formats: the length of the body, the
    number of news blocks, the lines of the passes and the number of
    results. *)
Theorem later_search_page_is_json_or_markdown :
  forall parseHTML JSON_parse htmlToMarkdown (r : Response) (url : URL) (w : World),
  isGoogleSearch url = true ->
  withinLimit r = true ->
  let process := UrlFetcher.processResponse parseHTML JSON_parse htmlToMarkdown in
  let results := UrlFetcher.collectResults (parseHTML (body r)) in
  let json := JSON_stringify (JArr (map resultToJSON results)) in
  let after :=
    mkWorld (net w) (issued w)
      (trace w ++ EvReadBody :: extractionEvents parseHTML (body r)) in
  process r Json url w = (inr json, after) /\
  process r Html url w = (inr json, after) /\
  process r Text url w = (inr json, after) /\
  process r Markdown url w
  = (inr (join nl (map UrlFetcher.renderMarkdown results)), after) /\
  (exists middle,
      extractionEvents parseHTML (body r)
      = EvParseHTML (body r)
        :: EvConsoleLog
             (lit "Document body length: "
              ++ Number_toString (N.of_nat (length (bodyInnerHTML (parseHTML (body r))))))
        :: EvConsoleLog
             (lit "Found "
              ++ Number_toString
                   (N.of_nat (length (querySelectorAll (parseHTML (body r)) sel_news)))
              ++ lit " news elements")
        :: map EvConsoleLog middle
        ++ [EvConsoleLog
              (lit "Total results found: "
               ++ Number_toString (N.of_nat (length results)))]) /\
  (forall timeout oracle,
      oracle 0 (href url) = Responded r -> ok r = true ->
      exists envelope,
        fst (UrlFetcher.fetch_url parseHTML JSON_parse htmlToMarkdown
               (mkFetchParams url Html timeout) (initial oracle)) = inr envelope /\
        map c_text (content envelope) = [json] /\
        map c_mimeType (content envelope) = [Some (lit "text/html")]).
Proof.
  intros parseHTML JSON_parse htmlToMarkdown r url w Hg Hl process results json after.
  assert (forall rt, process r rt url w = (inr (googleText (parseHTML (body r)) rt), after))
    as H.
  { intros rt. apply (v2_process_google parseHTML JSON_parse htmlToMarkdown r rt url Hl Hg). }
  split; [exact (H Json)|]. split; [exact (H Html)|]. split; [exact (H Text)|].
  split; [exact (H Markdown)|].
  split.
  { destruct (V2Facts.extractionEvents_lines parseHTML (body r)) as [middle ->].
    exists middle. unfold UrlFetcher.counted. cbn [map]. rewrite map_app. cbn [map].
    rewrite !app_nil_r. reflexivity. }
  intros timeout oracle Hnet Hok.
  exists (success (mkFetchParams url Html timeout) r json). split; [|split; reflexivity].
  unfold UrlFetcher.fetch_url, fetch_url_callback. change MAX_RETRIES with 3.
  erewrite loop_success; [reflexivity|exact Hnet|exact Hok|].
  apply (v2_process_google parseHTML JSON_parse htmlToMarkdown r Html url Hl Hg).
Qed.

(** A results page without results, asked for as html. *)
Lemma later_search_page_is_json_or_markdown_witness :
  UrlFetcher.processResponse (parsesTo (page [])) noJSON noMarkdown htmlPage Html searchQuery
    (initial offline)
  = (inr (lit "[]"),
     mkWorld offline 0
       [EvReadBody; EvParseHTML (body htmlPage);
        EvConsoleLog (lit "Document body length: 0");
        EvConsoleLog (lit "Found 0 news elements");
        EvConsoleLog (lit "Found 0 general result elements");
        EvConsoleLog (lit "No results found with primary selectors, trying alternatives...");
        EvConsoleLog (lit "Total results found: 0")]).
Proof.
  exact (proj1 (proj2
           (later_search_page_is_json_or_markdown (parsesTo (page [])) noJSON noMarkdown
              htmlPage searchQuery (initial offline) eq_refl eq_refl))).
Defined.

(** ** [fetchUrl] and [fetchUrlWithParams] when the request fails *)

(** [fetchUrl] makes one request and never retries.  A status outside 2xx
    makes it throw [Failed to fetch URL: HTTP error! status: <status>], a
    rejected request [Failed to fetch URL: <message>], the abort of its 5 s
    timer included, and a rejection that is not an [Error] is thrown again as
    it is; in the three cases nothing is read and nothing is written.  A 2xx
    response is read, written to [fetchedPage.html] and announced on the
    console before anything is returned. *)
Theorem fetchUrl_failures :
  forall parseHTML htmlToMarkdown (url : jsstring) (rt : ResponseType) (w : World),
  let outcome := UrlFetcher.fetchUrl parseHTML htmlToMarkdown url rt w in
  let answer := net w (issued w) url in
  let request := EvFetch url UrlFetcher.BROWSER_HEADERS in
  let after := mkWorld (net w) (S (issued w)) (trace w ++ [request]) in
  (forall r,
      answer = Responded r -> ok r = false ->
      outcome = (inl (Error_ (lit "Failed to fetch URL: HTTP error! status: "
                              ++ Number_toString (status r))), after)) /\
  (forall name message,
      answer = Rejected (JSError name message) ->
      outcome = (inl (Error_ (lit "Failed to fetch URL: " ++ message)), after)) /\
  (answer = Rejected NonError -> outcome = (inl NonError, after)) /\
  (forall r,
      answer = Responded r -> ok r = true ->
      exists value t,
        outcome = (inr value, mkWorld (net w) (S (issued w)) (trace w ++ request :: t)) /\
        filter isRequest t = [] /\
        fileWrites t = [(lit "fetchedPage.html", body r)]).
Proof.
  intros parseHTML htmlToMarkdown url rt w outcome answer request after.
  unfold outcome. rewrite fetchUrl_run. fold answer.
  split; [|split; [|split]].
  - intros r -> Hok. cbn [fetchUrlOutcome fetchUrlEvents]. rewrite Hok.
    reflexivity.
  - intros name message ->. reflexivity.
  - intros ->. reflexivity.
  - intros r -> Hok. cbn [fetchUrlOutcome fetchUrlEvents]. rewrite Hok.
    do 2 eexists. split; [reflexivity|].
    pose proof (fetchUrlEvents_no_request parseHTML url (Responded r)) as Hr.
    pose proof (fetchUrlEvents_writes parseHTML url (Responded r)) as Hw.
    cbn [fetchUrlEvents] in Hr, Hw. rewrite Hok in Hr, Hw. split; assumption.
Qed.

(** The timer of [fetchUrl] fires: the abort is reported like any failure. *)
Lemma fetchUrl_failures_witness :
  UrlFetcher.fetchUrl noDocument noMarkdown (href examplePage) Json (initial timesOut)
  = (inl (Error_ (lit "Failed to fetch URL: This operation was aborted")),
     mkWorld timesOut 1 [EvFetch (href examplePage) UrlFetcher.BROWSER_HEADERS]).
Proof.
  exact (proj1 (proj2
           (fetchUrl_failures noDocument noMarkdown (href examplePage) Json
              (initial timesOut)))
           (lit "AbortError") (lit "This operation was aborted") eq_refl).
Defined.

(** [fetchUrlWithParams] validates before it fetches: a [timeout] below 1000
    or above 30000 rejects with zod's error, not wrapped, and no request is
    made.  Otherwise it makes one request, with the failures of [fetchUrl],
    and for a 2xx response at a URL that is not the search endpoint it
    returns the body as it is for markdown, without conversion, and
    [[{ content: body }]] for json.  After its request it makes no other
    request, does not sleep and writes no file. *)
Theorem fetchUrlWithParams_validates_first :
  forall parseHTML zodMessage (params : UrlFetcher.FetchUrlParams) (w : World),
  let outcome := UrlFetcher.fetchUrlWithParams parseHTML zodMessage params w in
  let url := UrlFetcher.fp_url params in
  let timeout :=
    match UrlFetcher.fp_timeout params with Some t => t | None => 5000%N end in
  let request := EvFetch (href url) UrlFetcher.BROWSER_HEADERS in
  ((timeout <? 1000)%N || (30000 <? timeout)%N = true ->
   outcome = (inl (JSError (lit "ZodError") (zodMessage timeout)), w)) /\
  ((timeout <? 1000)%N || (30000 <? timeout)%N = false ->
   exists a t,
     outcome = (a, mkWorld (net w) (S (issued w)) (trace w ++ request :: t)) /\
     (filter isRequest t = [] /\ sleeps t = [] /\ fileWrites t = []) /\
     match net w (issued w) (href url) with
     | Responded r =>
         if ok r then
           isGoogleSearch url = false ->
           a = inr (match UrlFetcher.fp_responseType params with
                    | Some UrlFetcher.AsMarkdown => FString (body r)
                    | _ => FContent (body r)
                    end)
         else a = inl (Error_ (lit "Failed to fetch URL: HTTP error! status: "
                               ++ Number_toString (status r)))
     | Rejected (JSError _ message) =>
         a = inl (Error_ (lit "Failed to fetch URL: " ++ message))
     | Rejected NonError => a = inl NonError
     end).
Proof.
  intros parseHTML zodMessage params w outcome url timeout request.
  unfold outcome, UrlFetcher.fetchUrlWithParams, UrlFetcher.parseParams.
  fold timeout. fold url.
  split; intros Ht; rewrite Ht.
  - reflexivity.
  - unfold bind at 1. unfold ret at 1. unfold try_catch. unfold bind at 1.
    unfold fetch. fold request.
    destruct (net w (issued w) (href url)) as [r|[name message|]].
    + destruct (ok r); cbn [negb].
      * unfold bind at 1. rewrite runs_text. cbn [net issued trace].
        destruct (isGoogleSearch url).
        -- rewrite v2_extract_runs. cbn [net issued trace].
           do 2 eexists. rewrite <- !app_assoc. split; [reflexivity|].
           split; [|discriminate]. cbn [app filter isRequest sleeps fileWrites flat_map].
           rewrite extractionEvents_no_request, extractionEvents_sleeps,
             extractionEvents_fileWrites. repeat split.
        -- destruct (UrlFetcher.fp_responseType params) as [[|]|]; unfold ret;
             do 2 eexists; rewrite <- !app_assoc;
             (split; [reflexivity|]); (split; [repeat split|reflexivity]).
      * exists (inl (Error_ (lit "Failed to fetch URL: HTTP error! status: "
                             ++ Number_toString (status r)))), [].
        split; [reflexivity|]. split; [repeat split|reflexivity].
    + do 2 eexists. split; [reflexivity|]. split; [repeat split|reflexivity].
    + do 2 eexists. split; [reflexivity|]. split; [repeat split|reflexivity].
Qed.

(** A timeout of 500 ms is refused before any request; with the default
    timeout a page asked for as markdown is returned as it is. *)
Lemma fetchUrlWithParams_validates_first_witness :
  UrlFetcher.fetchUrlWithParams noDocument (fun _ => lit "Number must be greater than or equal to 1000")
    (UrlFetcher.mkFetchUrlParams examplePage None (Some 500%N)) (initial offline)
  = (inl (JSError (lit "ZodError") (lit "Number must be greater than or equal to 1000")),
     initial offline) /\
  exists a t,
    UrlFetcher.fetchUrlWithParams noDocument (fun _ => [])
      (UrlFetcher.mkFetchUrlParams examplePage (Some UrlFetcher.AsMarkdown) None)
      (initial (script [Responded plainHello]))
    = (a, mkWorld (script [Responded plainHello]) 1
            ([] ++ EvFetch (href examplePage) UrlFetcher.BROWSER_HEADERS :: t)) /\
    (filter isRequest t = [] /\ sleeps t = [] /\ fileWrites t = []) /\
    (isGoogleSearch examplePage = false -> a = inr (FString (lit "hello"))).
Proof.
  split.
  - exact (proj1
             (fetchUrlWithParams_validates_first noDocument
                (fun _ => lit "Number must be greater than or equal to 1000")
                (UrlFetcher.mkFetchUrlParams examplePage None (Some 500%N))
                (initial offline))
             eq_refl).
  - exact (proj2
             (fetchUrlWithParams_validates_first noDocument (fun _ => [])
                (UrlFetcher.mkFetchUrlParams examplePage (Some UrlFetcher.AsMarkdown) None)
                (initial (script [Responded plainHello])))
             eq_refl).
Defined.

(** ** The two tests for the search endpoint *)

Lemma startsWith_app (p rest : jsstring) : startsWith (p ++ rest) p = true.
Proof. induction p as [|c p IH]; [now destruct rest|]. simpl. now rewrite N.eqb_refl. Qed.

(** A URL that the tool paths route to the extractor is routed there by
    [fetchUrl] as well when its text is its origin and its path followed by
    the query and the fragment: then, the origin and the path being those of
    the search endpoint, the text starts with [GOOGLE_SEARCH_URL].  Not every
    URL has such a text: one with a user name, such as
    [https://user@www.google.com/search?q=rocq], has the origin and the path
    of the endpoint and a text that does not start with it, and [fetchUrl]
    returns its page without extraction. *)
Theorem routed_by_path_is_routed_by_prefix :
  (forall (url : URL) (rest : jsstring),
      href url = origin url ++ pathname url ++ rest ->
      isGoogleSearch url = true ->
      startsWith (href url) GOOGLE_SEARCH_URL = true) /\
  isGoogleSearch searchAsUser = true /\
  startsWith (href searchAsUser) GOOGLE_SEARCH_URL = false /\
  (forall rest, href searchAsUser <> origin searchAsUser ++ pathname searchAsUser ++ rest) /\
  fst (UrlFetcher.fetchUrl (parsesTo sixResultsPage) noMarkdown (href searchAsUser) Text
         (initial (script [Responded htmlPage])))
  = inr (FString (body htmlPage)).
Proof.
  split; [|split; [reflexivity|split; [reflexivity|split; [|reflexivity]]]].
  - intros url rest Hhref Hg. unfold isGoogleSearch in Hg. apply str_eqb_eq in Hg.
    rewrite Hhref, app_assoc, Hg. apply startsWith_app.
  - intros rest H. apply (f_equal (fun s => nth 8 s 0%N)) in H. discriminate H.
Qed.

Lemma routed_by_path_is_routed_by_prefix_witness :
  startsWith (href searchQuery) GOOGLE_SEARCH_URL = true.
Proof.
  exact (proj1 routed_by_path_is_routed_by_prefix searchQuery (lit "?q=rocq")
           eq_refl eq_refl).
Defined.

(** ** The search tools *)

Lemma searchUrl_extracts parseHTML htmlToMarkdown query maxResults topic rt html :
  fetchedValue parseHTML htmlToMarkdown
    (GoogleSearch.buildGoogleSearchUrl query maxResults topic) rt html
  = extracted (parseHTML html) rt.
Proof. unfold fetchedValue. now rewrite searchUrl_is_routed. Qed.

(** The search tool that comes with the later [url-fetcher.ts] makes one
    request, for the search URL, and always returns an envelope.  For a 2xx
    answer the text is what the extractor returns for the page in the format
    asked for (the JSON rendering of the result list for json), never the
    page itself and never a conversion of it by [htmlToMarkdown].  Any other
    answer, a 429 included, gives at once the error
    [Failed to execute Google search: ...]: nothing is retried and the call
    never sleeps.  After the request the call does what [fetchUrl] does: for
    a 2xx answer it reads the page, writes it to [fetchedPage.html] and
    prints the lines of [fetchUrl] and of [extractGoogleResults] on the
    console. *)
Theorem simple_search_is_one_request :
  forall parseHTML htmlToMarkdown (params : GoogleSearch.SearchParams)
         (oracle : nat -> jsstring -> NetOutcome),
  let searchUrl :=
    GoogleSearch.buildGoogleSearchUrl (GoogleSearch.query params)
      (GoogleSearch.maxResults params) (GoogleSearch.topic params) in
  let rt := GoogleSearch.responseType params in
  let answer := oracle 0 searchUrl in
  let request := EvFetch searchUrl UrlFetcher.BROWSER_HEADERS in
  let outcome :=
    SimpleSearch.google_search parseHTML htmlToMarkdown params (initial oracle) in
  fst outcome
  = inr match answer with
         | Responded page =>
             if ok page then
               mkToolResult
                 [mkContent (lit "text")
                    (textOfFetched (extracted (parseHTML (body page)) rt))
                    (Some (mimeTypeOf rt))]
                 (Some (SimpleSearch.mkSearchMetadata (GoogleSearch.query params)
                          (GoogleSearch.topic params) (GoogleSearch.maxResults params) rt))
                 false
             else
               errorResult
                 (lit "Failed to execute Google search: Failed to fetch URL: HTTP error! status: "
                  ++ Number_toString (status page))
         | Rejected (JSError _ message) =>
             errorResult
               (lit "Failed to execute Google search: Failed to fetch URL: " ++ message)
         | Rejected NonError =>
             errorResult (lit "Failed to execute Google search: Unknown error")
         end /\
  issued (snd outcome) = 1 /\
  filter isRequest (trace (snd outcome)) = [request] /\
  sleeps (trace (snd outcome)) = [] /\
  fileWrites (trace (snd outcome))
  = match answer with
    | Responded page => if ok page then [(lit "fetchedPage.html", body page)] else []
    | Rejected _ => []
    end /\
  exists log,
    trace (snd outcome)
    = match answer with
      | Responded page =>
          if ok page
          then [request; EvReadBody; EvWriteFile (lit "fetchedPage.html") (body page);
                EvConsoleLog (lit "Saved fetched HTML ("
                              ++ Number_toString (N.of_nat (length (body page)))
                              ++ lit " bytes) to fetchedPage.html");
                EvParseHTML (body page)] ++ map EvConsoleLog log
          else [request]
      | Rejected _ => [request]
      end.
Proof.
  intros parseHTML htmlToMarkdown params oracle searchUrl rt answer request outcome.
  assert (exists result,
             outcome
             = (inr result,
                mkWorld oracle 1 (request :: fetchUrlEvents parseHTML searchUrl answer)) /\
             result
             = match answer with
               | Responded page =>
                   if ok page then
                     mkToolResult
                       [mkContent (lit "text")
                          (textOfFetched (extracted (parseHTML (body page)) rt))
                          (Some (mimeTypeOf rt))]
                       (Some (SimpleSearch.mkSearchMetadata (GoogleSearch.query params)
                                (GoogleSearch.topic params) (GoogleSearch.maxResults params)
                                rt))
                       false
                   else
                     errorResult
                       (lit "Failed to execute Google search: Failed to fetch URL: HTTP error! status: "
                        ++ Number_toString (status page))
               | Rejected (JSError _ message) =>
                   errorResult
                     (lit "Failed to execute Google search: Failed to fetch URL: " ++ message)
               | Rejected NonError =>
                   errorResult (lit "Failed to execute Google search: Unknown error")
               end) as (result & -> & ->).
  { unfold outcome, SimpleSearch.google_search, try_catch. unfold bind at 1.
    fold searchUrl. fold rt. rewrite fetchUrl_run.
    cbn [net issued trace initial app]. fold answer. fold request.
    destruct answer as [page|[name message|]]; cbn [fetchUrlOutcome].
    - destruct (ok page); [|eexists; split; reflexivity].
      unfold searchUrl at 1. rewrite searchUrl_extracts. eexists; split; reflexivity.
    - eexists; split; reflexivity.
    - eexists; split; reflexivity. }
  cbn [fst snd issued trace filter isRequest request].
  rewrite fetchUrlEvents_no_request, sleeps_request by reflexivity.
  rewrite fetchUrlEvents_sleeps.
  change (fileWrites (request :: ?t)) with (fileWrites t).
  rewrite fetchUrlEvents_writes.
  repeat (split; [reflexivity|]).
  unfold fetchUrlEvents. destruct answer as [page|e]; [|exists []; reflexivity].
  destruct (ok page); [|exists []; reflexivity].
  unfold searchUrl. rewrite searchUrl_is_routed.
  destruct (V2Facts.extractionEvents_log parseHTML (body page)) as [log ->].
  exists log. reflexivity.
Qed.

Section DeepSearchTraces.

Variable parseHTML : jsstring -> Document.
Variable htmlToMarkdown : jsstring -> jsstring.

Lemma promiseAllMap_trace rt urls :
  forall w,
    GoogleSearch.promiseAllMap (GoogleSearch.fetchOne parseHTML htmlToMarkdown rt) urls w
    = (inr (entriesFrom parseHTML htmlToMarkdown (net w) rt (issued w) urls),
       mkWorld (net w) (issued w + length urls)
         (trace w ++ fetchesFrom parseHTML (net w) (issued w) urls)).
Proof.
  induction urls as [|u rest IH]; intros w.
  - cbn [GoogleSearch.promiseAllMap entriesFrom fetchesFrom length].
    unfold ret. now rewrite Nat.add_0_r, world_eta.
  - cbn [GoogleSearch.promiseAllMap entriesFrom fetchesFrom length].
    unfold bind at 1. rewrite fetchOne_run.
    unfold bind at 1. rewrite IH. cbn [net issued trace]. unfold ret.
    now rewrite <- app_assoc, Nat.add_succ_r.
Qed.

Lemma fetchesFrom_requests oracle urls :
  forall n,
    filter isRequest (fetchesFrom parseHTML oracle n urls)
    = map (fun u => EvFetch (GoogleSearch.urlText u) UrlFetcher.BROWSER_HEADERS) urls.
Proof.
  induction urls as [|u rest IH]; intros n; [reflexivity|].
  cbn [fetchesFrom map]. rewrite filter_app, IH. cbn [filter isRequest].
  now rewrite fetchUrlEvents_no_request.
Qed.

Lemma fetchesFrom_sleeps oracle urls :
  forall n, sleeps (fetchesFrom parseHTML oracle n urls) = [].
Proof.
  induction urls as [|u rest IH]; intros n; [reflexivity|].
  cbn [fetchesFrom]. rewrite sleeps_app, IH, app_nil_r.
  rewrite sleeps_request by reflexivity. apply fetchUrlEvents_sleeps.
Qed.

Lemma fetchesFrom_writes oracle urls :
  forall n,
    length (fileWrites (fetchesFrom parseHTML oracle n urls))
    = length (filter succeeds (answersFrom oracle n urls)).
Proof.
  induction urls as [|u rest IH]; intros n; [reflexivity|].
  cbn [fetchesFrom answersFrom filter]. rewrite fileWrites_app, length_app, IH.
  change (fileWrites (EvFetch ?a ?b :: ?t)) with (fileWrites t).
  rewrite fetchUrlEvents_writes. unfold succeeds at 2.
  destruct (oracle n (GoogleSearch.urlText u)) as [r|e]; [|reflexivity].
  destruct (ok r); reflexivity.
Qed.

End DeepSearchTraces.

(** The requests of a deep search whose search page is fetched: the search
    URL, then each extracted URL once, in the order of extraction, all with
    the browser headers; nothing is retried and the call never sleeps.  Every
    page that answers with a 2xx status, the search page first, is written to
    the same file [fetchedPage.html]. *)
Theorem deep_search_requests :
  forall parseHTML htmlToMarkdown (params : GoogleSearch.SearchParams)
         (oracle : nat -> jsstring -> NetOutcome) (page : Response),
  let searchUrl :=
    GoogleSearch.buildGoogleSearchUrl (GoogleSearch.query params)
      (GoogleSearch.maxResults params) (GoogleSearch.topic params) in
  oracle 0 searchUrl = Responded page ->
  ok page = true ->
  let urls :=
    map (fun result => Some (url result))
      (UrlFetcher.collectResults (parseHTML (body page))) in
  let world :=
    snd (GoogleSearch.google_search parseHTML htmlToMarkdown params (initial oracle)) in
  issued world = 1 + length urls /\
  filter isRequest (trace world)
  = map (fun u => EvFetch u UrlFetcher.BROWSER_HEADERS)
      (searchUrl :: map GoogleSearch.urlText urls) /\
  sleeps (trace world) = [] /\
  map fst (fileWrites (trace world))
  = repeat (lit "fetchedPage.html")
      (1 + length (filter succeeds (answersFrom oracle 1 urls))).
Proof.
  intros parseHTML htmlToMarkdown params oracle page searchUrl Hnet Hok urls world.
  assert (world
          = mkWorld oracle (1 + length urls)
              ((EvFetch searchUrl UrlFetcher.BROWSER_HEADERS
                :: fetchUrlEvents parseHTML searchUrl (Responded page))
               ++ fetchesFrom parseHTML oracle 1 urls)) as ->.
  { unfold world, GoogleSearch.google_search, try_catch. unfold bind at 1.
    unfold GoogleSearch.fetchUrl. rewrite fetchUrl_run.
    cbn [net issued trace initial app]. fold searchUrl. rewrite Hnet.
    cbn [fetchUrlOutcome]. rewrite Hok.
    unfold searchUrl at 1. rewrite searchUrl_extracts.
    cbn [extracted GoogleSearch.extractSearchUrls]. fold urls.
    unfold bind at 1. rewrite promiseAllMap_trace. reflexivity. }
  cbn [issued trace]. split; [reflexivity|].
  pose proof (fetchUrlEvents_no_request parseHTML searchUrl (Responded page)) as Hreq.
  pose proof (fetchUrlEvents_sleeps parseHTML searchUrl (Responded page)) as Hsl.
  pose proof (fetchUrlEvents_writes parseHTML searchUrl (Responded page)) as Hwr.
  cbv beta iota in Hwr. rewrite Hok in Hwr.
  split; [|split].
  - cbn [app filter isRequest map].
    rewrite filter_app, Hreq, fetchesFrom_requests, map_map. reflexivity.
  - cbn [app]. rewrite sleeps_request by reflexivity.
    rewrite sleeps_app, Hsl. apply fetchesFrom_sleeps.
  - cbn [app]. change (fileWrites (EvFetch ?a ?b :: ?t)) with (fileWrites t).
    rewrite fileWrites_app, Hwr. cbn [app map fst Nat.add repeat]. f_equal.
    rewrite <- (fetchesFrom_writes parseHTML).
    generalize 1. induction urls as [|u rest IH]; intros n; [reflexivity|].
    cbn [fetchesFrom]. rewrite fileWrites_app, map_app, length_app, repeat_app, IH.
    f_equal. change (fileWrites (EvFetch ?a ?b :: ?t)) with (fileWrites t).
    rewrite fetchUrlEvents_writes.
    destruct (oracle n (GoogleSearch.urlText u)) as [r|e]; [|reflexivity].
    destruct (ok r); reflexivity.
Qed.

(** Three results, the second of which answers [404]: four requests, three
    pages written. *)
Lemma deep_search_requests_witness :
  issued (snd (GoogleSearch.google_search (parsesTo threeResultsPage) noMarkdown
                 searchForRocq (initial secondResultMissing))) = 4 /\
  filter isRequest
    (trace (snd (GoogleSearch.google_search (parsesTo threeResultsPage) noMarkdown
                   searchForRocq (initial secondResultMissing))))
  = map (fun u => EvFetch u UrlFetcher.BROWSER_HEADERS)
      [lit "https://www.google.com/search?q=rocq&num=10&udm=14";
       lit "https://a.example/1"; lit "https://a.example/2"; lit "https://a.example/3"] /\
  sleeps (trace (snd (GoogleSearch.google_search (parsesTo threeResultsPage) noMarkdown
                        searchForRocq (initial secondResultMissing)))) = [] /\
  map fst
    (fileWrites
       (trace (snd (GoogleSearch.google_search (parsesTo threeResultsPage) noMarkdown
                      searchForRocq (initial secondResultMissing)))))
  = [lit "fetchedPage.html"; lit "fetchedPage.html"; lit "fetchedPage.html"].
Proof.
  exact (deep_search_requests (parsesTo threeResultsPage) noMarkdown searchForRocq
           secondResultMissing htmlPage eq_refl eq_refl).
Defined.

(** A deep search whose search page cannot be fetched stops there: one
    request, no page fetched, and the error envelope
    [Failed to execute Google search: ...] with the message of [fetchUrl],
    or [Unknown error] when what the request rejected with is not an
    [Error]. *)
Theorem deep_search_reports_search_failure :
  forall parseHTML htmlToMarkdown (params : GoogleSearch.SearchParams)
         (oracle : nat -> jsstring -> NetOutcome),
  let searchUrl :=
    GoogleSearch.buildGoogleSearchUrl (GoogleSearch.query params)
      (GoogleSearch.maxResults params) (GoogleSearch.topic params) in
  let outcome :=
    GoogleSearch.google_search parseHTML htmlToMarkdown params (initial oracle) in
  let after := mkWorld oracle 1 [EvFetch searchUrl UrlFetcher.BROWSER_HEADERS] in
  (forall page,
      oracle 0 searchUrl = Responded page -> ok page = false ->
      outcome
      = (inr (errorResult
                (lit "Failed to execute Google search: Failed to fetch URL: HTTP error! status: "
                 ++ Number_toString (status page))), after)) /\
  (forall name message,
      oracle 0 searchUrl = Rejected (JSError name message) ->
      outcome
      = (inr (errorResult
                (lit "Failed to execute Google search: Failed to fetch URL: " ++ message)),
         after)) /\
  (oracle 0 searchUrl = Rejected NonError ->
   outcome = (inr (errorResult (lit "Failed to execute Google search: Unknown error")),
              after)).
Proof.
  intros parseHTML htmlToMarkdown params oracle searchUrl outcome after.
  assert (forall e,
             fetchUrlOutcome parseHTML htmlToMarkdown searchUrl Json (oracle 0 searchUrl)
             = inl e ->
             fetchUrlEvents parseHTML searchUrl (oracle 0 searchUrl) = [] ->
             outcome
             = (inr (errorResult (lit "Failed to execute Google search: " ++ messageOf e)),
                after)) as H.
  { intros e He Hev. unfold outcome, GoogleSearch.google_search, try_catch.
    unfold bind at 1. unfold GoogleSearch.fetchUrl. rewrite fetchUrl_run.
    cbn [net issued trace initial app]. fold searchUrl. now rewrite He, Hev. }
  split; [|split].
  - intros page Hnet Hok. rewrite (H (Error_ (lit "Failed to fetch URL: "
                                      ++ lit "HTTP error! status: "
                                      ++ Number_toString (status page)))).
    + reflexivity.
    + rewrite Hnet. cbn [fetchUrlOutcome]. now rewrite Hok.
    + rewrite Hnet. cbn [fetchUrlEvents]. now rewrite Hok.
  - intros name message Hnet.
    rewrite (H (Error_ (lit "Failed to fetch URL: " ++ message))).
    + reflexivity.
    + now rewrite Hnet.
    + now rewrite Hnet.
  - intros Hnet. rewrite (H NonError).
    + reflexivity.
    + now rewrite Hnet.
    + now rewrite Hnet.
Qed.

(** The search page answers [429]. *)
Lemma deep_search_reports_search_failure_witness :
  GoogleSearch.google_search noDocument noMarkdown searchForRocq
    (initial (script [Responded tooManyRequests]))
  = (inr (errorResult
            (lit "Failed to execute Google search: Failed to fetch URL: HTTP error! status: 429")),
     mkWorld (script [Responded tooManyRequests]) 1
       [EvFetch (lit "https://www.google.com/search?q=rocq&num=10&udm=14")
          UrlFetcher.BROWSER_HEADERS]).
Proof.
  exact (proj1
           (deep_search_reports_search_failure noDocument noMarkdown searchForRocq
              (script [Responded tooManyRequests]))
           tooManyRequests eq_refl eq_refl).
Defined.

(** ** Trimmed titles and descriptions *)

Lemma trimStart_head (s : jsstring) c t : trimStart s = c :: t -> isWhiteSpace c = false.
Proof.
  induction s as [|x s IH]; simpl; [discriminate|].
  destruct (isWhiteSpace x) eqn:E; [exact IH|]. now intros [= <- _].
Qed.

Lemma trimStart_fixed (s : jsstring) :
  (forall c t, s = c :: t -> isWhiteSpace c = false) -> trimStart s = s.
Proof.
  destruct s as [|c t]; [reflexivity|]. intros H. simpl. now rewrite (H c t eq_refl).
Qed.

Lemma trimStart_idempotent (s : jsstring) : trimStart (trimStart s) = trimStart s.
Proof. apply trimStart_fixed. intros c t. apply trimStart_head. Qed.

Lemma trimStart_suffix (s : jsstring) : exists p, s = p ++ trimStart s.
Proof.
  induction s as [|x s [p IH]]; [now exists []|]. simpl.
  destruct (isWhiteSpace x); [|now exists []].
  exists (x :: p). simpl. now rewrite <- IH.
Qed.

Lemma trimEnd_prefix (s : jsstring) : exists q, s = trimEnd s ++ q.
Proof.
  unfold trimEnd. destruct (trimStart_suffix (rev s)) as [p Hp].
  exists (rev p). rewrite <- rev_app_distr, <- Hp. now rewrite rev_involutive.
Qed.

Lemma trimEnd_idempotent (s : jsstring) : trimEnd (trimEnd s) = trimEnd s.
Proof. unfold trimEnd. now rewrite rev_involutive, trimStart_idempotent. Qed.

Lemma trimStart_trimEnd (s : jsstring) :
  trimStart s = s -> trimStart (trimEnd s) = trimEnd s.
Proof.
  intros Hs. apply trimStart_fixed. intros c t E.
  destruct (trimEnd_prefix s) as [q Hq]. rewrite E in Hq.
  apply (trimStart_head s c (t ++ q)). now rewrite Hs.
Qed.

(** [trim] removes all the white space there is to remove. *)
Lemma trim_idempotent (s : jsstring) : trim (trim s) = trim s.
Proof.
  unfold trim. rewrite trimStart_trimEnd by apply trimStart_idempotent.
  apply trimEnd_idempotent.
Qed.

Lemma orElse_trimmed (a b : jsstring) :
  trim a = a -> b <> [] -> trim b = b -> orElse a b <> [] /\ trim (orElse a b) = orElse a b.
Proof.
  intros Ha Hb Htb. unfold orElse. destruct a as [|c a]; cbn [truthy]; [auto|].
  split; [discriminate|exact Ha].
Qed.

Lemma v1_accepted_trimmed (div : Elt) (r : SearchResult) :
  In r (accepted1 div) ->
  trim (title r) = title r /\
  exists d, description r = Some d /\ d <> [] /\ trim d = d.
Proof.
  intros Hr. split.
  - apply V1Facts.v1_accepted_inv in Hr as (t & _ & _ & _ & -> & _).
    apply trim_idempotent.
  - unfold accepted1, UrlFetcherV1.visit in Hr.
    destruct (truthy _ && truthy_opt _); [|destruct Hr].
    destruct Hr as [<-|[]]. cbn [description]. eexists. split; [reflexivity|].
    destruct (querySelector div sel_snippet_or_s) as [e|].
    + apply orElse_trimmed; [apply trim_idempotent|discriminate|reflexivity].
    + split; [discriminate|reflexivity].
Qed.

Lemma v2_visit_trimmed titleEl linkEl snippetEl (r : SearchResult) :
  In r (UrlFetcher.visit titleEl linkEl snippetEl []) ->
  trim (title r) = title r /\ forall d, description r = Some d -> trim d = d.
Proof.
  intros Hr. split.
  - apply V2Facts.v2_visit_inv in Hr as (t & _ & _ & _ & -> & _).
    apply trim_idempotent.
  - unfold UrlFetcher.visit in Hr.
    destruct titleEl as [t|], linkEl as [l|]; try destruct Hr.
    destruct (getAttribute l (lit "href")) as [h|]; [|destruct Hr].
    destruct (truthy _ && truthy _); [|destruct Hr].
    destruct Hr as [<-|[]]. cbn [description].
    destruct snippetEl as [e|]; cbn [option_map]; intros d [= <-].
    apply trim_idempotent.
Qed.

(** The titles the extractor returns have no white space at either end, in
    both revisions, and neither have the descriptions.  In
    [src/url-fetcher.ts] every entry has a description, which is never
    empty: [No description] stands for a missing or blank snippet.  In the
    later revision the description of an entry of the general and the
    alternative passes is the trimmed text of the [.VwiC3b] element of its
    block, and is absent when the block has none; the description of an
    entry of the news pass is the trimmed text of the element that follows
    the heading of its block, and is absent when nothing follows it. *)
Theorem entries_are_trimmed :
  (forall s, trim (trim s) = trim s) /\
  (forall doc,
      Forall (fun r => trim (title r) = title r /\
                       exists d, description r = Some d /\ d <> [] /\ trim d = d)
        (UrlFetcherV1.collectResults doc)) /\
  (forall doc,
      Forall (fun r => trim (title r) = title r /\
                       forall d, description r = Some d -> trim d = d)
        (UrlFetcher.collectResults doc)) /\
  (forall element,
      querySelector element sel_snippet = None ->
      Forall (fun r => description r = None) (acceptedGeneral element)) /\
  (forall element,
      Forall (fun r =>
                description r
                = option_map (fun e => trim (textContent e))
                    (querySelector element sel_snippet))
        (acceptedGeneral element)) /\
  (forall element,
      Forall (fun r =>
                description r
                = match querySelector element sel_heading with
                  | Some titleEl =>
                      option_map (fun e => trim (textContent e))
                        (nextElementSibling titleEl)
                  | None => None
                  end)
        (acceptedNews element)).
Proof.
  split; [exact trim_idempotent|]. split; [|split; [|split; [|split]]].
  - intros doc. rewrite V1Facts.v1_collectResults_flat_map.
    apply Forall_forall. intros r Hr.
    apply in_flat_map in Hr as (div & _ & Hr). now apply (v1_accepted_trimmed div).
  - intros doc. rewrite V2Facts.v2_collectResults_flat_map.
    assert (forall es, Forall (fun r => trim (title r) = title r /\
                                        forall d, description r = Some d -> trim d = d)
                         (flat_map acceptedNews es)) as Hn.
    { intros es. apply Forall_forall. intros r Hr.
      apply in_flat_map in Hr as (e & _ & Hr). now apply v2_visit_trimmed in Hr. }
    assert (forall es, Forall (fun r => trim (title r) = title r /\
                                        forall d, description r = Some d -> trim d = d)
                         (flat_map acceptedGeneral es)) as Hg.
    { intros es. apply Forall_forall. intros r Hr.
      apply in_flat_map in Hr as (e & _ & Hr). now apply v2_visit_trimmed in Hr. }
    destruct (flat_map acceptedNews _) as [|r rs] eqn:En.
    + destruct (flat_map acceptedGeneral (querySelectorAll doc sel_g)) as [|r rs] eqn:Eg.
      * apply Hg.
      * rewrite <- Eg. apply Hg.
    + rewrite <- En. apply Hn.
  - intros element Hs. unfold acceptedGeneral, UrlFetcher.visitGeneral. rewrite Hs.
    unfold UrlFetcher.visit.
    destruct (querySelector element sel_h3), (querySelector element sel_a) as [l|];
      try constructor.
    destruct (getAttribute l (lit "href")); [|constructor].
    destruct (truthy _ && truthy _); repeat constructor.
  - intros element. unfold acceptedGeneral, UrlFetcher.visitGeneral, UrlFetcher.visit.
    destruct (querySelector element sel_h3), (querySelector element sel_a) as [l|];
      try constructor.
    destruct (getAttribute l (lit "href")); [|constructor].
    destruct (truthy _ && truthy _); repeat constructor.
  - intros element. unfold acceptedNews, UrlFetcher.visitNews, UrlFetcher.visit.
    destruct (querySelector element sel_heading), (querySelector element sel_a) as [l|];
      try constructor.
    destruct (getAttribute l (lit "href")); [|constructor].
    destruct (truthy _ && truthy _); repeat constructor.
Qed.

(** A general block without a snippet, and a news block, which has no
    [.VwiC3b] element either and takes its description from the element that
    follows its heading. *)
Lemma entries_are_trimmed_witness :
  Forall (fun r => description r = None) (acceptedGeneral exampleBlock) /\
  querySelector exampleNewsBlock sel_snippet = None /\
  acceptedNews exampleNewsBlock
  = [mkSearchResult (lit "T") (lit "https://n.example/") (Some (lit "D"))] /\
  Forall (fun r => description r = Some (lit "D")) (acceptedNews exampleNewsBlock).
Proof.
  split; [|split; [reflexivity|split; [reflexivity|]]].
  - exact (proj1 (proj2 (proj2 (proj2 entries_are_trimmed))) exampleBlock eq_refl).
  - exact (proj2 (proj2 (proj2 (proj2 (proj2 entries_are_trimmed)))) exampleNewsBlock).
Defined.

(** The later extractor returns the entries of one pass only, in document
    order and at most one for a block: those of the news blocks
    ([[data-news-cluster-id]]) when one of them is accepted, else those of
    the [.g] blocks when one of them is accepted, else those of the
    [div.tF2Cxc] blocks. *)
Theorem later_extractor_uses_one_pass :
  forall doc : Document,
  let news := flat_map acceptedNews (querySelectorAll doc sel_news) in
  let general := flat_map acceptedGeneral (querySelectorAll doc sel_g) in
  let alternative := flat_map acceptedGeneral (querySelectorAll doc sel_div_tF2Cxc) in
  (news <> [] -> UrlFetcher.collectResults doc = news) /\
  (news = [] -> general <> [] -> UrlFetcher.collectResults doc = general) /\
  (news = [] -> general = [] -> UrlFetcher.collectResults doc = alternative) /\
  (forall element,
      length (acceptedNews element) <= 1 /\ length (acceptedGeneral element) <= 1).
Proof.
  intros doc news general alternative.
  pose proof (V2Facts.v2_collectResults_flat_map doc) as H.
  fold news general alternative in H.
  split; [|split; [|split]].
  - intros Hn. rewrite H. destruct news; [contradiction|reflexivity].
  - intros Hn Hg. rewrite H, Hn. destruct general; [contradiction|reflexivity].
  - intros Hn Hg. now rewrite H, Hn, Hg.
  - assert (forall t l s, length (UrlFetcher.visit t l s []) <= 1) as Hv.
    { intros t l s. unfold UrlFetcher.visit. destruct t, l as [l|]; simpl; try lia.
      destruct (getAttribute l (lit "href")); simpl; try lia.
      destruct (truthy _ && truthy _); simpl; lia. }
    intros element. split; apply Hv.
Qed.

(** Six [.g] blocks and no news block. *)
Lemma later_extractor_uses_one_pass_witness :
  UrlFetcher.collectResults sixResultsPage
  = flat_map acceptedGeneral (querySelectorAll sixResultsPage sel_g).
Proof.
  apply (proj1 (proj2 (later_extractor_uses_one_pass sixResultsPage)));
    [reflexivity|discriminate].
Defined.

(** ** The search URL and the query *)

Lemma searchUrl_parts (query : jsstring) (maxResults : N) (topic : GoogleSearch.Topic) :
  GoogleSearch.buildGoogleSearchUrl query maxResults topic
  = lit "https://www.google.com/search?q=" ++ GoogleSearch.formEncode query
    ++ lit "&num=" ++ Number_toString (if (maxResults =? 0)%N then 10%N else maxResults)
    ++ match topic with
       | GoogleSearch.News => lit "&tbm=nws"
       | GoogleSearch.Web => lit "&udm=14"
       end.
Proof.
  set (num := Number_toString (if (maxResults =? 0)%N then 10%N else maxResults)).
  assert (GoogleSearch.formEncode num = num) as Hnum.
  { apply formEncode_digits. apply digits_acc_digits. constructor. }
  unfold GoogleSearch.buildGoogleSearchUrl. fold num.
  unfold GoogleSearch.paramsToString.
  destruct topic.
  - change (GoogleSearch.setParam _ (lit "udm") (lit "14"))
      with [(lit "q", query); (lit "num", num); (lit "udm", lit "14")].
    cbn [map join fst snd]. rewrite Hnum.
    change (GoogleSearch.formEncode (lit "q")) with (lit "q").
    change (GoogleSearch.formEncode (lit "num")) with (lit "num").
    change (GoogleSearch.formEncode (lit "udm")) with (lit "udm").
    change (GoogleSearch.formEncode (lit "14")) with (lit "14").
    rewrite <- !app_assoc. reflexivity.
  - change (GoogleSearch.setParam _ (lit "tbm") (lit "nws"))
      with [(lit "q", query); (lit "num", num); (lit "tbm", lit "nws")].
    cbn [map join fst snd]. rewrite Hnum.
    change (GoogleSearch.formEncode (lit "q")) with (lit "q").
    change (GoogleSearch.formEncode (lit "num")) with (lit "num").
    change (GoogleSearch.formEncode (lit "tbm")) with (lit "tbm").
    change (GoogleSearch.formEncode (lit "nws")) with (lit "nws").
    rewrite <- !app_assoc. reflexivity.
Qed.

Ltac byte_bound :=
  repeat match goal with
         | |- Forall _ (_ :: _) => constructor
         | |- Forall _ [] => constructor
         | |- (_ + ?a / ?b mod ?c < _)%N =>
             let H := fresh in
             assert (a / b mod c < c)%N as H by (apply N.mod_upper_bound; discriminate);
             revert H; generalize (a / b mod c)%N; intros; lia
         | |- (_ + ?a mod ?c < _)%N =>
             let H := fresh in
             assert (a mod c < c)%N as H by (apply N.mod_upper_bound; discriminate);
             revert H; generalize (a mod c)%N; intros; lia
         end.

Lemma utf8CodePoint_bytes (cp : N) :
  (cp < 1114112)%N -> Forall (fun b => (b < 256)%N) (GoogleSearch.utf8CodePoint cp).
Proof.
  intros Hcp. unfold GoogleSearch.utf8CodePoint.
  destruct (cp <? 128)%N eqn:E1; [apply N.ltb_lt in E1; repeat constructor; lia|].
  destruct (cp <? 2048)%N eqn:E2.
  { apply N.ltb_lt in E2.
    assert (cp / 64 < 32)%N by (apply N.Div0.div_lt_upper_bound; lia).
    constructor; [lia|]. byte_bound. }
  destruct (cp <? 65536)%N eqn:E3.
  { apply N.ltb_lt in E3.
    assert (cp / 4096 < 16)%N by (apply N.Div0.div_lt_upper_bound; lia).
    constructor; [lia|]. byte_bound. }
  assert (cp / 262144 < 5)%N by (apply N.Div0.div_lt_upper_bound; lia).
  constructor; [lia|]. byte_bound.
Qed.

Lemma utf8_bytes_upto (n : nat) :
  forall s, length s <= n -> codeUnits s ->
            Forall (fun b => (b < 256)%N) (GoogleSearch.utf8 s).
Proof.
  induction n as [|n IH]; intros [|c s] Hlen Hs; try (constructor; fail);
    [simpl in Hlen; lia|].
  inversion Hs as [|? ? Hc Hs']; subst. cbn [GoogleSearch.utf8].
  assert (Forall (fun b => (b < 256)%N) (GoogleSearch.utf8 s)) as Htail.
  { apply IH; [simpl in Hlen; lia|exact Hs']. }
  destruct (isHighSurrogate c) eqn:Hh.
  - destruct s as [|d s]; [apply utf8CodePoint_bytes; lia|].
    inversion Hs' as [|? ? Hd Hs'']; subst.
    destruct (isLowSurrogate d) eqn:Hlow.
    + apply Forall_app. split.
      * apply utf8CodePoint_bytes.
        unfold isHighSurrogate in Hh. unfold isLowSurrogate in Hlow.
        apply andb_true_iff in Hh as [H1 H2]. apply andb_true_iff in Hlow as [H3 H4].
        apply N.leb_le in H1, H2, H3, H4. lia.
      * apply IH; [simpl in Hlen; lia|exact Hs''].
    + apply Forall_app. split; [apply utf8CodePoint_bytes; lia|exact Htail].
  - destruct (isLowSurrogate c).
    + apply Forall_app. split; [apply utf8CodePoint_bytes; lia|exact Htail].
    + apply Forall_app. split; [apply utf8CodePoint_bytes; lia|exact Htail].
Qed.

Lemma upperHex_safe (d : N) : (d < 16)%N -> isFormSafe (GoogleSearch.upperHex d) = true.
Proof.
  intros H.
  assert (In d [0; 1; 2; 3; 4; 5; 6; 7; 8; 9; 10; 11; 12; 13; 14; 15]%N) as Hin.
  { simpl.
    assert (d = 0 \/ d = 1 \/ d = 2 \/ d = 3 \/ d = 4 \/ d = 5 \/ d = 6 \/ d = 7 \/ d = 8
            \/ d = 9 \/ d = 10 \/ d = 11 \/ d = 12 \/ d = 13 \/ d = 14 \/ d = 15)%N
      as Hd by lia.
    intuition auto. }
  simpl in Hin. repeat (destruct Hin as [<-|Hin]; [reflexivity|]). contradiction.
Qed.

Lemma formEncodeByte_safe (b : N) :
  (b < 256)%N -> Forall (fun c => isFormSafe c = true) (GoogleSearch.formEncodeByte b).
Proof.
  intros Hb. unfold GoogleSearch.formEncodeByte.
  match goal with |- context [if ?c then [b] else _] => destruct c eqn:E end.
  - constructor; [|constructor]. unfold isFormSafe. now rewrite E.
  - destruct (b =? 32)%N; [repeat constructor|].
    constructor; [reflexivity|]. constructor.
    + apply upperHex_safe. apply N.Div0.div_lt_upper_bound; lia.
    + constructor; [|constructor]. apply upperHex_safe.
      apply N.mod_upper_bound. discriminate.
Qed.

Lemma formEncode_safe (s : jsstring) :
  codeUnits s -> Forall (fun c => isFormSafe c = true) (GoogleSearch.formEncode s).
Proof.
  intros Hs. unfold GoogleSearch.formEncode.
  pose proof (utf8_bytes_upto (length s) s (le_n _) Hs) as Hb.
  induction Hb as [|b bs Hb _ IH]; [constructor|].
  cbn [flat_map]. apply Forall_app. split; [now apply formEncodeByte_safe|exact IH].
Qed.

Lemma safe_count (c : N) (s : jsstring) :
  isFormSafe c = false ->
  Forall (fun x => isFormSafe x = true) s ->
  count_occ N.eq_dec s c = 0.
Proof.
  intros Hc. induction 1 as [|x s Hx _ IH]; [reflexivity|].
  cbn [count_occ]. destruct (N.eq_dec x c) as [->|_]; [congruence|exact IH].
Qed.

Lemma digits_safe (s : jsstring) :
  Forall (fun c => isDigit c = true) s -> Forall (fun c => isFormSafe c = true) s.
Proof.
  apply Forall_impl. intros c Hc. unfold isFormSafe. unfold isDigit in Hc.
  now rewrite Hc.
Qed.

(** The query cannot add a parameter to the search URL nor cut it short:
    its encoding contains only letters, digits and [*-._+%], so whatever the
    query the URL has one [?], two [&], three [=] and neither [#] nor
    space. *)
Theorem query_cannot_add_parameters :
  forall (query : jsstring) (maxResults : N) (topic : GoogleSearch.Topic),
  codeUnits query ->
  let searchUrl := GoogleSearch.buildGoogleSearchUrl query maxResults topic in
  Forall (fun c => isFormSafe c = true) (GoogleSearch.formEncode query) /\
  count_occ N.eq_dec searchUrl 63%N = 1 /\
  count_occ N.eq_dec searchUrl 38%N = 2 /\
  count_occ N.eq_dec searchUrl 61%N = 3 /\
  count_occ N.eq_dec searchUrl 35%N = 0 /\
  count_occ N.eq_dec searchUrl 32%N = 0.
Proof.
  intros query maxResults topic Hq searchUrl.
  pose proof (formEncode_safe query Hq) as Hsafe.
  split; [exact Hsafe|].
  unfold searchUrl. rewrite searchUrl_parts.
  set (num := Number_toString (if (maxResults =? 0)%N then 10%N else maxResults)).
  assert (Forall (fun c => isFormSafe c = true) num) as Hnum.
  { apply digits_safe. apply digits_acc_digits. constructor. }
  assert (forall c, isFormSafe c = false ->
                    count_occ N.eq_dec (GoogleSearch.formEncode query) c = 0 /\
                    count_occ N.eq_dec num c = 0) as Hz.
  { intros c Hc. split; now apply safe_count. }
  repeat split; rewrite !count_occ_app;
    match goal with
    | |- context [count_occ _ (GoogleSearch.formEncode query) ?c] =>
        destruct (Hz c eq_refl) as [-> ->]
    end;
    destruct topic; reflexivity.
Qed.

(** A query with the characters that separate parameters. *)
Lemma query_cannot_add_parameters_witness :
  count_occ N.eq_dec
    (GoogleSearch.buildGoogleSearchUrl (lit "a&b=c #d") 10 GoogleSearch.Web) 38%N = 2.
Proof.
  apply (query_cannot_add_parameters (lit "a&b=c #d") 10 GoogleSearch.Web).
  unfold codeUnits. repeat (constructor; [reflexivity|]). constructor.
Defined.

(** ** Reading the markdown rendering back *)

Lemma lacks_cons c x s : lacks c (x :: s) = true -> x <> c /\ lacks c s = true.
Proof.
  unfold lacks. cbn [forallb]. rewrite andb_true_iff, negb_true_iff, N.eqb_neq. tauto.
Qed.

Lemma oneLine_cons x s :
  oneLine (x :: s) = true -> GoogleSearch.isLineTerminator x = false /\ oneLine s = true.
Proof.
  unfold oneLine. cbn [forallb]. rewrite andb_true_iff, negb_true_iff. tauto.
Qed.

Lemma matchTarget_found (u rest acc : jsstring) (n : nat) :
  lacks 41 u = true -> oneLine u = true ->
  GoogleSearch.matchTarget (u ++ 41%N :: rest) acc n
  = Some (rev acc ++ u, n + length u + 1).
Proof.
  revert acc n. induction u as [|c u IH]; intros acc n Hl Ho.
  - cbn. rewrite app_nil_r. f_equal. f_equal. lia.
  - apply lacks_cons in Hl as [Hc Hl]. apply oneLine_cons in Ho as [Ht Ho].
    cbn [app GoogleSearch.matchTarget]. apply N.eqb_neq in Hc. rewrite Hc, Ht.
    rewrite IH by assumption. cbn [rev length]. rewrite <- app_assoc. cbn [app].
    f_equal. f_equal. lia.
Qed.

Lemma match_93 {A} (c : N) (x : option A) :
  c <> 93%N -> match c with 93%N => x | _ => None end = None.
Proof.
  intros Hc. destruct c as [|p]; [reflexivity|].
  do 7 (try (destruct p as [p|p|]; try reflexivity)). now elim Hc.
Qed.

Lemma matchLabel_found (t u rest : jsstring) (n : nat) :
  lacks 93 t = true -> oneLine t = true -> lacks 41 u = true -> oneLine u = true ->
  GoogleSearch.matchLabel (t ++ 93%N :: 40%N :: u ++ 41%N :: rest) n
  = Some (u, n + length t + 2 + length u + 1).
Proof.
  revert n. induction t as [|c t IH]; intros n Ht Hot Hu Hou.
  - cbn [app GoogleSearch.matchLabel]. rewrite matchTarget_found by assumption.
    cbn. f_equal. f_equal. lia.
  - apply lacks_cons in Ht as [Hc Ht]. apply oneLine_cons in Hot as [Hlt Hot].
    cbn [app]. cbn [GoogleSearch.matchLabel].
    rewrite (match_93 c _ Hc), Hlt, IH by assumption.
    f_equal. f_equal. cbn [length]. lia.
Qed.

Lemma markdownLinks_skip (a rest : jsstring) :
  GoogleSearch.markdownLinks (a ++ rest) (length a) = GoogleSearch.markdownLinks rest 0.
Proof.
  induction a as [|c a IH]; [reflexivity|]. cbn [app length GoogleSearch.markdownLinks].
  exact IH.
Qed.

Lemma markdownLinks_plain (d rest : jsstring) :
  lacks 91 d = true ->
  GoogleSearch.markdownLinks (d ++ rest) 0 = GoogleSearch.markdownLinks rest 0.
Proof.
  induction d as [|c d IH]; intros Hd; [reflexivity|].
  apply lacks_cons in Hd as [Hc Hd]. apply N.eqb_neq in Hc.
  cbn [app GoogleSearch.markdownLinks]. rewrite Hc. now apply IH.
Qed.

Lemma markdownLinks_line (r : SearchResult) (rest : jsstring) :
  linkSafe r = true ->
  GoogleSearch.markdownLinks (UrlFetcher.renderMarkdown r ++ rest) 0
  = url r :: GoogleSearch.markdownLinks rest 0.
Proof.
  unfold linkSafe. rewrite !andb_true_iff. intros ((((Ht & Hot) & Hu) & Hou) & Hd).
  unfold UrlFetcher.renderMarkdown.
  change (lit "- [") with [45; 32; 91]%N. change (lit "](") with [93; 40]%N.
  change (lit ")") with [41%N].
  rewrite <- !app_assoc. cbn [app GoogleSearch.markdownLinks N.eqb Pos.eqb].
  rewrite matchLabel_found by assumption.
  replace (1 + length (title r) + 2 + length (url r) + 1 - 1)
    with (length (title r ++ 93%N :: 40%N :: url r ++ [41%N])).
  2:{ rewrite length_app. cbn [length]. rewrite length_app. cbn [length]. lia. }
  replace (title r ++ 93%N :: 40%N :: url r ++ 41%N :: UrlFetcher.whenDescription r (fun d => nl ++ lit "  " ++ d) ++ rest)
    with ((title r ++ 93%N :: 40%N :: url r ++ [41%N]) ++ UrlFetcher.whenDescription r (fun d => nl ++ lit "  " ++ d) ++ rest).
  2:{ rewrite <- !app_assoc. cbn [app]. rewrite <- !app_assoc. reflexivity. }
  rewrite markdownLinks_skip. f_equal.
  apply markdownLinks_plain. unfold UrlFetcher.whenDescription.
  destruct (description r) as [d|]; [|reflexivity].
  destruct (truthy d); [|reflexivity].
  unfold lacks in *. rewrite !forallb_app. now rewrite Hd.
Qed.

Lemma markdownLinks_lines (results : list SearchResult) :
  forallb linkSafe results = true ->
  GoogleSearch.markdownLinks (join nl (map UrlFetcher.renderMarkdown results)) 0
  = map url results.
Proof.
  induction results as [|r results IH]; [reflexivity|].
  cbn [forallb]. rewrite andb_true_iff. intros [Hr Hrs].
  destruct results as [|r' results].
  - cbn [map join]. rewrite <- (app_nil_r (UrlFetcher.renderMarkdown r)).
    now rewrite markdownLinks_line.
  - change (join nl (map UrlFetcher.renderMarkdown (r :: r' :: results)))
      with (UrlFetcher.renderMarkdown r ++ nl
            ++ join nl (map UrlFetcher.renderMarkdown (r' :: results))).
    rewrite markdownLinks_line by assumption. cbn [map]. f_equal.
    change (nl ++ ?x) with (10%N :: x). cbn [GoogleSearch.markdownLinks N.eqb Pos.eqb].
    now apply IH.
Qed.

(** The markdown rendering of the later extractor reads back: for entries
    whose titles have no [\]], whose URLs have no [)], neither with a line
    break, and whose descriptions have no [\[], the links [extractSearchUrls]
    finds in the rendering are the URLs of the entries, in order; they are
    what it returns for the array of the same entries. *)
Theorem markdown_links_read_back :
  forall results : list SearchResult,
  forallb linkSafe results = true ->
  GoogleSearch.extractSearchUrls
    (FString (join nl (map UrlFetcher.renderMarkdown results)))
  = map (fun r => Some (url r)) results /\
  GoogleSearch.extractSearchUrls
    (FString (join nl (map UrlFetcher.renderMarkdown results)))
  = GoogleSearch.extractSearchUrls (FResults results).
Proof.
  intros results Hsafe.
  assert (GoogleSearch.extractSearchUrls
            (FString (join nl (map UrlFetcher.renderMarkdown results)))
          = map (fun r => Some (url r)) results) as H.
  { cbn [GoogleSearch.extractSearchUrls]. rewrite markdownLinks_lines by assumption.
    now rewrite map_map. }
  split; [exact H|]. rewrite H. reflexivity.
Qed.

(** One entry with a description. *)
Lemma markdown_links_read_back_witness :
  GoogleSearch.extractSearchUrls
    (FString (lit "- [T](https://e.example/)" ++ nl ++ lit "  No description"))
  = [Some (lit "https://e.example/")].
Proof.
  exact (proj1 (markdown_links_read_back [exampleEntry] eq_refl)).
Defined.

(** A title that holds a link of its own is read instead of the URL. *)
Example link_in_title_is_read :
  linkSafe (mkSearchResult (lit "a](b) c") (lit "https://e.example/") None) = false /\
  GoogleSearch.extractSearchUrls
    (FString (UrlFetcher.renderMarkdown
                (mkSearchResult (lit "a](b) c") (lit "https://e.example/") None)))
  = [Some (lit "b")].
Proof. split; reflexivity. Qed.

(** ** [htmlToMarkdown] *)

Section RegExpFacts.
Import RegExp.

Lemma canonicalize_lt (ic : bool) (x : N) : canonicalize ic x = 60%N -> x = 60%N.
Proof.
  unfold canonicalize, toUpper. destruct ic; [|auto].
  destruct ((97 <=? x) && (x <=? 122))%N eqn:E; [|auto].
  apply andb_true_iff in E as [H1 H2]. apply N.leb_le in H1, H2. lia.
Qed.

Lemma canonicalize_lf (x : N) : canonicalize false x = x.
Proof. reflexivity. Qed.

(** A pattern that starts with a character does not match where another
    character stands. *)
Lemma compile_first (ic : bool) (c : N) (r : Re) :
  startsWithChr c r = true ->
  forall s caps k,
    match s with
    | [] => True
    | x :: _ => canonicalize ic x <> canonicalize ic c
    end ->
    compile ic r s caps k = None.
Proof.
  induction r as [x| | | |a IHa b IHb| | |n a IHa| |]; cbn [startsWithChr]; try discriminate.
  - intros Hx s caps k Hs. apply N.eqb_eq in Hx. subst x. cbn [compile].
    destruct s as [|y s]; [reflexivity|]. apply N.eqb_neq in Hs. now rewrite Hs.
  - intros Ha s caps k Hs. cbn [compile]. now apply IHa.
  - intros Ha s caps k Hs. cbn [compile]. now apply IHa.
Qed.

Lemma replaceFrom_untouched (ic : bool) (c : N) (r : Re) f (s : jsstring) :
  startsWithChr c r = true ->
  Forall (fun x => canonicalize ic x <> canonicalize ic c) s ->
  replaceFrom ic r f s 0 = s.
Proof.
  intros Hr. induction 1 as [|x s Hx _ IH].
  - cbn [replaceFrom]. unfold execAt. now rewrite (compile_first ic c r Hr).
  - cbn [replaceFrom]. unfold execAt. rewrite (compile_first ic c r Hr) by exact Hx.
    now rewrite IH.
Qed.

Lemma lacks_Forall (c : N) (s : jsstring) :
  lacks c s = true <-> Forall (fun x => x <> c) s.
Proof.
  unfold lacks. rewrite forallb_forall, Forall_forall.
  split; intros H x Hx; specialize (H x Hx).
  - now apply negb_true_iff, N.eqb_neq in H.
  - now apply negb_true_iff, N.eqb_neq.
Qed.

End RegExpFacts.

Lemma fixSpacing_one_line (s : jsstring) : lacks 10 s = true -> Markdown.fixSpacing s = s.
Proof.
  intros Hs. unfold Markdown.fixSpacing, RegExp.replace.
  apply (replaceFrom_untouched false 10); [reflexivity|].
  apply lacks_Forall in Hs. exact Hs.
Qed.

(** ** No tag is left *)

Section TagFacts.
Import RegExp.

Lemma clear_nil (caps : Captures) : clear [] caps = caps.
Proof.
  unfold clear. induction caps as [|kt caps IH]; [reflexivity|].
  cbn [filter existsb negb]. f_equal. exact IH.
Qed.

Lemma notChar_gt (c : N) : inClass false [(62, 62)%N] c = (c =? 62)%N.
Proof.
  unfold inClass, inRanges. cbn [existsb fst snd andb orb]. rewrite !orb_false_r.
  destruct (N.eqb_spec c 62) as [->|Hc]; [reflexivity|].
  apply andb_false_iff. rewrite !N.leb_gt. lia.
Qed.

Let accept : Continuation := fun s' caps => Some (s', caps).
Let closing : Continuation := fun s' caps' => compile false (Chr 62) s' caps' accept.

(** [[^>]*>]: up to the first [>]. *)
Lemma star_until_gt (s : jsstring) :
  forall fuel caps,
    length s < fuel ->
    repeatMatcher (compile false (notChar 62)) true [] fuel s caps closing
    = option_map (fun rest => (rest, caps)) (afterGt s).
Proof.
  induction s as [|c s IH]; intros fuel caps Hf.
  - destruct fuel as [|fuel]; reflexivity.
  - destruct fuel as [|fuel]; [simpl in Hf; lia|].
    cbn [repeatMatcher afterGt]. rewrite clear_nil.
    unfold notChar at 1. cbn [compile]. rewrite notChar_gt.
    destruct (N.eqb_spec c 62) as [->|Hc]; cbn [xorb negb].
    + reflexivity.
    + assert (Nat.ltb (length s) (length (c :: s)) = true) as ->.
      { apply Nat.ltb_lt. simpl. lia. }
      rewrite IH by (simpl in Hf; lia).
      destruct (afterGt s) as [rest|]; [reflexivity|]. cbn [option_map].
      unfold closing. cbn [compile]. unfold canonicalize.
      apply N.eqb_neq in Hc. now rewrite Hc.
Qed.

Lemma tag_pattern :
  Markdown.tag = Cat (Chr 60) (Cat (Star true (notChar 62)) (Chr 62)).
Proof. reflexivity. Qed.

Lemma execAt_tag_lt (s : jsstring) :
  execAt false Markdown.tag (60%N :: s) = option_map (fun rest => (rest, [])) (afterGt s).
Proof.
  rewrite tag_pattern. unfold execAt. cbn [compile]. unfold canonicalize at 1 2.
  rewrite N.eqb_refl. cbn [groupsOf notChar].
  change (fun (s' : jsstring) (caps' : Captures) =>
            compile false (Chr 62) s' caps' (fun s'0 caps => Some (s'0, caps)))
    with closing.
  apply star_until_gt. lia.
Qed.

Lemma execAt_tag_other (s : jsstring) :
  match s with [] => True | x :: _ => x <> 60%N end ->
  execAt false Markdown.tag s = None.
Proof.
  intros Hs. unfold execAt. apply (compile_first false 60); [reflexivity|].
  destruct s; [exact I|exact Hs].
Qed.

End TagFacts.

Lemma afterGt_some (s rest : jsstring) :
  afterGt s = Some rest ->
  exists pre, s = pre ++ 62%N :: rest /\ lacks 62 pre = true.
Proof.
  revert rest. induction s as [|c s IH]; intros rest; cbn [afterGt]; [discriminate|].
  destruct (N.eqb_spec c 62) as [->|Hc].
  - intros [= ->]. now exists [].
  - intros H. destruct (IH rest H) as (pre & -> & Hpre). exists (c :: pre).
    split; [reflexivity|]. unfold lacks in *. cbn [forallb]. rewrite Hpre.
    apply N.eqb_neq in Hc. now rewrite Hc.
Qed.

Lemma afterGt_none (s : jsstring) : afterGt s = None -> lacks 62 s = true.
Proof.
  induction s as [|c s IH]; cbn [afterGt]; [reflexivity|].
  destruct (N.eqb_spec c 62) as [->|Hc]; [discriminate|].
  intros H. unfold lacks in *. cbn [forallb]. rewrite (IH H).
  apply N.eqb_neq in Hc. now rewrite Hc.
Qed.

Lemma replaceFrom_skip ic r f (s : jsstring) :
  forall k, k <= length s ->
            RegExp.replaceFrom ic r f s k = RegExp.replaceFrom ic r f (skipn k s) 0.
Proof.
  induction s as [|c s IH]; intros [|k] Hk; try reflexivity.
  - simpl in Hk. lia.
  - cbn [RegExp.replaceFrom skipn]. apply IH. simpl in Hk. lia.
Qed.

Lemma lacks_gt_hasTag (s : jsstring) : lacks 62 s = true -> hasTag s = false.
Proof.
  induction s as [|c s IH]; [reflexivity|]. intros H.
  unfold lacks in H. cbn [forallb] in H. apply andb_true_iff in H as [_ H].
  cbn [hasTag]. fold (lacks 62 s) in H. rewrite H, (IH H).
  now rewrite andb_false_r.
Qed.

Lemma lacks_gt_untouched (s : jsstring) :
  lacks 62 s = true -> Markdown.stripTags s = s.
Proof.
  unfold Markdown.stripTags, RegExp.replace.
  induction s as [|c s IH]; intros Hs.
  - cbn [RegExp.replaceFrom]. now rewrite execAt_tag_other.
  - assert (lacks 62 s = true) as Hs'.
    { unfold lacks in *. cbn [forallb] in Hs. now apply andb_true_iff in Hs as [_ Hs]. }
    cbn [RegExp.replaceFrom].
    assert (RegExp.execAt false Markdown.tag (c :: s) = None) as ->.
    { destruct (N.eqb_spec c 60) as [->|Hc].
      - rewrite execAt_tag_lt.
        destruct (afterGt s) as [rest|] eqn:E; [|reflexivity].
        apply afterGt_some in E as (pre & -> & _).
        unfold lacks in Hs'. rewrite forallb_app in Hs'. cbn in Hs'.
        now rewrite andb_false_r in Hs'.
      - now apply execAt_tag_other. }
    now rewrite IH.
Qed.

(** What [stripTags] returns has no tag left. *)
Lemma stripTags_upto (n : nat) :
  forall s, length s <= n -> hasTag (Markdown.stripTags s) = false.
Proof.
  induction n as [|n IH]; intros s Hn.
  - destruct s; [|simpl in Hn; lia]. reflexivity.
  - destruct s as [|c s]; [reflexivity|].
    destruct (N.eqb_spec c 60) as [->|Hc].
    + destruct (afterGt s) as [rest|] eqn:E.
      * unfold Markdown.stripTags, RegExp.replace. cbn [RegExp.replaceFrom].
        rewrite execAt_tag_lt, E. cbn [option_map].
        destruct (afterGt_some s rest E) as (pre & -> & Hpre).
        assert (length (60%N :: pre ++ 62%N :: rest) - length rest
                = S (S (length pre))) as ->.
        { cbn [length]. rewrite length_app. cbn [length]. lia. }
        unfold Markdown.template at 1. cbn [RegExp.substitute app].
        rewrite replaceFrom_skip by (rewrite length_app; cbn [length]; lia).
        replace (skipn (S (length pre)) (pre ++ 62%N :: rest)) with rest.
        2:{ replace (S (length pre)) with (length (pre ++ [62%N]))
              by (rewrite length_app; cbn [length]; lia).
            replace (pre ++ 62%N :: rest) with ((pre ++ [62%N]) ++ rest)
              by (now rewrite <- app_assoc).
            now rewrite skipn_app, skipn_all, Nat.sub_diag. }
        apply IH. simpl in Hn. rewrite length_app in Hn. cbn [length] in Hn. lia.
      * assert (lacks 62 (60%N :: s) = true) as Hl.
        { unfold lacks. cbn [forallb]. apply afterGt_none in E. exact E. }
        rewrite lacks_gt_untouched by exact Hl. now apply lacks_gt_hasTag.
    + unfold Markdown.stripTags, RegExp.replace. cbn [RegExp.replaceFrom].
      rewrite execAt_tag_other by exact Hc.
      cbn [hasTag]. apply N.eqb_neq in Hc. rewrite Hc. cbn [andb orb].
      apply IH. simpl in Hn. lia.
Qed.

Section SpacingFacts.
Import RegExp.

Lemma blank_app (a b : jsstring) : blank a -> blank b -> blank (a ++ b).
Proof. unfold blank. intros Ha Hb. now rewrite forallb_app, Ha, Hb. Qed.

Lemma repeatMatcher_blank (m : Matcher) greedy groups :
  consumesBlank m -> forall fuel, consumesBlank (repeatMatcher m greedy groups fuel).
Proof.
  intros Hm fuel. induction fuel as [|fuel IH]; intros s caps k x.
  - cbn [repeatMatcher]. destruct greedy.
    + intros H. exists [], s, caps. now repeat split.
    + destruct (k s caps) eqn:E; [|discriminate].
      intros [= <-]. exists [], s, caps. now repeat split.
  - cbn [repeatMatcher].
    assert (forall y,
               m s (clear groups caps)
                 (fun s' caps' =>
                    if Nat.ltb (length s') (length s)
                    then repeatMatcher m greedy groups fuel s' caps' k
                    else None) = Some y ->
               exists pre s' caps', s = pre ++ s' /\ blank pre /\ k s' caps' = Some y)
      as Hagain.
    { intros y Hy. apply Hm in Hy as (pre & s' & caps' & -> & Hpre & Hy).
      destruct (Nat.ltb _ _); [|discriminate].
      apply IH in Hy as (pre' & s'' & caps'' & -> & Hpre' & Hy).
      exists (pre ++ pre'), s'', caps''. rewrite <- app_assoc.
      split; [reflexivity|]. split; [now apply blank_app|exact Hy]. }
    destruct greedy.
    + destruct (m s (clear groups caps) _) as [y|] eqn:E.
      * intros [= <-]. now apply Hagain.
      * intros H. exists [], s, caps. now repeat split.
    + destruct (k s caps) as [y|] eqn:E.
      * intros [= <-]. exists [], s, caps. now repeat split.
      * apply Hagain.
Qed.

Lemma compile_blank (r : Re) : onlySpace r = true -> consumesBlank (compile false r).
Proof.
  induction r as [c| | | |a IHa b IHb|a IHa b IHb|g a IHa|n a IHa| |];
    cbn [onlySpace]; try discriminate; intros Hr s caps k x; cbn [compile].
  - destruct s as [|y s]; [discriminate|]. unfold canonicalize.
    destruct (N.eqb_spec y c) as [->|_]; [|discriminate].
    intros H. exists [c], s, caps. split; [reflexivity|]. split; [|exact H].
    unfold blank. cbn [forallb]. now rewrite Hr.
  - destruct s as [|y s]; [discriminate|].
    destruct (isWhiteSpace y) eqn:E; [|discriminate].
    intros H. exists [y], s, caps. split; [reflexivity|]. split; [|exact H].
    unfold blank. cbn [forallb]. now rewrite E.
  - apply andb_true_iff in Hr as [Ha Hb]. intros H.
    apply (IHa Ha) in H as (pre & s' & caps' & -> & Hpre & H).
    apply (IHb Hb) in H as (pre' & s'' & caps'' & -> & Hpre' & H).
    exists (pre ++ pre'), s'', caps''. rewrite <- app_assoc.
    split; [reflexivity|]. split; [now apply blank_app|exact H].
  - apply andb_true_iff in Hr as [Ha Hb].
    destruct (compile false a s caps k) as [y|] eqn:E.
    + intros [= <-]. now apply (IHa Ha) in E.
    + intros H. now apply (IHb Hb) in H.
  - apply repeatMatcher_blank. now apply IHa.
  - intros H. apply (IHa Hr) in H as (pre & s' & caps' & -> & Hpre & H).
    now exists pre, s', ((n, firstn (length (pre ++ s') - length s') (pre ++ s')) :: caps').
  - intros H. exists [], s, caps. now repeat split.
Qed.

Lemma blank_angles (s : jsstring) : blank s -> angles s = [].
Proof.
  unfold blank, angles. induction s as [|c s IH]; [reflexivity|].
  cbn [forallb filter]. intros H. apply andb_true_iff in H as [Hc Hs].
  rewrite (IH Hs). unfold isAngle.
  destruct (N.eqb_spec c 60) as [->|_]; [discriminate|].
  destruct (N.eqb_spec c 62) as [->|_]; [discriminate|]. reflexivity.
Qed.

Lemma angles_app (a b : jsstring) : angles (a ++ b) = angles a ++ angles b.
Proof. apply filter_app. Qed.

(** Replacing blank matches by blank text keeps the [<] and [>] of the text
    where they are. *)
Lemma replaceFrom_angles (r : Re) f :
  onlySpace r = true ->
  (forall matched caps, blank (f matched caps)) ->
  forall s k, k <= length s ->
              angles (replaceFrom false r f s k) = angles (skipn k s).
Proof.
  intros Hr Hf. induction s as [|c s IH]; intros k Hk.
  - destruct k; [|simpl in Hk; lia]. cbn [replaceFrom skipn].
    destruct (execAt false r []) as [[rest caps]|]; [|reflexivity].
    rewrite app_nil_r. now apply blank_angles.
  - destruct k as [|k].
    + cbn [replaceFrom skipn].
      destruct (execAt false r (c :: s)) as [[rest caps]|] eqn:E.
      * unfold execAt in E. apply (compile_blank r Hr) in E
          as (pre & s' & caps' & Hs & Hpre & [= <- <-]).
        rewrite angles_app, (blank_angles _ (Hf _ _)), app_nil_l.
        assert (length (c :: s) - length s' = length pre) as ->
          by (rewrite Hs, length_app; lia).
        destruct pre as [|p pre].
        -- cbn [length]. change (angles (c :: ?t)) with (angles ([c] ++ t)).
           rewrite !angles_app. f_equal. rewrite (IH 0) by lia. reflexivity.
        -- cbn [length]. cbn [app] in Hs. injection Hs as -> ->.
           rewrite IH by (rewrite length_app; lia).
           replace (skipn (length pre) (pre ++ s')) with s'
             by (now rewrite skipn_app, skipn_all, Nat.sub_diag).
           change (angles (p :: pre ++ s')) with (angles ((p :: pre) ++ s')).
           now rewrite angles_app, (blank_angles _ Hpre).
      * change (angles (c :: ?t)) with (angles ([c] ++ t)).
        rewrite !angles_app. f_equal. rewrite (IH 0) by lia. reflexivity.
    + cbn [replaceFrom skipn]. apply IH. simpl in Hk. lia.
Qed.

End SpacingFacts.

Lemma fixSpacing_angles (s : jsstring) : angles (Markdown.fixSpacing s) = angles s.
Proof.
  unfold Markdown.fixSpacing, RegExp.replace.
  rewrite replaceFrom_angles; [reflexivity|reflexivity| |lia].
  intros matched caps. reflexivity.
Qed.

Lemma trimStart_blank (s : jsstring) : exists p, s = p ++ trimStart s /\ blank p.
Proof.
  induction s as [|x s (p & IH & Hp)]; [now exists []|]. cbn [trimStart].
  destruct (isWhiteSpace x) eqn:E; [|now exists []].
  exists (x :: p). cbn [app]. rewrite <- IH. split; [reflexivity|].
  unfold blank in *. cbn [forallb]. now rewrite E.
Qed.

Lemma trimStart_angles (s : jsstring) : angles (trimStart s) = angles s.
Proof.
  destruct (trimStart_blank s) as (p & Hs & Hp).
  rewrite Hs at 2. now rewrite angles_app, (blank_angles _ Hp).
Qed.

Lemma angles_rev (s : jsstring) : angles (rev s) = rev (angles s).
Proof.
  unfold angles. induction s as [|c s IH]; [reflexivity|].
  cbn [rev filter]. rewrite filter_app, IH. cbn [filter].
  destruct (isAngle c); [reflexivity|now rewrite app_nil_r].
Qed.

Lemma trim_angles (s : jsstring) : angles (trim s) = angles s.
Proof.
  unfold trim, trimEnd.
  now rewrite angles_rev, trimStart_angles, angles_rev, rev_involutive, trimStart_angles.
Qed.

Lemma lacks_gt_angles (s : jsstring) : lacks 62 (angles s) = lacks 62 s.
Proof.
  unfold lacks, angles. induction s as [|c s IH]; [reflexivity|].
  cbn [filter forallb]. destruct (isAngle c) eqn:E.
  - cbn [forallb]. now rewrite IH.
  - rewrite IH. unfold isAngle in E. apply orb_false_iff in E as [_ E]. now rewrite E.
Qed.

Lemma hasTag_angles (s : jsstring) : hasTag (angles s) = hasTag s.
Proof.
  induction s as [|c s IH]; [reflexivity|].
  cbn [hasTag]. unfold angles at 1. cbn [filter]. fold (angles s).
  destruct (isAngle c) eqn:E.
  - cbn [hasTag]. now rewrite lacks_gt_angles, IH.
  - rewrite IH. unfold isAngle in E. apply orb_false_iff in E as [E _]. now rewrite E.
Qed.

Lemma htmlToMarkdown_has_no_tag (html : jsstring) : hasTag (htmlToMarkdown html) = false.
Proof.
  unfold htmlToMarkdown.
  rewrite <- hasTag_angles, trim_angles, fixSpacing_angles, hasTag_angles.
  eapply stripTags_upto. apply le_n.
Qed.

(** Whatever the input, no tag is left in what [htmlToMarkdown] returns: no
    [<] of the result has a [>] after it, and the result has no white space
    at either end.  So it is for the markdown [fetchUrl] returns for a page
    that is not a search page, and for the markdown [processResponse]
    returns for a [text/html] body. *)
Theorem no_tag_is_left :
  (forall html : jsstring,
      hasTag (htmlToMarkdown html) = false /\
      trim (htmlToMarkdown html) = htmlToMarkdown html) /\
  (forall parseHTML (url : jsstring) (w : World) (r : Response),
      net w (issued w) url = Responded r -> ok r = true ->
      startsWith url GOOGLE_SEARCH_URL = false ->
      exists s,
        fst (UrlFetcher.fetchUrl parseHTML htmlToMarkdown url Markdown w)
        = inr (FString s) /\
        hasTag s = false) /\
  (forall parseHTML JSON_parse (r : Response) (url : URL) (w : World),
      isGoogleSearch url = false -> withinLimit r = true ->
      includes (contentTypeOf r) (lit "text/html") = true ->
      exists s,
        fst (UrlFetcherV1.processResponse parseHTML JSON_parse htmlToMarkdown r Markdown
               url w) = inr s /\
        fst (UrlFetcher.processResponse parseHTML JSON_parse htmlToMarkdown r Markdown
               url w) = inr s /\
        hasTag s = false).
Proof.
  pose proof htmlToMarkdown_has_no_tag as Hno.
  split; [|split].
  - intros html. split; [apply Hno|]. unfold htmlToMarkdown. apply trim_idempotent.
  - intros parseHTML url w r Hnet Hok Hurl.
    exists (htmlToMarkdown (body r)). split; [|apply Hno].
    rewrite fetchUrl_run, Hnet. cbn [fst fetchUrlOutcome]. rewrite Hok.
    unfold fetchedValue. now rewrite Hurl.
  - intros parseHTML JSON_parse r url w Hg Hl Hh.
    exists (htmlToMarkdown (body r)).
    rewrite (v1_process_other parseHTML JSON_parse htmlToMarkdown r Markdown url Hl Hg).
    rewrite (v2_process_other parseHTML JSON_parse htmlToMarkdown r Markdown url Hl Hg).
    cbn [fst dispatch]. rewrite Hh. repeat split. apply Hno.
Qed.

(** A page with a heading and a paragraph, fetched as markdown. *)
Lemma no_tag_is_left_witness :
  exists s,
    fst (UrlFetcher.fetchUrl noDocument htmlToMarkdown (href examplePage) Markdown
           (initial (script [Responded articlePage])))
    = inr (FString s) /\
    hasTag s = false.
Proof.
  exact (proj1 (proj2 no_tag_is_left) noDocument (href examplePage)
           (initial (script [Responded articlePage])) articlePage eq_refl eq_refl eq_refl).
Defined.

(** The conversions, on examples.  The pattern of lists ignores case but
    the test [type === 'ul'] does not: the items of [<UL>] are numbered.  A
    heading may close with another level, and text between a [<] and a later
    [>] is removed as a tag. *)
Example htmlToMarkdown_ex :
  htmlToMarkdown (body articlePage)
  = lit "# Title" ++ nl ++ nl ++ lit "Hello **world** and *it*" /\
  htmlToMarkdown (lit "<a class='x' href=" ++ dq ++ lit "http://e.x/" ++ dq
                  ++ lit " id=1>link <b>t</b></a>")
  = lit "[link **t**](http://e.x/)" /\
  htmlToMarkdown (lit "<ul><li>a</li><li>b</li></ul><ol><li>c</li></ol><UL><li>d</li></UL>")
  = lit "- a" ++ nl ++ lit "- b" ++ nl ++ lit "1. c" ++ nl ++ lit "1. d" /\
  htmlToMarkdown (lit "<div><span>x</span> < y > z</div><br/>") = lit "x  z" /\
  htmlToMarkdown (lit "<h2 id=a>  T  </H3>") = lit "# T" /\
  htmlToMarkdown (lit "1 < 2 and 3 > 2") = lit "1  2".
Proof. repeat split; vm_compute; reflexivity. Qed.

(** ** Converting twice *)

Section BlankLineFacts.
Import RegExp.

Let accept : Continuation := fun s' caps => Some (s', caps).
Let closing : Continuation := fun s' caps' => compile false (Chr 10) s' caps' accept.

(** [\s*\n]: up to the last line feed of the white space. *)
Lemma star_until_newline (s : jsstring) :
  forall fuel caps,
    length s < fuel ->
    repeatMatcher (compile false Space) true [] fuel s caps closing
    = option_map (fun rest => (rest, caps)) (afterLastNewline s).
Proof.
  induction s as [|c s IH]; intros fuel caps Hf.
  - destruct fuel as [|fuel]; reflexivity.
  - destruct fuel as [|fuel]; [simpl in Hf; lia|].
    cbn [repeatMatcher afterLastNewline]. rewrite clear_nil. cbn [compile].
    destruct (isWhiteSpace c) eqn:Hc.
    + assert (Nat.ltb (length s) (length (c :: s)) = true) as ->.
      { apply Nat.ltb_lt. simpl. lia. }
      rewrite IH by (simpl in Hf; lia).
      destruct (afterLastNewline s) as [rest|]; [reflexivity|]. cbn [option_map].
      unfold closing. cbn [compile]. unfold canonicalize.
      destruct (c =? 10)%N; reflexivity.
    + unfold closing. cbn [compile]. unfold canonicalize.
      destruct (N.eqb_spec c 10) as [->|_]; [discriminate|reflexivity].
Qed.

Lemma blankLines_pattern :
  Markdown.blankLines = Cat (Chr 10) (Cat (Star true Space) (Chr 10)).
Proof. reflexivity. Qed.

Lemma execAt_blankLines_newline (s : jsstring) :
  execAt false Markdown.blankLines (10%N :: s)
  = option_map (fun rest => (rest, [])) (afterLastNewline s).
Proof.
  rewrite blankLines_pattern. unfold execAt. cbn [compile]. unfold canonicalize at 1 2.
  rewrite N.eqb_refl. cbn [groupsOf].
  change (fun (s' : jsstring) (caps' : Captures) =>
            compile false (Chr 10) s' caps' (fun s'0 caps => Some (s'0, caps)))
    with closing.
  apply star_until_newline. lia.
Qed.

Lemma execAt_blankLines_other (s : jsstring) :
  match s with [] => True | x :: _ => x <> 10%N end ->
  execAt false Markdown.blankLines s = None.
Proof.
  intros Hs. unfold execAt. apply (compile_first false 10); [reflexivity|].
  destruct s; [exact I|exact Hs].
Qed.

End BlankLineFacts.

Lemma afterLastNewline_some (s rest : jsstring) :
  afterLastNewline s = Some rest ->
  (exists pre, s = pre ++ 10%N :: rest /\ blank pre) /\ afterLastNewline rest = None.
Proof.
  revert rest. induction s as [|c s IH]; intros rest; cbn [afterLastNewline]; [discriminate|].
  destruct (isWhiteSpace c) eqn:Hc; [|discriminate].
  destruct (afterLastNewline s) as [r|] eqn:E.
  - intros [= <-]. destruct (IH r eq_refl) as ((pre & -> & Hpre) & Hr).
    split; [|exact Hr]. exists (c :: pre). split; [reflexivity|].
    unfold blank in *. cbn [forallb]. now rewrite Hc.
  - destruct (N.eqb_spec c 10) as [->|_]; [|discriminate].
    intros [= <-]. split; [now exists []|exact E].
Qed.

(** The equations of [fixSpacing]. *)
Lemma fixSpacing_nil : Markdown.fixSpacing [] = [].
Proof. reflexivity. Qed.

Lemma fixSpacing_other (c : N) (s : jsstring) :
  c <> 10%N -> Markdown.fixSpacing (c :: s) = c :: Markdown.fixSpacing s.
Proof.
  intros Hc. unfold Markdown.fixSpacing, RegExp.replace. cbn [RegExp.replaceFrom].
  now rewrite execAt_blankLines_other.
Qed.

Lemma fixSpacing_newline (s : jsstring) :
  afterLastNewline s = None ->
  Markdown.fixSpacing (10%N :: s) = 10%N :: Markdown.fixSpacing s.
Proof.
  intros Hs. unfold Markdown.fixSpacing, RegExp.replace. cbn [RegExp.replaceFrom].
  now rewrite execAt_blankLines_newline, Hs.
Qed.

Lemma fixSpacing_blank_lines (s rest : jsstring) :
  afterLastNewline s = Some rest ->
  Markdown.fixSpacing (10%N :: s) = 10%N :: 10%N :: Markdown.fixSpacing rest.
Proof.
  intros Hs. unfold Markdown.fixSpacing, RegExp.replace. cbn [RegExp.replaceFrom].
  rewrite execAt_blankLines_newline, Hs. cbn [option_map].
  destruct (afterLastNewline_some s rest Hs) as ((pre & -> & _) & _).
  assert (length (10%N :: pre ++ 10%N :: rest) - length rest = S (S (length pre))) as ->.
  { cbn [length]. rewrite length_app. cbn [length]. lia. }
  change (Markdown.template 0 (nl ++ nl) ?m ?c) with [10%N; 10%N]. cbn [app]. do 2 f_equal.
  rewrite replaceFrom_skip by (rewrite length_app; cbn [length]; lia).
  replace (S (length pre)) with (length (pre ++ [10%N]))
    by (rewrite length_app; cbn [length]; lia).
  replace (pre ++ 10%N :: rest) with ((pre ++ [10%N]) ++ rest)
    by (now rewrite <- app_assoc).
  now rewrite skipn_app, skipn_all, Nat.sub_diag.
Qed.

Lemma newline_is_space (c : N) : isWhiteSpace c = false -> c <> 10%N.
Proof. intros H ->. discriminate. Qed.

(** White space without a line feed at the start stays so. *)
Lemma fixSpacing_no_newline_ahead (s : jsstring) :
  afterLastNewline s = None -> afterLastNewline (Markdown.fixSpacing s) = None.
Proof.
  induction s as [|c s IH]; [reflexivity|]. cbn [afterLastNewline].
  destruct (isWhiteSpace c) eqn:Hc.
  - destruct (afterLastNewline s) eqn:E; [discriminate|].
    destruct (N.eqb_spec c 10) as [->|Hn]; [discriminate|]. intros _.
    rewrite fixSpacing_other by exact Hn. cbn [afterLastNewline].
    rewrite Hc, (IH eq_refl). apply N.eqb_neq in Hn. now rewrite Hn.
  - intros _. rewrite fixSpacing_other by (now apply newline_is_space).
    cbn [afterLastNewline]. now rewrite Hc.
Qed.

Lemma fixSpacing_idempotent_upto (n : nat) :
  forall s, length s <= n ->
            Markdown.fixSpacing (Markdown.fixSpacing s) = Markdown.fixSpacing s.
Proof.
  induction n as [|n IH]; intros s Hn.
  - destruct s; [reflexivity|simpl in Hn; lia].
  - destruct s as [|c s]; [reflexivity|]. simpl in Hn.
    destruct (N.eqb_spec c 10) as [->|Hc].
    + destruct (afterLastNewline s) as [rest|] eqn:E.
      * rewrite (fixSpacing_blank_lines s rest E).
        destruct (afterLastNewline_some s rest E) as ((pre & Hs & _) & Hrest).
        assert (afterLastNewline (10%N :: Markdown.fixSpacing rest)
                = Some (Markdown.fixSpacing rest)) as E'.
        { cbn [afterLastNewline]. cbn.
          now rewrite (fixSpacing_no_newline_ahead rest Hrest). }
        rewrite (fixSpacing_blank_lines _ _ E'). do 2 f_equal. apply IH.
        rewrite Hs, length_app in Hn. cbn [length] in Hn. lia.
      * rewrite (fixSpacing_newline s E).
        rewrite fixSpacing_newline by (now apply fixSpacing_no_newline_ahead).
        f_equal. apply IH. lia.
    + rewrite !fixSpacing_other by exact Hc. f_equal. apply IH. lia.
Qed.

Lemma fixSpacing_idempotent (s : jsstring) :
  Markdown.fixSpacing (Markdown.fixSpacing s) = Markdown.fixSpacing s.
Proof. eapply fixSpacing_idempotent_upto. apply le_n. Qed.

Lemma fixed_trimStart (u : jsstring) :
  Markdown.fixSpacing u = u -> Markdown.fixSpacing (trimStart u) = trimStart u.
Proof.
  induction u as [|c u IH]; [auto|]. cbn [trimStart].
  destruct (isWhiteSpace c) eqn:Hc; [|auto]. intros Hfix. apply IH.
  destruct (N.eqb_spec c 10) as [->|Hn].
  - destruct (afterLastNewline u) as [rest|] eqn:E.
    + rewrite (fixSpacing_blank_lines u rest E) in Hfix. injection Hfix as Hu.
      destruct (afterLastNewline_some u rest E) as (_ & Hrest).
      rewrite <- Hu.
      rewrite fixSpacing_newline by (now apply fixSpacing_no_newline_ahead).
      f_equal. apply fixSpacing_idempotent.
    + rewrite fixSpacing_newline in Hfix by exact E. now injection Hfix.
  - rewrite fixSpacing_other in Hfix by exact Hn. now injection Hfix.
Qed.

Lemma afterLastNewline_app (x b : jsstring) (d : N) :
  isWhiteSpace d = false ->
  afterLastNewline (x ++ d :: b) = option_map (fun r => r ++ d :: b) (afterLastNewline x).
Proof.
  intros Hd. induction x as [|c x IH]; cbn [app afterLastNewline].
  - now rewrite Hd.
  - destruct (isWhiteSpace c); [|reflexivity]. rewrite IH.
    destruct (afterLastNewline x); [reflexivity|]. cbn [option_map].
    destruct (c =? 10)%N; reflexivity.
Qed.

(** A character that is not white space keeps what [fixSpacing] does before
    it and after it apart. *)
Lemma fixSpacing_split_upto (n : nat) :
  forall a d b,
    length a <= n -> isWhiteSpace d = false ->
    Markdown.fixSpacing (a ++ d :: b)
    = Markdown.fixSpacing a ++ d :: Markdown.fixSpacing b.
Proof.
  induction n as [|n IH]; intros a d b Hn Hd.
  - destruct a; [|simpl in Hn; lia]. cbn [app].
    now rewrite fixSpacing_other by (now apply newline_is_space).
  - destruct a as [|c a].
    { cbn [app]. now rewrite fixSpacing_other by (now apply newline_is_space). }
    simpl in Hn. cbn [app].
    destruct (N.eqb_spec c 10) as [->|Hc].
    + destruct (afterLastNewline a) as [rest|] eqn:E.
      * assert (afterLastNewline (a ++ d :: b) = Some (rest ++ d :: b)) as E'.
        { now rewrite afterLastNewline_app, E. }
        rewrite (fixSpacing_blank_lines _ _ E'), (fixSpacing_blank_lines _ _ E).
        cbn [app]. do 2 f_equal. apply IH; [|exact Hd].
        destruct (afterLastNewline_some a rest E) as ((pre & -> & _) & _).
        rewrite length_app in Hn. cbn [length] in Hn. lia.
      * assert (afterLastNewline (a ++ d :: b) = None) as E'.
        { now rewrite afterLastNewline_app, E. }
        rewrite (fixSpacing_newline _ E'), (fixSpacing_newline _ E).
        cbn [app]. f_equal. apply IH; [lia|exact Hd].
    + rewrite !fixSpacing_other by exact Hc. cbn [app]. f_equal.
      apply IH; [lia|exact Hd].
Qed.

Lemma fixSpacing_split (a b : jsstring) (d : N) :
  isWhiteSpace d = false ->
  Markdown.fixSpacing (a ++ d :: b) = Markdown.fixSpacing a ++ d :: Markdown.fixSpacing b.
Proof. apply (fixSpacing_split_upto (length a)). apply le_n. Qed.

Lemma blank_cons (c : N) (s : jsstring) :
  blank (c :: s) <-> isWhiteSpace c = true /\ blank s.
Proof. unfold blank. cbn [forallb]. apply andb_true_iff. Qed.

Lemma blank_suffix (a b : jsstring) : blank (a ++ b) -> blank b.
Proof. unfold blank. rewrite forallb_app, andb_true_iff. tauto. Qed.

Lemma fixSpacing_blank_upto (n : nat) :
  forall w, length w <= n -> blank w -> blank (Markdown.fixSpacing w).
Proof.
  induction n as [|n IH]; intros w Hn Hw.
  - destruct w; [reflexivity|simpl in Hn; lia].
  - destruct w as [|c w]; [reflexivity|]. simpl in Hn.
    apply blank_cons in Hw as [Hc Hw].
    destruct (N.eqb_spec c 10) as [->|Hn10].
    + destruct (afterLastNewline w) as [rest|] eqn:E.
      * rewrite (fixSpacing_blank_lines w rest E).
        destruct (afterLastNewline_some w rest E) as ((pre & Hs & _) & _).
        apply blank_cons. split; [reflexivity|]. apply blank_cons. split; [reflexivity|].
        apply IH.
        -- rewrite Hs, length_app in Hn. cbn [length] in Hn. lia.
        -- rewrite Hs in Hw. apply blank_suffix in Hw. now apply blank_cons in Hw.
      * rewrite (fixSpacing_newline w E). apply blank_cons. split; [reflexivity|].
        apply IH; [lia|exact Hw].
    + rewrite fixSpacing_other by exact Hn10. apply blank_cons. split; [exact Hc|].
      apply IH; [lia|exact Hw].
Qed.

Lemma blank_rev (w : jsstring) : blank w -> blank (rev w).
Proof.
  unfold blank. rewrite !forallb_forall. intros H x Hx. apply H. now apply in_rev.
Qed.

(** Where the first character that is not white space stands. *)
Lemma first_word_unique (p p' y y' : jsstring) (d d' : N) :
  blank p -> blank p' -> isWhiteSpace d = false -> isWhiteSpace d' = false ->
  p ++ d :: y = p' ++ d' :: y' -> p = p' /\ d = d' /\ y = y'.
Proof.
  revert p'. induction p as [|c p IH]; intros [|c' p'] Hp Hp' Hd Hd'; cbn [app].
  - intros [= -> ->]. auto.
  - intros [= -> _]. apply blank_cons in Hp' as [Hc _]. congruence.
  - intros [= -> _]. apply blank_cons in Hp as [Hc _]. congruence.
  - intros [= -> H]. apply blank_cons in Hp as [_ Hp]. apply blank_cons in Hp' as [_ Hp'].
    destruct (IH p' Hp Hp' Hd Hd' H) as (-> & -> & ->). auto.
Qed.

Lemma last_word_unique (x x' w w' : jsstring) (d d' : N) :
  blank w -> blank w' -> isWhiteSpace d = false -> isWhiteSpace d' = false ->
  x ++ d :: w = x' ++ d' :: w' -> x = x' /\ w = w'.
Proof.
  intros Hw Hw' Hd Hd' H. apply (f_equal (@rev N)) in H.
  rewrite !rev_app_distr in H. cbn [rev] in H. rewrite <- !app_assoc in H. cbn [app] in H.
  apply first_word_unique in H as (Hr & _ & Hx); auto using blank_rev.
  split.
  - now rewrite <- (rev_involutive x), Hx, rev_involutive.
  - now rewrite <- (rev_involutive w), Hr, rev_involutive.
Qed.

Lemma trimEnd_parts (u : jsstring) :
  exists q, u = trimEnd u ++ q /\ blank q /\
            (trimEnd u = [] \/ exists a d, trimEnd u = a ++ [d] /\ isWhiteSpace d = false).
Proof.
  unfold trimEnd. destruct (trimStart_blank (rev u)) as (p & Hp & Hblank).
  exists (rev p). split; [|split].
  - rewrite <- rev_app_distr, <- Hp. now rewrite rev_involutive.
  - now apply blank_rev.
  - destruct (trimStart (rev u)) as [|d t] eqn:E; [now left|].
    right. exists (rev t), d. split; [reflexivity|]. now apply (trimStart_head (rev u) d t).
Qed.

Lemma fixed_trimEnd (u : jsstring) :
  Markdown.fixSpacing u = u -> Markdown.fixSpacing (trimEnd u) = trimEnd u.
Proof.
  intros Hfix. destruct (trimEnd_parts u) as (q & Hu & Hq & [->|(a & d & Ha & Hd)]).
  - reflexivity.
  - rewrite Ha in Hu. rewrite Ha. rewrite <- app_assoc in Hu. cbn [app] in Hu.
    rewrite Hu in Hfix. rewrite fixSpacing_split in Hfix by exact Hd.
    apply last_word_unique in Hfix as [Hfa _]; auto.
    2:{ eapply fixSpacing_blank_upto; [apply le_n|exact Hq]. }
    change (a ++ [d]) with (a ++ d :: []). rewrite fixSpacing_split by exact Hd.
    now rewrite Hfa.
Qed.

Lemma fixSpacing_after_trim (s : jsstring) :
  Markdown.fixSpacing (trim (Markdown.fixSpacing s)) = trim (Markdown.fixSpacing s).
Proof.
  unfold trim. apply fixed_trimEnd, fixed_trimStart, fixSpacing_idempotent.
Qed.

Section NeedsATag.
Import RegExp.

Lemma repeatMatcher_prefix (m : Matcher) greedy groups :
  consumesPrefix m -> forall fuel, consumesPrefix (repeatMatcher m greedy groups fuel).
Proof.
  intros Hm fuel. induction fuel as [|fuel IH]; intros s caps k x.
  - cbn [repeatMatcher]. destruct greedy.
    + intros H. now exists [], s, caps.
    + destruct (k s caps) eqn:E; [|discriminate].
      intros [= <-]. now exists [], s, caps.
  - cbn [repeatMatcher].
    assert (forall y,
               m s (clear groups caps)
                 (fun s' caps' =>
                    if Nat.ltb (length s') (length s)
                    then repeatMatcher m greedy groups fuel s' caps' k
                    else None) = Some y ->
               exists pre s' caps', s = pre ++ s' /\ k s' caps' = Some y)
      as Hagain.
    { intros y Hy. apply Hm in Hy as (pre & s' & caps' & -> & Hy).
      destruct (Nat.ltb _ _); [|discriminate].
      apply IH in Hy as (pre' & s'' & caps'' & -> & Hy).
      exists (pre ++ pre'), s'', caps''. now rewrite <- app_assoc. }
    destruct greedy.
    + destruct (m s (clear groups caps) _) as [y|] eqn:E.
      * intros [= <-]. now apply Hagain.
      * intros H. now exists [], s, caps.
    + destruct (k s caps) as [y|] eqn:E.
      * intros [= <-]. now exists [], s, caps.
      * apply Hagain.
Qed.

Lemma compile_prefix (ic : bool) (r : Re) : consumesPrefix (compile ic r).
Proof.
  induction r as [c| |neg ranges| |a IHa b IHb|a IHa b IHb|g a IHa|n a IHa|n|];
    intros s caps k x; cbn [compile].
  - destruct s as [|y s]; [discriminate|].
    destruct (_ =? _)%N; [|discriminate]. intros H. now exists [y], s, caps.
  - destruct s as [|y s]; [discriminate|].
    destruct (GoogleSearch.isLineTerminator y); [discriminate|].
    intros H. now exists [y], s, caps.
  - destruct s as [|y s]; [discriminate|].
    destruct (xorb _ _); [|discriminate]. intros H. now exists [y], s, caps.
  - destruct s as [|y s]; [discriminate|].
    destruct (isWhiteSpace y); [|discriminate]. intros H. now exists [y], s, caps.
  - intros H. apply IHa in H as (pre & s' & caps' & -> & H).
    apply IHb in H as (pre' & s'' & caps'' & -> & H).
    exists (pre ++ pre'), s'', caps''. now rewrite <- app_assoc.
  - destruct (compile ic a s caps k) as [y|] eqn:E.
    + intros [= <-]. now apply IHa in E.
    + intros H. now apply IHb in H.
  - apply repeatMatcher_prefix. exact IHa.
  - intros H. apply IHa in H as (pre & s' & caps' & -> & H).
    now exists pre, s', ((n, firstn (length (pre ++ s') - length s') (pre ++ s')) :: caps').
  - destruct (capture n caps) as [t|].
    + destruct (startsWithCanon ic s t); [|discriminate]. intros H.
      exists (firstn (length t) s), (skipn (length t) s), caps.
      now rewrite firstn_skipn.
    + intros H. now exists [], s, caps.
  - intros H. now exists [], s, caps.
Qed.

Lemma compile_last (ic : bool) (c : N) (r : Re) :
  lastChr r = Some c ->
  forall s caps k x,
    compile ic r s caps k = Some x ->
    exists pre y s' caps',
      s = pre ++ y :: s' /\ canonicalize ic y = canonicalize ic c /\ k s' caps' = Some x.
Proof.
  induction r as [c0| | | |a IHa b IHb| | | | |]; cbn [lastChr]; try discriminate.
  - intros [= ->] s caps k x. cbn [compile].
    destruct s as [|y s]; [discriminate|].
    destruct (N.eqb_spec (canonicalize ic y) (canonicalize ic c)) as [E|_]; [|discriminate].
    intros H. now exists [], y, s, caps.
  - intros Hb s caps k x. cbn [compile]. intros H.
    apply compile_prefix in H as (pre & s' & caps' & -> & H).
    apply (IHb Hb) in H as (pre' & y & s'' & caps'' & -> & Hy & H).
    exists (pre ++ pre'), y, s'', caps''. now rewrite <- app_assoc.
Qed.

Lemma canonicalize_gt (ic : bool) (x : N) : canonicalize ic x = 62%N -> x = 62%N.
Proof.
  unfold canonicalize, toUpper. destruct ic; [|auto].
  destruct ((97 <=? x) && (x <=? 122))%N eqn:E; [|auto].
  apply andb_true_iff in E as [H1 H2]. apply N.leb_le in H1, H2. lia.
Qed.

(** A pattern whose matches are tags matches only where a tag is. *)
Lemma match_has_tag (ic : bool) (r : Re) (s : jsstring) st :
  matchesATag r = true -> execAt ic r s = Some st -> hasTag s = true.
Proof.
  unfold matchesATag. rewrite andb_true_iff. intros [Hfirst Hlast] Hexec.
  destruct (lastChr r) as [c|] eqn:El; [|discriminate]. apply N.eqb_eq in Hlast. subst c.
  unfold execAt in Hexec.
  destruct s as [|x s].
  { now rewrite (compile_first ic 60 r Hfirst) in Hexec. }
  destruct (N.eq_dec (canonicalize ic x) (canonicalize ic 60)) as [Hx|Hx].
  2:{ now rewrite (compile_first ic 60 r Hfirst) in Hexec. }
  assert (canonicalize ic 60 = 60%N) as E60 by (now destruct ic).
  assert (canonicalize ic 62 = 62%N) as E62 by (now destruct ic).
  rewrite E60 in Hx. apply canonicalize_lt in Hx. subst x.
  apply (compile_last ic 62 r El) in Hexec as (pre & y & s' & caps' & Hs & Hy & _).
  rewrite E62 in Hy. apply canonicalize_gt in Hy. subst y.
  destruct pre as [|p pre]; [discriminate|]. injection Hs as <- ->.
  cbn [hasTag]. unfold lacks. rewrite forallb_app. cbn.
  now rewrite andb_false_r.
Qed.

Lemma no_tag_no_match (ic : bool) (r : Re) f (s : jsstring) :
  matchesATag r = true -> hasTag s = false -> replace ic r f s = s.
Proof.
  intros Hr. unfold replace. induction s as [|c s IH]; intros Hs.
  - cbn [replaceFrom]. destruct (execAt ic r []) as [st|] eqn:E; [|reflexivity].
    now rewrite (match_has_tag ic r [] st Hr E) in Hs.
  - cbn [replaceFrom]. destruct (execAt ic r (c :: s)) as [st|] eqn:E.
    + now rewrite (match_has_tag ic r (c :: s) st Hr E) in Hs.
    + rewrite IH; [reflexivity|]. cbn [hasTag] in Hs. now apply orb_false_iff in Hs as [_ Hs].
Qed.

End NeedsATag.

Lemma tagless_steps (s : jsstring) :
  hasTag s = false ->
  Markdown.stripTags (Markdown.paragraphs (Markdown.lists (Markdown.links
    (Markdown.italics (Markdown.bolds (Markdown.headers s)))))) = s.
Proof.
  intros Hs.
  unfold Markdown.headers. rewrite no_tag_no_match by (reflexivity || assumption).
  unfold Markdown.bolds. rewrite no_tag_no_match by (reflexivity || assumption).
  unfold Markdown.italics. rewrite no_tag_no_match by (reflexivity || assumption).
  unfold Markdown.links. rewrite no_tag_no_match by (reflexivity || assumption).
  unfold Markdown.lists. rewrite no_tag_no_match by (reflexivity || assumption).
  unfold Markdown.paragraphs. rewrite no_tag_no_match by (reflexivity || assumption).
  unfold Markdown.stripTags. now rewrite no_tag_no_match by (reflexivity || assumption).
Qed.

(** A text without a complete tag has nothing to convert: [htmlToMarkdown]
    only fixes its spacing and trims it, and when the text has no line feed
    either it is returned trimmed.  A [<] or a [>] on its own stays. *)
Theorem plain_text_is_trimmed :
  forall s : jsstring,
  hasTag s = false ->
  htmlToMarkdown s = trim (Markdown.fixSpacing s) /\
  (lacks 10 s = true -> htmlToMarkdown s = trim s).
Proof.
  intros s Hs.
  assert (htmlToMarkdown s = trim (Markdown.fixSpacing s)) as H.
  { unfold htmlToMarkdown. now rewrite tagless_steps. }
  split; [exact H|]. intros Hl. now rewrite H, fixSpacing_one_line.
Qed.

Lemma plain_text_is_trimmed_witness :
  htmlToMarkdown (lit "  3 > 2 and 1 < 2  ") = lit "3 > 2 and 1 < 2".
Proof.
  exact (proj2 (plain_text_is_trimmed (lit "  3 > 2 and 1 < 2  ") eq_refl) eq_refl).
Defined.

(** Converting twice is converting once: what [htmlToMarkdown] returns has
    no tag left, its spacing is fixed and it is trimmed, so a second
    conversion returns it as it is. *)
Theorem htmlToMarkdown_is_idempotent :
  forall html : jsstring,
  htmlToMarkdown (htmlToMarkdown html) = htmlToMarkdown html.
Proof.
  intros html.
  assert (htmlToMarkdown (htmlToMarkdown html)
          = trim (Markdown.fixSpacing (htmlToMarkdown html))) as ->.
  { unfold htmlToMarkdown at 1. rewrite tagless_steps; [reflexivity|].
    apply htmlToMarkdown_has_no_tag. }
  unfold htmlToMarkdown. now rewrite fixSpacing_after_trim, trim_idempotent.
Qed.

(** ** The conversions of [htmlToMarkdown] *)

Section ElementFacts.
Import RegExp.

Lemma bold_container : Markdown.bold = container (lit "strong") (lit "b") false.
Proof. reflexivity. Qed.

Lemma italic_container : Markdown.italic = container (lit "em") (lit "i") false.
Proof. reflexivity. Qed.

Lemma listBlock_container : Markdown.listBlock = container (lit "ul") (lit "ol") true.
Proof. reflexivity. Qed.

Lemma item_simple : Markdown.item = simple (lit "li").
Proof. reflexivity. Qed.

Lemma paragraph_simple : Markdown.paragraph = simple (lit "p").
Proof. reflexivity. Qed.

Lemma openers_steps :
  openers Markdown.heading = Some [104%N] /\
  openers Markdown.bold = Some [115%N; 98%N] /\
  openers Markdown.italic = Some [101%N; 105%N] /\
  openers Markdown.link = Some [97%N] /\
  openers Markdown.listBlock = Some [117%N; 111%N] /\
  openers Markdown.paragraph = Some [112%N].
Proof. repeat split; reflexivity. Qed.

Lemma not_lt_canon (c : N) : c <> 60%N -> canonicalize true c <> canonicalize true 60.
Proof.
  intros Hc E. apply Hc. change (canonicalize true 60) with 60%N in E.
  now apply canonicalize_lt in E.
Qed.

Lemma afterLt_starts (r r' : Re) : afterLt r = Some r' -> startsWithChr 60 r = true.
Proof.
  revert r'. induction r as [x| | | |a IHa b IHb| | | | |]; intros r'; cbn [afterLt startsWithChr];
    try discriminate.
  - destruct (x =? 60)%N; [reflexivity|discriminate].
  - destruct (afterLt a) as [a'|]; [|discriminate]. intros _. now apply (IHa a').
Qed.

Lemma compile_afterLt (r r' : Re) :
  afterLt r = Some r' ->
  forall s caps k, compile true r (60%N :: s) caps k = compile true r' s caps k.
Proof.
  revert r'. induction r as [x| | | |a IHa b IHb| | | | |]; intros r'; cbn [afterLt];
    try discriminate.
  - destruct (N.eqb_spec x 60) as [->|]; [|discriminate]. intros [= <-] s caps k. reflexivity.
  - destruct (afterLt a) as [a'|]; [|discriminate]. intros E s caps k.
    cbn [compile]. rewrite (IHa a' eq_refl).
    destruct a'; injection E as <-; reflexivity.
Qed.

Lemma notOpenedBy_app (x y : list N) (d : N) :
  notOpenedBy (x ++ y) d = notOpenedBy x d && notOpenedBy y d.
Proof. apply forallb_app. Qed.

Lemma compile_firstChrs (r : Re) :
  forall cs, firstChrs r = Some cs ->
  forall s caps k,
    match s with [] => True | d :: _ => notOpenedBy cs d = true end ->
    compile true r s caps k = None.
Proof.
  induction r as [x| | | |a IHa b IHb|a IHa b IHb| |n a IHa| |]; intros cs; cbn [firstChrs];
    try discriminate.
  - intros [= <-] s caps k Hs. cbn [compile]. destruct s as [|d s]; [reflexivity|].
    cbn [notOpenedBy forallb] in Hs. rewrite andb_true_r in Hs.
    apply negb_true_iff in Hs. now rewrite Hs.
  - intros E s caps k Hs. cbn [compile]. now apply (IHa cs).
  - destruct (firstChrs a) as [x|]; [|discriminate].
    destruct (firstChrs b) as [y|]; [|discriminate].
    intros [= <-] s caps k Hs. cbn [compile].
    assert (match s with [] => True | d :: _ => notOpenedBy x d = true end /\
            match s with [] => True | d :: _ => notOpenedBy y d = true end) as [Hx Hy].
    { destruct s as [|d s]; [split; exact I|].
      rewrite notOpenedBy_app in Hs. now apply andb_true_iff in Hs. }
    now rewrite (IHa x eq_refl s caps k Hx), (IHb y eq_refl s caps k Hy).
  - intros E s caps k Hs. cbn [compile]. now apply (IHa cs).
Qed.

Lemma replaceFrom_miss (ic : bool) (r : Re) f (c : N) (s : jsstring) :
  execAt ic r (c :: s) = None ->
  replaceFrom ic r f (c :: s) 0 = c :: replaceFrom ic r f s 0.
Proof. intros H. cbn [replaceFrom]. now rewrite H. Qed.

(** A pattern that starts with [<] and then one of [cs] has no match in a
    text where no [<] is followed by one of [cs]. *)
Lemma replace_unopened (r : Re) f (cs : list N) (s : jsstring) :
  openers r = Some cs -> unopened cs s = true -> replace true r f s = s.
Proof.
  unfold openers, replace. destruct (afterLt r) as [r'|] eqn:Er; [|discriminate].
  intros Hcs. induction s as [|c s IH]; intros Hs.
  - cbn [replaceFrom]. unfold execAt.
    now rewrite (compile_first true 60 r (afterLt_starts r r' Er)).
  - cbn [unopened] in Hs. apply andb_true_iff in Hs as [Hc Hs].
    rewrite replaceFrom_miss; [now rewrite (IH Hs)|].
    unfold execAt. destruct (N.eqb_spec c 60) as [->|Hne].
    + rewrite (compile_afterLt r r' Er). apply (compile_firstChrs r' cs Hcs).
      destruct s; [exact I|exact Hc].
    + apply (compile_first true 60 r (afterLt_starts r r' Er)). now apply not_lt_canon.
Qed.

Lemma replaceFrom_pass (ic : bool) (r : Re) f (pre s : jsstring) :
  startsWithChr 60 r = true -> lacks 60 pre = true ->
  replaceFrom ic r f (pre ++ s) 0 = pre ++ replaceFrom ic r f s 0.
Proof.
  intros Hr. induction pre as [|c pre IH]; intros Hp; [reflexivity|].
  apply lacks_cons in Hp as [Hc Hp].
  cbn [app replaceFrom]. unfold execAt. rewrite (compile_first ic 60 r Hr).
  - now rewrite IH.
  - destruct ic; [now apply not_lt_canon|exact Hc].
Qed.

Lemma replaceFrom_hit (ic : bool) (r : Re) f (m rest : jsstring) caps :
  m <> [] ->
  execAt ic r (m ++ rest) = Some (rest, caps) ->
  replaceFrom ic r f (m ++ rest) 0 = f m caps ++ replaceFrom ic r f rest 0.
Proof.
  intros Hm H. destruct m as [|c m]; [congruence|].
  cbn [app] in *. cbn [replaceFrom]. rewrite H.
  assert (length (c :: m ++ rest) - length rest = S (length m)) as ->
      by (cbn [length]; rewrite length_app; lia).
  cbn [firstn]. rewrite firstn_app, Nat.sub_diag, firstn_all. cbn [firstn].
  rewrite app_nil_r. f_equal.
  rewrite replaceFrom_skip by (rewrite length_app; lia).
  now rewrite skipn_app, skipn_all, Nat.sub_diag.
Qed.

Lemma lacks_lt_canon (ic : bool) (s : jsstring) :
  lacks 60 s = true ->
  Forall (fun x => canonicalize ic x <> canonicalize ic 60) s.
Proof.
  intros H. apply lacks_Forall in H. eapply Forall_impl; [|exact H].
  intros c Hc. destruct ic; [now apply not_lt_canon|exact Hc].
Qed.

(** One element of a text without another [<] is replaced. *)
Lemma replace_one (r : Re) f (pre m post : jsstring) caps :
  startsWithChr 60 r = true ->
  m <> [] ->
  execAt true r (m ++ post) = Some (post, caps) ->
  lacks 60 pre = true -> lacks 60 post = true ->
  replace true r f (pre ++ m ++ post) = pre ++ f m caps ++ post.
Proof.
  intros Hr Hm Hex Hpre Hpost. unfold replace.
  rewrite replaceFrom_pass by assumption. f_equal.
  rewrite (replaceFrom_hit true r f m post caps Hm Hex). f_equal.
  apply (replaceFrom_untouched true 60 r f post Hr). now apply lacks_lt_canon.
Qed.

(** ** Matching an element *)

(** [(.*?)] before a continuation that fails inside [x] and succeeds after
    it: the group takes [x]. *)
Lemma lazy_dot_takes (ic : bool) (x rest : jsstring) (k : Continuation) (caps : Captures) st :
  oneLine x = true ->
  (forall x1 c x2, x = x1 ++ c :: x2 -> k (c :: x2 ++ rest) caps = None) ->
  k rest caps = Some st ->
  forall fuel,
    length (x ++ rest) < fuel ->
    repeatMatcher (compile ic Dot) false [] fuel (x ++ rest) caps k = Some st.
Proof.
  intros Hx Hk Hend. induction x as [|c x IH]; intros fuel Hf.
  - destruct fuel; cbn [app repeatMatcher]; now rewrite Hend.
  - destruct fuel as [|fuel]; [simpl in Hf; lia|].
    apply oneLine_cons in Hx as [Hc Hx].
    cbn [app repeatMatcher]. rewrite (Hk [] c x eq_refl), clear_nil.
    cbn [compile]. rewrite Hc.
    assert (Nat.ltb (length (x ++ rest)) (length (c :: x ++ rest)) = true) as ->.
    { apply Nat.ltb_lt. simpl. lia. }
    apply IH; [exact Hx| |simpl in Hf; lia].
    intros x1 d x2 E. apply (Hk (c :: x1) d x2). now rewrite E.
Qed.

(** [[^c]] under the flag [i], for a [c] that is no letter. *)
Lemma notChar_ic (c x : N) : (c < 65)%N -> inClass true [(c, c)] x = (x =? c)%N.
Proof.
  intros Hc. unfold inClass, inRanges, toUpper, toLower. cbn [existsb fst snd andb orb].
  rewrite !orb_false_r.
  destruct (N.eqb_spec x c) as [->|Hx].
  - now rewrite N.leb_refl.
  - destruct (97 <=? x)%N eqn:E1, (x <=? 122)%N eqn:E2, (65 <=? x)%N eqn:E3, (x <=? 90)%N eqn:E4;
      cbn [andb];
      repeat match goal with
        | H : (_ <=? _)%N = true |- _ => apply N.leb_le in H
        | H : (_ <=? _)%N = false |- _ => apply N.leb_gt in H
        end;
      repeat match goal with
        | |- context [(?a <=? ?b)%N] =>
            let E := fresh in destruct (N.leb_spec a b) as [E|E]
        end; cbn; try reflexivity; lia.
Qed.

(** One step of [[^c]*]. *)
Lemma greedy_step (c d : N) (s : jsstring) (k : Continuation) (caps : Captures) (fuel : nat) :
  (c < 65)%N -> d <> c ->
  repeatMatcher (compile true (notChar c)) true [] (S fuel) (d :: s) caps k
  = match repeatMatcher (compile true (notChar c)) true [] fuel s caps k with
    | Some st => Some st
    | None => k (d :: s) caps
    end.
Proof.
  intros Hc Hd. cbn [repeatMatcher]. rewrite clear_nil. unfold notChar at 1. cbn [compile].
  rewrite (notChar_ic c d Hc). apply N.eqb_neq in Hd. rewrite Hd. cbn [xorb negb].
  assert (Nat.ltb (length s) (length (d :: s)) = true) as ->; [|reflexivity].
  apply Nat.ltb_lt. simpl. lia.
Qed.

Lemma greedy_stop (c : N) (s : jsstring) (k : Continuation) (caps : Captures) (fuel : nat) :
  (c < 65)%N ->
  repeatMatcher (compile true (notChar c)) true [] fuel (c :: s) caps k = k (c :: s) caps.
Proof.
  intros Hc. destruct fuel as [|fuel]; [reflexivity|].
  cbn [repeatMatcher]. rewrite clear_nil. unfold notChar at 1. cbn [compile].
  rewrite (notChar_ic c c Hc), N.eqb_refl. reflexivity.
Qed.

(** [[^c]*] before a continuation that succeeds at the first [c]. *)
Lemma greedy_until (c : N) (a rest : jsstring) (k : Continuation) (caps : Captures) st :
  (c < 65)%N ->
  lacks c a = true ->
  k (c :: rest) caps = Some st ->
  forall fuel,
    length (a ++ c :: rest) < fuel ->
    repeatMatcher (compile true (notChar c)) true [] fuel (a ++ c :: rest) caps k = Some st.
Proof.
  intros Hc Ha Hk. induction a as [|d a IH]; intros fuel Hf.
  - cbn [app]. now rewrite greedy_stop.
  - destruct fuel as [|fuel]; [simpl in Hf; lia|].
    apply lacks_cons in Ha as [Hd Ha]. cbn [app].
    rewrite greedy_step by assumption.
    rewrite IH; [reflexivity|exact Ha|simpl in Hf; lia].
Qed.

(** [[^c]*] before a continuation that fails everywhere up to the first
    [c]. *)
Lemma greedy_none (c : N) (a rest : jsstring) (k : Continuation) (caps : Captures) :
  (c < 65)%N ->
  lacks c a = true ->
  (forall a1 d a2, a = a1 ++ d :: a2 -> k (d :: a2 ++ c :: rest) caps = None) ->
  k (c :: rest) caps = None ->
  forall fuel,
    repeatMatcher (compile true (notChar c)) true [] fuel (a ++ c :: rest) caps k = None.
Proof.
  intros Hc Ha Hk Hend. induction a as [|d a IH]; intros fuel.
  - cbn [app]. now rewrite greedy_stop.
  - apply lacks_cons in Ha as [Hd Ha]. cbn [app].
    destruct fuel as [|fuel]; [cbn [repeatMatcher]; apply (Hk [] d a eq_refl)|].
    rewrite greedy_step by assumption.
    rewrite IH; [apply (Hk [] d a eq_refl)|exact Ha|].
    intros a1 e a2 E. apply (Hk (d :: a1) e a2). now rewrite E.
Qed.

(** [[^c]*] takes all it can and gives back down to the last position where
    the continuation succeeds. *)
Lemma greedy_back (c : N) (a1 a rest : jsstring) (k : Continuation) (caps : Captures) st :
  (c < 65)%N ->
  lacks c a1 = true -> lacks c a = true ->
  k (a ++ c :: rest) caps = Some st ->
  (forall p d q, a = p ++ d :: q -> p <> [] -> k (d :: q ++ c :: rest) caps = None) ->
  (a <> [] -> k (c :: rest) caps = None) ->
  forall fuel,
    length (a1 ++ a ++ c :: rest) < fuel ->
    repeatMatcher (compile true (notChar c)) true [] fuel (a1 ++ a ++ c :: rest) caps k
    = Some st.
Proof.
  intros Hc Ha1 Ha Hk Hin Hend. induction a1 as [|d a1 IH]; intros fuel Hf.
  - cbn [app]. destruct a as [|d a].
    + cbn [app] in *. now rewrite greedy_stop.
    + destruct fuel as [|fuel]; [simpl in Hf; lia|].
      apply lacks_cons in Ha as [Hd Ha]. cbn [app] in *.
      rewrite greedy_step by assumption.
      rewrite greedy_none; [exact Hk|exact Hc|exact Ha| |].
      * intros p e q E. apply (Hin (d :: p) e q); [now rewrite E|discriminate].
      * apply Hend. discriminate.
  - destruct fuel as [|fuel]; [simpl in Hf; lia|].
    apply lacks_cons in Ha1 as [Hd Ha1]. cbn [app].
    rewrite greedy_step by assumption.
    rewrite IH; [reflexivity|exact Ha1|simpl in Hf; lia].
Qed.

Lemma foldCase_cons (c a : N) (t A : jsstring) :
  foldCase (c :: t) = foldCase (a :: A) ->
  canonicalize true c = canonicalize true a /\ foldCase t = foldCase A.
Proof. intros E. now injection E. Qed.

Lemma foldCase_app (s t : jsstring) : foldCase (s ++ t) = foldCase s ++ foldCase t.
Proof. apply map_app. Qed.

Lemma foldCase_length (t' t : jsstring) : foldCase t' = foldCase t -> length t' = length t.
Proof.
  intros E. apply (f_equal (@length N)) in E. unfold foldCase in E.
  now rewrite !length_map in E.
Qed.

Lemma foldCase_hd (t A : jsstring) :
  foldCase t = foldCase A -> A <> [] ->
  t <> [] /\ canonicalize true (hd 0%N t) = canonicalize true (hd 0%N A).
Proof.
  intros E HA. destruct A as [|a A]; [congruence|]. destruct t as [|c t]; [discriminate|].
  apply foldCase_cons in E as [Ec _]. split; [discriminate|exact Ec].
Qed.

Lemma foldCase_lacks_lt (t A : jsstring) :
  foldCase t = foldCase A -> lacks 60 A = true -> lacks 60 t = true.
Proof.
  revert A. induction t as [|c t IH]; intros A E HA; [reflexivity|].
  destruct A as [|a A]; [discriminate|]. apply foldCase_cons in E as [Ec Et].
  apply lacks_cons in HA as [Ha HA]. unfold lacks. cbn [forallb].
  fold (lacks 60 t). rewrite (IH A Et HA), andb_true_r.
  apply negb_true_iff, N.eqb_neq. intros ->. apply Ha.
  apply (canonicalize_lt true). now rewrite <- Ec.
Qed.

(** A name is matched in either case. *)
Lemma compile_chars (A : jsstring) :
  A <> [] ->
  forall t s caps k,
    foldCase t = foldCase A -> compile true (chars A) (t ++ s) caps k = k s caps.
Proof.
  induction A as [|a A IH]; [congruence|]. intros _ t s caps k E.
  destruct t as [|c t]; [discriminate|]. apply foldCase_cons in E as [Ec Et].
  destruct A as [|b A].
  - destruct t; [|discriminate]. cbn [chars app compile]. now rewrite Ec, N.eqb_refl.
  - change (chars (a :: b :: A)) with (Cat (Chr a) (chars (b :: A))).
    cbn [app compile]. rewrite Ec, N.eqb_refl. apply IH; [discriminate|exact Et].
Qed.

Lemma chars_first (a : N) (A : jsstring) : startsWithChr a (chars (a :: A)) = true.
Proof. destruct A; cbn; now rewrite N.eqb_refl. Qed.

Lemma startsWithCanon_fold (t' t s : jsstring) :
  foldCase t' = foldCase t -> startsWithCanon true (t' ++ s) t = true.
Proof.
  revert t'. induction t as [|c t IH]; intros t' E; [now destruct (t' ++ s)|].
  destruct t' as [|c' t']; [discriminate|]. apply foldCase_cons in E as [Ec Et].
  cbn [app startsWithCanon]. now rewrite Ec, N.eqb_refl, IH.
Qed.

Lemma firstn_sub_app (x rest : jsstring) :
  firstn (length (x ++ rest) - length rest) (x ++ rest) = x.
Proof.
  rewrite length_app. replace (length x + length rest - length rest) with (length x) by lia.
  now rewrite firstn_app, Nat.sub_diag, firstn_all, app_nil_r.
Qed.

(** A closing tag is not found where no [<] stands. *)
Lemma closing_not_inside (r : Re) (x rest : jsstring) (k : Continuation) (caps : Captures) :
  startsWithChr 60 r = true -> lacks 60 x = true ->
  forall x1 c x2, x = x1 ++ c :: x2 -> compile true r (c :: x2 ++ rest) caps k = None.
Proof.
  intros Hr Hlt x1 c x2 E. apply (compile_first true 60 r Hr).
  apply lacks_Forall in Hlt. rewrite E in Hlt. apply Forall_app in Hlt as [_ Hlt].
  inversion Hlt as [|? ? Hc _]; subst. now apply not_lt_canon.
Qed.

(** One of two names, in either case. *)
Lemma compile_names (A B t s : jsstring) caps k :
  foldCase t = foldCase A \/ foldCase t = foldCase B ->
  A <> [] -> B <> [] ->
  canonicalize true (hd 0%N A) <> canonicalize true (hd 0%N B) ->
  compile true (Alt (chars A) (chars B)) (t ++ s) caps k = k s caps.
Proof.
  intros Ht HA HB Hab. cbn [compile].
  destruct A as [|a A], B as [|b B], t as [|c t]; try congruence;
    try (destruct Ht; discriminate).
  cbn [hd] in Hab. destruct Ht as [E | E].
  - rewrite (compile_chars (a :: A)) by (discriminate || exact E).
    destruct (k s caps) eqn:Ek; [reflexivity|].
    apply (compile_first true b); [apply chars_first|].
    apply foldCase_cons in E as [Ec _]. cbn [app]. congruence.
  - rewrite (compile_first true a); [|apply chars_first|].
    + apply compile_chars; [discriminate|exact E].
    + apply foldCase_cons in E as [Ec _]. cbn [app]. congruence.
Qed.

(** The closing tag of a container: [</], the name of the opening tag in
    either case, [>]. *)
Lemma closing_matches (t t' post : jsstring) (caps : Captures) :
  capture 1 caps = Some t ->
  foldCase t' = foldCase t ->
  compile true (RegExp.seq [str "</"; Backref 1; str ">"])
    (lit "</" ++ t' ++ lit ">" ++ post) caps (fun s' caps' => Some (s', caps'))
  = Some (post, caps).
Proof.
  intros Hcap Ht'.
  change (compile true (RegExp.seq [str "</"; Backref 1; str ">"])
            (lit "</" ++ t' ++ lit ">" ++ post) caps (fun s' caps' => Some (s', caps')))
    with (compile true (Cat (Backref 1) (Chr 62)) (t' ++ 62%N :: post) caps
            (fun s' caps' => Some (s', caps'))).
  cbn [compile]. rewrite Hcap, (startsWithCanon_fold t' t _ Ht').
  rewrite <- (foldCase_length t' t Ht').
  replace (skipn (length t') (t' ++ 62%N :: post)) with (62%N :: post)
    by (now rewrite skipn_app, skipn_all, Nat.sub_diag).
  reflexivity.
Qed.

(** The closing tag of a container is not found where the text does not
    start with [</] and the first letter of the name. *)
Lemma closing_fails (t s : jsstring) (caps : Captures) k :
  capture 1 caps = Some t -> t <> [] ->
  startsWithCanon true s [60%N; 47%N; hd 0%N t] = false ->
  compile true (RegExp.seq [str "</"; Backref 1; str ">"]) s caps k = None.
Proof.
  intros Hcap Ht Hs. destruct t as [|c t]; [congruence|]. cbn [hd] in Hs.
  change (RegExp.seq [str "</"; Backref 1; str ">"])
    with (Cat (Cat (Chr 60) (Chr 47)) (Cat (Backref 1) (Chr 62))).
  cbn [compile]. destruct s as [|x [|y [|z s]]]; cbn [startsWithCanon] in Hs.
  - reflexivity.
  - now destruct (canonicalize true x =? canonicalize true 60)%N.
  - destruct (canonicalize true x =? canonicalize true 60)%N; [|reflexivity].
    destruct (canonicalize true y =? canonicalize true 47)%N; [|reflexivity].
    now rewrite Hcap.
  - destruct (canonicalize true x =? canonicalize true 60)%N; [|reflexivity].
    destruct (canonicalize true y =? canonicalize true 47)%N; [|reflexivity].
    rewrite Hcap. cbn [startsWithCanon].
    destruct (canonicalize true z =? canonicalize true c)%N; [|reflexivity].
    destruct s; discriminate.
Qed.

(** The pattern of a container at an element of one of its names, whose
    content is on one line and holds no closing tag of that name. *)
Lemma execAt_container (A B : jsstring) (attributes : bool) (t attrs x t' post : jsstring) :
  foldCase t = foldCase A \/ foldCase t = foldCase B ->
  foldCase t' = foldCase t ->
  A <> [] -> B <> [] ->
  canonicalize true (hd 0%N A) <> canonicalize true (hd 0%N B) ->
  (if attributes then lacks 62 attrs = true else attrs = []) ->
  oneLine x = true ->
  (forall x1 c x2,
      x = x1 ++ c :: x2 ->
      startsWithCanon true (c :: x2 ++ lit "</" ++ t' ++ lit ">" ++ post) [60%N; 47%N; hd 0%N t]
      = false) ->
  execAt true (container A B attributes) (element t attrs x t' ++ post)
  = Some (post, [(2, x); (1, t)]).
Proof.
  intros Ht Ht' HA HB Hab Hattrs Hx Hin.
  assert (t <> []) as Hne
    by (destruct Ht as [E|E]; [apply (foldCase_hd t A E HA)|apply (foldCase_hd t B E HB)]).
  unfold execAt, element.
  change (lit "<") with [60%N]. change (lit ">") with [62%N].
  rewrite <- !app_assoc. cbn [app].
  set (closing := RegExp.seq [str "</"; Backref 1; str ">"]).
  set (rest := lit "</" ++ t' ++ 62%N :: post) in *.
  set (accept := fun (s' : jsstring) (caps' : Captures) => Some (s', caps')).
  assert (forall caps,
             capture 1 caps = Some t ->
             compile true (Cat (Chr 62) (Cat (Group 2 (Star false Dot)) closing))
               (62%N :: x ++ rest) caps accept
             = Some (post, (2, x) :: caps)) as Hbody.
  { intros caps Hcap.
    change (compile true (Cat (Chr 62) (Cat (Group 2 (Star false Dot)) closing))
              (62%N :: x ++ rest) caps accept)
      with (repeatMatcher (compile true Dot) false [] (S (length (x ++ rest))) (x ++ rest) caps
              (fun s' caps' =>
                 compile true closing s'
                   ((2, firstn (length (x ++ rest) - length s') (x ++ rest)) :: caps') accept)).
    apply lazy_dot_takes; [exact Hx| | |lia].
    - intros x1 c x2 E. cbv beta. apply (closing_fails t); [exact Hcap|exact Hne|].
      now apply (Hin x1).
    - rewrite (firstn_sub_app x). unfold closing, rest, accept.
      change (62%N :: post) with (lit ">" ++ post).
      apply (closing_matches t t' post); [exact Hcap|exact Ht']. }
  destruct attributes.
  - change (compile true (container A B true) (60%N :: ?s) ?c ?k)
      with (compile true (Alt (chars A) (chars B)) s c
              (fun s' caps' =>
                 compile true
                   (Cat (Star true (notChar 62))
                      (Cat (Chr 62) (Cat (Group 2 (Star false Dot)) closing)))
                   s' ((1, firstn (length s - length s') s) :: caps') k)).
    rewrite compile_names by assumption.
    replace (firstn _ (t ++ attrs ++ 62%N :: x ++ rest)) with t
      by (symmetry; apply (firstn_sub_app t)).
    change (compile true (Cat (Star true (notChar 62)) ?r) ?s ?c ?k)
      with (repeatMatcher (compile true (notChar 62)) true [] (S (length s)) s c
              (fun s' c' => compile true r s' c' k)).
    apply greedy_until; [reflexivity|exact Hattrs| |lia].
    now apply Hbody.
  - subst attrs. cbn [app].
    change (compile true (container A B false) (60%N :: ?s) ?c ?k)
      with (compile true (Alt (chars A) (chars B)) s c
              (fun s' caps' =>
                 compile true (Cat (Chr 62) (Cat (Group 2 (Star false Dot)) closing))
                   s' ((1, firstn (length s - length s') s) :: caps') k)).
    rewrite compile_names by assumption.
    replace (firstn _ (t ++ 62%N :: x ++ rest)) with t
      by (symmetry; apply (firstn_sub_app t)).
    now apply Hbody.
Qed.

(** The pattern of a simple element at an element of its name. *)
Lemma execAt_simple (name t attrs x t' post : jsstring) :
  foldCase t = foldCase name -> foldCase t' = foldCase name ->
  lacks 62 attrs = true -> oneLine x = true -> lacks 60 x = true ->
  execAt true (simple name) (element t attrs x t' ++ post) = Some (post, [(1, x)]).
Proof.
  intros Ht Ht' Ha Hx Hlt. unfold execAt, element, simple.
  rewrite <- !app_assoc.
  set (closing := chars (lit "</" ++ name ++ lit ">")).
  change (compile true (RegExp.seq (chars ?n :: ?rs)) ?s ?c ?k)
    with (compile true (chars n) s c (fun s' c' => compile true (RegExp.seq rs) s' c' k)).
  rewrite (app_assoc (lit "<") t).
  rewrite (compile_chars (lit "<" ++ name));
    [|discriminate|now rewrite !foldCase_app, Ht].
  change (compile true (RegExp.seq (Star true (notChar 62) :: ?rs)) ?s ?c ?k)
    with (repeatMatcher (compile true (notChar 62)) true [] (S (length s)) s c
            (fun s' c' => compile true (RegExp.seq rs) s' c' k)).
  change (lit ">" ++ ?s) with (62%N :: s).
  apply greedy_until; [reflexivity|exact Ha| |lia].
  change (compile true (RegExp.seq [str ">"; Group 1 (Star false Dot); closing]) (62%N :: ?s) ?c ?k)
    with (repeatMatcher (compile true Dot) false [] (S (length s)) s c
            (fun s' caps' =>
               compile true closing s' ((1, firstn (length s - length s') s) :: caps') k)).
  apply lazy_dot_takes; [exact Hx| | |lia].
  - intros x1 c x2 E. cbv beta. eapply closing_not_inside; [reflexivity|exact Hlt|exact E].
  - rewrite (firstn_sub_app x). unfold closing.
    replace (lit "</" ++ t' ++ lit ">" ++ post) with ((lit "</" ++ t' ++ lit ">") ++ post)
      by (now rewrite <- !app_assoc).
    rewrite compile_chars; [reflexivity|discriminate|].
    now rewrite !foldCase_app, Ht'.
Qed.

End ElementFacts.

Lemma lacks_app (c : N) (s t : jsstring) :
  lacks c (s ++ t) = lacks c s && lacks c t.
Proof. unfold lacks. apply forallb_app. Qed.

Lemma lacks_lt_hasTag (s : jsstring) : lacks 60 s = true -> hasTag s = false.
Proof.
  induction s as [|c s IH]; [reflexivity|]. intros H. apply lacks_cons in H as [Hc H].
  cbn [hasTag]. rewrite (IH H). apply N.eqb_neq in Hc. now rewrite Hc.
Qed.

Lemma trim_lacks (c : N) (s : jsstring) : lacks c s = true -> lacks c (trim s) = true.
Proof.
  intros H. unfold trim.
  destruct (trimStart_suffix s) as [p Hp].
  destruct (trimEnd_prefix (trimStart s)) as [q Hq].
  rewrite Hp, Hq, !lacks_app in H.
  apply andb_true_iff in H as [_ H]. now apply andb_true_iff in H as [H _].
Qed.

(** ** Texts a pattern has no match in *)

Lemma unopened_lacks (cs : list N) (s : jsstring) : lacks 60 s = true -> unopened cs s = true.
Proof.
  induction s as [|c s IH]; [reflexivity|]. intros H. apply lacks_cons in H as [Hc H].
  cbn [unopened]. apply N.eqb_neq in Hc. now rewrite Hc, IH.
Qed.

Lemma unopened_pass (cs : list N) (a b : jsstring) :
  lacks 60 a = true -> unopened cs (a ++ b) = unopened cs b.
Proof.
  induction a as [|c a IH]; [reflexivity|]. intros H. apply lacks_cons in H as [Hc H].
  cbn [app unopened]. apply N.eqb_neq in Hc. now rewrite Hc, IH.
Qed.

Lemma unopened_lt (cs : list N) (d : N) (s : jsstring) :
  unopened cs (60%N :: d :: s) = notOpenedBy cs d && unopened cs (d :: s).
Proof. reflexivity. Qed.

Lemma unopened_opening (cs : list N) (t attrs rest : jsstring) :
  t <> [] -> notOpenedBy cs (hd 0%N t) = true ->
  lacks 60 t = true -> lacks 60 attrs = true ->
  unopened cs (lit "<" ++ t ++ attrs ++ lit ">" ++ rest) = unopened cs rest.
Proof.
  intros Hne Hd Ht Ha. destruct t as [|c u]; [congruence|]. cbn [hd] in Hd.
  change (lit "<" ++ (c :: u) ++ attrs ++ lit ">" ++ rest)
    with (60%N :: c :: u ++ attrs ++ lit ">" ++ rest).
  rewrite unopened_lt, Hd. cbn [andb].
  replace (c :: u ++ attrs ++ lit ">" ++ rest) with (((c :: u) ++ attrs ++ lit ">") ++ rest)
    by (now rewrite <- !app_assoc).
  apply unopened_pass. now rewrite !lacks_app, Ht, Ha.
Qed.

Lemma unopened_closing (cs : list N) (t' rest : jsstring) :
  notOpenedBy cs 47 = true -> lacks 60 t' = true ->
  unopened cs (lit "</" ++ t' ++ lit ">" ++ rest) = unopened cs rest.
Proof.
  intros Hs Ht'.
  change (lit "</" ++ t' ++ lit ">" ++ rest) with (60%N :: 47%N :: t' ++ lit ">" ++ rest).
  rewrite unopened_lt, Hs. cbn [andb].
  replace (47%N :: t' ++ lit ">" ++ rest) with (((47%N :: t') ++ lit ">") ++ rest)
    by (now rewrite <- !app_assoc).
  apply unopened_pass. rewrite lacks_app. cbn [app]. unfold lacks in *. cbn [forallb].
  now rewrite Ht'.
Qed.

(** An element of another name, in a text without another [<]. *)
Lemma unopened_element (cs : list N) (pre t attrs x t' post : jsstring) :
  t <> [] -> notOpenedBy cs (hd 0%N t) = true -> notOpenedBy cs 47 = true ->
  lacks 60 pre = true -> lacks 60 t = true -> lacks 60 attrs = true -> lacks 60 x = true ->
  lacks 60 t' = true -> lacks 60 post = true ->
  unopened cs (pre ++ element t attrs x t' ++ post) = true.
Proof.
  intros Hne Hd Hs Hpre Ht Ha Hx Ht' Hpost. unfold element.
  rewrite unopened_pass by exact Hpre. rewrite <- !app_assoc.
  rewrite unopened_opening by assumption.
  rewrite unopened_pass by exact Hx.
  rewrite unopened_closing by assumption.
  now apply unopened_lacks.
Qed.

Lemma notOpenedBy_name (cs : list N) (t A : jsstring) :
  foldCase t = foldCase A -> A <> [] ->
  notOpenedBy cs (hd 0%N A) = true -> notOpenedBy cs (hd 0%N t) = true.
Proof.
  intros E HA H. destruct (foldCase_hd t A E HA) as [_ Hhd].
  unfold notOpenedBy in *. now rewrite Hhd.
Qed.

(** The closing tag is where the first [<] after the content stands. *)
Lemma no_lt_no_closing (x rest n : jsstring) :
  lacks 60 x = true ->
  forall x1 c x2,
    x = x1 ++ c :: x2 -> RegExp.startsWithCanon true (c :: x2 ++ rest) (60%N :: n) = false.
Proof.
  intros Hlt x1 c x2 E. rewrite E, lacks_app in Hlt.
  apply andb_true_iff in Hlt as [_ Hlt]. apply lacks_cons in Hlt as [Hc _].
  cbn [RegExp.startsWithCanon]. apply not_lt_canon, N.eqb_neq in Hc. now rewrite Hc.
Qed.

(** The steps after the links leave a text without [<] as it is. *)
Lemma tagless_rest (s : jsstring) :
  lacks 60 s = true ->
  Markdown.stripTags (Markdown.paragraphs (Markdown.lists s)) = s.
Proof.
  intros H. apply lacks_lt_hasTag in H.
  unfold Markdown.lists. rewrite no_tag_no_match by (reflexivity || assumption).
  unfold Markdown.paragraphs. rewrite no_tag_no_match by (reflexivity || assumption).
  unfold Markdown.stripTags. now rewrite no_tag_no_match by (reflexivity || assumption).
Qed.

Section HeadingFacts.
Import RegExp.

Lemma heading_pattern :
  Markdown.heading
  = Cat (Cat (Chr 60) (Chr 104))
      (Cat (Cls false [(49, 54)%N])
         (Cat (Star true (notChar 62))
            (Cat (Chr 62)
               (Cat (Group 1 (Star false Dot))
                  (Cat (Cat (Chr 60) (Cat (Chr 47) (Chr 104)))
                     (Cat (Cls false [(49, 54)%N]) (Chr 62))))))).
Proof. reflexivity. Qed.

Lemma compile_level (n : N) (r : Re) (s : jsstring) caps k :
  isLevel n = true ->
  compile true (Cat (Cls false [(49, 54)%N]) r) (n :: s) caps k = compile true r s caps k.
Proof.
  intros Hn. cbn [compile]. unfold inClass, inRanges. cbn [existsb fst snd].
  unfold isLevel in Hn. now rewrite Hn.
Qed.

Lemma compile_h (h : N) (r : Re) (s : jsstring) caps k :
  canonicalize true h = canonicalize true 104 ->
  compile true (Cat (Chr 104) r) (h :: s) caps k = compile true r s caps k.
Proof. intros Hh. cbn [compile]. now rewrite Hh, N.eqb_refl. Qed.

Lemma isHeadingName_parts (t : jsstring) :
  isHeadingName t = true ->
  exists h n, t = [h; n] /\ canonicalize true h = canonicalize true 104 /\ isLevel n = true.
Proof.
  destruct t as [|h [|n [|? ?]]]; try discriminate. cbn [isHeadingName].
  intros H. apply andb_true_iff in H as [Hh Hn]. apply N.eqb_eq in Hh.
  now exists h, n.
Qed.

Lemma execAt_heading (open attrs x close post : jsstring) :
  isHeadingName open = true -> isHeadingName close = true ->
  lacks 62 attrs = true -> oneLine x = true -> lacks 60 x = true ->
  execAt true Markdown.heading (element open attrs x close ++ post) = Some (post, [(1, x)]).
Proof.
  intros Ho Hc Ha Hx Hlt.
  apply isHeadingName_parts in Ho as (h & n & -> & Hh & Hn).
  apply isHeadingName_parts in Hc as (h' & m & -> & Hh' & Hm).
  unfold execAt, element. rewrite heading_pattern.
  change (lit "<") with [60%N]. change (lit ">") with [62%N]. change (lit "</") with [60%N; 47%N].
  rewrite <- !app_assoc. cbn [app].
  change (compile true (Cat (Cat (Chr 60) (Chr 104)) ?r) (60%N :: ?s) ?c ?k)
    with (compile true (Cat (Chr 104) r) s c k).
  rewrite compile_h by exact Hh.
  rewrite compile_level by exact Hn.
  change (compile true (Cat (Star true (notChar 62)) ?r) ?s ?c ?k)
    with (repeatMatcher (compile true (notChar 62)) true [] (S (length s)) s c
            (fun s' c' => compile true r s' c' k)).
  apply greedy_until; [reflexivity|exact Ha| |lia].
  change (compile true (Cat (Chr 62) ?r) (62%N :: ?s) ?c ?k)
    with (compile true r s c k).
  change (compile true (Cat (Group 1 (Star false Dot)) ?r) ?s ?c ?k)
    with (repeatMatcher (compile true Dot) false [] (S (length s)) s c
            (fun s' caps' => compile true r s' ((1, firstn (length s - length s') s) :: caps') k)).
  apply (lazy_dot_takes true x (60%N :: 47%N :: h' :: m :: 62%N :: post));
    [exact Hx| | |lia].
  - intros x1 c x2 E. cbv beta. eapply closing_not_inside; [reflexivity|exact Hlt|exact E].
  - rewrite (firstn_sub_app x).
    change (compile true (Cat (Cat (Chr 60) (Cat (Chr 47) (Chr 104))) ?r)
              (60%N :: 47%N :: ?s) ?c ?k)
      with (compile true (Cat (Chr 104) r) s c k).
    rewrite compile_h by exact Hh'.
    rewrite compile_level by exact Hm. reflexivity.
Qed.

End HeadingFacts.

(** A heading element of any level, with any attributes, whose content is
    on one line, in a text without another [<]: the element becomes a line
    of its own that starts with one number sign, whatever the level, and
    holds the trimmed content; the closing tag may have another level.  The
    text is then only respaced and trimmed. *)
Theorem heading_is_converted :
  forall pre open attrs x close post : jsstring,
  isHeadingName open = true -> isHeadingName close = true ->
  lacks 62 attrs = true -> oneLine x = true ->
  lacks 60 pre = true -> lacks 60 x = true -> lacks 60 post = true ->
  htmlToMarkdown (pre ++ element open attrs x close ++ post)
  = trim (Markdown.fixSpacing (pre ++ nl ++ lit "# " ++ trim x ++ nl ++ post)).
Proof.
  intros pre open attrs x close post Ho Hc Ha Hx Hpre Hlt Hpost. unfold htmlToMarkdown.
  assert (Markdown.headers (pre ++ element open attrs x close ++ post)
          = pre ++ nl ++ lit "# " ++ trim x ++ nl ++ post) as ->.
  { unfold Markdown.headers.
    rewrite (replace_one _ _ pre (element open attrs x close) post [(1, x)]);
      [|reflexivity|discriminate|now apply execAt_heading|assumption..].
    cbn [RegExp.captured RegExp.capture Nat.eqb]. now rewrite <- !app_assoc. }
  assert (lacks 60 (pre ++ nl ++ lit "# " ++ trim x ++ nl ++ post) = true) as Hall.
  { rewrite !lacks_app, Hpre, Hpost, (trim_lacks 60 x Hlt). reflexivity. }
  pose proof (lacks_lt_hasTag _ Hall) as Hno.
  unfold Markdown.bolds. rewrite no_tag_no_match by (reflexivity || assumption).
  unfold Markdown.italics. rewrite no_tag_no_match by (reflexivity || assumption).
  unfold Markdown.links. rewrite no_tag_no_match by (reflexivity || assumption).
  now rewrite tagless_rest.
Qed.

Lemma heading_is_converted_witness :
  htmlToMarkdown (lit "News<H3 class='t' id='x'> Rates rise </h2>today")
  = lit "News" ++ nl ++ lit "# Rates rise" ++ nl ++ lit "today".
Proof.
  exact (heading_is_converted (lit "News") (lit "H3") (lit " class='t' id='x'")
           (lit " Rates rise ") (lit "h2") (lit "today")
           eq_refl eq_refl eq_refl eq_refl eq_refl eq_refl eq_refl).
Defined.

(** A [<strong>] or [<b>] element, its name in either case and without
    attributes, whose content is on one line, in a text without another
    [<]: the element becomes its content between two pairs of asterisks, and
    the text is then only respaced and trimmed. *)
Theorem bold_is_converted :
  forall pre t x t' post : jsstring,
  foldCase t = foldCase (lit "strong") \/ foldCase t = foldCase (lit "b") ->
  foldCase t' = foldCase t ->
  oneLine x = true ->
  lacks 60 pre = true -> lacks 60 x = true -> lacks 60 post = true ->
  htmlToMarkdown (pre ++ element t [] x t' ++ post)
  = trim (Markdown.fixSpacing (pre ++ lit "**" ++ x ++ lit "**" ++ post)).
Proof.
  intros pre t x t' post Ht Ht' Hx Hpre Hlt Hpost. unfold htmlToMarkdown.
  assert (lacks 60 t = true) as Htlt.
  { destruct Ht as [E | E]; [apply (foldCase_lacks_lt t (lit "strong"))
                            |apply (foldCase_lacks_lt t (lit "b"))]; (exact E || reflexivity). }
  assert (lacks 60 t' = true) as Htlt' by (apply (foldCase_lacks_lt t' t Ht' Htlt)).
  assert (t <> []) as Hne by (destruct Ht as [E | E]; apply foldCase_hd in E; tauto || discriminate).
  assert (forall cs,
             notOpenedBy cs 115 = true -> notOpenedBy cs 98 = true ->
             notOpenedBy cs (hd 0%N t) = true) as Hname.
  { intros cs Hs Hb. destruct Ht as [E | E];
      [apply (notOpenedBy_name cs t (lit "strong"))|apply (notOpenedBy_name cs t (lit "b"))];
      (exact E || discriminate || assumption). }
  unfold Markdown.headers.
  rewrite (replace_unopened _ _ [104%N]);
    [|reflexivity|apply unopened_element; try assumption; (reflexivity || now apply Hname)].
  assert (Markdown.bolds (pre ++ element t [] x t' ++ post)
          = pre ++ lit "**" ++ x ++ lit "**" ++ post) as ->.
  { unfold Markdown.bolds.
    rewrite (replace_one _ _ pre (element t [] x t') post [(2, x); (1, t)]);
      [|reflexivity|discriminate| |assumption..].
    - change (Markdown.template 2 (lit "**$2**") (element t [] x t') [(2, x); (1, t)])
        with (lit "**" ++ x ++ lit "**").
      now rewrite <- !app_assoc.
    - rewrite bold_container. apply execAt_container; try assumption; try discriminate.
      + reflexivity.
      + now apply no_lt_no_closing. }
  assert (lacks 60 (pre ++ lit "**" ++ x ++ lit "**" ++ post) = true) as Hall.
  { rewrite !lacks_app, Hpre, Hlt, Hpost. reflexivity. }
  pose proof (lacks_lt_hasTag _ Hall) as Hno.
  unfold Markdown.italics. rewrite no_tag_no_match by (reflexivity || assumption).
  unfold Markdown.links. rewrite no_tag_no_match by (reflexivity || assumption).
  now rewrite tagless_rest.
Qed.

Lemma bold_is_converted_witness :
  htmlToMarkdown (lit "a <B>c > d</b> e") = lit "a **c > d** e".
Proof.
  exact (bold_is_converted (lit "a ") (lit "B") (lit "c > d") (lit "b") (lit " e")
           (or_intror eq_refl) eq_refl eq_refl eq_refl eq_refl eq_refl).
Defined.

(** An [<em>] or [<i>] element, its name in either case and without
    attributes, whose content is on one line, in a text without another
    [<]: the patterns of headings and of bold text have no match, the
    element becomes its content between two asterisks, and the text is then
    only respaced and trimmed. *)
Theorem italic_is_converted :
  forall pre t x t' post : jsstring,
  foldCase t = foldCase (lit "em") \/ foldCase t = foldCase (lit "i") ->
  foldCase t' = foldCase t ->
  oneLine x = true ->
  lacks 60 pre = true -> lacks 60 x = true -> lacks 60 post = true ->
  htmlToMarkdown (pre ++ element t [] x t' ++ post)
  = trim (Markdown.fixSpacing (pre ++ lit "*" ++ x ++ lit "*" ++ post)).
Proof.
  intros pre t x t' post Ht Ht' Hx Hpre Hlt Hpost. unfold htmlToMarkdown.
  assert (lacks 60 t = true) as Htlt.
  { destruct Ht as [E | E]; [apply (foldCase_lacks_lt t (lit "em"))
                            |apply (foldCase_lacks_lt t (lit "i"))]; (exact E || reflexivity). }
  assert (lacks 60 t' = true) as Htlt' by (apply (foldCase_lacks_lt t' t Ht' Htlt)).
  assert (t <> []) as Hne by (destruct Ht as [E | E]; apply foldCase_hd in E; tauto || discriminate).
  assert (forall cs,
             notOpenedBy cs 101 = true -> notOpenedBy cs 105 = true ->
             notOpenedBy cs (hd 0%N t) = true) as Hname.
  { intros cs Hs Hb. destruct Ht as [E | E];
      [apply (notOpenedBy_name cs t (lit "em"))|apply (notOpenedBy_name cs t (lit "i"))];
      (exact E || discriminate || assumption). }
  unfold Markdown.headers.
  rewrite (replace_unopened _ _ [104%N]);
    [|reflexivity|apply unopened_element; try assumption; (reflexivity || now apply Hname)].
  unfold Markdown.bolds.
  rewrite (replace_unopened _ _ [115%N; 98%N]);
    [|reflexivity|apply unopened_element; try assumption; (reflexivity || now apply Hname)].
  assert (Markdown.italics (pre ++ element t [] x t' ++ post)
          = pre ++ lit "*" ++ x ++ lit "*" ++ post) as ->.
  { unfold Markdown.italics.
    rewrite (replace_one _ _ pre (element t [] x t') post [(2, x); (1, t)]);
      [|reflexivity|discriminate| |assumption..].
    - change (Markdown.template 2 (lit "*$2*") (element t [] x t') [(2, x); (1, t)])
        with (lit "*" ++ x ++ lit "*").
      now rewrite <- !app_assoc.
    - rewrite italic_container. apply execAt_container; try assumption; try discriminate.
      + reflexivity.
      + now apply no_lt_no_closing. }
  assert (lacks 60 (pre ++ lit "*" ++ x ++ lit "*" ++ post) = true) as Hall.
  { rewrite !lacks_app, Hpre, Hlt, Hpost. reflexivity. }
  pose proof (lacks_lt_hasTag _ Hall) as Hno.
  unfold Markdown.links. rewrite no_tag_no_match by (reflexivity || assumption).
  now rewrite tagless_rest.
Qed.

Lemma italic_is_converted_witness :
  htmlToMarkdown (lit "  so <em>very</EM> much") = lit "so *very* much".
Proof.
  exact (italic_is_converted (lit "  so ") (lit "em") (lit "very") (lit "EM") (lit " much")
           (or_introl eq_refl) eq_refl eq_refl eq_refl eq_refl eq_refl).
Defined.

(** A [<p>] element, its name in either case and with any attributes, whose
    content is on one line, in a text without another [<]: none of the
    patterns before has a match, the element becomes its content on a line
    of its own, and the text is then only respaced and trimmed. *)
Theorem paragraph_is_converted :
  forall pre t attrs x t' post : jsstring,
  foldCase t = foldCase (lit "p") -> foldCase t' = foldCase (lit "p") ->
  lacks 62 attrs = true -> lacks 60 attrs = true ->
  oneLine x = true ->
  lacks 60 pre = true -> lacks 60 x = true -> lacks 60 post = true ->
  htmlToMarkdown (pre ++ element t attrs x t' ++ post)
  = trim (Markdown.fixSpacing (pre ++ nl ++ x ++ nl ++ post)).
Proof.
  intros pre t attrs x t' post Ht Ht' Ha Halt Hx Hpre Hlt Hpost. unfold htmlToMarkdown.
  assert (lacks 60 t = true) as Htlt by (now apply (foldCase_lacks_lt t (lit "p"))).
  assert (lacks 60 t' = true) as Htlt' by (now apply (foldCase_lacks_lt t' (lit "p"))).
  assert (t <> []) as Hne by (apply foldCase_hd in Ht; tauto || discriminate).
  assert (forall cs, notOpenedBy cs 112 = true -> notOpenedBy cs (hd 0%N t) = true) as Hname.
  { intros cs Hp. apply (notOpenedBy_name cs t (lit "p")); (exact Ht || discriminate || assumption). }
  unfold Markdown.headers.
  rewrite (replace_unopened _ _ [104%N]);
    [|reflexivity|apply unopened_element; try assumption; (reflexivity || now apply Hname)].
  unfold Markdown.bolds.
  rewrite (replace_unopened _ _ [115%N; 98%N]);
    [|reflexivity|apply unopened_element; try assumption; (reflexivity || now apply Hname)].
  unfold Markdown.italics.
  rewrite (replace_unopened _ _ [101%N; 105%N]);
    [|reflexivity|apply unopened_element; try assumption; (reflexivity || now apply Hname)].
  unfold Markdown.links.
  rewrite (replace_unopened _ _ [97%N]);
    [|reflexivity|apply unopened_element; try assumption; (reflexivity || now apply Hname)].
  unfold Markdown.lists.
  rewrite (replace_unopened _ _ [117%N; 111%N]);
    [|reflexivity|apply unopened_element; try assumption; (reflexivity || now apply Hname)].
  assert (Markdown.paragraphs (pre ++ element t attrs x t' ++ post)
          = pre ++ nl ++ x ++ nl ++ post) as ->.
  { unfold Markdown.paragraphs.
    rewrite (replace_one _ _ pre (element t attrs x t') post [(1, x)]);
      [|reflexivity|discriminate| |assumption..].
    - change (Markdown.template 1 (nl ++ lit "$1" ++ nl) (element t attrs x t') [(1, x)])
        with (nl ++ x ++ nl).
      now rewrite <- !app_assoc.
    - rewrite paragraph_simple. now apply execAt_simple. }
  assert (lacks 60 (pre ++ nl ++ x ++ nl ++ post) = true) as Hall.
  { rewrite !lacks_app, Hpre, Hlt, Hpost. reflexivity. }
  pose proof (lacks_lt_hasTag _ Hall) as Hno.
  unfold Markdown.stripTags. now rewrite no_tag_no_match by (reflexivity || assumption).
Qed.

Lemma paragraph_is_converted_witness :
  htmlToMarkdown (lit "One.<P class='x'>Two > one.</p>Three.")
  = lit "One." ++ nl ++ lit "Two > one." ++ nl ++ lit "Three.".
Proof.
  exact (paragraph_is_converted (lit "One.") (lit "P") (lit " class='x'") (lit "Two > one.")
           (lit "p") (lit "Three.")
           eq_refl eq_refl eq_refl eq_refl eq_refl eq_refl eq_refl eq_refl).
Defined.

(** ** Lists *)

Lemma oneLine_app (a b : jsstring) : oneLine (a ++ b) = oneLine a && oneLine b.
Proof. unfold oneLine. apply forallb_app. Qed.

Lemma occursBefore_split (n x rest : jsstring) :
  occursBefore n x rest = false ->
  forall x1 c x2, x = x1 ++ c :: x2 -> RegExp.startsWithCanon true (c :: x2 ++ rest) n = false.
Proof.
  induction x as [|d x IH]; intros H x1 c x2 E; [now destruct x1|].
  cbn [occursBefore] in H. apply orb_false_iff in H as [H0 H].
  destruct x1 as [|e x1]; injection E as -> ->; [exact H0|].
  now apply (IH H x1).
Qed.

Lemma occursBefore_app (n a b rest : jsstring) :
  occursBefore n (a ++ b) rest = occursBefore n a (b ++ rest) || occursBefore n b rest.
Proof.
  induction a as [|c a IH]; [reflexivity|].
  cbn [app occursBefore]. now rewrite IH, <- app_assoc, orb_assoc.
Qed.

Lemma occursBefore_lacks (n a rest : jsstring) :
  lacks 60 a = true -> occursBefore (60%N :: n) a rest = false.
Proof.
  induction a as [|c a IH]; [reflexivity|]. intros H. apply lacks_cons in H as [Hc H].
  cbn [app occursBefore RegExp.startsWithCanon].
  apply not_lt_canon, N.eqb_neq in Hc. now rewrite Hc, IH.
Qed.

Lemma listItems_cons (x : jsstring) (items : list jsstring) :
  listItems (x :: items) = lit "<li>" ++ x ++ lit "</li>" ++ listItems items.
Proof. unfold listItems, element. cbn [map concat app]. now rewrite <- !app_assoc. Qed.

Lemma occursBefore_cons (n : jsstring) (c : N) (x rest : jsstring) :
  occursBefore n (c :: x) rest
  = RegExp.startsWithCanon true (c :: x ++ rest) n || occursBefore n x rest.
Proof. reflexivity. Qed.

(** No closing tag of a list stands in its items. *)
Lemma items_hold_no_closing (c : N) (items : list jsstring) (rest : jsstring) :
  (RegExp.canonicalize true 108 =? RegExp.canonicalize true c)%N = false ->
  Forall (fun x => oneLine x = true /\ lacks 60 x = true) items ->
  occursBefore [60%N; 47%N; c] (listItems items) rest = false.
Proof.
  intros Hc. induction 1 as [|x items [_ Hx] _ IH]; [reflexivity|].
  rewrite listItems_cons.
  change (lit "<li>") with (60%N :: [108; 105; 62]%N).
  change (lit "</li>") with (60%N :: [47; 108; 105; 62]%N).
  rewrite (occursBefore_app _ (60%N :: [108; 105; 62]%N)), (occursBefore_app _ x),
    (occursBefore_app _ (60%N :: [47; 108; 105; 62]%N)), IH.
  rewrite (occursBefore_lacks _ x) by exact Hx.
  rewrite !occursBefore_cons, !occursBefore_lacks by reflexivity.
  rewrite !orb_false_r. apply orb_false_iff. split.
  - reflexivity.
  - cbn [app RegExp.startsWithCanon]. rewrite Hc. reflexivity.
Qed.

Lemma oneLine_items (items : list jsstring) :
  Forall (fun x => oneLine x = true /\ lacks 60 x = true) items ->
  oneLine (listItems items) = true.
Proof.
  induction 1 as [|x items [Hx _] _ IH]; [reflexivity|].
  rewrite listItems_cons, !oneLine_app, Hx, IH. reflexivity.
Qed.

Lemma unopened_items (cs : list N) (items : list jsstring) (rest : jsstring) :
  notOpenedBy cs 108 = true -> notOpenedBy cs 47 = true ->
  Forall (fun x => oneLine x = true /\ lacks 60 x = true) items ->
  unopened cs (listItems items ++ rest) = unopened cs rest.
Proof.
  intros Hl Hs. induction 1 as [|x items [_ Hx] _ IH]; [reflexivity|].
  unfold listItems. cbn [map concat]. fold (listItems items).
  unfold element. rewrite <- !app_assoc.
  rewrite (unopened_opening cs (lit "li") []) by (reflexivity || discriminate || exact Hl).
  rewrite unopened_pass by exact Hx.
  rewrite unopened_closing by (reflexivity || exact Hs).
  exact IH.
Qed.

(** A list, in a text without another [<], for a pattern that matches
    neither at the name of the list nor at [<li] or [</]. *)
Lemma unopened_list (cs : list N) (pre t attrs : jsstring) (items : list jsstring)
  (t' post : jsstring) :
  t <> [] -> notOpenedBy cs (hd 0%N t) = true ->
  notOpenedBy cs 108 = true -> notOpenedBy cs 47 = true ->
  lacks 60 pre = true -> lacks 60 t = true -> lacks 60 attrs = true ->
  Forall (fun x => oneLine x = true /\ lacks 60 x = true) items ->
  lacks 60 t' = true -> lacks 60 post = true ->
  unopened cs (pre ++ element t attrs (listItems items) t' ++ post) = true.
Proof.
  intros Hne Hd Hl Hs Hpre Ht Ha Hitems Ht' Hpost. unfold element.
  rewrite unopened_pass by exact Hpre. rewrite <- !app_assoc.
  rewrite unopened_opening by assumption.
  rewrite unopened_items by assumption.
  rewrite unopened_closing by assumption.
  now apply unopened_lacks.
Qed.

(** Each item becomes a line. *)
Lemma replace_items f (bullet : jsstring) (items : list jsstring) :
  (forall m caps, f m caps = bullet ++ RegExp.captured 1 caps ++ nl) ->
  Forall (fun x => oneLine x = true /\ lacks 60 x = true) items ->
  RegExp.replace true Markdown.item f (listItems items) = bulleted bullet items.
Proof.
  intros Hf. unfold RegExp.replace. induction 1 as [|x items [Hx Hlt] _ IH]; [reflexivity|].
  unfold listItems, bulleted. cbn [map concat].
  fold (listItems items). fold (bulleted bullet items).
  rewrite (replaceFrom_hit true _ f _ (listItems items) [(1, x)]).
  - rewrite Hf, IH. cbn [RegExp.captured RegExp.capture Nat.eqb]. now rewrite <- !app_assoc.
  - discriminate.
  - rewrite item_simple. now apply execAt_simple.
Qed.

Lemma lacks_bulleted (bullet : jsstring) (items : list jsstring) :
  lacks 60 bullet = true ->
  Forall (fun x => oneLine x = true /\ lacks 60 x = true) items ->
  lacks 60 (bulleted bullet items) = true.
Proof.
  intros Hb. induction 1 as [|x items [_ Hx] _ IH]; [reflexivity|].
  unfold bulleted. cbn [map concat]. fold (bulleted bullet items).
  now rewrite !lacks_app, Hb, Hx, IH.
Qed.

Lemma plainItems_Forall (items : list jsstring) :
  plainItems items = true ->
  Forall (fun x => oneLine x = true /\ lacks 60 x = true) items.
Proof.
  unfold plainItems. rewrite forallb_forall, Forall_forall.
  intros H x Hx. now apply andb_true_iff, H.
Qed.

(** A [<ul>] or [<ol>] element, its name in either case and with any
    attributes, whose content is a sequence of [<li>] elements with
    one-line contents, in a text without another [<]: none of the patterns
    before has a match and each item becomes a line.  The line starts with
    [- ] when the name is [ul] in lower case, and with [1. ] otherwise: so it
    does for every item of an [<ol>], and for those of an [<UL>]. *)
Theorem list_is_converted :
  forall (pre t attrs : jsstring) (items : list jsstring) (t' post : jsstring),
  foldCase t = foldCase (lit "ul") \/ foldCase t = foldCase (lit "ol") ->
  foldCase t' = foldCase t ->
  lacks 62 attrs = true -> lacks 60 attrs = true ->
  plainItems items = true ->
  lacks 60 pre = true -> lacks 60 post = true ->
  htmlToMarkdown (pre ++ element t attrs (listItems items) t' ++ post)
  = trim (Markdown.fixSpacing
            (pre ++ bulleted (if str_eqb t (lit "ul") then lit "- " else lit "1. ") items
                 ++ post)).
Proof.
  intros pre t attrs items t' post Ht Ht' Ha Halt Hitems Hpre Hpost. unfold htmlToMarkdown.
  apply plainItems_Forall in Hitems.
  assert (lacks 60 t = true) as Htlt.
  { destruct Ht as [E | E]; [apply (foldCase_lacks_lt t (lit "ul"))
                            |apply (foldCase_lacks_lt t (lit "ol"))]; (exact E || reflexivity). }
  assert (lacks 60 t' = true) as Htlt' by (apply (foldCase_lacks_lt t' t Ht' Htlt)).
  assert (t <> []) as Hne by (destruct Ht as [E | E]; apply foldCase_hd in E; tauto || discriminate).
  assert (forall cs,
             notOpenedBy cs 117 = true -> notOpenedBy cs 111 = true ->
             notOpenedBy cs (hd 0%N t) = true) as Hname.
  { intros cs Hs Hb. destruct Ht as [E | E];
      [apply (notOpenedBy_name cs t (lit "ul"))|apply (notOpenedBy_name cs t (lit "ol"))];
      (exact E || discriminate || assumption). }
  unfold Markdown.headers.
  rewrite (replace_unopened _ _ [104%N]);
    [|reflexivity|apply unopened_list; try assumption; (reflexivity || now apply Hname)].
  unfold Markdown.bolds.
  rewrite (replace_unopened _ _ [115%N; 98%N]);
    [|reflexivity|apply unopened_list; try assumption; (reflexivity || now apply Hname)].
  unfold Markdown.italics.
  rewrite (replace_unopened _ _ [101%N; 105%N]);
    [|reflexivity|apply unopened_list; try assumption; (reflexivity || now apply Hname)].
  unfold Markdown.links.
  rewrite (replace_unopened _ _ [97%N]);
    [|reflexivity|apply unopened_list; try assumption; (reflexivity || now apply Hname)].
  set (bullet := if str_eqb t (lit "ul") then lit "- " else lit "1. ").
  assert (Markdown.lists (pre ++ element t attrs (listItems items) t' ++ post)
          = pre ++ bulleted bullet items ++ post) as ->.
  { unfold Markdown.lists.
    rewrite (replace_one _ _ pre (element t attrs (listItems items) t') post
               [(2, listItems items); (1, t)]);
      [|reflexivity|discriminate| |assumption..].
    - cbn [RegExp.captured RegExp.capture Nat.eqb]. do 2 f_equal.
      apply replace_items; [|exact Hitems].
      intros m caps. subst bullet. now destruct (str_eqb t (lit "ul")).
    - rewrite listBlock_container. apply execAt_container; try assumption; try discriminate.
      + now apply oneLine_items.
      + apply occursBefore_split. apply items_hold_no_closing; [|exact Hitems].
        destruct Ht as [E | E]; apply foldCase_hd in E as [_ Hhd]; try discriminate;
          rewrite Hhd; reflexivity. }
  assert (lacks 60 (pre ++ bulleted bullet items ++ post) = true) as Hall.
  { rewrite !lacks_app, Hpre, Hpost, lacks_bulleted; [reflexivity| |exact Hitems].
    subst bullet. now destruct (str_eqb t (lit "ul")). }
  pose proof (lacks_lt_hasTag _ Hall) as Hno.
  unfold Markdown.paragraphs. rewrite no_tag_no_match by (reflexivity || assumption).
  unfold Markdown.stripTags. now rewrite no_tag_no_match by (reflexivity || assumption).
Qed.

Lemma list_is_converted_witness :
  htmlToMarkdown (lit "To do:<OL type='a'><li>wash</li><li>dry > iron</li></ol>Done.")
  = lit "To do:1. wash" ++ nl ++ lit "1. dry > iron" ++ nl ++ lit "Done.".
Proof.
  exact (list_is_converted (lit "To do:") (lit "OL") (lit " type='a'")
           [lit "wash"; lit "dry > iron"] (lit "ol") (lit "Done.")
           (or_intror eq_refl) eq_refl eq_refl eq_refl eq_refl eq_refl eq_refl).
Defined.

(** ** Links *)

Section LinkFacts.
Import RegExp.

Lemma occursBefore_first (h : N) (n a rest : jsstring) :
  forallb (fun c => negb (canonicalize true c =? canonicalize true h)%N) a = true ->
  occursBefore (h :: n) a rest = false.
Proof.
  induction a as [|c a IH]; [reflexivity|]. cbn [forallb]. intros H.
  apply andb_true_iff in H as [Hc H]. apply negb_true_iff in Hc.
  rewrite occursBefore_cons. cbn [startsWithCanon]. now rewrite Hc, IH.
Qed.

(** A literal without [>] does not reach over a [>]. *)
Lemma startsWithCanon_fits (n s rest : jsstring) :
  lacks 62 n = true ->
  startsWithCanon true (s ++ 62%N :: rest) n = startsWithCanon true s n.
Proof.
  revert s. induction n as [|y n IH]; intros s Hn; [now destruct s|].
  apply lacks_cons in Hn as [Hy Hn]. destruct s as [|c s].
  - cbn [app startsWithCanon].
    assert ((canonicalize true 62 =? canonicalize true y)%N = false) as ->; [|reflexivity].
    apply N.eqb_neq. intros E. apply Hy. apply (canonicalize_gt true). now rewrite <- E.
  - cbn [app startsWithCanon]. now rewrite IH.
Qed.

Lemma occursBefore_fits (n s rest : jsstring) :
  lacks 62 n = true -> occursBefore n s (62%N :: rest) = occurs n s.
Proof.
  intros Hn. unfold occurs. induction s as [|c s IH]; [reflexivity|].
  rewrite !occursBefore_cons, IH, app_nil_r.
  change (c :: s ++ 62%N :: rest) with ((c :: s) ++ 62%N :: rest).
  now rewrite (startsWithCanon_fits n (c :: s) rest Hn).
Qed.

(** A literal and a character after it match only where the text starts
    with both. *)
Lemma compile_literal_chr (n : jsstring) (q : N) (r : Re) :
  n <> [] ->
  forall s caps k,
    startsWithCanon true s (n ++ [q]) = false ->
    compile true (Cat (chars n) (Cat (Chr q) r)) s caps k = None.
Proof.
  induction n as [|a n IH]; [congruence|]. intros _ s caps k Hs.
  destruct s as [|c s]; [now destruct n|].
  cbn [app startsWithCanon] in Hs. destruct n as [|b n].
  - cbn [chars compile]. destruct (canonicalize true c =? canonicalize true a)%N;
      [|reflexivity].
    cbn [andb app] in Hs. destruct s as [|d s]; [reflexivity|].
    cbn [startsWithCanon] in Hs.
    destruct (canonicalize true d =? canonicalize true q)%N; [|reflexivity].
    now destruct s.
  - change (chars (a :: b :: n)) with (Cat (Chr a) (chars (b :: n))).
    change (compile true (Cat (Cat (Chr a) (chars (b :: n))) (Cat (Chr q) r)) (c :: s) caps k)
      with (if (canonicalize true c =? canonicalize true a)%N
            then compile true (Cat (chars (b :: n)) (Cat (Chr q) r)) s caps k else None).
    destruct (canonicalize true c =? canonicalize true a)%N; [|reflexivity].
    apply IH; [discriminate|exact Hs].
Qed.

Lemma link_pattern :
  Markdown.link
  = Cat (Cat (Chr 60) (Chr 97))
      (Cat (Star true (notChar 62))
         (Cat (chars (lit "href="))
            (Cat (Chr 34)
               (Cat (Group 1 (Star true (notChar 34)))
                  (Cat (Chr 34)
                     (Cat (Star true (notChar 62))
                        (Cat (Chr 62)
                           (Cat (Group 2 (Star false Dot)) (chars (lit "</a>")))))))))).
Proof. reflexivity. Qed.

(** The pattern of links at an [<a>] element: the first [[^>]*] gives back
    down to the last [href=] with a double quote after it. *)
Lemma execAt_link (a1 u a2 x post : jsstring) :
  lacks 62 a1 = true -> lacks 62 u = true -> lacks 62 a2 = true ->
  lacks 34 u = true ->
  occurs (lit "href=" ++ dq) (u ++ dq ++ a2) = false ->
  oneLine x = true -> lacks 60 x = true ->
  execAt true Markdown.link
    (element (lit "a") (a1 ++ lit "href=" ++ dq ++ u ++ dq ++ a2) x (lit "a") ++ post)
  = Some (post, [(2, x); (1, u)]).
Proof.
  intros Ha1 Hu Ha2 Hq Hocc Hx Hlt. unfold execAt, element. rewrite link_pattern.
  rewrite <- !app_assoc.
  change (lit "<" ++ lit "a" ++ ?s) with (60%N :: 97%N :: s).
  change (compile true (Cat (Cat (Chr 60) (Chr 97)) ?r) (60%N :: 97%N :: ?s) ?c ?k)
    with (compile true r s c k).
  change (compile true (Cat (Star true (notChar 62)) ?r) ?s ?c ?k)
    with (repeatMatcher (compile true (notChar 62)) true [] (S (length s)) s c
            (fun s' c' => compile true r s' c' k)).
  set (R := x ++ lit "</" ++ lit "a" ++ lit ">" ++ post).
  set (T := lit "href=" ++ dq ++ u ++ dq ++ a2).
  replace (a1 ++ lit "href=" ++ dq ++ u ++ dq ++ a2 ++ lit ">" ++ R)
    with (a1 ++ T ++ 62%N :: R) by (unfold T; now rewrite <- !app_assoc).
  assert (lacks 62 T = true) as HT.
  { unfold T. rewrite !lacks_app, Hu, Ha2. reflexivity. }
  apply greedy_back; [reflexivity|exact Ha1|exact HT| | | |lia].
  - (* the match at the attribute *)
    unfold T, dq. rewrite <- !app_assoc. cbn [app].
    change (compile true (Cat (chars (lit "href=")) ?r) (lit "href=" ++ ?s) ?c ?k)
      with (compile true (chars (lit "href=")) (lit "href=" ++ s) c
              (fun s' c' => compile true r s' c' k)).
    rewrite compile_chars by (discriminate || reflexivity).
    change (compile true (Cat (Chr 34) (Cat (Group 1 (Star true (notChar 34))) ?r))
              (34%N :: ?s) ?c ?k)
      with (repeatMatcher (compile true (notChar 34)) true [] (S (length s)) s c
              (fun s' caps' =>
                 compile true r s' ((1, firstn (length s - length s') s) :: caps') k)).
    apply greedy_until; [reflexivity|exact Hq| |lia].
    rewrite (firstn_sub_app u).
    change (compile true (Cat (Chr 34) (Cat (Star true (notChar 62)) ?r)) (34%N :: ?s) ?c ?k)
      with (repeatMatcher (compile true (notChar 62)) true [] (S (length s)) s c
              (fun s' c' => compile true r s' c' k)).
    change (lit ">" ++ R) with (62%N :: R).
    apply greedy_until; [reflexivity|exact Ha2| |lia].
    unfold R.
    change (compile true (Cat (Chr 62) (Cat (Group 2 (Star false Dot)) ?r)) (62%N :: ?s) ?c ?k)
      with (repeatMatcher (compile true Dot) false [] (S (length s)) s c
              (fun s' caps' =>
                 compile true r s' ((2, firstn (length s - length s') s) :: caps') k)).
    apply lazy_dot_takes; [exact Hx| | |lia].
    + intros x1 c x2 E. cbv beta. eapply closing_not_inside; [reflexivity|exact Hlt|exact E].
    + rewrite (firstn_sub_app x). reflexivity.
  - (* no match at a later position *)
    intros p d q E Hp.
    change (compile true
              (Cat (chars (lit "href=")) (Cat (Chr 34) ?r)) ?s ?c ?k = None)
      with (compile true (Cat (chars (lit "href=")) (Cat (Chr 34) r)) s c k = None).
    apply compile_literal_chr; [discriminate|].
    destruct p as [|h p]; [congruence|].
    unfold T in E. change (lit "href=" ++ dq ++ u ++ dq ++ a2)
      with (104%N :: lit "ref=" ++ dq ++ u ++ dq ++ a2) in E.
    injection E as _ E.
    apply (occursBefore_split _ (lit "ref=" ++ dq ++ u ++ dq ++ a2) _) with (x1 := p);
      [|exact E].
    rewrite (app_assoc (lit "ref=") dq), occursBefore_app.
    rewrite occursBefore_fits by reflexivity. change (lit "href=" ++ [34%N]) with (lit "href=" ++ dq).
    rewrite Hocc, orb_false_r.
    apply (occursBefore_first 104). reflexivity.
  - intros _. cbv beta. apply (compile_first true 104); [reflexivity|discriminate].
Qed.

End LinkFacts.

Lemma insideTag_parts (a : jsstring) :
  insideTag a = true -> lacks 60 a = true /\ lacks 62 a = true.
Proof. intros H. now apply andb_true_iff in H. Qed.

(** An [<a>] element whose tag holds [href=] and the address between double
    quotes, and no other [href=] with a double quote after that, whose
    content is on one line, in a text without another [<]: the element
    becomes the content between square brackets and the address between
    round brackets, whatever else the tag holds; the text is then only
    respaced and trimmed. *)
Theorem link_is_converted :
  forall pre a1 u a2 x post : jsstring,
  insideTag a1 = true -> insideTag u = true -> insideTag a2 = true ->
  lacks 34 u = true ->
  occurs (lit "href=" ++ dq) (u ++ dq ++ a2) = false ->
  oneLine x = true ->
  lacks 60 pre = true -> lacks 60 x = true -> lacks 60 post = true ->
  htmlToMarkdown
    (pre ++ element (lit "a") (a1 ++ lit "href=" ++ dq ++ u ++ dq ++ a2) x (lit "a") ++ post)
  = trim (Markdown.fixSpacing (pre ++ lit "[" ++ x ++ lit "](" ++ u ++ lit ")" ++ post)).
Proof.
  intros pre a1 u a2 x post Ha1 Hu Ha2 Hq Hocc Hx Hpre Hlt Hpost. unfold htmlToMarkdown.
  apply insideTag_parts in Ha1 as [Ha1 Ha1'], Hu as [Hu Hu'], Ha2 as [Ha2 Ha2'].
  set (attrs := a1 ++ lit "href=" ++ dq ++ u ++ dq ++ a2).
  assert (lacks 60 attrs = true) as Hattrs.
  { unfold attrs. rewrite !lacks_app, Ha1, Hu, Ha2. reflexivity. }
  unfold Markdown.headers.
  rewrite (replace_unopened _ _ [104%N]);
    [|reflexivity|apply unopened_element; try assumption; (reflexivity || discriminate)].
  unfold Markdown.bolds.
  rewrite (replace_unopened _ _ [115%N; 98%N]);
    [|reflexivity|apply unopened_element; try assumption; (reflexivity || discriminate)].
  unfold Markdown.italics.
  rewrite (replace_unopened _ _ [101%N; 105%N]);
    [|reflexivity|apply unopened_element; try assumption; (reflexivity || discriminate)].
  assert (Markdown.links (pre ++ element (lit "a") attrs x (lit "a") ++ post)
          = pre ++ lit "[" ++ x ++ lit "](" ++ u ++ lit ")" ++ post) as ->.
  { unfold Markdown.links.
    rewrite (replace_one _ _ pre (element (lit "a") attrs x (lit "a")) post [(2, x); (1, u)]);
      [|reflexivity|discriminate| |assumption..].
    - change (Markdown.template 2 (lit "[$2]($1)") (element (lit "a") attrs x (lit "a"))
                [(2, x); (1, u)])
        with (lit "[" ++ x ++ lit "](" ++ u ++ lit ")").
      now rewrite <- !app_assoc.
    - now apply execAt_link. }
  assert (lacks 60 (pre ++ lit "[" ++ x ++ lit "](" ++ u ++ lit ")" ++ post) = true) as Hall.
  { rewrite !lacks_app, Hpre, Hlt, Hu, Hpost. reflexivity. }
  now rewrite tagless_rest.
Qed.

Lemma link_is_converted_witness :
  htmlToMarkdown
    (lit "See <a class='k' href=" ++ dq ++ lit "https://example.com/a?b=1" ++ dq
       ++ lit " rel=" ++ dq ++ lit "nofollow" ++ dq ++ lit ">the page</a>.")
  = lit "See [the page](https://example.com/a?b=1).".
Proof.
  exact (link_is_converted (lit "See ") (lit " class='k' ") (lit "https://example.com/a?b=1")
           (lit " rel=" ++ dq ++ lit "nofollow" ++ dq) (lit "the page") (lit ".")
           eq_refl eq_refl eq_refl eq_refl eq_refl eq_refl eq_refl eq_refl eq_refl).
Defined.
